(** * MLArtifactFS: the manifest generator, verified against its description

    A shallow embedding of package [manifest] (generate.go, hash.go,
    manifest.go) together with the parts of the Go standard library the
    package calls: [strings], [unicode/utf8], [unicode], [path/filepath],
    [crypto/sha256], [encoding/hex], [encoding/json], and a snapshot model
    of the file system that [os.Stat] and [filepath.Walk] observe.

    Go strings are byte sequences; they are modelled as [list ascii], one
    [ascii] per byte.  Integers that index strings are [nat]; a Go index
    result of [-1] is [None]. *)

From Stdlib Require Import Ascii String.
From Stdlib Require Import ZArith NArith List Bool Lia Arith.
From Stdlib Require DecimalString DecimalZ DecimalPos DecimalFacts.
Import ListNotations.

Set Warnings "-register-all,-abstract-large-number".

Local Open Scope list_scope.

(** ** Go strings *)

Module GoString.

Definition byte := ascii.
Definition gostring := list byte.

(** A string literal of the source. *)
Definition lit (s : string) : gostring := list_ascii_of_string s.

Definition val (c : byte) : N := N_of_ascii c.

(** [s[a:b]] *)
Definition slice (s : gostring) (a b : nat) : gostring :=
  firstn (b - a) (skipn a s).

(** [s[i]], with the zero byte out of range (the embedding only indexes
    within range). *)
Definition at_ (s : gostring) (i : nat) : byte := nth i s zero.

Definition eqb (s t : gostring) : bool :=
  if list_eq_dec ascii_dec s t then true else false.

Definition isEmpty (s : gostring) : bool :=
  match s with [] => true | _ => false end.

End GoString.
Import GoString.

(** ** unicode/utf8 *)

Module Utf8.

Definition rune := Z.

Definition RuneError : rune := 65533%Z.   (* U+FFFD *)
Definition RuneSelf : N := 128%N.
Definition UTFMax : nat := 4.

(* information about the first byte of an encoding *)
Definition xx : N := 241%N.  (* 0xF1: invalid, size 1 *)
Definition as_ : N := 240%N. (* 0xF0: ASCII, size 1 *)
Definition s1 : N := 2%N.    (* 0x02: accept 0, size 2 *)
Definition s2 : N := 19%N.   (* 0x13: accept 1, size 3 *)
Definition s3 : N := 3%N.    (* 0x03: accept 0, size 3 *)
Definition s4 : N := 35%N.   (* 0x23: accept 2, size 3 *)
Definition s5 : N := 52%N.   (* 0x34: accept 3, size 4 *)
Definition s6 : N := 4%N.    (* 0x04: accept 0, size 4 *)
Definition s7 : N := 68%N.   (* 0x44: accept 4, size 4 *)

(** The table [first], by ranges of the byte value. *)
Definition first (b : byte) : N :=
  let n := val b in
  (if n <? 128 then as_
   else if n <? 194 then xx          (* 0x80-0xC1 *)
   else if n <? 224 then s1          (* 0xC2-0xDF *)
   else if n =? 224 then s2          (* 0xE0 *)
   else if n <? 237 then s3          (* 0xE1-0xEC *)
   else if n =? 237 then s4          (* 0xED *)
   else if n <? 240 then s3          (* 0xEE-0xEF *)
   else if n =? 240 then s5          (* 0xF0 *)
   else if n <? 244 then s6          (* 0xF1-0xF3 *)
   else if n =? 244 then s7          (* 0xF4 *)
   else xx)%N.                       (* 0xF5-0xFF *)

Definition locb : N := 128%N. (* 0x80 *)
Definition hicb : N := 191%N. (* 0xBF *)

(** [acceptRanges]: the range of valid values of the second byte. *)
Definition acceptRanges (i : N) : N * N :=
  match i with
  | 0 => (locb, hicb)
  | 1 => (160, hicb)
  | 2 => (locb, 159)
  | 3 => (144, hicb)
  | 4 => (locb, 143)
  | _ => (0, 0)
  end%N.

Definition maskx : N := 63%N.
Definition mask2 : N := 31%N.
Definition mask3 : N := 15%N.
Definition mask4 : N := 7%N.

Definition outside (b : byte) (lo hi : N) : bool :=
  ((val b <? lo) || (hi <? val b))%N.

(** [utf8.DecodeRuneInString]: the first rune of [s] and its width.
    An invalid encoding gives [(RuneError, 1)], the empty string
    [(RuneError, 0)]. *)
Definition DecodeRuneInString (s : gostring) : rune * nat :=
  match s with
  | [] => (RuneError, 0)
  | b0 :: _ =>
    let x := first b0 in
    if (as_ <=? x)%N then
      (if (x =? xx)%N then RuneError else Z.of_N (val b0), 1%nat)
    else
      let sz := N.to_nat (N.land x 7) in
      let accept := acceptRanges (N.shiftr x 4) in
      if length s <? sz then (RuneError, 1)
      else
        let b1 := at_ s 1 in
        if outside b1 (fst accept) (snd accept) then (RuneError, 1)
        else if sz <=? 2 then
          (Z.of_N (N.lor (N.shiftl (N.land (val b0) mask2) 6)
                         (N.land (val b1) maskx)), 2)
        else
          let b2 := at_ s 2 in
          if outside b2 locb hicb then (RuneError, 1)
          else if sz <=? 3 then
            (Z.of_N (N.lor (N.lor (N.shiftl (N.land (val b0) mask3) 12)
                                  (N.shiftl (N.land (val b1) maskx) 6))
                           (N.land (val b2) maskx)), 3)
          else
            let b3 := at_ s 3 in
            if outside b3 locb hicb then (RuneError, 1)
            else
              (Z.of_N (N.lor (N.lor (N.lor
                         (N.shiftl (N.land (val b0) mask4) 18)
                         (N.shiftl (N.land (val b1) maskx) 12))
                         (N.shiftl (N.land (val b2) maskx) 6))
                         (N.land (val b3) maskx)), 4)
  end.

(** [utf8.RuneStart]: not a continuation byte. *)
Definition RuneStart (b : byte) : bool :=
  negb (N.land (val b) 192 =? 128)%N.

(** The loop [for start--; start >= lim; start-- { if RuneStart(s[start])
    { break } }] of [DecodeLastRuneInString]; [start] is a Go [int] and
    may end at [lim - 1], which is [-1] when [lim] is 0.  The loop body
    runs at most [UTFMax - 1] times. *)
Fixpoint backToStart (s : gostring) (lim start : Z) (fuel : nat) : Z :=
  match fuel with
  | O => start
  | S fuel' =>
    if (start <? lim)%Z then start
    else if RuneStart (at_ s (Z.to_nat start)) then start
    else backToStart s lim (start - 1)%Z fuel'
  end.

(** [utf8.DecodeLastRuneInString]: the last rune of [s] and its width. *)
Definition DecodeLastRuneInString (s : gostring) : rune * nat :=
  let end_ := length s in
  if end_ =? 0 then (RuneError, 0)
  else
    let start := (Z.of_nat end_ - 1)%Z in
    let r := val (at_ s (Z.to_nat start)) in
    if (r <? RuneSelf)%N then (Z.of_N r, 1)
    else
      let lim := (Z.of_nat end_ - Z.of_nat UTFMax)%Z in
      let lim := if (lim <? 0)%Z then 0%Z else lim in
      let start := backToStart s lim (start - 1)%Z UTFMax in
      let start := if (start <? 0)%Z then 0%Z else start in
      let '(r, size) := DecodeRuneInString (slice s (Z.to_nat start) end_) in
      if negb (Z.to_nat start + size =? end_) then (RuneError, 1)
      else (r, size).

End Utf8.

(** ** unicode *)

Module Unicode.

Definition MaxLatin1 : Z := 255%Z.

(** The table [unicode.White_Space], without its Latin-1 part. *)
Definition White_Space_excludingLatin (r : Z) : bool :=
  ((r =? 5760)                               (* U+1680 *)
   || ((8192 <=? r) && (r <=? 8202))          (* U+2000-U+200A *)
   || ((8232 <=? r) && (r <=? 8233))          (* U+2028-U+2029 *)
   || (r =? 8239)                            (* U+202F *)
   || (r =? 8287)                            (* U+205F *)
   || (r =? 12288))%Z.                       (* U+3000 *)

(** [unicode.IsSpace]. *)
Definition IsSpace (r : Z) : bool :=
  if (r mod 2 ^ 32 <=? MaxLatin1)%Z then   (* uint32(r) <= MaxLatin1 *)
    ((r =? 9) || (r =? 10) || (r =? 11) || (r =? 12) || (r =? 13)
     || (r =? 32) || (r =? 133) || (r =? 160))%Z
  else White_Space_excludingLatin r.

End Unicode.

(** ** strings *)

Module Strings.
Import Utf8.

(** [strings.HasPrefix]. *)
Fixpoint HasPrefix (s prefix : gostring) : bool :=
  match prefix, s with
  | [], _ => true
  | p :: prefix', c :: s' => Ascii.eqb c p && HasPrefix s' prefix'
  | _ :: _, [] => false
  end.

(** [strings.HasSuffix]. *)
Definition HasSuffix (s suffix : gostring) : bool :=
  (length suffix <=? length s)
  && GoString.eqb (skipn (length s - length suffix) s) suffix.

(** [strings.TrimSuffix]: [s] without the given trailing suffix, [s]
    itself when it does not end with it. *)
Definition TrimSuffix (s suffix : gostring) : gostring :=
  if HasSuffix s suffix then firstn (length s - length suffix) s else s.

(** The loop of [indexFunc]: [for i, r := range s], from byte offset
    [i], where [rest = s[i:]]. *)
Fixpoint indexFunc_loop (fuel : nat) (rest : gostring) (i : nat)
         (f : rune -> bool) (truth : bool) : option nat :=
  match fuel with
  | O => None
  | S fuel' =>
    match rest with
    | [] => None
    | _ :: _ =>
      let '(r, size) := DecodeRuneInString rest in
      if Bool.eqb (f r) truth then Some i
      else indexFunc_loop fuel' (skipn size rest) (i + size) f truth
    end
  end.

(** [strings.indexFunc]; [None] is Go's [-1]. *)
Definition indexFunc (s : gostring) (f : rune -> bool) (truth : bool)
  : option nat :=
  indexFunc_loop (length s) s 0 f truth.

(** The loop of [lastIndexFunc]: [for i := len(s); i > 0; ]. *)
Fixpoint lastIndexFunc_loop (fuel : nat) (s : gostring) (i : nat)
         (f : rune -> bool) (truth : bool) : option nat :=
  match fuel with
  | O => None
  | S fuel' =>
    if i =? 0 then None
    else
      let '(r, size) := DecodeLastRuneInString (slice s 0 i) in
      let i := i - size in
      if Bool.eqb (f r) truth then Some i
      else lastIndexFunc_loop fuel' s i f truth
  end.

(** [strings.lastIndexFunc]; [None] is Go's [-1]. *)
Definition lastIndexFunc (s : gostring) (f : rune -> bool) (truth : bool)
  : option nat :=
  lastIndexFunc_loop (length s) s (length s) f truth.

(** [strings.TrimLeftFunc]. *)
Definition TrimLeftFunc (s : gostring) (f : rune -> bool) : gostring :=
  match indexFunc s f false with
  | None => []
  | Some i => skipn i s
  end.

(** [strings.TrimRightFunc]. *)
Definition TrimRightFunc (s : gostring) (f : rune -> bool) : gostring :=
  match lastIndexFunc s f false with
  | Some i =>
    if (RuneSelf <=? val (at_ s i))%N then
      let '(_, wid) := DecodeRuneInString (skipn i s) in
      slice s 0 (i + wid)
    else slice s 0 (i + 1)
  | None => slice s 0 0
  end.

(** [strings.TrimFunc]. *)
Definition TrimFunc (s : gostring) (f : rune -> bool) : gostring :=
  TrimRightFunc (TrimLeftFunc s f) f.

(** The table [asciiSpace]. *)
Definition asciiSpace (c : byte) : bool :=
  let n := val c in
  ((n =? 9) || (n =? 10) || (n =? 11) || (n =? 12) || (n =? 13)
   || (n =? 32))%N.

(** The first loop of [TrimSpace], over [rest = s[start:]]: [inl start]
    when it met a non-ASCII byte at [start], [inr start] when it stopped
    at an ASCII non-space byte or at the end. *)
Fixpoint trimSpaceStart (rest : gostring) (start : nat) : nat + nat :=
  match rest with
  | [] => inr start
  | c :: rest' =>
    if (RuneSelf <=? val c)%N then inl start
    else if asciiSpace c then trimSpaceStart rest' (S start)
    else inr start
  end.

(** The second loop of [TrimSpace], [for ; stop > start; stop--]:
    [inl stop] when [s[stop-1]] is a non-ASCII byte, [inr stop] when the
    loop stopped otherwise. *)
Fixpoint trimSpaceStop (s : gostring) (start stop : nat) : nat + nat :=
  match stop with
  | O => inr stop
  | S stop' =>
    if stop <=? start then inr stop
    else
      let c := at_ s stop' in
      if (RuneSelf <=? val c)%N then inl stop
      else if asciiSpace c then trimSpaceStop s start stop'
      else inr stop
  end.

(** [strings.TrimSpace]. *)
Definition TrimSpace (s : gostring) : gostring :=
  match trimSpaceStart s 0 with
  | inl start => TrimFunc (skipn start s) Unicode.IsSpace
  | inr start =>
    match trimSpaceStop s start (length s) with
    | inl stop => TrimRightFunc (slice s start stop) Unicode.IsSpace
    | inr stop => slice s start stop
    end
  end.

(** [strings.ReplaceAll(s, string(old), string(new))] for one-byte [old]
    and [new], the only use the package makes of it. *)
Definition ReplaceAllByte (s : gostring) (old new : byte) : gostring :=
  map (fun c => if Ascii.eqb c old then new else c) s.

End Strings.

(** ** path/filepath *)

Module Filepath.

(** The operating systems the package is built for differ, for this
    code, only in [filepath.Separator]. *)
Inductive GOOS := Unix | Windows.

Definition Separator (os : GOOS) : byte :=
  match os with
  | Unix => "/"%char
  | Windows => "092"%char   (* backslash *)
  end.

(** [filepath.ToSlash]. *)
Definition ToSlash (os : GOOS) (path : gostring) : gostring :=
  if Ascii.eqb (Separator os) "/"%char then path
  else Strings.ReplaceAllByte path (Separator os) "/"%char.

End Filepath.

(** ** crypto/sha256 and encoding/hex *)

Module Sha256.

Local Open Scope Z_scope.

(** The size of a SHA-256 checksum in bytes, and the block size. *)
Definition Size : nat := 32.
Definition chunk : nat := 64.

Definition wrap32 (x : Z) : Z := x mod 2 ^ 32.

(** Addition of [uint32] values. *)
Definition add32 (x y : Z) : Z := wrap32 (x + y).

(** [bits.RotateLeft32(x, -k)]: rotation to the right by [k] bits. *)
Definition rotr (x k : Z) : Z :=
  Z.lor (Z.shiftr x k) (wrap32 (Z.shiftl x (32 - k))).

(** [^x] on [uint32]. *)
Definition not32 (x : Z) : Z := Z.lxor x (2 ^ 32 - 1).

(** The value of a hexadecimal digit. *)
Definition hexDigit (c : ascii) : Z :=
  let n := Z.of_N (N_of_ascii c) in
  if (48 <=? n) && (n <=? 57) then n - 48            (* 0-9 *)
  else if (97 <=? n) && (n <=? 102) then n - 87      (* a-f *)
  else if (65 <=? n) && (n <=? 70) then n - 55       (* A-F *)
  else 0.

(** The words written in hexadecimal in [s], separated by blanks. *)
Fixpoint hexWords (s : string) (cur : option Z) : list Z :=
  match s with
  | EmptyString => match cur with Some w => [w] | None => [] end
  | String c s' =>
    if Ascii.eqb c " "%char then
      match cur with
      | Some w => w :: hexWords s' None
      | None => hexWords s' None
      end
    else
      hexWords s' (Some (16 * match cur with Some w => w | None => 0 end
                         + hexDigit c))
  end.

(** The initial hash value [init0 .. init7]. *)
Definition init : list Z :=
  Eval vm_compute in
    hexWords "6A09E667 BB67AE85 3C6EF372 A54FF53A 510E527F 9B05688C 1F83D9AB 5BE0CD19"
             None.

(** The round constants [_K]. *)
Definition _K : list Z :=
  Eval vm_compute in
    hexWords
      ("428a2f98 71374491 b5c0fbcf e9b5dba5 3956c25b 59f111f1 923f82a4 ab1c5ed5 "
       ++ "d807aa98 12835b01 243185be 550c7dc3 72be5d74 80deb1fe 9bdc06a7 c19bf174 "
       ++ "e49b69c1 efbe4786 0fc19dc6 240ca1cc 2de92c6f 4a7484aa 5cb0a9dc 76f988da "
       ++ "983e5152 a831c66d b00327c8 bf597fc7 c6e00bf3 d5a79147 06ca6351 14292967 "
       ++ "27b70a85 2e1b2138 4d2c6dfc 53380d13 650a7354 766a0abb 81c2c92e 92722c85 "
       ++ "a2bfe8a1 a81a664b c24b8b70 c76c51a3 d192e819 d6990624 f40e3585 106aa070 "
       ++ "19a4c116 1e376c08 2748774c 34b0bcb5 391c0cb3 4ed8aa4a 5b9cca4f 682e6ff3 "
       ++ "748f82ee 78a5636f 84c87814 8cc70208 90befffa a4506ceb bef9a3f7 c67178f2")%string
      None.

Definition byteZ (b : byte) : Z := Z.of_N (val b).

(** [w[i]] for [i < 16]: the big-endian word at [p[4i:4i+4]]. *)
Definition beWord (p : gostring) (i : nat) : Z :=
  let j := (i * 4)%nat in
  Z.lor (Z.lor (Z.lor (Z.shiftl (byteZ (at_ p j)) 24)
                      (Z.shiftl (byteZ (at_ p (j + 1))) 16))
               (Z.shiftl (byteZ (at_ p (j + 2))) 8))
        (byteZ (at_ p (j + 3))).

Definition wAt (w : list Z) (i : nat) : Z := nth i w 0.

(** The message schedule: the loop [for i := 16; i < 64; i++], where [w]
    holds the words computed so far, [i = length w]. *)
Fixpoint schedule (n : nat) (w : list Z) : list Z :=
  match n with
  | O => w
  | S n' =>
    let i := length w in
    let v1 := wAt w (i - 2) in
    let t1 := Z.lxor (Z.lxor (rotr v1 17) (rotr v1 19)) (Z.shiftr v1 10) in
    let v2 := wAt w (i - 15) in
    let t2 := Z.lxor (Z.lxor (rotr v2 7) (rotr v2 18)) (Z.shiftr v2 3) in
    schedule n'
      (w ++ [add32 (add32 (add32 t1 (wAt w (i - 7))) t2) (wAt w (i - 16))])
  end.

(** The eight working variables [a .. h]. *)
Record vars := mkVars {
  va : Z; vb : Z; vc : Z; vd : Z; ve : Z; vf : Z; vg : Z; vh : Z
}.

(** One round of the compression loop, with [_K[i]] and [w[i]]. *)
Definition round (v : vars) (k w : Z) : vars :=
  let '(mkVars a b c d e f g h) := v in
  let t1 :=
      add32 (add32 (add32 (add32 h
        (Z.lxor (Z.lxor (rotr e 6) (rotr e 11)) (rotr e 25)))
        (Z.lxor (Z.land e f) (Z.land (not32 e) g)))
        k) w in
  let t2 :=
      add32 (Z.lxor (Z.lxor (rotr a 2) (rotr a 13)) (rotr a 22))
            (Z.lxor (Z.lxor (Z.land a b) (Z.land a c)) (Z.land b c)) in
  mkVars (add32 t1 t2) a b c (add32 d t1) e f g.

Fixpoint rounds (v : vars) (ks ws : list Z) : vars :=
  match ks, ws with
  | k :: ks', w :: ws' => rounds (round v k w) ks' ws'
  | _, _ => v
  end.

(** The body of the loop of [blockGeneric] for one 64-byte block [p]. *)
Definition blockOne (h : list Z) (p : gostring) : list Z :=
  let w := schedule 48 (map (beWord p) (seq 0 16)) in
  let v := mkVars (wAt h 0) (wAt h 1) (wAt h 2) (wAt h 3)
                  (wAt h 4) (wAt h 5) (wAt h 6) (wAt h 7) in
  let '(mkVars a b c d e f g h') := rounds v _K w in
  [ add32 (wAt h 0) a; add32 (wAt h 1) b; add32 (wAt h 2) c;
    add32 (wAt h 3) d; add32 (wAt h 4) e; add32 (wAt h 5) f;
    add32 (wAt h 6) g; add32 (wAt h 7) h' ].

(** [blockGeneric]: [for len(p) >= chunk { ...; p = p[chunk:] }], run
    [n] times. *)
Fixpoint blockLoop (n : nat) (h : list Z) (p : gostring) : list Z :=
  match n with
  | O => h
  | S n' => blockLoop n' (blockOne h (firstn chunk p)) (skipn chunk p)
  end.

Definition block (h : list Z) (p : gostring) : list Z :=
  blockLoop (length p / chunk) h p.

(** The [digest] struct: [x] holds the [nx] buffered bytes [d.x[:d.nx]],
    so [nx] is [length x]; [len] is a [uint64]. *)
Record digest := mkDigest {
  h : list Z;
  x : gostring;
  len : Z
}.

Definition nx (d : digest) : nat := length (x d).

(** [sha256.New()], that is [Reset]. *)
Definition New : digest := mkDigest init [] 0.

(** [digest.Write]. *)
Definition Write (d : digest) (p : gostring) : digest :=
  let len' := (len d + Z.of_nat (length p)) mod 2 ^ 64 in
  (* if d.nx > 0 *)
  let '(h1, x1, p1) :=
      if (0 <? nx d)%nat then
        let n := Nat.min (chunk - nx d) (length p) in   (* copy(d.x[d.nx:], p) *)
        let x' := x d ++ firstn n p in
        if (length x' =? chunk)%nat
        then (block (h d) x', [], skipn n p)
        else (h d, x', skipn n p)
      else (h d, x d, p) in
  (* if len(p) >= chunk *)
  let '(h2, p2) :=
      if (chunk <=? length p1)%nat then
        let n := (length p1 / chunk * chunk)%nat in    (* len(p) &^ (chunk - 1) *)
        (block h1 (firstn n p1), skipn n p1)
      else (h1, p1) in
  (* if len(p) > 0 *)
  let x2 := if (0 <? length p2)%nat then p2 else x1 in
  mkDigest h2 x2 len'.

(** [byteorder.BEPutUint64] and [BEPutUint32]. *)
Definition beBytes (n : nat) (v : Z) : gostring :=
  map (fun i => ascii_of_N (Z.to_N (Z.shiftr v (8 * Z.of_nat (n - 1 - i))
                                    mod 256)))
      (seq 0 n).

(** [digest.checkSum]. *)
Definition checkSum (d : digest) : gostring :=
  let len := len d in
  let t := if len mod 64 <? 56 then 56 - len mod 64
           else 64 + 56 - len mod 64 in
  let bits := Z.shiftl len 3 mod 2 ^ 64 in
  let padlen :=
      ascii_of_N 128 :: repeat zero (Z.to_nat t - 1) ++ beBytes 8 bits in
  let d := Write d padlen in
  flat_map (beBytes 4) (h d).

(** [digest.Sum(nil)]: the checksum of a copy of the state. *)
Definition Sum (d : digest) : gostring := checkSum d.

(** [sha256.Sum256]. *)
Definition Sum256 (data : gostring) : gostring :=
  checkSum (Write New data).

End Sha256.

Module Hex.

Definition hextable : gostring := lit "0123456789abcdef".

(** [hex.EncodeToString]. *)
Definition EncodeToString (src : gostring) : gostring :=
  flat_map (fun v => [ at_ hextable (N.to_nat (N.shiftr (val v) 4));
                       at_ hextable (N.to_nat (N.land (val v) 15)) ])
           src.

End Hex.

(** ** Errors *)

Module Errors.

(** Error numbers of failed system calls. *)
Inductive errno := ENOENT | ENOTDIR | EACCES | EISDIR | EIO | Errno (n : nat).

(** Go [error] values: the sentinels of [path/filepath], the errors of
    package [os], the results of [fmt.Errorf], kept as the format with
    its [%s] argument and the error it wraps with [%w], and the errors of
    [encoding/json]. *)
Inductive error :=
| SkipDir
| SkipAll
| Sys (e : errno)
| Errorf (format : string) (arg : option gostring) (wrapped : option error)
| SyntaxError              (* *json.SyntaxError *)
| UnmarshalTypeError.      (* *json.UnmarshalTypeError *)

Definition isSkipDir (e : error) : bool :=
  match e with SkipDir => true | _ => false end.

Definition isSkipAll (e : error) : bool :=
  match e with SkipAll => true | _ => false end.

End Errors.

(** ** os and path/filepath: a snapshot of the file system *)

Module OS.
Import Errors.

(** What reading an opened file yields: the chunks that successive [Read]
    calls return, then end of file ([None]) or a read error. *)
Record stream := mkStream {
  chunks : list gostring;
  final : option errno
}.

(** What [Lstat] finds at a path: nothing (the call fails), a file that is
    no directory, with its symbolic-link mode bit, its size and what
    opening and reading it yields, or a directory with the names
    [readDirNames] returns for it, in that order, or the error of reading
    it. *)
Inductive node :=
| NoEntry (e : errno)
| File (symlink : bool) (size : Z) (data : errno + stream)
| Dir (readErr : option errno) (entries : list (gostring * node)).

(** [os.FileInfo]. *)
Record FileInfo := mkInfo {
  Name : gostring;
  Size : Z;
  IsDir : bool;
  ModeSymlink : bool     (* info.Mode()&os.ModeSymlink != 0 *)
}.

(** The [nil] [FileInfo] that [Walk] passes along with an [Lstat] error;
    the callback of this package does not read it. *)
Definition noInfo : FileInfo := mkInfo [] 0 false false.

Definition isDirNode (n : node) : bool :=
  match n with Dir _ _ => true | _ => false end.

(** The [FileInfo] that [Lstat] returns for an entry [name]. *)
Definition infoOf (name : gostring) (n : node) : FileInfo :=
  match n with
  | NoEntry _ => noInfo
  | File symlink size _ => mkInfo name size false symlink
  | Dir _ _ => mkInfo name 0 true false
  end.

(** A path handed out by [Walk]: the names that lead to it from the root
    of the walk, and the node it names. *)
Record pathref := mkPath {
  below : list gostring;
  target : node
}.

(** What the package sees of the directory it is given: the result of
    [os.Stat(dir)], the base name of [dir], and what [Lstat(dir)] and the
    walk below it find. *)
Record View := mkView {
  Stat : errno + FileInfo;
  base : gostring;
  root : node
}.

(** The file system: what each directory argument leads to. *)
Definition FileSystem : Type := gostring -> View.

End OS.

Module Walk.
Import Errors OS Filepath.

Section WithState.

(** The state the callback closes over and updates. *)
Variable St : Type.

(** [filepath.WalkFunc]. *)
Definition WalkFunc : Type :=
  pathref -> FileInfo -> option error -> St -> St * option error.

Variable walkFn : WalkFunc.

(** The loop [for _, name := range names] of [filepath.walk] in the
    directory at [below], with [walk] itself as [rec]. *)
Definition eachName
           (rec : list gostring -> gostring -> node -> St -> St * option error)
           (below : list gostring)
  : list (gostring * node) -> St -> St * option error :=
  fix loop (es : list (gostring * node)) (st : St) {struct es}
    : St * option error :=
    match es with
    | [] => (st, None)
    | (nm, child) :: es' =>
      match child with
      | NoEntry e =>
        (* lstat(filename) fails *)
        let '(st, err) :=
            walkFn (mkPath (below ++ [nm]) child) noInfo (Some (Sys e)) st in
        match err with
        | Some e' => if isSkipDir e' then loop es' st else (st, Some e')
        | None => loop es' st
        end
      | _ =>
        let '(st, err) := rec (below ++ [nm]) nm child st in
        match err with
        | Some e' =>
          if negb (isDirNode child) || negb (isSkipDir e')
          then (st, Some e')
          else loop es' st
        | None => loop es' st
        end
      end
    end.

(** [filepath.walk]: the entry at [below], named [name], is [n], and its
    [Lstat] succeeded. *)
Fixpoint walk (below : list gostring) (name : gostring)
         (n : node) (st : St) {struct n} : St * option error :=
  let path := mkPath below n in
  let info := infoOf name n in
  match n with
  | Dir readErr entries =>
    let err := option_map Sys readErr in
    let '(st, err1) := walkFn path info err st in
    match err, err1 with
    | None, None => eachName walk below entries st
    | _, _ => (st, err1)
    end
  | _ => walkFn path info None st
  end.

(** [filepath.Walk]. *)
Definition Walk (v : View) (st : St) : St * option error :=
  let '(st, err) :=
      match root v with
      | NoEntry e => walkFn (mkPath [] (root v)) noInfo (Some (Sys e)) st
      | n => walk [] (base v) n st
      end in
  match err with
  | Some e => if isSkipDir e || isSkipAll e then (st, None) else (st, err)
  | None => (st, None)
  end.

End WithState.

Arguments eachName {St}.
Arguments walk {St}.
Arguments Walk {St} walkFn v st.

(** [strings.Join(names, string(Separator))]. *)
Fixpoint joinNames (os : GOOS) (names : list gostring) : gostring :=
  match names with
  | [] => []
  | [n] => n
  | n :: rest => n ++ Separator os :: joinNames os rest
  end.

(** [filepath.Rel(dir, path)] for a path that [Walk(dir, ..)] handed out:
    the names below [dir], joined by the separator, [.] for [dir] itself.
    It does not fail on such a path. *)
Definition Rel (os : GOOS) (path : pathref) : gostring * option error :=
  match below path with
  | [] => (lit ".", None)
  | names => (joinNames os names, None)
  end.

End Walk.
(** ** unicode/utf8 and unicode/utf16: encoding *)

Module Utf8Enc.
Import Utf8.

Definition MaxRune : Z := 1114111%Z.        (* U+10FFFF *)
Definition surrogateMin : Z := 55296%Z.     (* 0xD800 *)
Definition surrogateMax : Z := 57343%Z.     (* 0xDFFF *)

Definition byteOf (n : Z) : byte := ascii_of_N (Z.to_N (n mod 256)).

(** [utf8.EncodeRune], as the bytes written. *)
Definition EncodeRune (r : rune) : gostring :=
  let i := (r mod 2 ^ 32)%Z in       (* uint32(r) *)
  let three (r : Z) :=
      [ byteOf (Z.lor 224 (Z.shiftr r 12));
        byteOf (Z.lor 128 (Z.land (Z.shiftr r 6) 63));
        byteOf (Z.lor 128 (Z.land r 63)) ] in
  if (i <=? 127)%Z then [byteOf r]
  else if (i <=? 2047)%Z then
    [ byteOf (Z.lor 192 (Z.shiftr r 6));
      byteOf (Z.lor 128 (Z.land r 63)) ]
  else if (MaxRune <? i)%Z || ((surrogateMin <=? i) && (i <=? surrogateMax))%Z
  then three RuneError
  else if (i <=? 65535)%Z then three r
  else
    [ byteOf (Z.lor 240 (Z.shiftr r 18));
      byteOf (Z.lor 128 (Z.land (Z.shiftr r 12) 63));
      byteOf (Z.lor 128 (Z.land (Z.shiftr r 6) 63));
      byteOf (Z.lor 128 (Z.land r 63)) ].

(** [utf16.IsSurrogate]. *)
Definition IsSurrogate (r : rune) : bool :=
  ((55296 <=? r) && (r <? 57344))%Z.

(** [utf16.DecodeRune]. *)
Definition DecodeSurrogates (r1 r2 : rune) : rune :=
  if ((55296 <=? r1) && (r1 <? 56320) && (56320 <=? r2) && (r2 <? 57344))%Z
  then (Z.lor (Z.shiftl (r1 - 55296) 10) (r2 - 56320) + 65536)%Z
  else RuneError.

End Utf8Enc.

(** ** strconv *)

Module Strconv.

(** [strconv.FormatInt(n, 10)]. *)
Definition FormatInt (n : Z) : gostring :=
  list_ascii_of_string (DecimalString.NilZero.string_of_int (Z.to_int n)).

(** [strconv.ParseInt(s, 10, 64)]: an optional sign and decimal digits,
    within the range of [int64]. *)
Definition ParseInt (s : gostring) : option Z :=
  let signed :=
      match s with
      | c :: rest =>
        if Ascii.eqb c "+"%char then
          option_map Decimal.Pos
                     (DecimalString.NilZero.uint_of_string
                        (string_of_list_ascii rest))
        else DecimalString.NilZero.int_of_string (string_of_list_ascii s)
      | [] => None
      end in
  match signed with
  | Some d =>
    let n := Z.of_int d in
    if ((- 2 ^ 63 <=? n) && (n <? 2 ^ 63))%Z then Some n else None
  | None => None
  end.

End Strconv.

(** ** encoding/json *)

Module Json.
Import Utf8 Utf8Enc Errors.

(** *** JSON texts *)

Inductive token :=
| TLBrace | TRBrace | TLBracket | TRBracket | TColon | TComma
| TString (raw : gostring)      (* the bytes between the quotes *)
| TNumber (literal : gostring)
| TTrue | TFalse | TNull.

(** A JSON value; strings are held unquoted, numbers as their literal. *)
Inductive value :=
| Null
| Bool (b : bool)
| Number (literal : gostring)
| String (s : gostring)
| Array (elements : list value)
| Object (members : list (gostring * value)).

(** [isSpace] of the scanner. *)
Definition isSpace (c : byte) : bool :=
  let n := val c in ((n =? 32) || (n =? 9) || (n =? 13) || (n =? 10))%N.

Definition isDigit (c : byte) : bool :=
  let n := val c in ((48 <=? n) && (n <=? 57))%N.

Definition isHex (c : byte) : bool :=
  let n := val c in
  (((48 <=? n) && (n <=? 57)) || ((97 <=? n) && (n <=? 102))
   || ((65 <=? n) && (n <=? 70)))%N.

(** The quotation mark is the byte of code 034 and the backslash the byte
    of code 092; both are written by their codes below. *)

(** The scanner inside a string, after the opening quote: the bytes up to
    the closing quote, and what follows it.  Control characters and
    escapes other than the ones of JSON are errors. *)
Fixpoint scanString (s : gostring) : option (gostring * gostring) :=
  match s with
  | [] => None
  | c :: rest =>
    if Ascii.eqb c "034"%char then Some ([], rest)
    else if Ascii.eqb c "092"%char then
      match rest with
      | [] => None
      | e :: rest' =>
        if existsb (Ascii.eqb e)
                   ["b"; "f"; "n"; "r"; "t"; "092"; "/"; "034"]%char
        then option_map (fun p => (c :: e :: fst p, snd p)) (scanString rest')
        else if Ascii.eqb e "u"%char then
          match rest' with
          | h1 :: h2 :: h3 :: h4 :: rest'' =>
            if isHex h1 && isHex h2 && isHex h3 && isHex h4
            then option_map
                   (fun p => (c :: e :: h1 :: h2 :: h3 :: h4 :: fst p, snd p))
                   (scanString rest'')
            else None
          | _ => None
          end
        else None
      end
    else if (val c <? 32)%N then None
    else option_map (fun p => (c :: fst p, snd p)) (scanString rest)
  end.

(** The longest run of digits at the start of [s], and the rest. *)
Fixpoint digits (s : gostring) : gostring * gostring :=
  match s with
  | c :: rest =>
    if isDigit c then let '(d, r) := digits rest in (c :: d, r)
    else ([], s)
  | [] => ([], [])
  end.

(** The scanner on a number: an optional minus, [0] or a run of digits
    that does not start with [0], an optional fraction, an optional
    exponent. *)
Definition scanNumber (s : gostring) : option (gostring * gostring) :=
  let '(sign, s1) :=
      match s with
      | c :: rest => if Ascii.eqb c "-"%char then ([c], rest) else ([], s)
      | [] => ([], s)
      end in
  match s1 with
  | [] => None
  | c :: rest =>
    let int :=
        if Ascii.eqb c "0"%char then Some ([c], rest)
        else if isDigit c then let '(d, r) := digits rest in Some (c :: d, r)
        else None in
    match int with
    | None => None
    | Some (ip, s2) =>
      let frac :=
          match s2 with
          | c :: rest =>
            if Ascii.eqb c "."%char then
              match digits rest with
              | ([], _) => None
              | (d, r) => Some (c :: d, r)
              end
            else Some ([], s2)
          | [] => Some ([], s2)
          end in
      match frac with
      | None => None
      | Some (fp, s3) =>
        let exp :=
            match s3 with
            | c :: rest =>
              if Ascii.eqb c "e"%char || Ascii.eqb c "E"%char then
                let '(sg, rest') :=
                    match rest with
                    | g :: rest' =>
                      if Ascii.eqb g "+"%char || Ascii.eqb g "-"%char
                      then ([g], rest') else ([], rest)
                    | [] => ([], rest)
                    end in
                match digits rest' with
                | ([], _) => None
                | (d, r) => Some (c :: sg ++ d, r)
                end
              else Some ([], s3)
            | [] => Some ([], s3)
            end in
        match exp with
        | None => None
        | Some (ep, s4) => Some (sign ++ ip ++ fp ++ ep, s4)
        end
      end
    end
  end.

(** The tokens of a text; white space may surround each of them. *)
Fixpoint lex (fuel : nat) (s : gostring) : option (list token) :=
  match fuel with
  | O => match s with [] => Some [] | _ => None end
  | S fuel' =>
    match s with
    | [] => Some []
    | c :: rest =>
      let more (t : token) (r : gostring) :=
          option_map (cons t) (lex fuel' r) in
      if isSpace c then lex fuel' rest
      else if Ascii.eqb c "{"%char then more TLBrace rest
      else if Ascii.eqb c "}"%char then more TRBrace rest
      else if Ascii.eqb c "["%char then more TLBracket rest
      else if Ascii.eqb c "]"%char then more TRBracket rest
      else if Ascii.eqb c ":"%char then more TColon rest
      else if Ascii.eqb c ","%char then more TComma rest
      else if Ascii.eqb c "034"%char then
        match scanString rest with
        | Some (raw, r) => more (TString raw) r
        | None => None
        end
      else if Ascii.eqb c "-"%char || isDigit c then
        match scanNumber s with
        | Some (lit, r) => more (TNumber lit) r
        | None => None
        end
      else if Strings.HasPrefix s (lit "true") then more TTrue (skipn 4 s)
      else if Strings.HasPrefix s (lit "false") then more TFalse (skipn 5 s)
      else if Strings.HasPrefix s (lit "null") then more TNull (skipn 4 s)
      else None
    end
  end.

(** *** Unquoting *)

Definition hexVal (c : byte) : Z :=
  let n := Z.of_N (val c) in
  (if (48 <=? n) && (n <=? 57) then n - 48
   else if (97 <=? n) && (n <=? 102) then n - 87
   else if (65 <=? n) && (n <=? 70) then n - 55
   else -1)%Z.

(** [getu4]: the rune of a [\uXXXX] at the start of [s], or [-1]. *)
Definition getu4 (s : gostring) : Z :=
  match s with
  | b :: u :: h1 :: h2 :: h3 :: h4 :: _ =>
    if Ascii.eqb b "092"%char && Ascii.eqb u "u"%char
       && isHex h1 && isHex h2 && isHex h3 && isHex h4
    then (((hexVal h1 * 16 + hexVal h2) * 16 + hexVal h3) * 16 + hexVal h4)%Z
    else (-1)%Z
  | _ => (-1)%Z
  end.

(** The first loop of [unquoteBytes]: the length of the prefix that needs
    no unquoting. *)
Fixpoint plainPrefix (fuel : nat) (s : gostring) : nat :=
  match fuel with
  | O => 0
  | S fuel' =>
    match s with
    | [] => 0
    | c :: rest =>
      if Ascii.eqb c "092"%char || Ascii.eqb c "034"%char || (val c <? 32)%N
      then 0
      else if (val c <? RuneSelf)%N then S (plainPrefix fuel' rest)
      else
        let '(rr, size) := DecodeRuneInString s in
        if (rr =? RuneError)%Z && (size =? 1) then 0
        else size + plainPrefix fuel' (skipn size s)
    end
  end.

(** The second loop of [unquoteBytes], from the first byte that needs
    unquoting. *)
Fixpoint unquoteLoop (fuel : nat) (s : gostring) : option gostring :=
  match fuel with
  | O => match s with [] => Some [] | _ => None end
  | S fuel' =>
    match s with
    | [] => Some []
    | c :: rest =>
      if Ascii.eqb c "092"%char then
        match rest with
        | [] => None
        | e :: rest' =>
          let put (b : byte) := option_map (cons b) (unquoteLoop fuel' rest') in
          if existsb (Ascii.eqb e) ["034"; "092"; "/"; "'"]%char then put e
          else if Ascii.eqb e "b"%char then put (ascii_of_N 8)
          else if Ascii.eqb e "f"%char then put (ascii_of_N 12)
          else if Ascii.eqb e "n"%char then put (ascii_of_N 10)
          else if Ascii.eqb e "r"%char then put (ascii_of_N 13)
          else if Ascii.eqb e "t"%char then put (ascii_of_N 9)
          else if Ascii.eqb e "u"%char then
            let rr := getu4 s in
            if (rr <? 0)%Z then None
            else
              let s6 := skipn 6 s in
              if IsSurrogate rr then
                let rr1 := getu4 s6 in
                let dec := DecodeSurrogates rr rr1 in
                if negb (dec =? RuneError)%Z then
                  (* a valid pair *)
                  option_map (app (EncodeRune dec))
                             (unquoteLoop fuel' (skipn 6 s6))
                else
                  option_map (app (EncodeRune RuneError))
                             (unquoteLoop fuel' s6)
              else
                option_map (app (EncodeRune rr)) (unquoteLoop fuel' s6)
          else None
        end
      else if Ascii.eqb c "034"%char || (val c <? 32)%N then None
      else if (val c <? RuneSelf)%N then
        option_map (cons c) (unquoteLoop fuel' rest)
      else
        (* coerce to well-formed UTF-8 *)
        let '(rr, size) := DecodeRuneInString s in
        option_map (app (EncodeRune rr)) (unquoteLoop fuel' (skipn size s))
    end
  end.

(** [unquoteBytes], on the bytes between the quotes. *)
Definition unquote (s : gostring) : option gostring :=
  let r := plainPrefix (length s) s in
  if r =? length s then Some s
  else option_map (app (firstn r s)) (unquoteLoop (length s) (skipn r s)).

(** *** Parsing *)

Definition maxNestingDepth : nat := 10000.

(** The value at the start of the tokens, and the tokens after it;
    [depth] is the number of arrays and objects around it. *)
Fixpoint parseValue (fuel depth : nat) (toks : list token)
  : option (value * list token) :=
  match fuel with
  | O => None
  | S fuel' =>
    match toks with
    | TNull :: rest => Some (Null, rest)
    | TTrue :: rest => Some (Bool true, rest)
    | TFalse :: rest => Some (Bool false, rest)
    | TNumber l :: rest => Some (Number l, rest)
    | TString raw :: rest =>
      match unquote raw with
      | Some s => Some (String s, rest)
      | None => None
      end
    | TLBracket :: rest =>
      if maxNestingDepth <=? depth then None
      else
        match rest with
        | TRBracket :: rest' => Some (Array [], rest')
        | _ =>
          match parseElements fuel' (S depth) rest with
          | Some (vs, rest') => Some (Array vs, rest')
          | None => None
          end
        end
    | TLBrace :: rest =>
      if maxNestingDepth <=? depth then None
      else
        match rest with
        | TRBrace :: rest' => Some (Object [], rest')
        | _ =>
          match parseMembers fuel' (S depth) rest with
          | Some (ms, rest') => Some (Object ms, rest')
          | None => None
          end
        end
    | _ => None
    end
  end

(** The elements of an array after its bracket, up to the closing one. *)
with parseElements (fuel depth : nat) (toks : list token)
  : option (list value * list token) :=
  match fuel with
  | O => None
  | S fuel' =>
    match parseValue fuel' depth toks with
    | Some (v, TComma :: rest) =>
      match parseElements fuel' depth rest with
      | Some (vs, rest') => Some (v :: vs, rest')
      | None => None
      end
    | Some (v, TRBracket :: rest) => Some ([v], rest)
    | _ => None
    end
  end

(** The members of an object after its brace, up to the closing one. *)
with parseMembers (fuel depth : nat) (toks : list token)
  : option (list (gostring * value) * list token) :=
  match fuel with
  | O => None
  | S fuel' =>
    match toks with
    | TString raw :: TColon :: rest =>
      match unquote raw, parseValue fuel' depth rest with
      | Some k, Some (v, TComma :: rest') =>
        match parseMembers fuel' depth rest' with
        | Some (ms, rest'') => Some ((k, v) :: ms, rest'')
        | None => None
        end
      | Some k, Some (v, TRBrace :: rest') => Some ([(k, v)], rest')
      | _, _ => None
      end
    | _ => None
    end
  end.

(** A whole text: one value, with nothing but white space around it.
    This is what [checkValid] accepts. *)
Definition parse (data : gostring) : option value :=
  match lex (length data) data with
  | Some toks =>
    match parseValue (S (length toks)) 0 toks with
    | Some (v, []) => Some v
    | _ => None
    end
  | None => None
  end.

(** *** Quoting and printing *)

(** [htmlSafeSet]: the ASCII bytes written as they are. *)
Definition htmlSafe (c : byte) : bool :=
  let n := val c in
  ((32 <=? n) && (n <? 128)
   && negb (n =? 34) && negb (n =? 92)         (* quote, backslash *)
   && negb (n =? 60) && negb (n =? 62) && negb (n =? 38))%N.  (* < > & *)

Definition hexLower (n : N) : byte := at_ Hex.hextable (N.to_nat n).

(** The loop of [appendString] with [escapeHTML] set: the bytes written
    between the quotes. *)
Fixpoint quoteLoop (fuel : nat) (s : gostring) : gostring :=
  match fuel with
  | O => []
  | S fuel' =>
    match s with
    | [] => []
    | b :: rest =>
      if (val b <? RuneSelf)%N then
        if htmlSafe b then b :: quoteLoop fuel' rest
        else
          (if Ascii.eqb b "092"%char || Ascii.eqb b "034"%char
           then ["092"%char; b]
           else if (val b =? 8)%N then lit "\b"
           else if (val b =? 12)%N then lit "\f"
           else if (val b =? 10)%N then lit "\n"
           else if (val b =? 13)%N then lit "\r"
           else if (val b =? 9)%N then lit "\t"
           else lit "\u00" ++ [hexLower (N.shiftr (val b) 4);
                               hexLower (N.land (val b) 15)])
            ++ quoteLoop fuel' rest
      else
        let '(c, size) := DecodeRuneInString (firstn UTFMax s) in
        if (c =? RuneError)%Z && (size =? 1) then
          lit "\ufffd" ++ quoteLoop fuel' (skipn size s)
        else if (c =? 8232)%Z || (c =? 8233)%Z then
          lit "\u202" ++ [hexLower (Z.to_N (Z.land c 15))]
              ++ quoteLoop fuel' (skipn size s)
        else firstn size s ++ quoteLoop fuel' (skipn size s)
    end
  end.

(** [appendString]: the string as a JSON string literal. *)
Definition quote (s : gostring) : gostring :=
  "034"%char :: quoteLoop (length s) s ++ ["034"%char].

(** [appendNewline] with an empty prefix and an indent of two spaces. *)
Definition newline (depth : nat) : gostring :=
  ascii_of_N 10 :: concat (repeat (lit "  ") depth).

(** The text [MarshalIndent] writes for a value at the given depth:
    the compact text of [Marshal], laid out by [appendIndent]. *)
Fixpoint render (depth : nat) (v : value) : gostring :=
  match v with
  | Null => lit "null"
  | Bool true => lit "true"
  | Bool false => lit "false"
  | Number l => l
  | String s => quote s
  | Array [] => lit "[]"
  | Array (v :: vs) =>
    lit "[" ++ newline (S depth) ++ render (S depth) v
        ++ flat_map (fun v => lit "," ++ newline (S depth)
                                  ++ render (S depth) v) vs
        ++ newline depth ++ lit "]"
  | Object [] => lit "{}"
  | Object ((k, v) :: ms) =>
    lit "{" ++ newline (S depth) ++ quote k ++ lit ": " ++ render (S depth) v
        ++ flat_map (fun m => lit "," ++ newline (S depth) ++ quote (fst m)
                                  ++ lit ": " ++ render (S depth) (snd m)) ms
        ++ newline depth ++ lit "}"
  end.

(** *** Field names *)

(** [foldRune], for the runes that matter here: the long s and the Kelvin
    sign are the only runes outside ASCII whose case orbit holds an ASCII
    letter.  Every other rune outside ASCII folds to a rune outside
    ASCII, which no field name of the package contains; the model leaves
    it as it is. *)
Definition foldRune (r : rune) : rune :=
  if (r =? 383)%Z then 83%Z           (* U+017F, S *)
  else if (r =? 8490)%Z then 75%Z     (* U+212A, K *)
  else r.

(** [foldName]: ASCII letters in upper case, other runes folded. *)
Fixpoint foldName (fuel : nat) (s : gostring) : gostring :=
  match fuel with
  | O => []
  | S fuel' =>
    match s with
    | [] => []
    | c :: rest =>
      if (val c <? RuneSelf)%N then
        (if ((97 <=? val c) && (val c <=? 122))%N
         then ascii_of_N (val c - 32) else c) :: foldName fuel' rest
      else
        let '(r, n) := DecodeRuneInString s in
        EncodeRune (foldRune r) ++ foldName fuel' (skipn n s)
    end
  end.

Definition equalFold (a b : gostring) : bool :=
  GoString.eqb (foldName (length a) a) (foldName (length b) b).

(** The field of a struct that a key of an object is decoded into: the
    one whose name is the key, or else one whose name is the key up to
    case; [None] when the key is ignored.  [names] are the names of the
    fields, the result is an index into them. *)
Fixpoint findIndex (p : gostring -> bool) (names : list gostring) (i : nat)
  : option nat :=
  match names with
  | [] => None
  | n :: rest => if p n then Some i else findIndex p rest (S i)
  end.

Definition fieldIndex (names : list gostring) (key : gostring) : option nat :=
  match findIndex (GoString.eqb key) names 0 with
  | Some i => Some i
  | None => findIndex (equalFold key) names 0
  end.

End Json.
(** ** Package manifest (manifest.go, hash.go, generate.go) *)

Module Manifest.
Import Errors OS Walk Strings Filepath Json.

(** A Go slice that may be [nil]: [None] is the nil slice, [Some l] a
    non-nil slice with elements [l]. *)
Definition goslice (A : Type) : Type := option (list A).

(** The elements a [range] loop visits; a nil slice has none. *)
Definition elems {A : Type} (s : goslice A) : list A :=
  match s with None => [] | Some l => l end.

(** [append(s, x)]: the result is never nil. *)
Definition append {A : Type} (s : goslice A) (x : A) : goslice A :=
  Some (elems s ++ [x]).

Record File := mkFile {
  Path : gostring;
  URL : gostring;
  Size : Z;                 (* int64 *)
  SHA256 : gostring;
  Compression : gostring
}.

Record Manifest := mkManifest {
  ArtifactID : gostring;
  Version : gostring;
  MountPath : gostring;
  Prefetch : goslice gostring;
  Files : goslice File
}.

(** *** manifest.go: Marshal *)

(** The JSON value of a slice: [null] for a nil slice. *)
Definition encodeSlice {A : Type} (enc : A -> value) (s : goslice A)
  : value :=
  match s with
  | None => Null
  | Some l => Array (map enc l)
  end.

(** The JSON object of a [File], fields in the order of the struct, under
    the names of their tags. *)
Definition encodeFile (f : File) : value :=
  Object [ (lit "path", String (Path f));
           (lit "url", String (URL f));
           (lit "size", Number (Strconv.FormatInt (Size f)));
           (lit "sha256", String (SHA256 f));
           (lit "compression", String (Compression f)) ].

Definition encodeManifest (m : Manifest) : value :=
  Object [ (lit "artifact_id", String (ArtifactID m));
           (lit "version", String (Version m));
           (lit "mount_path", String (MountPath m));
           (lit "prefetch", encodeSlice String (Prefetch m));
           (lit "files", encodeSlice encodeFile (Files m)) ].

(** [Marshal]: [json.MarshalIndent] with an empty prefix and an indent of
    two spaces, for a pointer [m] that is not nil. *)
Definition Marshal (m : Manifest) : gostring * option error :=
  (render 0 (encodeManifest m), None).

(** *** manifest.go: Load *)

(** Decoding into a Go value changes the value that is there; the
    boolean says that an [UnmarshalTypeError] was saved on the way. *)

(** Into a [string]. *)
Definition decodeString (v : value) (old : gostring) : gostring * bool :=
  match v with
  | String s => (s, false)
  | Null => (old, false)
  | _ => (old, true)
  end.

(** Into an [int64]. *)
Definition decodeInt64 (v : value) (old : Z) : Z * bool :=
  match v with
  | Number l =>
    match Strconv.ParseInt l with
    | Some n => (n, false)
    | None => (old, true)
    end
  | Null => (old, false)
  | _ => (old, true)
  end.

(** A slice together with the elements of its backing array beyond its
    length, which an array decoded into it later picks up again. *)
Definition backed (A : Type) : Type := goslice A * list A.

Section Slices.

Variable A : Type.
Variable zero : A.
Variable decodeElem : value -> A -> A * bool.

(** The elements of an array, each decoded into the element of the
    backing array at its index, into the zero value beyond it. *)
Fixpoint decodeElems (vs : list value) (backing : list A) : list A * bool :=
  match vs with
  | [] => ([], false)
  | v :: vs' =>
    let '(x, e) := decodeElem v (hd zero backing) in
    let '(xs, e') := decodeElems vs' (tl backing) in
    (x :: xs, e || e')
  end.

(** Into a slice. *)
Definition decodeSlice (v : value) (s : backed A) : backed A * bool :=
  match v with
  | Null => ((None, []), false)
  | Array [] => ((Some [], []), false)
  | Array vs =>
    let backing := elems (fst s) ++ snd s in
    let '(xs, e) := decodeElems vs backing in
    ((Some xs, skipn (length vs) backing), e)
  | _ => (s, true)
  end.

End Slices.

Definition fileFields : list gostring :=
  [lit "path"; lit "url"; lit "size"; lit "sha256"; lit "compression"].

(** One member of an object, into a [File]. *)
Definition decodeFileMember (f : File * bool) (member : gostring * value)
  : File * bool :=
  let '(mkFile path url size sha compression, e) := f in
  let '(key, v) := member in
  match fieldIndex fileFields key with
  | Some 0 => let '(x, e') := decodeString v path in
              (mkFile x url size sha compression, e || e')
  | Some 1 => let '(x, e') := decodeString v url in
              (mkFile path x size sha compression, e || e')
  | Some 2 => let '(x, e') := decodeInt64 v size in
              (mkFile path url x sha compression, e || e')
  | Some 3 => let '(x, e') := decodeString v sha in
              (mkFile path url size x compression, e || e')
  | Some 4 => let '(x, e') := decodeString v compression in
              (mkFile path url size sha x, e || e')
  | _ => f
  end.

(** Into a [File]. *)
Definition decodeFile (v : value) (old : File) : File * bool :=
  match v with
  | Object members => fold_left decodeFileMember members (old, false)
  | Null => (old, false)
  | _ => (old, true)
  end.

Definition zeroFile : File := mkFile [] [] 0 [] [].

Definition manifestFields : list gostring :=
  [lit "artifact_id"; lit "version"; lit "mount_path"; lit "prefetch";
   lit "files"].

(** A [Manifest] being decoded into, with the backing arrays of its
    slices. *)
Record decoding := mkDecoding {
  artifactID : gostring;
  version : gostring;
  mountPath : gostring;
  prefetch : backed gostring;
  files : backed File;
  failed : bool
}.

(** One member of an object, into a [Manifest]. *)
Definition decodeManifestMember (d : decoding) (member : gostring * value)
  : decoding :=
  let '(mkDecoding id ver mp pf fl e) := d in
  let '(key, v) := member in
  match fieldIndex manifestFields key with
  | Some 0 => let '(x, e') := decodeString v id in
              mkDecoding x ver mp pf fl (e || e')
  | Some 1 => let '(x, e') := decodeString v ver in
              mkDecoding id x mp pf fl (e || e')
  | Some 2 => let '(x, e') := decodeString v mp in
              mkDecoding id ver x pf fl (e || e')
  | Some 3 => let '(x, e') := decodeSlice gostring [] decodeString v pf in
              mkDecoding id ver mp x fl (e || e')
  | Some 4 => let '(x, e') := decodeSlice File zeroFile decodeFile v fl in
              mkDecoding id ver mp pf x (e || e')
  | _ => d
  end.

(** [json.Unmarshal(data, &m)]: a text that is no JSON value leaves [m]
    alone; else the value is decoded into [m], and the first type error
    met on the way is returned at the end. *)
Definition Unmarshal (data : gostring) (m : Manifest)
  : Manifest * option error :=
  match parse data with
  | None => (m, Some SyntaxError)
  | Some v =>
    let d0 := mkDecoding (ArtifactID m) (Version m) (MountPath m)
                         (Prefetch m, []) (Files m, []) false in
    let d :=
        match v with
        | Object members => fold_left decodeManifestMember members d0
        | Null => d0
        | _ => mkDecoding (ArtifactID m) (Version m) (MountPath m)
                          (Prefetch m, []) (Files m, []) true
        end in
    (mkManifest (artifactID d) (version d) (mountPath d)
                (fst (prefetch d)) (fst (files d)),
     if failed d then Some UnmarshalTypeError else None)
  end.

(** The zero value [var m Manifest]. *)
Definition zeroManifest : Manifest := mkManifest [] [] [] None None.

(** [Load]; [readFile] is [os.ReadFile] on the file system at hand. *)
Definition Load (readFile : gostring -> errno + gostring) (path : gostring)
  : option Manifest * option error :=
  match readFile path with
  | inl err => (None, Some (Sys err))
  | inr data =>
    let '(m, err) := Unmarshal data zeroManifest in
    match err with
    | Some err => (None, Some err)
    | None => (Some m, None)
    end
  end.

(** *** hash.go *)

(** [io.Copy(hasher, file)]: every chunk read is written to the hasher;
    a read error ends the copy. *)
Definition copy (hasher : Sha256.digest) (s : stream)
  : Sha256.digest * option error :=
  (fold_left Sha256.Write (chunks s) hasher, option_map Sys (final s)).

(** What [os.Open(path)] and reading the file yield. *)
Definition Open (path : pathref) : errno + stream :=
  match target path with
  | NoEntry e => inl e
  | OS.File _ _ data => data
  | Dir _ _ => inr (mkStream [] (Some EISDIR))
  end.

(** [hashFile]. *)
Definition hashFile (path : pathref) : gostring * option error :=
  match Open path with
  | inl err => ([], Some (Sys err))
  | inr file =>
    let hasher := Sha256.New in
    let '(hasher, err) := copy hasher file in
    match err with
    | Some err => ([], Some err)
    | None => (Hex.EncodeToString (Sha256.Sum hasher), None)
    end
  end.

(** *** generate.go *)

(** The loop of [normalizePrefetchPaths], with the slice [normalized]
    as accumulator. *)
Fixpoint normalizeLoop (os : GOOS) (paths : list gostring)
         (normalized : goslice gostring) : goslice gostring :=
  match paths with
  | [] => normalized
  | p :: paths' =>
    let p := TrimSpace p in
    if isEmpty p then normalizeLoop os paths' normalized
    else
      let p := ToSlash os p in
      normalizeLoop os paths' (append normalized p)
  end.

(** [normalizePrefetchPaths]: [make([]string, 0, len(paths))] is an
    empty non-nil slice. *)
Definition normalizePrefetchPaths (os : GOOS) (paths : goslice gostring)
  : goslice gostring :=
  normalizeLoop os (elems paths) (Some []).

(** The function literal that [Generate] passes to [filepath.Walk]; it
    closes over [urlPrefix] and updates [manifest.Files]. *)
Definition walkFn (os : GOOS) (urlPrefix : gostring)
  : WalkFunc Manifest :=
  fun path info err manifest =>
    match err with
    | Some err => (manifest, Some err)
    | None =>
      (* Skip directories *)
      if OS.IsDir info then (manifest, None)
      (* Skip hidden files (starting with .) *)
      else if HasPrefix (OS.Name info) (lit ".") then (manifest, None)
      (* Skip symlinks *)
      else if OS.ModeSymlink info then (manifest, None)
      else
        let '(relPath, err) := Rel os path in
        match err with
        | Some err =>
          (manifest,
           Some (Errorf "failed to compute relative path: %w" None (Some err)))
        | None =>
          let relPath := ToSlash os relPath in
          let '(hash, err) := hashFile path in
          match err with
          | Some err =>
            (manifest,
             Some (Errorf "failed to hash file %s: %w" (Some relPath)
                          (Some err)))
          | None =>
            let fileURL := urlPrefix ++ lit "/" ++ relPath in
            (mkManifest (ArtifactID manifest) (Version manifest)
                        (MountPath manifest) (Prefetch manifest)
                        (append (Files manifest)
                                (mkFile relPath fileURL (OS.Size info) hash
                                        (lit "none"))),
             None)
          end
        end
    end.

(** [Generate]: the pair of a Manifest pointer and an error it returns, [None] for
    [nil]. *)
Definition Generate (fs : FileSystem) (os : GOOS)
           (dir id version urlPrefix : gostring)
           (prefetchPaths : goslice gostring)
  : option Manifest * option error :=
  (* Validate inputs *)
  if isEmpty id || isEmpty version then
    (None, Some (Errorf "id and version are required" None None))
  else
    (* Check that directory exists *)
    match Stat (fs dir) with
    | inl err =>
      (None, Some (Errorf "cannot access directory: %w" None (Some (Sys err))))
    | inr info =>
      if negb (OS.IsDir info) then
        (None, Some (Errorf "path is not a directory: %s" (Some dir) None))
      (* Validate URL prefix *)
      else if negb (HasPrefix urlPrefix (lit "http://"))
              && negb (HasPrefix urlPrefix (lit "https://")) then
        (None,
         Some (Errorf "url-prefix must start with http:// or https://"
                      None None))
      else
        (* Strip trailing slash from URL prefix *)
        let urlPrefix := TrimSuffix urlPrefix (lit "/") in
        (* Initialize manifest *)
        let manifest :=
            mkManifest id version (lit "/mnt/mlmodel")
                       (normalizePrefetchPaths os prefetchPaths)
                       (Some []) in
        (* Walk directory tree *)
        let '(manifest, err) :=
            Walk (walkFn os urlPrefix) (fs dir) manifest in
        match err with
        | Some err =>
          (None, Some (Errorf "failed to walk directory: %w" None (Some err)))
        | None => (Some manifest, None)
        end
    end.

End Manifest.

(** ** Predicates of the description *)

Module Descr.
Import Utf8 Unicode Errors OS.

(** A string made of white space only: a sequence of encodings of runes
    that [unicode.IsSpace] accepts. *)
Inductive Spaces : gostring -> Prop :=
| Spaces_nil : Spaces []
| Spaces_cons (enc rest : gostring) (r : rune) :
    enc <> [] ->
    DecodeRuneInString enc = (r, length enc) ->
    IsSpace r = true ->
    Spaces rest ->
    Spaces (enc ++ rest).

(** No leading white space: the first rune is not a space. *)
Definition LeftTrimmed (t : gostring) : Prop :=
  t = [] \/ IsSpace (fst (DecodeRuneInString t)) = false.

(** No trailing white space: the last rune is not a space. *)
Definition RightTrimmed (t : gostring) : Prop :=
  t = [] \/ IsSpace (fst (DecodeLastRuneInString t)) = false.

(** What [filepath.ToSlash] does to one byte. *)
Definition slashByte (os : Filepath.GOOS) (c : byte) : byte :=
  if Ascii.eqb c (Filepath.Separator os) then "/"%char else c.

(** The elements [normalizePrefetchPaths] keeps, in their order: every
    element trimmed, the empty ones dropped, separators turned into
    slashes. *)
Definition normalized (os : Filepath.GOOS) (paths : list gostring)
  : list gostring :=
  map (Filepath.ToSlash os)
      (filter (fun p => negb (isEmpty p)) (map Strings.TrimSpace paths)).

(** *** Paths and URLs *)

Definition slash : byte := "/"%char.

(** The last segment of a slash-separated path: what follows its last
    slash. *)
Fixpoint baseName (p : gostring) : gostring :=
  match p with
  | [] => []
  | c :: p' =>
    if existsb (Ascii.eqb slash) p' then baseName p'
    else if Ascii.eqb c slash then p' else p
  end.

(** The segments of a slash-separated path. *)
Fixpoint segments (p : gostring) : list gostring :=
  match p with
  | [] => [[]]
  | c :: p' =>
    if Ascii.eqb c slash then [] :: segments p'
    else match segments p' with
         | [] => [[c]]
         | seg :: segs => (c :: seg) :: segs
         end
  end.

(** Some segment of the path begins with a dot. *)
Definition hasDotSegment (p : gostring) : bool :=
  existsb (fun seg => Strings.HasPrefix seg (lit ".")) (segments p).



(** A name that a directory can hold on the given system: not empty, and
    free of slashes and of the separator. *)
Definition validName (os : Filepath.GOOS) (n : gostring) : bool :=
  negb (isEmpty n)
  && negb (existsb (Ascii.eqb slash) n)
  && negb (existsb (Ascii.eqb (Filepath.Separator os)) n).

(** All names in the tree are valid. *)
Fixpoint validTree (os : Filepath.GOOS) (n : node) : bool :=
  match n with
  | Dir _ entries =>
    forallb (fun e => validName os (fst e) && validTree os (snd e)) entries
  | _ => true
  end.

(** A file that is neither a directory nor a symbolic link. *)
Definition plainFile (n : node) : bool :=
  match n with OS.File false _ _ => true | _ => false end.

(** *** The retained files *)

(** The entries below [n] that are neither directories, nor hidden, nor
    symbolic links, in the order of the walk, each with the path [Walk]
    hands out for it and its [FileInfo]. *)
Fixpoint retained (below : list gostring) (name : gostring) (n : node)
  : list (pathref * FileInfo) :=
  match n with
  | NoEntry _ => []
  | OS.File symlink _ _ =>
    if Strings.HasPrefix name (lit ".") || symlink then []
    else [(mkPath below n, infoOf name n)]
  | Dir _ entries =>
    flat_map (fun e => retained (below ++ [fst e]) (fst e) (snd e)) entries
  end.

(** The [File] record of a retained file, for the canonical URL prefix
    [u]. *)
Definition fileRecord (os : Filepath.GOOS) (u : gostring)
           (e : pathref * FileInfo) : Manifest.File :=
  let relPath := Filepath.ToSlash os (fst (Walk.Rel os (fst e))) in
  Manifest.mkFile relPath (u ++ lit "/" ++ relPath) (OS.Size (snd e))
                  (fst (Manifest.hashFile (fst e))) (lit "none").

(** *** SHA-256 (FIPS 180-4)

    The digest of a message: the message is padded with the byte [0x80],
    zero bytes up to 56 modulo 64, and its length in bits as a 64-bit
    big-endian number; the compression function is folded over the
    64-byte blocks of the result, from the initial hash value; the eight
    words of the final hash value are written big-endian.  (The length is
    taken modulo [2^64], as the [uint64] counter of the Go package does;
    the standard leaves longer messages undefined.) *)

Definition padding (n : nat) : gostring :=
  let len := Z.of_nat n in
  let zeros := Z.to_nat ((55 - len) mod 64) in
  ascii_of_N 128 :: repeat zero zeros
             ++ Sha256.beBytes 8 ((8 * len) mod 2 ^ 64)%Z.

Definition sha256 (msg : gostring) : gostring :=
  flat_map (Sha256.beBytes 4)
           (Sha256.block Sha256.init (msg ++ padding (length msg))).

(** A lowercase hexadecimal digit. *)
Definition lowerHex (c : byte) : bool :=
  let n := val c in
  (((48 <=? n) && (n <=? 57)) || ((97 <=? n) && (n <=? 102)))%N.

(** *** Valid manifests *)

(** [utf8.ValidString]: every rune of the string is decoded from a valid
    encoding. *)
Fixpoint validUtf8Loop (fuel : nat) (s : gostring) : bool :=
  match fuel with
  | O => isEmpty s
  | S fuel' =>
    match s with
    | [] => true
    | _ :: _ =>
      let '(r, size) := DecodeRuneInString s in
      negb ((r =? RuneError)%Z && (size =? 1))
      && validUtf8Loop fuel' (skipn size s)
    end
  end.

Definition validUtf8 (s : gostring) : bool := validUtf8Loop (length s) s.

(** The range of [int64]. *)
Definition isInt64 (n : Z) : bool :=
  ((- 2 ^ 63 <=? n) && (n <? 2 ^ 63))%Z.

Definition validFile (f : Manifest.File) : bool :=
  validUtf8 (Manifest.Path f) && validUtf8 (Manifest.URL f)
  && isInt64 (Manifest.Size f)
  && validUtf8 (Manifest.SHA256 f) && validUtf8 (Manifest.Compression f).

(** A valid manifest: its strings are texts, that is, valid UTF-8, and
    its sizes are [int64] values. *)
Definition validManifest (m : Manifest.Manifest) : bool :=
  validUtf8 (Manifest.ArtifactID m) && validUtf8 (Manifest.Version m)
  && validUtf8 (Manifest.MountPath m)
  && forallb validUtf8 (Manifest.elems (Manifest.Prefetch m))
  && forallb validFile (Manifest.elems (Manifest.Files m)).

(** *** Objects without sequences *)

(** A value that a string field takes: a string, or [null], which leaves
    the field as it is. *)
Definition stringish (v : Json.value) : bool :=
  match v with
  | Json.String _ | Json.Null => true
  | _ => false
  end.

(** The members of an object none of whose keys matches [prefetch] or
    [files], exactly or up to the case of letters, and in which the keys
    that match [artifact_id], [version] and [mount_path] hold strings or
    [null]. *)
Definition scalarsOnly (members : list (gostring * Json.value)) : bool :=
  forallb (fun member =>
             match Json.fieldIndex Manifest.manifestFields (fst member) with
             | None => true
             | Some 3 | Some 4 => false
             | Some _ => stringish (snd member)
             end) members.

(** No key of the members matches the field of the given index, exactly
    or up to the case of letters. *)
Definition unmatched (field : nat) (members : list (gostring * Json.value))
  : bool :=
  forallb (fun member =>
             match Json.fieldIndex Manifest.manifestFields (fst member) with
             | None => true
             | Some i => negb (i =? field)
             end) members.

(** *** Failures *)

(** Opening or reading the file fails. *)
Definition unreadable (data : errno + stream) : bool :=
  match data with
  | inl _ => true
  | inr s => match final s with Some _ => true | None => false end
  end.

(** Something fails while the entry [name], found to be [n], is walked and
    its retained files are hashed: an [Lstat] fails, a directory cannot be
    read, or a file that is neither hidden nor a symbolic link cannot be
    opened or read to its end. *)
Fixpoint fails (name : gostring) (n : node) : bool :=
  match n with
  | NoEntry _ => true
  | OS.File symlink _ data =>
    negb (Strings.HasPrefix name (lit ".")) && negb symlink
    && unreadable data
  | Dir (Some _) _ => true
  | Dir None entries => existsb (fun e => fails (fst e) (snd e)) entries
  end.

Definition walkFails (v : View) : bool := fails (base v) (root v).

(** The kinds of error of the description.  The package itself returns
    plain [fmt.Errorf] values; their kind is read off the place they come
    from, that is, their format. *)
Inductive ErrorKind :=
| ValidationError | FilesystemError | HashError | SerializationError
| OtherError.

Definition kindOf (e : error) : ErrorKind :=
  match e with
  | Errorf f _ w =>
    if String.eqb f "id and version are required" then ValidationError
    else if String.eqb f "url-prefix must start with http:// or https://"
    then ValidationError
    else if String.eqb f "cannot access directory: %w" then FilesystemError
    else if String.eqb f "path is not a directory: %s" then FilesystemError
    else if String.eqb f "failed to walk directory: %w" then
      match w with
      | Some (Errorf g _ _) =>
        if String.eqb g "failed to hash file %s: %w" then HashError
        else FilesystemError
      | _ => FilesystemError
      end
    else OtherError
  | SyntaxError | UnmarshalTypeError => SerializationError
  | _ => OtherError
  end.

(** *** More on trees and texts *)

(** No string occurs twice in the list. *)
Fixpoint nodupb (l : list gostring) : bool :=
  match l with
  | [] => true
  | x :: l' => negb (existsb (GoString.eqb x) l') && nodupb l'
  end.

(** The entries of every directory have distinct names. *)
Fixpoint distinctNames (n : node) : bool :=
  match n with
  | Dir _ entries =>
    nodupb (map fst entries)
    && forallb (fun e => distinctNames (snd e)) entries
  | _ => true
  end.

(** The names of the tree are valid UTF-8, and the sizes of its files are
    [int64] values. *)
Fixpoint textTree (n : node) : bool :=
  match n with
  | NoEntry _ => true
  | OS.File _ size _ => isInt64 size
  | Dir _ entries =>
    forallb (fun e => validUtf8 (fst e) && textTree (snd e)) entries
  end.

(** The error of [hashFile] on a file, as the callback of [Generate]
    wraps it. *)
Definition hashError (relPath : gostring) (e : errno) : error :=
  Errorf "failed to hash file %s: %w" (Some relPath) (Some (Sys e)).

(** The first thing that fails while the entry [name] at [below], found to
    be [n], is walked and its retained files are hashed, in the order of
    the walk: the failure of an [Lstat] or of reading a directory, or the
    failure of opening or reading a file that is neither hidden nor a
    symbolic link, with the path recorded for that file. *)
Fixpoint firstError (os : Filepath.GOOS) (below : list gostring)
         (name : gostring) (n : node) : option error :=
  match n with
  | NoEntry e => Some (Sys e)
  | OS.File symlink _ data =>
    if Strings.HasPrefix name (lit ".") || symlink then None
    else
      let relPath :=
          Filepath.ToSlash os (fst (Walk.Rel os (mkPath below n))) in
      match data with
      | inl e => Some (hashError relPath e)
      | inr s => option_map (hashError relPath) (final s)
      end
  | Dir (Some e) _ => Some (Sys e)
  | Dir None entries =>
    (fix first (es : list (gostring * node)) : option error :=
       match es with
       | [] => None
       | e :: es' =>
         match firstError os (below ++ [fst e]) (fst e) (snd e) with
         | Some x => Some x
         | None => first es'
         end
       end) entries
  end.

(** A byte that is the line feed, or that is not below [0x20] and is none
    of [<], [>] and [&].  The bytes below [0x20] are the ASCII control
    characters U+0000 to U+001F; the byte [0x7F] and the bytes of the
    encodings of U+0080 to U+009F pass. *)
Definition textByte (c : byte) : bool :=
  (val c =? 10)%N
  || ((32 <=? val c)%N
      && negb (Ascii.eqb c "<"%char || Ascii.eqb c ">"%char
               || Ascii.eqb c "&"%char)).

(** The encoding of the replacement character U+FFFD. *)
Definition replacement : gostring :=
  [ascii_of_N 239; ascii_of_N 191; ascii_of_N 189].

(** The string with every byte that starts no valid encoding replaced by
    the replacement character. *)
Fixpoint replaceInvalidLoop (fuel : nat) (s : gostring) : gostring :=
  match fuel with
  | O => []
  | S fuel' =>
    match s with
    | [] => []
    | _ :: _ =>
      let '(r, size) := DecodeRuneInString s in
      (if (r =? RuneError)%Z && (size =? 1) then replacement
       else firstn size s)
        ++ replaceInvalidLoop fuel' (skipn size s)
    end
  end.

Definition replaceInvalid (s : gostring) : gostring :=
  replaceInvalidLoop (length s) s.

Definition replaceInvalidFile (f : Manifest.File) : Manifest.File :=
  Manifest.mkFile (replaceInvalid (Manifest.Path f))
                  (replaceInvalid (Manifest.URL f)) (Manifest.Size f)
                  (replaceInvalid (Manifest.SHA256 f))
                  (replaceInvalid (Manifest.Compression f)).

(** The manifest with all its strings made valid. *)
Definition replaceInvalidManifest (m : Manifest.Manifest)
  : Manifest.Manifest :=
  Manifest.mkManifest
    (replaceInvalid (Manifest.ArtifactID m))
    (replaceInvalid (Manifest.Version m))
    (replaceInvalid (Manifest.MountPath m))
    (option_map (map replaceInvalid) (Manifest.Prefetch m))
    (option_map (map replaceInvalidFile) (Manifest.Files m)).

End Descr.

(** ** Auxiliary notions of the proofs *)

Module Aux.
Import Utf8 Unicode Strings Filepath Errors OS Walk Manifest Descr.

(** A continuation byte, [0x80..0xBF]. *)
Definition cont (b : byte) : bool :=
  ((128 <=? val b) && (val b <=? 191))%N.

(** The string is empty or starts with a byte that is no continuation
    byte. *)
Definition startsRune (y : gostring) : bool :=
  match y with [] => true | b :: _ => negb (cont b) end.

(** The manifest with another value of [Files]. *)
Definition setFiles (m : Manifest) (files : goslice File) : Manifest :=
  mkManifest (ArtifactID m) (Version m) (MountPath m) (Prefetch m) files.

(** The outcome of walking a node: an error exactly when something below
    fails, and else the records of the retained files appended to the
    manifest, whose files were [l]. *)
Definition walked (os : GOOS) (u : gostring) (m : Manifest)
           (l : list File) (failing : bool)
           (kept : list (pathref * FileInfo))
           (r : Manifest * option error) : Prop :=
  match r with
  | (m', None) =>
    failing = false
    /\ m' = setFiles m (Some (l ++ map (fileRecord os u) kept))
  | (m', Some e) =>
    failing = true /\ isSkipDir e = false /\ isSkipAll e = false
  end.

(** The inputs pass the validation of [Generate]. *)
Definition validInputs (fs : FileSystem) (dir id version urlPrefix : gostring)
  : bool :=
  negb (isEmpty id || isEmpty version)
  && match Stat (fs dir) with
     | inl _ => false
     | inr info => OS.IsDir info
     end
  && (HasPrefix urlPrefix (lit "http://")
      || HasPrefix urlPrefix (lit "https://")).

(** The manifest of a successful run. *)
Definition generated (fs : FileSystem) (os : GOOS)
           (dir id version urlPrefix : gostring)
           (prefetchPaths : goslice gostring) : Manifest :=
  mkManifest id version (lit "/mnt/mlmodel")
             (normalizePrefetchPaths os prefetchPaths)
             (Some (map (fileRecord os (TrimSuffix urlPrefix (lit "/")))
                        (retained [] (base (fs dir)) (root (fs dir))))).

(** Names joined by slashes. *)
Fixpoint joinSlash (names : list gostring) : gostring :=
  match names with
  | [] => []
  | [n] => n
  | n :: rest => n ++ slash :: joinSlash rest
  end.

Definition startsSlash (s : gostring) : bool :=
  match s with c :: _ => Ascii.eqb c slash | [] => false end.

Definition endsSlash (s : gostring) : bool := startsSlash (rev s).

(** The string without its last byte when that is a slash. *)
Definition trimSlash (s : gostring) : gostring :=
  if endsSlash s then removelast s else s.


(** The path recorded for a retained file. *)
Definition relOf (os : GOOS) (p : pathref) : gostring :=
  ToSlash os (fst (Rel os p)).

(** The state of a [digest] that has been fed the bytes [D]: the blocks
    of [A] have been compressed into [h], the rest [x] is buffered. *)
Definition fed (D : gostring) (d : Sha256.digest) : Prop :=
  exists A,
    D = A ++ Sha256.x d
    /\ length A mod Sha256.chunk = 0
    /\ length (Sha256.x d) < Sha256.chunk
    /\ Sha256.h d = Sha256.block Sha256.init A
    /\ Sha256.len d = (Z.of_nat (length D) mod 2 ^ 64)%Z.

(** The second loop of [unquoteBytes] with all the fuel it needs. *)
Definition unquoteAll (t : gostring) : option gostring :=
  Json.unquoteLoop (length t) t.

(** What [scanString] returns, with [p] before it. *)
Definition prepend (p : gostring) (q : gostring * gostring)
  : gostring * gostring := (p ++ fst q, snd q).

(** A byte that ends a number literal. *)
Definition delimByte (c : byte) : bool :=
  negb (Json.isDigit c || Ascii.eqb c "."%char || Ascii.eqb c "e"%char
        || Ascii.eqb c "E"%char).

Definition delim (rest : gostring) : bool :=
  match rest with [] => true | c :: _ => delimByte c end.

Definition startsDelim (x : gostring) : bool :=
  match x with [] => false | c :: _ => delimByte c end.

(** The scanner reads [x] as the tokens [ts], whatever follows it. *)
Definition lexes (x : gostring) (ts : list Json.token) : Prop :=
  forall (rest : gostring) (t : list Json.token) (f F : nat),
    delim rest = true -> Json.lex f rest = Some t -> length x + f <= F ->
    Json.lex F (x ++ rest) = Some (ts ++ t).

(** The same, for a first part that no number ends: what follows it need
    not be a delimiter. *)
Definition lexesAny (x : gostring) (ts : list Json.token) : Prop :=
  forall (rest : gostring) (t : list Json.token) (f F : nat),
    Json.lex f rest = Some t -> length x + f <= F ->
    Json.lex F (x ++ rest) = Some (ts ++ t).

(** The literal of an integer: an optional minus, then [0] or digits that
    do not start with [0]. *)
Definition isIntLit (l : gostring) : bool :=
  let body :=
      match l with
      | c :: r => if Ascii.eqb c "-"%char then r else l
      | [] => l
      end in
  match body with
  | [] => false
  | c :: r =>
    if Ascii.eqb c "0"%char then isEmpty r
    else Json.isDigit c && forallb Json.isDigit r
  end.

(** The raw bytes of the string literal of [s]. *)
Definition raw (s : gostring) : gostring := Json.quoteLoop (length s) s.

(** The tokens of the text of a value. *)
Fixpoint toks (v : Json.value) : list Json.token :=
  match v with
  | Json.Null => [Json.TNull]
  | Json.Bool true => [Json.TTrue]
  | Json.Bool false => [Json.TFalse]
  | Json.Number l => [Json.TNumber l]
  | Json.String s => [Json.TString (raw s)]
  | Json.Array [] => [Json.TLBracket; Json.TRBracket]
  | Json.Array (v :: vs) =>
    Json.TLBracket :: toks v
      ++ flat_map (fun v => Json.TComma :: toks v) vs ++ [Json.TRBracket]
  | Json.Object [] => [Json.TLBrace; Json.TRBrace]
  | Json.Object ((k, v) :: ms) =>
    Json.TLBrace :: Json.TString (raw k) :: Json.TColon :: toks v
      ++ flat_map (fun m => Json.TComma :: Json.TString (raw (fst m))
                                        :: Json.TColon :: toks (snd m)) ms
      ++ [Json.TRBrace]
  end.

(** A value whose strings are valid UTF-8 and whose numbers are integer
    literals. *)
Fixpoint wfValue (v : Json.value) : bool :=
  match v with
  | Json.Null | Json.Bool _ => true
  | Json.Number l => isIntLit l
  | Json.String s => validUtf8 s
  | Json.Array vs => forallb wfValue vs
  | Json.Object ms =>
    forallb (fun m => validUtf8 (fst m) && wfValue (snd m)) ms
  end.

(** The number of arrays and objects around the innermost value. *)
Fixpoint height (v : Json.value) : nat :=
  match v with
  | Json.Array vs => S (fold_right (fun v h => Nat.max (height v) h) 0 vs)
  | Json.Object ms =>
    S (fold_right (fun m h => Nat.max (height (snd m)) h) 0 ms)
  | _ => 0
  end.

(** A token that starts a value. *)
Definition opener (t : Json.token) : bool :=
  match t with
  | Json.TRBracket | Json.TRBrace | Json.TColon | Json.TComma => false
  | _ => true
  end.

(** The parser reads the tokens of [v] as [v], with fuel for them and
    room for the nesting of [v]. *)
Definition parsesAt (v : Json.value) : Prop :=
  forall (fuel depth : nat) (rest : list Json.token),
    length (toks v) < fuel -> depth + height v <= Json.maxNestingDepth ->
    Json.parseValue fuel depth (toks v ++ rest) = Some (v, rest).

(** A value whose numbers are integer literals; its strings are any
    bytes. *)
Fixpoint intNumbers (v : Json.value) : bool :=
  match v with
  | Json.Number l => isIntLit l
  | Json.Array vs => forallb intNumbers vs
  | Json.Object ms => forallb (fun m => intNumbers (snd m)) ms
  | _ => true
  end.

(** The value with all its strings and keys made valid. *)
Fixpoint replaceValue (v : Json.value) : Json.value :=
  match v with
  | Json.String s => Json.String (replaceInvalid s)
  | Json.Array vs => Json.Array (map replaceValue vs)
  | Json.Object ms =>
    Json.Object (map (fun m => (replaceInvalid (fst m), replaceValue (snd m)))
                     ms)
  | _ => v
  end.

(** The parser reads the tokens of [v] as [v] with its strings made
    valid. *)
Definition parsesTo (v : Json.value) : Prop :=
  forall (fuel depth : nat) (rest : list Json.token),
    length (toks v) < fuel -> depth + height v <= Json.maxNestingDepth ->
    Json.parseValue fuel depth (toks v ++ rest)
    = Some (replaceValue v, rest).

End Aux.

(** ** Example directories *)

Module Examples.
Import Errors OS Manifest.

(** A readable regular file with the given content. *)
Definition regular (content : string) : node :=
  OS.File false (Z.of_nat (String.length content))
          (inr (mkStream [lit content] None)).

(** A directory argument that [os.Stat] finds to be a directory. *)
Definition directory (name : string) (entries : list (gostring * node))
  : View :=
  mkView (inr (mkInfo (lit name) 4096 true false)) (lit name)
         (Dir None entries).

(** A checkout: the directory [.git] holds the file [config]. *)
Definition fsCheckout : FileSystem :=
  fun _ => directory "repo"
                     [ (lit ".git", Dir None [(lit "config", regular "x")]) ].

(** One file, [test.txt]. *)
Definition fsOne : FileSystem :=
  fun _ => directory "model" [ (lit "test.txt", regular "test") ].

(** Two files, the second of which cannot be read to its end. *)
Definition fsBroken : FileSystem :=
  fun _ => directory "model"
                     [ (lit "a.txt", regular "a");
                       (lit "b.txt",
                        OS.File false 1 (inr (mkStream [] (Some EIO)))) ].

(** A path that is no directory, and one that does not exist. *)
Definition fsNotDir : FileSystem :=
  fun _ => mkView (inr (mkInfo (lit "f") 1 false false)) (lit "f")
                  (regular "x").

Definition fsMissing : FileSystem :=
  fun _ => mkView (inl ENOENT) (lit "nowhere") (NoEntry ENOENT).

(** A manifest with one file. *)
Definition manifestOne : Manifest :=
  mkManifest (lit "test-id") (lit "v1.0") (lit "/mnt/mlmodel")
             (Some [lit "message.txt"])
             (Some [mkFile (lit "message.txt")
                           (lit "https://example.com/test/message.txt") 10
                           (lit "2d711642b726b04401627ca9fbac32f5c8530fb1903cc4db02258717921a4881")
                           (lit "none")]).

(** A manifest whose identifier is the single byte [0xFF], which is no
    UTF-8, and the manifest whose identifier is the replacement
    character U+FFFD. *)
Definition manifestBadText : Manifest :=
  mkManifest [ascii_of_N 255] (lit "v1") (lit "/mnt/mlmodel")
             (Some []) (Some []).

Definition manifestReplaced : Manifest :=
  mkManifest [ascii_of_N 239; ascii_of_N 191; ascii_of_N 189] (lit "v1")
             (lit "/mnt/mlmodel") (Some []) (Some []).

(** A key, or a string, between quotation marks. *)
Definition quoted (s : string) : gostring :=
  "034"%char :: lit s ++ ["034"%char].

(** The text of the empty object. *)
Definition textEmptyObject : gostring := lit "{}".

(** An object whose only member is a version that is a number. *)
Definition textVersionNumber : gostring :=
  lit "{" ++ quoted "version" ++ lit ": 1}".

(** An object whose keys are those of the sequences in upper case. *)
Definition textUpperKeys : gostring :=
  lit "{" ++ quoted "PREFETCH" ++ lit ": [], " ++ quoted "FILES"
      ++ lit ": []}".

(** A file system on which every path holds the given bytes. *)
Definition fileWith (data : gostring) : gostring -> errno + gostring :=
  fun _ => inr data.

(** A file at the top and a file in a subdirectory. *)
Definition fsNested : FileSystem :=
  fun _ => directory "model"
                     [ (lit "root.txt", regular "root");
                       (lit "subdir",
                        Dir None [(lit "nested.txt", regular "nested")]) ].

(** A file that cannot be opened below a directory, before a directory
    that cannot be read. *)
Definition fsDenied : FileSystem :=
  fun _ => directory "model"
                     [ (lit "a",
                        Dir None [(lit "b.bin", OS.File false 1 (inl EACCES))]);
                       (lit "c", Dir (Some EACCES) []) ].

(** A file whose name is in Latin-1: the byte [0xE9] stands for the last
    letter of the word, and is no UTF-8. *)
Definition fsLatin1 : FileSystem :=
  fun _ => directory "model"
                     [ (lit "caf" ++ [ascii_of_N 233] ++ lit ".txt",
                        regular "x") ].

End Examples.

(* ===================================================================== *)
(** * Properties *)
(* ===================================================================== *)

Module Utf8Facts.
Import Utf8 Unicode Aux.

Lemma val_lt_256 (b : byte) : (val b < 256)%N.
Proof. apply N_ascii_bounded. Qed.

Lemma first_cases (b : byte) :
  (first b = as_ /\ (val b < 128)%N)
  \/ (first b = xx /\ (128 <= val b)%N)
  \/ (In (first b) [s1; s2; s3; s4; s5; s6; s7] /\ (194 <= val b)%N).
Proof.
  unfold first.
  repeat match goal with
         | |- context [(?a <? ?c)%N] => destruct (N.ltb_spec a c)
         | |- context [(?a =? ?c)%N] => destruct (N.eqb_spec a c)
         end; simpl; try (left; split; [reflexivity | lia]);
    try (right; left; split; [reflexivity | lia]);
    right; right; (split; [tauto | lia]).
Qed.

Ltac class_consts :=
  change (N.to_nat (N.land s1 7)) with 2 in *;
  change (N.to_nat (N.land s2 7)) with 3 in *;
  change (N.to_nat (N.land s3 7)) with 3 in *;
  change (N.to_nat (N.land s4 7)) with 3 in *;
  change (N.to_nat (N.land s5 7)) with 4 in *;
  change (N.to_nat (N.land s6 7)) with 4 in *;
  change (N.to_nat (N.land s7 7)) with 4 in *;
  change (acceptRanges (N.shiftr s1 4)) with (128%N, 191%N) in *;
  change (acceptRanges (N.shiftr s2 4)) with (160%N, 191%N) in *;
  change (acceptRanges (N.shiftr s3 4)) with (128%N, 191%N) in *;
  change (acceptRanges (N.shiftr s4 4)) with (128%N, 159%N) in *;
  change (acceptRanges (N.shiftr s5 4)) with (144%N, 191%N) in *;
  change (acceptRanges (N.shiftr s6 4)) with (128%N, 191%N) in *;
  change (acceptRanges (N.shiftr s7 4)) with (128%N, 143%N) in *;
  change locb with 128%N in *; change hicb with 191%N in *;
  change (as_ <=? as_)%N with true in *;
  change (as_ <=? xx)%N with true in *;
  change (as_ <=? s1)%N with false in *;
  change (as_ <=? s2)%N with false in *;
  change (as_ <=? s3)%N with false in *;
  change (as_ <=? s4)%N with false in *;
  change (as_ <=? s5)%N with false in *;
  change (as_ <=? s6)%N with false in *;
  change (as_ <=? s7)%N with false in *;
  change (as_ =? xx)%N with false in *;
  change (xx =? xx)%N with true in *;
  cbn [fst snd Nat.leb Nat.ltb length at_ nth firstn skipn app] in *.

(** Case analysis on the class of the first byte [b] of the strings
    being decoded, with the decoder unfolded. *)
Ltac by_class b :=
  let H := fresh "Hfirst" in
  let Hv := fresh "Hval" in
  destruct (first_cases b) as [[H Hv] | [[H Hv] | [H Hv]]];
  [ | | simpl in H;
        repeat (destruct H as [H | H]; [symmetry in H | ]);
        [ .. | contradiction ] ];
  unfold DecodeRuneInString in *;
  cbn [length at_ nth firstn skipn app] in *;
  repeat match goal with
         | K : context [first b] |- _ =>
           lazymatch K with H => fail | _ => rewrite H in K end
         end;
  rewrite ?H; class_consts.

Ltac split_ifs :=
  repeat match goal with
         | |- context [if ?c then _ else _] => destruct c eqn:?
         | H : context [if ?c then _ else _] |- _ => destruct c eqn:?
         end.

(** Boolean comparisons in the context, as propositions. *)
Ltac to_props :=
  unfold outside, cont in *;
  repeat match goal with
         | H : (_ || _)%bool = true |- _ =>
           apply orb_true_iff in H; destruct H
         | H : (_ || _)%bool = false |- _ =>
           apply orb_false_iff in H; destruct H
         | H : (_ && _)%bool = true |- _ =>
           apply andb_true_iff in H; destruct H
         | H : (_ && _)%bool = false |- _ =>
           apply andb_false_iff in H; destruct H
         | H : negb _ = true |- _ => apply negb_true_iff in H
         | H : negb _ = false |- _ => apply negb_false_iff in H
         | H : (_ <=? _) = true |- _ => apply Nat.leb_le in H
         | H : (_ <=? _) = false |- _ => apply Nat.leb_gt in H
         | H : (_ <? _) = true |- _ => apply Nat.ltb_lt in H
         | H : (_ <? _) = false |- _ => apply Nat.ltb_ge in H
         | H : (_ =? _) = true |- _ => apply Nat.eqb_eq in H
         | H : (_ =? _) = false |- _ => apply Nat.eqb_neq in H
         | H : (_ <=? _)%N = true |- _ => apply N.leb_le in H
         | H : (_ <=? _)%N = false |- _ => apply N.leb_gt in H
         | H : (_ <? _)%N = true |- _ => apply N.ltb_lt in H
         | H : (_ <? _)%N = false |- _ => apply N.ltb_ge in H
         | H : (_ =? _)%N = true |- _ => apply N.eqb_eq in H
         | H : (_ =? _)%N = false |- _ => apply N.eqb_neq in H
         end.

(** The four shapes of a string the decoder distinguishes. *)
Ltac shapes t :=
  let b1 := fresh "b1" in
  let b2 := fresh "b2" in
  let b3 := fresh "b3" in
  destruct t as [|b1 [|b2 [|b3 t]]].

Ltac finish :=
  split_ifs; to_props; subst;
  try congruence; try discriminate; try reflexivity; try lia; try tauto.

Lemma decode_ascii (b : byte) (t : gostring) :
  (val b < 128)%N -> DecodeRuneInString (b :: t) = (Z.of_N (val b), 1).
Proof.
  intros Hb. by_class b; try lia; reflexivity.
Qed.

Lemma decode_size (s : gostring) :
  s <> [] -> 1 <= snd (DecodeRuneInString s) <= length s.
Proof.
  destruct s as [|b t]; [congruence|]. intros _.
  by_class b; finish; cbn [snd]; lia.
Qed.

Lemma decode_single (b : byte) :
  (128 <= val b)%N -> DecodeRuneInString [b] = (RuneError, 1).
Proof.
  intros Hb. by_class b; finish.
Qed.

Ltac use_conds :=
  repeat match goal with
         | H : ?c = _ |- context [if ?c then _ else _] => rewrite H
         end.

(** Decoding looks at the encoding only: the bytes after it do not
    matter. *)
Lemma decode_firstn (s : gostring) (r : rune) (size : nat) :
  DecodeRuneInString s = (r, size) ->
  DecodeRuneInString (firstn size s) = (r, size).
Proof.
  destruct s as [|b t]; [intros H; inversion H; reflexivity|].
  intros H. shapes t; by_class b.
  all: split_ifs; try discriminate; inversion H; subst; clear H;
    cbn [firstn length at_ nth Nat.ltb Nat.leb]; rewrite ?Hfirst;
    class_consts; use_conds; try reflexivity; try congruence.
Qed.

(** Bytes appended after a non-empty string do not change its first rune
    when they do not start with a continuation byte. *)
Lemma decode_app (s y : gostring) :
  s <> [] -> startsRune y = true ->
  DecodeRuneInString (s ++ y) = DecodeRuneInString s.
Proof.
  destruct s as [|b t]; [congruence|]. intros _ Hy.
  destruct y as [|y0 y]; [rewrite app_nil_r; reflexivity|].
  cbn [startsRune] in Hy.
  shapes t; by_class b; try reflexivity.
  all: split_ifs; to_props; try reflexivity; try lia; try congruence.
Qed.

(** A rune that [IsSpace] accepts is decoded from a valid encoding, which
    does not start with a continuation byte. *)
Lemma decode_space_start (s : gostring) (r : rune) (size : nat) :
  DecodeRuneInString s = (r, size) -> IsSpace r = true ->
  s <> [] /\ startsRune s = true.
Proof.
  destruct s as [|b t]; [intros H; inversion H; subst; discriminate|].
  intros H Hr. split; [congruence|].
  unfold startsRune, cont.
  by_class b;
    [ destruct (N.leb_spec 128 (val b)); [lia | reflexivity]
    | inversion H; subst; discriminate
    | .. ];
    (destruct (N.leb_spec (val b) 191); [lia | ];
     rewrite andb_false_r; reflexivity).
Qed.

Lemma backToStart_le (s : gostring) (lim start : Z) (fuel : nat) :
  (backToStart s lim start fuel <= start)%Z.
Proof.
  revert start. induction fuel as [|fuel IH]; intros start; simpl; [lia|].
  destruct (start <? lim)%Z; [lia|].
  destruct (RuneStart _); [lia|].
  specialize (IH (start - 1)%Z). lia.
Qed.

Lemma skipn_last (s : gostring) :
  s <> [] -> skipn (length s - 1) s = [at_ s (length s - 1)].
Proof.
  intros Hs. destruct (exists_last Hs) as [l [a ->]].
  rewrite length_app. simpl. replace (length l + 1 - 1) with (length l) by lia.
  rewrite skipn_app, skipn_all, Nat.sub_diag. simpl.
  unfold at_. rewrite app_nth2, Nat.sub_diag by lia. reflexivity.
Qed.

(** The last rune of a non-empty string is the first rune of its last
    [size] bytes. *)
Lemma decodeLast_spec (s : gostring) (r : rune) (size : nat) :
  s <> [] -> DecodeLastRuneInString s = (r, size) ->
  1 <= size <= length s
  /\ DecodeRuneInString (skipn (length s - size) s) = (r, size).
Proof.
  intros Hs. unfold DecodeLastRuneInString.
  assert (Hlen : 1 <= length s) by (destruct s; [congruence | simpl; lia]).
  destruct (Nat.eqb_spec (length s) 0) as [|_]; [lia|].
  replace (Z.to_nat (Z.of_nat (length s) - 1)) with (length s - 1) by lia.
  destruct (N.ltb_spec (val (at_ s (length s - 1))) RuneSelf) as [Hasc|Hnon].
  - intros H; inversion H; subst. split; [lia|].
    rewrite skipn_last by assumption. apply decode_ascii. exact Hasc.
  - set (st := backToStart s _ _ _).
    assert (Hst : (st <= Z.of_nat (length s) - 2)%Z).
    { subst st. etransitivity; [apply backToStart_le | lia]. }
    set (start := if (st <? 0)%Z then 0%Z else st).
    assert (Hstart : Z.to_nat start < length s).
    { subst start. destruct (st <? 0)%Z; lia. }
    destruct (DecodeRuneInString (slice s (Z.to_nat start) (length s)))
      as [r0 size0] eqn:E.
    destruct (Nat.eqb_spec (Z.to_nat start + size0) (length s)) as [Heq|Hne];
      simpl; intros H; inversion H; subst.
    + assert (Hsl : slice s (Z.to_nat start) (length s)
                    = skipn (Z.to_nat start) s).
      { unfold slice. apply firstn_all2. rewrite length_skipn. lia. }
      rewrite Hsl in E.
      assert (Hne : skipn (Z.to_nat start) s <> []).
      { intros Hnil. apply (f_equal (@length _)) in Hnil.
        rewrite length_skipn in Hnil. simpl in Hnil. lia. }
      pose proof (decode_size _ Hne) as Hsz. rewrite E in Hsz. simpl in Hsz.
      split; [lia|].
      replace (length s - size) with (Z.to_nat start) by lia. exact E.
    + split; [lia|]. rewrite skipn_last by assumption.
      apply decode_single. exact Hnon.
Qed.

End Utf8Facts.
Module StringsFacts.
Import Utf8 Unicode Utf8Facts Strings Descr Aux.

(** *** Slices *)

Lemma slice_0 (s : gostring) (i : nat) : slice s 0 i = firstn i s.
Proof. unfold slice. rewrite Nat.sub_0_r. reflexivity. Qed.

Lemma slice_all (s : gostring) : slice s 0 (length s) = s.
Proof. rewrite slice_0. apply firstn_all. Qed.

Lemma slice_nil (s : gostring) (a : nat) : slice s a a = [].
Proof. unfold slice. rewrite Nat.sub_diag. reflexivity. Qed.

Lemma slice_length (s : gostring) (a b : nat) :
  a <= b <= length s -> length (slice s a b) = b - a.
Proof.
  intros H. unfold slice. rewrite length_firstn, length_skipn. lia.
Qed.

Lemma slice_skipn_firstn (s : gostring) (a b : nat) :
  skipn a (firstn b s) = slice s a b.
Proof. unfold slice. apply skipn_firstn_comm. Qed.

Lemma firstn_plus {A : Type} (a b : nat) (l : list A) :
  firstn (a + b) l = firstn a l ++ firstn b (skipn a l).
Proof.
  revert l. induction a as [|a IH]; intros l; [reflexivity|].
  destruct l as [|x l]; simpl; [rewrite firstn_nil; reflexivity|].
  rewrite IH. reflexivity.
Qed.

Lemma slice_split (s : gostring) (a b c : nat) :
  a <= b <= c -> slice s a c = slice s a b ++ slice s b c.
Proof.
  intros H. unfold slice.
  replace (c - a) with ((b - a) + (c - b)) by lia.
  rewrite firstn_plus. f_equal. rewrite skipn_skipn.
  replace (b - a + a) with b by lia. reflexivity.
Qed.

Lemma slice_to_end (s : gostring) (a : nat) :
  slice s a (length s) = skipn a s.
Proof.
  unfold slice. apply firstn_all2. rewrite length_skipn. lia.
Qed.

Lemma slice_cons (s : gostring) (a b : nat) :
  a < b <= length s -> slice s a b = at_ s a :: slice s (S a) b.
Proof.
  revert a b. induction s as [|c s IH]; intros a b H; simpl in H; [lia|].
  destruct a as [|a].
  - destruct b as [|b]; [lia|]. unfold slice. simpl.
    rewrite Nat.sub_0_r. reflexivity.
  - destruct b as [|b]; [lia|].
    unfold slice in *. simpl. apply (IH a b). lia.
Qed.

Lemma slice_snoc (s : gostring) (a b : nat) :
  a <= b -> S b <= length s ->
  slice s a (S b) = slice s a b ++ [at_ s b].
Proof.
  intros Hab Hb. rewrite (slice_split s a b (S b)) by lia. f_equal.
  rewrite slice_cons by lia. rewrite slice_nil. reflexivity.
Qed.

(** *** White space *)

Lemma Spaces_app (a b : gostring) : Spaces a -> Spaces b -> Spaces (a ++ b).
Proof.
  induction 1 as [|enc rest r Hne Hd Hr _ IH]; intros Hb; [exact Hb|].
  rewrite <- app_assoc. econstructor; eauto.
Qed.

Lemma Spaces_one (enc : gostring) (r : rune) :
  enc <> [] -> DecodeRuneInString enc = (r, length enc) ->
  IsSpace r = true -> Spaces enc.
Proof.
  intros. rewrite <- (app_nil_r enc). econstructor; eauto. constructor.
Qed.

Lemma Spaces_startsRune (y : gostring) : Spaces y -> startsRune y = true.
Proof.
  destruct 1 as [|enc rest r Hne Hd Hr _]; [reflexivity|].
  destruct (decode_space_start _ _ _ Hd Hr) as [_ Hs].
  destruct enc; [congruence | exact Hs].
Qed.

Lemma asciiSpace_IsSpace (c : byte) :
  (val c < 128)%N -> asciiSpace c = IsSpace (Z.of_N (val c)).
Proof.
  intros Hc. unfold asciiSpace, IsSpace, MaxLatin1.
  rewrite Z.mod_small by lia.
  destruct (Z.leb_spec (Z.of_N (val c)) 255); [|lia].
  repeat match goal with
         | |- context [(?a =? ?b)%N] => destruct (N.eqb_spec a b)
         | |- context [(?a =? ?b)%Z] => destruct (Z.eqb_spec a b)
         end; try reflexivity; lia.
Qed.

Lemma Spaces_ascii (c : byte) :
  (val c < 128)%N -> asciiSpace c = true -> Spaces [c].
Proof.
  intros Hc Hs. apply (Spaces_one [c] (Z.of_N (val c))).
  - discriminate.
  - apply decode_ascii. exact Hc.
  - rewrite <- asciiSpace_IsSpace; assumption.
Qed.

Lemma LeftTrimmed_ascii (c : byte) (t : gostring) :
  (val c < 128)%N -> asciiSpace c = false -> LeftTrimmed (c :: t).
Proof.
  intros Hc Hs. right. rewrite decode_ascii by exact Hc. simpl.
  rewrite <- asciiSpace_IsSpace; assumption.
Qed.

Lemma decodeLast_ascii (s : gostring) :
  s <> [] -> (val (at_ s (length s - 1)) < 128)%N ->
  DecodeLastRuneInString s = (Z.of_N (val (at_ s (length s - 1))), 1).
Proof.
  intros Hs Hc. unfold DecodeLastRuneInString.
  destruct (Nat.eqb_spec (length s) 0) as [E|_].
  - destruct s; [congruence | discriminate].
  - replace (Z.to_nat (Z.of_nat (length s) - 1)) with (length s - 1) by lia.
    unfold RuneSelf.
    destruct (N.ltb_spec (val (at_ s (length s - 1))) 128); [reflexivity|lia].
Qed.

(** Cutting white space off the end keeps a string free of leading white
    space. *)
Lemma LeftTrimmed_firstn (v : gostring) (k : nat) :
  LeftTrimmed v -> Spaces (skipn k v) -> LeftTrimmed (firstn k v).
Proof.
  intros [->|Hv] Hsp; [left; apply firstn_nil|].
  destruct (firstn k v) as [|c w] eqn:E; [left; reflexivity|].
  right. rewrite <- E.
  rewrite <- (firstn_skipn k v) in Hv.
  rewrite decode_app in Hv; [exact Hv | rewrite E; discriminate |].
  apply Spaces_startsRune. exact Hsp.
Qed.

(** *** indexFunc and lastIndexFunc on white space *)

Lemma eqb_false_r (b : bool) : Bool.eqb b false = negb b.
Proof. destruct b; reflexivity. Qed.

(** [indexFunc] skips encodings of spaces and stops at the first rune that
    is none; its fuel, the length of the string, is never exhausted. *)
Lemma indexFunc_loop_spec (fuel : nat) :
  forall (rest : gostring) (i : nat),
    length rest <= fuel ->
    match indexFunc_loop fuel rest i IsSpace false with
    | Some j =>
      exists k, j = i + k /\ k <= length rest
                /\ Spaces (firstn k rest)
                /\ skipn k rest <> []
                /\ IsSpace (fst (DecodeRuneInString (skipn k rest))) = false
    | None => Spaces rest
    end.
Proof.
  induction fuel as [|fuel IH]; intros rest i Hlen.
  - destruct rest; [constructor | simpl in Hlen; lia].
  - cbn [indexFunc_loop].
    destruct rest as [|c t] eqn:Erest; [constructor|].
    rewrite <- Erest in *.
    assert (Hne : rest <> []) by (rewrite Erest; discriminate).
    destruct (DecodeRuneInString rest) as [r size] eqn:Ed.
    pose proof (decode_size rest Hne) as Hsz. rewrite Ed in Hsz.
    cbn [snd] in Hsz.
    rewrite eqb_false_r.
    destruct (IsSpace r) eqn:Er; cbn [negb].
    + specialize (IH (skipn size rest) (i + size)).
      rewrite length_skipn in IH. specialize (IH ltac:(lia)).
      assert (Henc : Spaces (firstn size rest)).
      { apply (Spaces_one _ r).
        - intros E. apply (f_equal (@length _)) in E.
          rewrite length_firstn in E. simpl in E. lia.
        - rewrite length_firstn, Nat.min_l by lia.
          apply decode_firstn. exact Ed.
        - exact Er. }
      destruct (indexFunc_loop fuel (skipn size rest) (i + size) IsSpace false)
        as [j|].
      * destruct IH as [k [-> [Hk [Hsp [Hnz Hns]]]]].
        exists (size + k). rewrite skipn_skipn in Hnz, Hns.
        rewrite (Nat.add_comm k size) in Hnz, Hns.
        repeat split; try assumption; try lia.
        rewrite firstn_plus. apply Spaces_app; assumption.
      * rewrite <- (firstn_skipn size rest). apply Spaces_app; assumption.
    + exists 0. cbn [skipn firstn]. rewrite Ed. cbn [fst].
      repeat split; try assumption; try lia. constructor.
Qed.

(** [lastIndexFunc] walks back over encodings of spaces and stops after
    the last rune that is none. *)
Lemma lastIndexFunc_loop_spec (s : gostring) (fuel : nat) :
  forall i : nat,
    i <= fuel -> i <= length s ->
    match lastIndexFunc_loop fuel s i IsSpace false with
    | Some j =>
      exists r size,
        1 <= size /\ j + size <= i
        /\ DecodeLastRuneInString (firstn (j + size) s) = (r, size)
        /\ IsSpace r = false
        /\ Spaces (slice s (j + size) i)
    | None => Spaces (firstn i s)
    end.
Proof.
  induction fuel as [|fuel IH]; intros i Hfuel Hlen.
  - assert (i = 0) by lia. subst. simpl. constructor.
  - cbn [lastIndexFunc_loop].
    destruct (Nat.eqb_spec i 0) as [->|Hi]; [constructor|].
    rewrite slice_0.
    destruct (DecodeLastRuneInString (firstn i s)) as [r size] eqn:Ed.
    assert (Hne : firstn i s <> []).
    { intros E. apply (f_equal (@length _)) in E.
      rewrite length_firstn in E. simpl in E. lia. }
    destruct (decodeLast_spec _ _ _ Hne Ed) as [Hsz Hd].
    rewrite length_firstn, Nat.min_l in Hsz, Hd by lia.
    rewrite slice_skipn_firstn in Hd.
    rewrite eqb_false_r.
    destruct (IsSpace r) eqn:Er; cbn [negb].
    + specialize (IH (i - size) ltac:(lia) ltac:(lia)).
      assert (Henc : Spaces (slice s (i - size) i)).
      { apply (Spaces_one _ r).
        - intros E. apply (f_equal (@length _)) in E.
          rewrite slice_length in E by lia. simpl in E. lia.
        - rewrite slice_length by lia.
          replace (i - (i - size)) with size by lia. exact Hd.
        - exact Er. }
      destruct (lastIndexFunc_loop fuel s (i - size) IsSpace false) as [j|].
      * destruct IH as [r' [size' [H1 [H2 [H3 [H4 H5]]]]]].
        exists r', size'. repeat split; try assumption; try lia.
        rewrite (slice_split s (j + size') (i - size) i) by lia.
        apply Spaces_app; assumption.
      * rewrite <- slice_0.
        rewrite (slice_split s 0 (i - size) i) by lia.
        apply Spaces_app; [rewrite slice_0|]; assumption.
    + exists r, size. replace (i - size + size) with i by lia.
      repeat split; try assumption; try lia.
      rewrite slice_nil. constructor.
Qed.

(** What [TrimRightFunc] does with the index [lastIndexFunc] found: it
    steps over the rune at that index. *)
Lemma trimRight_step (s : gostring) (j size : nat) (r : rune) :
  1 <= size -> j + size <= length s ->
  DecodeLastRuneInString (firstn (j + size) s) = (r, size) ->
  startsRune (skipn (j + size) s) = true ->
  (if (RuneSelf <=? val (at_ s j))%N then
     let '(_, wid) := DecodeRuneInString (skipn j s) in slice s 0 (j + wid)
   else slice s 0 (j + 1))
  = firstn (j + size) s.
Proof.
  intros Hsz Hlen Hd Hst.
  assert (Hne : firstn (j + size) s <> []).
  { intros E. apply (f_equal (@length _)) in E.
    rewrite length_firstn in E. simpl in E. lia. }
  destruct (decodeLast_spec _ _ _ Hne Hd) as [_ Hd'].
  rewrite length_firstn, Nat.min_l in Hd' by lia.
  replace (j + size - size) with j in Hd' by lia.
  rewrite slice_skipn_firstn in Hd'.
  rewrite (slice_cons s j (j + size)) in Hd' by lia.
  unfold RuneSelf.
  destruct (N.leb_spec 128 (val (at_ s j))) as [Hnon|Hasc].
  - assert (E : skipn j s = slice s j (j + size) ++ skipn (j + size) s).
    { rewrite <- slice_to_end, <- (slice_to_end s (j + size)).
      apply slice_split. lia. }
    rewrite E, decode_app; try assumption.
    + rewrite (slice_cons s j (j + size)) by lia. rewrite Hd'.
      apply slice_0.
    + rewrite (slice_cons s j (j + size)) by lia. discriminate.
  - rewrite decode_ascii in Hd' by exact Hasc. inversion Hd'; subst.
    apply slice_0.
Qed.

Lemma TrimRightFunc_spec (s : gostring) :
  exists k, TrimRightFunc s IsSpace = firstn k s
            /\ k <= length s
            /\ Spaces (skipn k s)
            /\ RightTrimmed (firstn k s).
Proof.
  unfold TrimRightFunc, lastIndexFunc.
  pose proof (lastIndexFunc_loop_spec s (length s) (length s)
                ltac:(lia) ltac:(lia)) as H.
  destruct (lastIndexFunc_loop (length s) s (length s) IsSpace false) as [j|].
  - destruct H as [r [size [H1 [H2 [H3 [H4 H5]]]]]].
    rewrite slice_to_end in H5.
    exists (j + size). split; [|repeat split; try assumption].
    + apply (trimRight_step s j size r); try assumption.
      apply Spaces_startsRune. exact H5.
    + right. rewrite H3. exact H4.
  - exists 0. rewrite firstn_all in H. rewrite slice_nil.
    repeat split; try (simpl; lia); [exact H | left; reflexivity].
Qed.

Lemma TrimLeftFunc_spec (s : gostring) :
  exists k, TrimLeftFunc s IsSpace = skipn k s
            /\ k <= length s
            /\ Spaces (firstn k s)
            /\ LeftTrimmed (skipn k s).
Proof.
  unfold TrimLeftFunc, indexFunc.
  pose proof (indexFunc_loop_spec (length s) s 0 ltac:(lia)) as H.
  destruct (indexFunc_loop (length s) s 0 IsSpace false) as [j|].
  - destruct H as [k [-> [Hk [Hsp [Hnz Hns]]]]]. exists k.
    repeat split; try assumption. right. exact Hns.
  - exists (length s). rewrite skipn_all, firstn_all.
    repeat split; try assumption; try lia. left. reflexivity.
Qed.

(** A string free of trailing white space is left alone by
    [TrimRightFunc]. *)
Lemma TrimRightFunc_fixed (t : gostring) :
  RightTrimmed t -> TrimRightFunc t IsSpace = t.
Proof.
  intros [->|Ht]; [reflexivity|].
  destruct t as [|c0 t0] eqn:Et; [reflexivity|]. rewrite <- Et in *.
  assert (Hne : t <> []) by (rewrite Et; discriminate).
  assert (Hlen : 1 <= length t) by (rewrite Et; simpl; lia).
  unfold TrimRightFunc, lastIndexFunc.
  destruct (length t) as [|n] eqn:En; [lia|].
  cbn [lastIndexFunc_loop]. rewrite <- En.
  destruct (Nat.eqb_spec (length t) 0); [lia|].
  rewrite slice_all.
  destruct (DecodeLastRuneInString t) as [r size] eqn:Ed.
  cbn [fst] in Ht. rewrite eqb_false_r, Ht. cbn [negb].
  destruct (decodeLast_spec _ _ _ Hne Ed) as [Hsz _].
  transitivity (firstn (length t - size + size) t);
    [|replace (length t - size + size) with (length t) by lia;
      apply firstn_all].
  apply (trimRight_step t (length t - size) size r); try lia.
  - replace (length t - size + size) with (length t) by lia.
    rewrite firstn_all. exact Ed.
  - replace (length t - size + size) with (length t) by lia.
    rewrite skipn_all. reflexivity.
Qed.

Lemma TrimLeftFunc_fixed (t : gostring) :
  LeftTrimmed t -> TrimLeftFunc t IsSpace = t.
Proof.
  intros [->|Ht]; [reflexivity|].
  destruct t as [|c0 t0]; [reflexivity|].
  unfold TrimLeftFunc, indexFunc. cbn [length indexFunc_loop].
  destruct (DecodeRuneInString (c0 :: t0)) as [r size] eqn:Ed.
  cbn [fst] in Ht. rewrite eqb_false_r, Ht. reflexivity.
Qed.

(** *** TrimSpace *)

Lemma at_slice (s : gostring) (a b i : nat) :
  a + i < b -> b <= length s -> at_ (slice s a b) i = at_ s (a + i).
Proof.
  intros Hi Hb. unfold at_, slice.
  rewrite nth_firstn.
  destruct (Nat.ltb_spec i (b - a)); [|lia].
  apply nth_skipn.
Qed.

Lemma firstn_slice (s : gostring) (a b k : nat) :
  a + k <= b -> firstn k (slice s a b) = slice s a (a + k).
Proof.
  intros H. unfold slice. rewrite firstn_firstn.
  f_equal. lia.
Qed.

Lemma skipn_slice (s : gostring) (a b k : nat) :
  skipn k (slice s a b) = slice s (a + k) b.
Proof.
  unfold slice. rewrite skipn_firstn_comm, skipn_skipn.
  f_equal; [lia | f_equal; lia].
Qed.

Lemma trimSpaceStart_spec (rest : gostring) :
  forall start : nat,
    match trimSpaceStart rest start with
    | inl j =>
      exists k, j = start + k /\ k < length rest
                /\ Spaces (firstn k rest)
                /\ (128 <= val (at_ rest k))%N
    | inr j =>
      exists k, j = start + k /\ k <= length rest
                /\ Spaces (firstn k rest)
                /\ LeftTrimmed (skipn k rest)
    end.
Proof.
  induction rest as [|c rest IH]; intros start; cbn [trimSpaceStart].
  - exists 0. repeat split; try (simpl; lia);
      first [apply Spaces_nil | left; reflexivity].
  - unfold RuneSelf.
    destruct (N.leb_spec 128 (val c)) as [Hnon|Hasc].
    + exists 0. repeat split; try (simpl; lia);
        first [apply Spaces_nil | exact Hnon].
    + destruct (asciiSpace c) eqn:Hsp.
      * specialize (IH (S start)).
        destruct (trimSpaceStart rest (S start)) as [j|j];
          destruct IH as [k [-> [Hk [Hs Hr]]]]; exists (S k);
          (repeat split; [lia | simpl; lia | | exact Hr]);
          cbn [firstn]; apply (Spaces_app [c]); try assumption;
          apply Spaces_ascii; assumption.
      * exists 0. repeat split; try (simpl; lia);
          first [apply Spaces_nil
                | cbn [skipn]; apply LeftTrimmed_ascii; assumption].
Qed.

Lemma trimSpaceStop_spec (s : gostring) (start : nat) :
  forall stop : nat,
    start <= stop <= length s ->
    match trimSpaceStop s start stop with
    | inl j =>
      start < j <= stop /\ Spaces (slice s j stop)
      /\ (128 <= val (at_ s (j - 1)))%N
    | inr j =>
      start <= j <= stop /\ Spaces (slice s j stop)
      /\ (j = start
          \/ ((val (at_ s (j - 1)) < 128)%N
              /\ asciiSpace (at_ s (j - 1)) = false))
    end.
Proof.
  induction stop as [|stop IH]; intros H; cbn [trimSpaceStop].
  - repeat split; try lia;
      first [rewrite slice_nil; apply Spaces_nil | left; lia].
  - destruct (Nat.leb_spec (S stop) start) as [Hle|Hgt].
    + repeat split; try lia;
        first [rewrite slice_nil; apply Spaces_nil | left; lia].
    + unfold RuneSelf.
      destruct (N.leb_spec 128 (val (at_ s stop))) as [Hnon|Hasc].
      * repeat split; try lia;
          first [rewrite slice_nil; apply Spaces_nil
                | cbn [Nat.sub]; rewrite Nat.sub_0_r; exact Hnon].
      * destruct (asciiSpace (at_ s stop)) eqn:Hsp.
        -- specialize (IH ltac:(lia)).
           assert (Hone : Spaces (slice s stop (S stop))).
           { rewrite slice_cons, slice_nil by lia.
             apply Spaces_ascii; assumption. }
           destruct (trimSpaceStop s start stop) as [j|j];
             destruct IH as [Hj [Hs Hb]];
             (repeat split; [lia | lia | | exact Hb]);
             rewrite (slice_split s j stop (S stop)) by lia;
             apply Spaces_app; assumption.
        -- split; [lia|]. split; [rewrite slice_nil; apply Spaces_nil|].
           right. cbn [Nat.sub]. rewrite Nat.sub_0_r. split; assumption.
Qed.

(** What [TrimSpace] returns: a slice [s[a:b]] of its argument, with only
    white space before and after it, that neither starts nor ends with
    white space. *)
Lemma TrimSpace_spec (s : gostring) :
  exists a b,
    a <= b <= length s
    /\ TrimSpace s = slice s a b
    /\ Spaces (firstn a s) /\ Spaces (skipn b s)
    /\ LeftTrimmed (TrimSpace s) /\ RightTrimmed (TrimSpace s).
Proof.
  unfold TrimSpace.
  pose proof (trimSpaceStart_spec s 0) as Hstart.
  destruct (trimSpaceStart s 0) as [start|start].
  - (* a non-ASCII byte at [start]: TrimFunc *)
    destruct Hstart as [k [Ek [Hk [Hs Hnon]]]]. simpl in Ek. subst k.
    unfold TrimFunc.
    destruct (TrimLeftFunc_spec (skipn start s)) as [k1 [E1 [Hk1 [Hs1 Hl1]]]].
    rewrite E1. rewrite length_skipn in Hk1.
    destruct (TrimRightFunc_spec (skipn k1 (skipn start s)))
      as [k2 [E2 [Hk2 [Hs2 Hr2]]]].
    rewrite E2. rewrite !length_skipn in Hk2.
    repeat rewrite skipn_skipn in *.
    exists (k1 + start), (k1 + start + k2).
    assert (Eslice : firstn k2 (skipn (k1 + start) s)
                     = slice s (k1 + start) (k1 + start + k2)).
    { unfold slice. f_equal. lia. }
    split; [lia|]. split; [exact Eslice|].
    split; [rewrite Nat.add_comm, firstn_plus; apply Spaces_app; assumption|].
    split.
    { match goal with
      | H : Spaces (skipn ?a s) |- Spaces (skipn ?b s) =>
        replace b with a by lia; exact H
      end. }
    split; [|assumption].
    apply LeftTrimmed_firstn; rewrite ?skipn_skipn; [assumption|].
    match goal with
    | H : Spaces (skipn ?a s) |- Spaces (skipn ?b s) =>
      replace b with a by lia; exact H
    end.
  - destruct Hstart as [k [Ek [Hk [Hs Hl]]]]. simpl in Ek. subst k.
    pose proof (trimSpaceStop_spec s start (length s) ltac:(lia)) as Hstop.
    assert (Hleft : forall stop, start <= stop <= length s ->
                                 Spaces (slice s stop (length s)) ->
                                 LeftTrimmed (slice s start stop)).
    { intros stop Hst Hsp. unfold slice.
      apply LeftTrimmed_firstn; [exact Hl|].
      rewrite skipn_skipn. replace (stop - start + start) with stop by lia.
      rewrite <- slice_to_end. exact Hsp. }
    destruct (trimSpaceStop s start (length s)) as [stop|stop].
    + (* a non-ASCII byte before [stop]: TrimRightFunc *)
      destruct Hstop as [Hst [Hsp Hnon]].
      destruct (TrimRightFunc_spec (slice s start stop))
        as [k [E [Hk' [Hs' Hr']]]].
      rewrite E. rewrite slice_length in Hk' by lia.
      rewrite firstn_slice in * by lia.
      rewrite skipn_slice in Hs'.
      exists start, (start + k).
      repeat split; try lia; try assumption.
      * rewrite <- slice_to_end.
        rewrite (slice_split s (start + k) stop (length s)) by lia.
        apply Spaces_app; assumption.
      * rewrite <- firstn_slice with (b := stop) by lia.
        apply LeftTrimmed_firstn; [apply Hleft; [lia | assumption]|].
        rewrite skipn_slice. exact Hs'.
    + destruct Hstop as [Hst [Hsp Hb]].
      exists start, stop.
      repeat split; try lia; try assumption.
      * rewrite <- slice_to_end. exact Hsp.
      * apply Hleft; [lia | assumption].
      * destruct Hb as [->|[Hasc Hns]]; [left; apply slice_nil|].
        destruct (Nat.eq_dec stop start) as [->|Hne];
          [left; apply slice_nil|].
        right.
        assert (Hnz : slice s start stop <> []).
        { intros E. apply (f_equal (@length _)) in E.
          rewrite slice_length in E by lia. simpl in E. lia. }
        assert (Hlast : at_ (slice s start stop)
                            (length (slice s start stop) - 1)
                        = at_ s (stop - 1)).
        { rewrite slice_length by lia. rewrite at_slice by lia.
          f_equal. lia. }
        rewrite decodeLast_ascii; rewrite ?Hlast; try assumption.
        cbn [fst]. rewrite <- asciiSpace_IsSpace; assumption.
Qed.

(** A string that neither starts nor ends with white space is left alone
    by [TrimSpace]. *)
Lemma TrimSpace_fixed (t : gostring) :
  LeftTrimmed t -> RightTrimmed t -> TrimSpace t = t.
Proof.
  intros Hl Hr. destruct t as [|c t0] eqn:Et; [reflexivity|].
  rewrite <- Et in *. unfold TrimSpace.
  rewrite Et at 1. cbn [trimSpaceStart]. unfold RuneSelf.
  destruct (N.leb_spec 128 (val c)) as [Hnon|Hasc].
  - cbn [skipn]. unfold TrimFunc.
    rewrite TrimLeftFunc_fixed by assumption.
    apply TrimRightFunc_fixed. assumption.
  - assert (Hc : asciiSpace c = false).
    { destruct Hl as [Hl|Hl]; [rewrite Et in Hl; discriminate|].
      rewrite Et, decode_ascii in Hl by assumption.
      rewrite asciiSpace_IsSpace by assumption. exact Hl. }
    rewrite Hc.
    assert (Hne : t <> []) by (rewrite Et; discriminate).
    destruct (length t) as [|n] eqn:En; [rewrite Et in En; discriminate|].
    cbn [trimSpaceStop Nat.leb]. unfold RuneSelf.
    assert (En' : n = length t - 1) by lia.
    destruct (N.leb_spec 128 (val (at_ t n))) as [Hnon'|Hasc'].
    + rewrite <- En, slice_all. apply TrimRightFunc_fixed. assumption.
    + destruct Hr as [Hr|Hr]; [congruence|].
      rewrite decodeLast_ascii in Hr by (try assumption; rewrite <- En'; assumption).
      cbn [fst] in Hr. rewrite <- En' in Hr.
      rewrite <- asciiSpace_IsSpace in Hr by assumption. rewrite Hr.
      rewrite <- En. apply slice_all.
Qed.

Theorem TrimSpace_idempotent (s : gostring) :
  TrimSpace (TrimSpace s) = TrimSpace s.
Proof.
  destruct (TrimSpace_spec s) as [a [b [_ [_ [_ [_ [Hl Hr]]]]]]].
  apply TrimSpace_fixed; assumption.
Qed.

(** *** Replacing ASCII bytes by ASCII bytes

    [filepath.ToSlash] maps one ASCII byte to another and leaves every
    other byte alone.  Such a map changes neither where runes start and
    end nor which of them are white space. *)

Section ByteMap.

Variable f : byte -> byte.
Hypothesis f_high : forall c, (128 <= val c)%N -> f c = c.
Hypothesis f_low : forall c, (val c < 128)%N -> (val (f c) < 128)%N.
Hypothesis f_space :
  forall c, (val c < 128)%N -> asciiSpace (f c) = asciiSpace c.

Lemma outside_map (c : byte) (lo hi : N) :
  (128 <= lo)%N -> outside (f c) lo hi = outside c lo hi.
Proof.
  intros Hlo. destruct (N.lt_ge_cases (val c) 128) as [Hc|Hc].
  - pose proof (f_low c Hc) as Hf. unfold outside.
    destruct (N.ltb_spec (val (f c)) lo); [|lia].
    destruct (N.ltb_spec (val c) lo); [|lia]. reflexivity.
  - rewrite f_high by assumption. reflexivity.
Qed.

Lemma decode_map_high (c : byte) (t : gostring) :
  (128 <= val c)%N ->
  DecodeRuneInString (map f (c :: t)) = DecodeRuneInString (c :: t).
Proof.
  intros Hc. cbn [map]. rewrite (f_high c Hc).
  assert (Hout : forall b lo hi, (128 <= lo)%N ->
                                 outside b lo hi = false -> f b = b).
  { intros b lo hi Hlo Hb. apply f_high. unfold outside in Hb.
    apply orb_false_iff in Hb. destruct Hb as [Hb _].
    apply N.ltb_ge in Hb. lia. }
  shapes t; cbn [map]; by_class c; try reflexivity; try lia;
    rewrite ?length_map;
    repeat match goal with
           | |- context [outside (f ?b) ?lo ?hi] =>
             rewrite (outside_map b lo hi) by lia
           end;
    repeat match goal with
           | |- context [if ?c then _ else _] => destruct c eqn:?
           end; try reflexivity;
    repeat match goal with
           | H : outside ?b ?lo ?hi = false |- _ =>
             rewrite (Hout b lo hi ltac:(lia) H); clear H
           end; reflexivity.
Qed.

Lemma decode_map (s : gostring) :
  snd (DecodeRuneInString (map f s)) = snd (DecodeRuneInString s)
  /\ IsSpace (fst (DecodeRuneInString (map f s)))
     = IsSpace (fst (DecodeRuneInString s)).
Proof.
  destruct s as [|c t]; [split; reflexivity|].
  destruct (N.lt_ge_cases (val c) 128) as [Hc|Hc].
  - cbn [map]. rewrite !decode_ascii by auto. cbn [fst snd]. split; [reflexivity|].
    rewrite <- !asciiSpace_IsSpace by auto. apply f_space. exact Hc.
  - rewrite decode_map_high by assumption. split; reflexivity.
Qed.

Lemma at_map (s : gostring) (i : nat) :
  i < length s -> at_ (map f s) i = f (at_ s i).
Proof.
  intros Hi. unfold at_.
  rewrite (nth_indep (map f s) zero (f zero)) by (rewrite length_map; lia).
  apply map_nth.
Qed.

Lemma slice_map (s : gostring) (a b : nat) :
  slice (map f s) a b = map f (slice s a b).
Proof. unfold slice. rewrite skipn_map, firstn_map. reflexivity. Qed.

Lemma RuneStart_map (c : byte) : RuneStart (f c) = RuneStart c.
Proof.
  destruct (N.lt_ge_cases (val c) 128) as [Hc|Hc].
  - pose proof (f_low c Hc) as Hf. unfold RuneStart.
    assert (E : forall n, (n < 128)%N -> (N.land n 192 =? 128)%N = false).
    { intros n Hn. apply N.eqb_neq. intros E.
      assert (Hb : N.testbit (N.land n 192) 7 = true)
        by (rewrite E; reflexivity).
      rewrite N.land_spec in Hb. apply andb_true_iff in Hb.
      destruct Hb as [Hb _].
      assert (Hlt : (n < 2 ^ 7)%N) by (simpl; lia).
      destruct (N.eq_dec n 0) as [->|Hnz]; [discriminate|].
      apply N.log2_lt_pow2 in Hlt; [|lia].
      rewrite N.bits_above_log2 in Hb by lia. discriminate. }
    rewrite !E by assumption. reflexivity.
  - rewrite f_high by assumption. reflexivity.
Qed.

Lemma backToStart_map (s : gostring) (lim start : Z) (fuel : nat) :
  (0 <= lim)%Z -> (start < Z.of_nat (length s))%Z ->
  backToStart (map f s) lim start fuel = backToStart s lim start fuel.
Proof.
  revert start. induction fuel as [|fuel IH]; intros start Hlim Hst;
    [reflexivity|].
  cbn [backToStart].
  destruct (Z.ltb_spec start lim); [reflexivity|].
  rewrite at_map by lia. rewrite RuneStart_map.
  destruct (RuneStart _); [reflexivity|].
  apply IH; lia.
Qed.

Lemma decodeLast_map (s : gostring) :
  snd (DecodeLastRuneInString (map f s)) = snd (DecodeLastRuneInString s)
  /\ IsSpace (fst (DecodeLastRuneInString (map f s)))
     = IsSpace (fst (DecodeLastRuneInString s)).
Proof.
  unfold DecodeLastRuneInString. rewrite length_map.
  destruct (Nat.eqb_spec (length s) 0) as [|Hlen]; [split; reflexivity|].
  replace (Z.to_nat (Z.of_nat (length s) - 1)) with (length s - 1) by lia.
  rewrite at_map by lia. unfold RuneSelf.
  set (c := at_ s (length s - 1)).
  destruct (N.ltb_spec (val c) 128) as [Hc|Hc].
  - pose proof (f_low c Hc) as Hf.
    destruct (N.ltb_spec (val (f c)) 128); [|lia]. cbn [fst snd].
    split; [reflexivity|].
    rewrite <- !asciiSpace_IsSpace by auto. apply f_space. exact Hc.
  - rewrite (f_high c Hc).
    destruct (N.ltb_spec (val c) 128); [lia|].
    rewrite backToStart_map
      by (unfold UTFMax;
          try match goal with
              | |- context [(?a <? ?b)%Z] => destruct (Z.ltb_spec a b)
              end; lia).
    set (st := backToStart s _ _ _).
    assert (Hst : (st <= Z.of_nat (length s) - 2)%Z).
    { subst st. etransitivity; [apply backToStart_le | lia]. }
    set (start := if (st <? 0)%Z then 0%Z else st).
    rewrite slice_map.
    pose proof (decode_map (slice s (Z.to_nat start) (length s))) as [Hsz Hsp].
    destruct (DecodeRuneInString (map f (slice s (Z.to_nat start) (length s))))
      as [r1 size1].
    destruct (DecodeRuneInString (slice s (Z.to_nat start) (length s)))
      as [r2 size2].
    cbn [fst snd] in Hsz, Hsp. subst size1.
    destruct (negb (Z.to_nat start + size2 =? length s)); cbn [fst snd];
      split; try reflexivity. exact Hsp.
Qed.

Lemma LeftTrimmed_map (t : gostring) :
  LeftTrimmed t -> LeftTrimmed (map f t).
Proof.
  intros [->|H]; [left; reflexivity|]. right.
  rewrite (proj2 (decode_map t)). exact H.
Qed.

Lemma RightTrimmed_map (t : gostring) :
  RightTrimmed t -> RightTrimmed (map f t).
Proof.
  intros [->|H]; [left; reflexivity|]. right.
  rewrite (proj2 (decodeLast_map t)). exact H.
Qed.

End ByteMap.

End StringsFacts.

Module NormalizeFacts.
Import Utf8 Unicode Utf8Facts Strings Descr Aux Filepath Manifest StringsFacts.

(** *** filepath.ToSlash *)

Lemma ToSlash_map (os : GOOS) (p : gostring) :
  ToSlash os p = map (slashByte os) p.
Proof.
  destruct os; [|reflexivity].
  unfold ToSlash, slashByte. cbn.
  induction p as [|c p IH]; [reflexivity|].
  cbn [map]. rewrite <- IH.
  destruct (Ascii.eqb_spec c "/"%char) as [->|_]; reflexivity.
Qed.

Lemma slashByte_high (os : GOOS) (c : byte) :
  (128 <= val c)%N -> slashByte os c = c.
Proof.
  intros Hc. unfold slashByte.
  destruct (Ascii.eqb_spec c (Separator os)) as [->|_]; [|reflexivity].
  destruct os; cbv in Hc; congruence.
Qed.

Lemma slashByte_low (os : GOOS) (c : byte) :
  (val c < 128)%N -> (val (slashByte os c) < 128)%N.
Proof.
  intros Hc. unfold slashByte.
  destruct (Ascii.eqb_spec c (Separator os)); [reflexivity | exact Hc].
Qed.

Lemma slashByte_space (os : GOOS) (c : byte) :
  (val c < 128)%N -> asciiSpace (slashByte os c) = asciiSpace c.
Proof.
  intros _. unfold slashByte.
  destruct (Ascii.eqb_spec c (Separator os)) as [->|_]; [|reflexivity].
  destruct os; reflexivity.
Qed.

Lemma slashByte_idempotent (os : GOOS) (c : byte) :
  slashByte os (slashByte os c) = slashByte os c.
Proof.
  unfold slashByte.
  destruct (Ascii.eqb_spec c (Separator os)) as [->|Hc].
  - destruct os; reflexivity.
  - destruct (Ascii.eqb_spec c (Separator os)); [contradiction|reflexivity].
Qed.

Lemma ToSlash_idempotent (os : GOOS) (p : gostring) :
  ToSlash os (ToSlash os p) = ToSlash os p.
Proof.
  rewrite !ToSlash_map, map_map. apply map_ext. intros c.
  apply slashByte_idempotent.
Qed.

Lemma ToSlash_isEmpty (os : GOOS) (p : gostring) :
  isEmpty (ToSlash os p) = isEmpty p.
Proof. rewrite ToSlash_map. destruct p; reflexivity. Qed.

(** [ToSlash] of a trimmed string is trimmed. *)
Lemma TrimSpace_ToSlash (os : GOOS) (p : gostring) :
  TrimSpace (ToSlash os (TrimSpace p)) = ToSlash os (TrimSpace p).
Proof.
  destruct (TrimSpace_spec p) as [a [b [_ [_ [_ [_ [Hl Hr]]]]]]].
  rewrite ToSlash_map. apply TrimSpace_fixed.
  - apply LeftTrimmed_map;
      auto using slashByte_high, slashByte_low, slashByte_space.
  - apply RightTrimmed_map;
      auto using slashByte_high, slashByte_low, slashByte_space.
Qed.

(** *** normalizePrefetchPaths *)

Lemma normalizeLoop_some (os : GOOS) (paths : list gostring) :
  forall acc : list gostring,
    normalizeLoop os paths (Some acc) = Some (acc ++ normalized os paths).
Proof.
  induction paths as [|p paths IH]; intros acc; cbn [normalizeLoop].
  - unfold normalized. simpl. rewrite app_nil_r. reflexivity.
  - unfold normalized. cbn [map filter].
    destruct (isEmpty (TrimSpace p)); cbn [negb].
    + apply IH.
    + unfold append. cbn [elems map]. rewrite IH, <- app_assoc. reflexivity.
Qed.

Lemma normalizePrefetchPaths_eq (os : GOOS) (paths : goslice gostring) :
  normalizePrefetchPaths os paths = Some (normalized os (elems paths)).
Proof. unfold normalizePrefetchPaths. apply normalizeLoop_some. Qed.

Lemma normalized_idempotent (os : GOOS) (paths : list gostring) :
  normalized os (normalized os paths) = normalized os paths.
Proof.
  unfold normalized.
  induction paths as [|p paths IH]; [reflexivity|].
  cbn [map filter].
  destruct (isEmpty (TrimSpace p)) eqn:E; cbn [negb]; [exact IH|].
  cbn [map filter]. rewrite TrimSpace_ToSlash, ToSlash_isEmpty, E.
  cbn [negb map]. rewrite ToSlash_idempotent. f_equal. exact IH.
Qed.

End NormalizeFacts.

Module ShaFacts.
Import Sha256 Descr Aux.

(** *** The block function *)

Lemma blockLoop_app (n : nat) :
  forall (k : nat) (hh : list Z) (a b : gostring),
    length a = chunk * n ->
    blockLoop (n + k) hh (a ++ b) = blockLoop k (blockLoop n hh a) b.
Proof.
  unfold chunk. induction n as [|n IH]; intros k hh a b Ha.
  - destruct a; [reflexivity | simpl in Ha; lia].
  - cbn [Nat.add blockLoop]. unfold chunk.
    assert (H64 : 64 <= length a) by lia.
    rewrite firstn_app, skipn_app.
    replace (64 - length a) with 0 by lia.
    rewrite firstn_O, skipn_O, app_nil_r.
    apply IH. rewrite length_skipn. lia.
Qed.

Lemma block_app (hh : list Z) (a b : gostring) :
  length a mod chunk = 0 -> block hh (a ++ b) = block (block hh a) b.
Proof.
  unfold chunk. intros Ha. unfold block, chunk.
  assert (E : length a = 64 * (length a / 64)).
  { pose proof (Nat.div_mod_eq (length a) 64). lia. }
  rewrite length_app.
  replace ((length a + length b) / 64)
    with (length a / 64 + length b / 64).
  - apply blockLoop_app. exact E.
  - rewrite E at 2. rewrite Nat.mul_comm, Nat.div_add_l by lia. reflexivity.
Qed.

Lemma block_short (hh : list Z) (t : gostring) :
  length t < chunk -> block hh t = hh.
Proof.
  unfold chunk. intros Ht. unfold block, chunk.
  rewrite Nat.div_small by lia. reflexivity.
Qed.

Lemma block_length (hh : list Z) (p : gostring) :
  length hh = 8 -> length (block hh p) = 8.
Proof.
  unfold block. generalize (length p / chunk). intros n. revert hh p.
  induction n as [|n IH]; intros hh p Hh; [exact Hh|].
  cbn [blockLoop]. apply IH. unfold blockOne.
  destruct (rounds _ _ _). reflexivity.
Qed.

(** *** Write *)

Lemma fed_New : fed [] New.
Proof. exists []. repeat split; try reflexivity. unfold chunk. simpl. lia. Qed.

Lemma fed_Write (D p : gostring) (d : digest) :
  fed D d -> fed (D ++ p) (Write d p).
Proof.
  intros [A [HD [HA [Hx [Hh Hlen]]]]].
  assert (Hlen' : ((len d + Z.of_nat (length p)) mod 2 ^ 64
                   = Z.of_nat (length (D ++ p)) mod 2 ^ 64)%Z).
  { rewrite Hlen, length_app, Nat2Z.inj_add.
    rewrite Zplus_mod_idemp_l. reflexivity. }
  unfold Write, nx, chunk in *. rewrite Hlen'. clear Hlen Hlen'.
  set (L := (Z.of_nat (length (D ++ p)) mod 2 ^ 64)%Z).
  (* the first step: fill the buffer *)
  assert (Hstep1 :
            exists A1 x1 p1,
              (if 0 <? length (x d) then
                 if length (x d ++ firstn (Nat.min (64 - length (x d)) (length p)) p) =? 64
                 then (block (h d) (x d ++ firstn (Nat.min (64 - length (x d)) (length p)) p),
                       [], skipn (Nat.min (64 - length (x d)) (length p)) p)
                 else (h d, x d ++ firstn (Nat.min (64 - length (x d)) (length p)) p,
                       skipn (Nat.min (64 - length (x d)) (length p)) p)
               else (h d, x d, p))
              = (block init A1, x1, p1)
              /\ D ++ p = A1 ++ x1 ++ p1
              /\ length A1 mod 64 = 0 /\ length x1 < 64
              /\ (x1 = [] \/ p1 = [])).
  { destruct (Nat.ltb_spec 0 (length (x d))) as [Hnx|Hnx].
    - set (n := Nat.min (64 - length (x d)) (length p)).
      destruct (Nat.eqb_spec (length (x d ++ firstn n p)) 64) as [E|E].
      + exists (A ++ x d ++ firstn n p), [], (skipn n p).
        rewrite Hh, <- block_app by exact HA.
        split; [reflexivity|].
        split; [rewrite HD, <- !app_assoc, firstn_skipn; reflexivity|].
        split; [|split; [simpl; lia | left; reflexivity]].
        rewrite length_app, E.
        rewrite Nat.Div0.add_mod, HA by lia. reflexivity.
      + exists A, (x d ++ firstn n p), (skipn n p).
        rewrite Hh.
        assert (Hn : n = length p).
        { rewrite length_app, length_firstn in E. subst n. lia. }
        split; [reflexivity|].
        split; [rewrite HD, <- !app_assoc, firstn_skipn; reflexivity|].
        split; [exact HA|].
        split; [rewrite length_app, length_firstn in *; lia|].
        right. rewrite Hn. apply skipn_all.
    - exists A, (x d), p. rewrite Hh.
      repeat split; try assumption.
      + rewrite HD, <- app_assoc. reflexivity.
      + left. destruct (x d); [reflexivity | simpl in Hnx; lia]. }
  destruct Hstep1 as [A1 [x1 [p1 [-> [HD1 [HA1 [Hx1 Hor]]]]]]].
  unfold fed, chunk.
  (* the second step: whole blocks of the rest *)
  destruct (Nat.leb_spec 64 (length p1)) as [Hbig|Hsmall].
  - assert (Hx1nil : x1 = []).
    { destruct Hor as [|Hp]; [assumption|]. subst p1. simpl in Hbig. lia. }
    subst x1. cbn [app] in HD1.
    set (n := length p1 / 64 * 64).
    assert (Hn : n <= length p1).
    { subst n. pose proof (Nat.div_mod_eq (length p1) 64). lia. }
    assert (Hrest : length (skipn n p1) < 64).
    { rewrite length_skipn. subst n.
      pose proof (Nat.div_mod_eq (length p1) 64).
      pose proof (Nat.mod_upper_bound (length p1) 64). lia. }
    assert (HAn : length (A1 ++ firstn n p1) mod 64 = 0).
    { rewrite length_app, length_firstn, Nat.min_l by exact Hn.
      rewrite Nat.Div0.add_mod, HA1 by lia. subst n.
      rewrite Nat.Div0.mod_mul. reflexivity. }
    exists (A1 ++ firstn n p1).
    destruct (Nat.ltb_spec 0 (length (skipn n p1))) as [Hp2|Hp2]; cbn [x h len].
    + split; [rewrite HD1, <- app_assoc, firstn_skipn; reflexivity|].
      split; [exact HAn|]. split; [exact Hrest|].
      split; [|reflexivity].
      symmetry. apply block_app. exact HA1.
    + assert (Hnil : skipn n p1 = [])
        by (destruct (skipn n p1); [reflexivity | simpl in Hp2; lia]).
      split; [rewrite app_nil_r, HD1;
              rewrite <- (firstn_skipn n p1) at 1;
              rewrite Hnil, app_nil_r; reflexivity|].
      split; [exact HAn|]. split; [simpl; lia|].
      split; [|reflexivity].
      symmetry. apply block_app. exact HA1.
  - exists A1.
    destruct (Nat.ltb_spec 0 (length p1)) as [Hp2|Hp2]; cbn [x h len].
    + assert (Hx1nil : x1 = []).
      { destruct Hor as [|Hp]; [assumption|]. subst p1. simpl in Hp2. lia. }
      subst x1. cbn [app] in HD1.
      repeat split; try assumption; try reflexivity.
    + assert (Hnil : p1 = [])
        by (destruct p1; [reflexivity | simpl in Hp2; lia]).
      subst p1. rewrite app_nil_r in HD1.
      repeat split; try assumption; try reflexivity.
Qed.

Lemma fed_chunks (cs : list gostring) :
  forall (D : gostring) (d : digest),
    fed D d -> fed (D ++ concat cs) (fold_left Write cs d).
Proof.
  induction cs as [|c cs IH]; intros D d Hd; cbn [concat fold_left].
  - rewrite app_nil_r. exact Hd.
  - rewrite app_assoc. apply IH. apply fed_Write. exact Hd.
Qed.

(** *** checkSum *)

Lemma beBytes_length (n : nat) (v : Z) : length (beBytes n v) = n.
Proof. unfold beBytes. rewrite length_map, length_seq. reflexivity. Qed.

Lemma padding_length (n : nat) : (n + length (padding n)) mod 64 = 0.
Proof.
  unfold padding. cbn [length]. rewrite length_app, repeat_length, beBytes_length.
  pose proof (Z.mod_pos_bound (55 - Z.of_nat n) 64 ltac:(lia)) as Hb.
  set (z := ((55 - Z.of_nat n) mod 64)%Z) in *.
  assert (E : (Z.of_nat (n + S (Z.to_nat z + 8)) mod 64 = 0)%Z).
  { replace (Z.of_nat (n + S (Z.to_nat z + 8)))
      with (Z.of_nat n + z + 9)%Z by lia.
    subst z. rewrite <- Zplus_mod_idemp_l.
    rewrite <- (Zplus_mod_idemp_r ((55 - Z.of_nat n) mod 64)).
    rewrite Z.mod_mod by lia.
    rewrite Zplus_mod_idemp_r, Zplus_mod_idemp_l.
    replace (Z.of_nat n + (55 - Z.of_nat n) + 9)%Z with (1 * 64)%Z by lia.
    apply Z_mod_mult. }
  apply Nat2Z.inj. rewrite Nat2Z.inj_mod. exact E.
Qed.

(** The padding [checkSum] writes is the padding of the standard. *)
Lemma checkSum_padding (n : nat) :
  let L := (Z.of_nat n mod 2 ^ 64)%Z in
  let t := (if L mod 64 <? 56 then 56 - L mod 64
            else 64 + 56 - L mod 64)%Z in
  ascii_of_N 128 :: repeat zero (Z.to_nat t - 1)
             ++ beBytes 8 (Z.shiftl L 3 mod 2 ^ 64)%Z
  = padding n.
Proof.
  cbv zeta. unfold padding.
  assert (Hm : ((Z.of_nat n mod 2 ^ 64) mod 64 = Z.of_nat n mod 64)%Z).
  { change (2 ^ 64)%Z with (64 * 2 ^ 58)%Z.
    rewrite Z.rem_mul_r by lia.
    rewrite (Z.mul_comm 64), Z_mod_plus_full. apply Z.mod_mod. lia. }
  rewrite Hm.
  pose proof (Z.mod_pos_bound (Z.of_nat n) 64 ltac:(lia)) as Hb.
  assert (Hz : Z.to_nat
                 (if (Z.of_nat n mod 64 <? 56)%Z
                  then (56 - Z.of_nat n mod 64)%Z
                  else (64 + 56 - Z.of_nat n mod 64)%Z) - 1
               = Z.to_nat ((55 - Z.of_nat n) mod 64)).
  { rewrite <- Zminus_mod_idemp_r.
    set (m := (Z.of_nat n mod 64)%Z) in *. clearbody m.
    destruct (Z.ltb_spec m 56).
    - rewrite (Z.mod_small (55 - m)) by lia. lia.
    - replace (55 - m)%Z with ((119 - m) + (-1) * 64)%Z by lia.
      rewrite Z_mod_plus_full, Z.mod_small by lia. lia. }
  rewrite Hz. do 3 f_equal.
  rewrite Z.shiftl_mul_pow2 by lia. change (2 ^ 3)%Z with 8%Z.
  rewrite Z.mul_comm, Zmult_mod_idemp_r. reflexivity.
Qed.

Lemma checkSum_fed (D : gostring) (d : digest) :
  fed D d -> checkSum d = sha256 D.
Proof.
  intros Hd. unfold checkSum, sha256.
  pose proof Hd as [_ [_ [_ [_ [_ Hlen]]]]]. rewrite Hlen.
  rewrite (checkSum_padding (length D)).
  pose proof (fed_Write D (padding (length D)) d Hd)
    as [A [HD [HA [Hx [Hh _]]]]].
  unfold chunk in *.
  set (d' := Write d (padding (length D))) in *.
  assert (Hnil : x d' = []).
  { assert (E : length (x d') mod 64 = 0).
    { pose proof (padding_length (length D)) as Hp.
      rewrite <- length_app, HD, length_app in Hp.
      rewrite Nat.Div0.add_mod, HA, Nat.add_0_l, Nat.Div0.mod_mod in Hp by lia.
      exact Hp. }
    rewrite Nat.mod_small in E by exact Hx.
    destruct (x d'); [reflexivity | discriminate]. }
  rewrite Hnil, app_nil_r in HD. rewrite Hh, HD. reflexivity.
Qed.

(** Feeding a hasher chunk by chunk and summing gives the digest of the
    whole content. *)
Lemma Sum_chunks (cs : list gostring) :
  Sha256.Sum (fold_left Write cs New) = sha256 (concat cs).
Proof.
  apply checkSum_fed.
  apply (fed_chunks cs [] New fed_New).
Qed.

Lemma Sum256_sha256 (data : gostring) : Sum256 data = sha256 data.
Proof.
  apply checkSum_fed. apply (fed_Write [] data New fed_New).
Qed.

Lemma sha256_length (msg : gostring) : length (sha256 msg) = 32.
Proof.
  unfold sha256.
  pose proof (block_length init (msg ++ padding (length msg)) eq_refl) as H.
  destruct (block init _) as [|a [|b [|c [|e [|f [|g [|i [|j [|k l]]]]]]]]];
    try discriminate.
  reflexivity.
Qed.

(** *** Hexadecimal *)

Lemma hex_digit (n : N) :
  (n < 16)%N -> lowerHex (at_ Hex.hextable (N.to_nat n)) = true.
Proof.
  intros Hn.
  assert (H : In n [0;1;2;3;4;5;6;7;8;9;10;11;12;13;14;15]%N).
  { destruct n as [|[[[[q|q|]|[q|q|]|]|[[q|q|]|[q|q|]|]|]|[[[q|q|]|[q|q|]|]|[[q|q|]|[q|q|]|]|]|]];
      simpl; try tauto; lia. }
  simpl in H.
  repeat (destruct H as [<-|H]; [reflexivity|]). destruct H.
Qed.

Lemma EncodeToString_length (src : gostring) :
  length (Hex.EncodeToString src) = 2 * length src.
Proof.
  unfold Hex.EncodeToString. induction src as [|c src IH]; [reflexivity|].
  cbn [flat_map length app]. rewrite IH. lia.
Qed.

Lemma EncodeToString_lowerHex (src : gostring) :
  forallb lowerHex (Hex.EncodeToString src) = true.
Proof.
  unfold Hex.EncodeToString. induction src as [|c src IH]; [reflexivity|].
  cbn [flat_map app forallb]. rewrite IH.
  pose proof (N_ascii_bounded c) as Hc. fold (val c) in Hc.
  rewrite !hex_digit; [reflexivity| |].
  - change 15%N with (N.ones 4). rewrite N.land_ones.
    apply N.mod_lt. discriminate.
  - rewrite N.shiftr_div_pow2. change (2 ^ 4)%N with 16%N.
    apply N.Div0.div_lt_upper_bound. exact Hc.
Qed.

End ShaFacts.

Module GenerateFacts.
Import Utf8 Unicode Strings Filepath Errors OS Walk Manifest Descr Aux.
Import Utf8Facts StringsFacts NormalizeFacts.

(** *** Induction on file trees *)

Section NodeInd.

Variable P : node -> Prop.
Hypothesis P_NoEntry : forall e, P (NoEntry e).
Hypothesis P_File : forall symlink size data, P (OS.File symlink size data).
Hypothesis P_Dir :
  forall readErr entries,
    Forall (fun e => P (snd e)) entries -> P (Dir readErr entries).

Lemma node_ind2 (n : node) : P n.
Proof.
  revert n. fix IH 1. intros [e | symlink size data | readErr entries].
  - apply P_NoEntry.
  - apply P_File.
  - apply P_Dir. induction entries as [|e es IHes]; constructor.
    + apply IH.
    + exact IHes.
Qed.

End NodeInd.

(** *** The callback *)

Lemma hashFile_cases (path : pathref) :
  (exists e, hashFile path = ([], Some (Sys e))
             /\ match Open path with
                | inl _ => True
                | inr s => final s <> None
                end)
  \/ (exists s, Open path = inr s /\ final s = None
                /\ hashFile path
                   = (Hex.EncodeToString
                        (Sha256.Sum (fold_left Sha256.Write (chunks s)
                                               Sha256.New)), None)).
Proof.
  unfold hashFile. destruct (Open path) as [e|s] eqn:E.
  - left. exists e. split; [reflexivity | exact I].
  - unfold copy. destruct (final s) as [e|] eqn:Ef; cbn.
    + left. exists e. split; [reflexivity | congruence].
    + right. exists s. repeat split; assumption.
Qed.

(** What the callback does with an entry that is no directory. *)
Lemma walkFn_file (os : GOOS) (u : gostring) (below : list gostring)
      (name : gostring) (symlink : bool) (size : Z) (data : errno + stream)
      (m : Manifest) :
  let n := OS.File symlink size data in
  match walkFn os u (mkPath below n) (infoOf name n) None m with
  | (m', None) =>
    fails name n = false
    /\ m' = match retained below name n with
            | [] => m
            | e :: _ => setFiles m (append (Files m) (fileRecord os u e))
            end
  | (m', Some e) =>
    fails name n = true /\ isSkipDir e = false /\ isSkipAll e = false
  end.
Proof.
  cbn [walkFn infoOf OS.IsDir OS.Name OS.ModeSymlink OS.Size fails retained].
  destruct (HasPrefix name (lit ".")); cbn [negb andb orb];
    [split; reflexivity|].
  destruct symlink; cbn [negb andb orb]; [split; reflexivity|].
  unfold Rel at 1. cbn [OS.below].
  unfold fileRecord. cbn [fst snd infoOf OS.Size].
  destruct (hashFile_cases (mkPath below (OS.File false size data)))
    as [[e [Hh Ho]] | [s [Ho [Hf Hh]]]];
    cbn [Open OS.target] in Ho.
  - assert (Hu : unreadable data = true).
    { unfold unreadable. destruct data as [e'|s]; [reflexivity|].
      destruct (final s); [reflexivity | congruence]. }
    rewrite Hu. destruct below; rewrite Hh; cbn; repeat split; reflexivity.
  - subst data. unfold unreadable. rewrite Hf.
    destruct below; rewrite Hh; cbn [fst]; split; reflexivity.
Qed.

(** *** The walk *)

Lemma setFiles_same (m : Manifest) : setFiles m (Files m) = m.
Proof. destruct m; reflexivity. Qed.

Lemma setFiles_setFiles (m : Manifest) (a b : goslice File) :
  setFiles (setFiles m a) b = setFiles m b.
Proof. reflexivity. Qed.

Lemma walkFn_dir (os : GOOS) (u : gostring) (path : pathref)
      (name : gostring) (m : Manifest) :
  walkFn os u path (mkInfo name 0 true false) None m = (m, None).
Proof. reflexivity. Qed.

Lemma eachName_spec (os : GOOS) (u : gostring) (below : list gostring)
      (es : list (gostring * node)) :
  Forall (fun e =>
            forall (below : list gostring) (name : gostring) (m : Manifest)
                   (l : list File),
              Files m = Some l ->
              walked os u m l (fails name (snd e))
                     (retained below name (snd e))
                     (walk (walkFn os u) below name (snd e) m)) es ->
  forall (m : Manifest) (l : list File),
    Files m = Some l ->
    walked os u m l
           (existsb (fun e => fails (fst e) (snd e)) es)
           (flat_map (fun e => retained (below ++ [fst e]) (fst e) (snd e))
                     es)
           (eachName (walkFn os u) (walk (walkFn os u)) below es m).
Proof.
  induction 1 as [|[nm child] es Hchild _ IHes]; intros m l Hl.
  - unfold walked. cbn. split; [reflexivity|]. rewrite app_nil_r, <- Hl.
    symmetry. apply setFiles_same.
  - cbn [eachName flat_map existsb fst snd].
    cbn [fst snd] in Hchild.
    specialize (Hchild (below ++ [nm]) nm m l Hl).
    assert (Hstep :
              walked os u m l
                (fails nm child
                 || existsb (fun e => fails (fst e) (snd e)) es)
                (retained (below ++ [nm]) nm child
                 ++ flat_map (fun e => retained (below ++ [fst e])
                                                (fst e) (snd e)) es)
                (let '(st, err) := walk (walkFn os u) (below ++ [nm]) nm
                                        child m in
                 match err with
                 | Some e' =>
                   if negb (isDirNode child) || negb (isSkipDir e')
                   then (st, Some e')
                   else eachName (walkFn os u) (walk (walkFn os u))
                                 below es st
                 | None =>
                   eachName (walkFn os u) (walk (walkFn os u))
                            below es st
                 end)).
    { unfold walked in Hchild.
      destruct (walk (walkFn os u) (below ++ [nm]) nm child m)
        as [m1 [e1|]].
      - destruct Hchild as [Hf [Hs1 Hs2]]. rewrite Hs1, Hf.
        rewrite orb_true_r. cbn. repeat split; assumption.
      - destruct Hchild as [Hf ->]. rewrite Hf. cbn [orb].
        specialize (IHes (setFiles m (Some (l ++ map (fileRecord os u)
                            (retained (below ++ [nm]) nm child))))
                         _ eq_refl).
        unfold walked in *.
        destruct (eachName _ _ below es _) as [m2 [e2|]]; [exact IHes|].
        destruct IHes as [Hf2 ->]. split; [exact Hf2|].
        rewrite setFiles_setFiles, map_app, app_assoc. reflexivity. }
    destruct child as [e | symlink size data | readErr entries];
      [|exact Hstep|exact Hstep].
    unfold walked. cbn. repeat split; reflexivity.
Qed.

Lemma walk_spec (os : GOOS) (u : gostring) (n : node) :
  forall (below : list gostring) (name : gostring) (m : Manifest)
         (l : list File),
    Files m = Some l ->
    walked os u m l (fails name n) (retained below name n)
           (walk (walkFn os u) below name n m).
Proof.
  induction n as [e | symlink size data | readErr entries IH]
    using node_ind2; intros below name m l Hl.
  - (* [walk] is not called on such an entry; there its callback fails *)
    unfold walked. cbn. unfold Rel. cbn [OS.below].
    destruct below; cbn; repeat split; reflexivity.
  - cbn [walk].
    pose proof (walkFn_file os u below name symlink size data m) as H.
    cbv zeta in H. unfold walked.
    destruct (walkFn os u _ _ None m) as [m' [e|]]; [exact H|].
    destruct H as [Hf ->]. split; [exact Hf|].
    destruct (retained below name (OS.File symlink size data)) as [|x k] eqn:Ek.
    + cbn [map]. rewrite app_nil_r, <- Hl. symmetry. apply setFiles_same.
    + cbn [retained] in Ek.
      destruct (HasPrefix name (lit ".") || symlink); [discriminate|].
      inversion Ek; subst. unfold append. rewrite Hl. reflexivity.
  - cbn [walk infoOf].
    destruct readErr as [e|]; cbn [option_map];
      [unfold walked; cbn; repeat split; reflexivity|].
    rewrite walkFn_dir. cbn [fails retained].
    apply eachName_spec; assumption.
Qed.

(** [filepath.Walk] with the callback of [Generate]. *)
Lemma Walk_spec (os : GOOS) (u : gostring) (v : View) (m : Manifest)
      (l : list File) :
  Files m = Some l ->
  match Walk (walkFn os u) v m with
  | (m', None) =>
    walkFails v = false
    /\ m' = setFiles m (Some (l ++ map (fileRecord os u)
                                       (retained [] (base v) (root v))))
  | (_, Some e) => walkFails v = true
  end.
Proof.
  intros Hl. unfold Walk, walkFails.
  pose proof (walk_spec os u (root v) [] (base v) m l Hl) as H.
  unfold walked in H.
  destruct (root v) as [e | symlink size data | readErr entries] eqn:Er.
  - cbn. reflexivity.
  - destruct (walk _ _ _ _ m) as [m' [e|]].
    + destruct H as [Hf [Hs1 Hs2]]. rewrite Hs1, Hs2. cbn. exact Hf.
    + exact H.
  - destruct (walk _ _ _ _ m) as [m' [e|]].
    + destruct H as [Hf [Hs1 Hs2]]. rewrite Hs1, Hs2. cbn. exact Hf.
    + exact H.
Qed.

(** *** Generate *)

Lemma Generate_invalid (fs : FileSystem) (os : GOOS)
      (dir id version urlPrefix : gostring) (pf : goslice gostring) :
  validInputs fs dir id version urlPrefix = false ->
  exists e, Generate fs os dir id version urlPrefix pf = (None, Some e)
            /\ (kindOf e = ValidationError \/ kindOf e = FilesystemError).
Proof.
  unfold validInputs, Generate.
  destruct (isEmpty id || isEmpty version); cbn [negb andb];
    [intros _; eexists; split; [reflexivity | left; reflexivity]|].
  destruct (Stat (fs dir)) as [err|info]; cbn [andb];
    [intros _; eexists; split; [reflexivity | right; reflexivity]|].
  destruct (OS.IsDir info); cbn [negb andb];
    [|intros _; eexists; split; [reflexivity | right; reflexivity]].
  intros H. apply orb_false_iff in H. destruct H as [-> ->]. cbn.
  eexists. split; [reflexivity | left; reflexivity].
Qed.

Lemma Generate_valid (fs : FileSystem) (os : GOOS)
      (dir id version urlPrefix : gostring) (pf : goslice gostring) :
  validInputs fs dir id version urlPrefix = true ->
  if walkFails (fs dir) then
    exists e, Generate fs os dir id version urlPrefix pf
              = (None, Some (Errorf "failed to walk directory: %w" None
                                    (Some e)))
  else
    Generate fs os dir id version urlPrefix pf
    = (Some (generated fs os dir id version urlPrefix pf), None).
Proof.
  unfold validInputs, Generate. intros H.
  apply andb_true_iff in H. destruct H as [H Hp].
  apply andb_true_iff in H. destruct H as [Hid Hst].
  apply negb_true_iff in Hid. rewrite Hid.
  destruct (Stat (fs dir)) as [err|info]; [discriminate|].
  rewrite Hst. cbn [negb].
  assert (Hp' : negb (HasPrefix urlPrefix (lit "http://"))
                && negb (HasPrefix urlPrefix (lit "https://")) = false).
  { apply orb_true_iff in Hp. destruct Hp as [-> | ->];
      [reflexivity | apply andb_false_r]. }
  rewrite Hp'.
  set (m0 := mkManifest id version _ _ _).
  pose proof (Walk_spec os (TrimSuffix urlPrefix (lit "/")) (fs dir) m0 []
                        eq_refl) as H.
  destruct (Walk _ (fs dir) m0) as [m' [e|]].
  - rewrite H. exists e. reflexivity.
  - destruct H as [-> ->]. reflexivity.
Qed.

(** A manifest is returned only for valid inputs and a walk without
    failure, and then it is [generated]. *)
Lemma Generate_success (fs : FileSystem) (os : GOOS)
      (dir id version urlPrefix : gostring) (pf : goslice gostring)
      (m : Manifest) (err : option error) :
  Generate fs os dir id version urlPrefix pf = (Some m, err) ->
  validInputs fs dir id version urlPrefix = true
  /\ walkFails (fs dir) = false
  /\ err = None
  /\ m = generated fs os dir id version urlPrefix pf.
Proof.
  intros H.
  destruct (validInputs fs dir id version urlPrefix) eqn:Hv.
  - pose proof (Generate_valid fs os dir id version urlPrefix pf Hv) as G.
    destruct (walkFails (fs dir)).
    + destruct G as [e G]. rewrite G in H. discriminate.
    + rewrite G in H. inversion H. repeat split; reflexivity.
  - destruct (Generate_invalid fs os dir id version urlPrefix pf Hv)
      as [e [G _]].
    rewrite G in H. discriminate.
Qed.

(** *** Retained files and their paths *)

Lemma retained_below (os : GOOS) (n : node) :
  forall (below : list gostring) (name : gostring)
         (p : pathref) (info : FileInfo),
    In (p, info) (retained below name n) ->
    HasPrefix (OS.Name info) (lit ".") = false
    /\ ((OS.below p = below /\ OS.Name info = name /\ plainFile n = true)
        \/ exists mid, OS.below p = below ++ mid ++ [OS.Name info])
    /\ (validTree os n = true ->
        exists tail, OS.below p = below ++ tail
                     /\ Forall (fun x => validName os x = true) tail).
Proof.
  induction n as [e | symlink size data | readErr entries IH]
    using node_ind2; intros below name p info Hin.
  - destruct Hin.
  - cbn [retained] in Hin.
    destruct (HasPrefix name (lit ".")) eqn:Hh; [destruct Hin|].
    destruct symlink; [destruct Hin|].
    destruct Hin as [Hin|[]]. inversion Hin; subst. cbn.
    split; [exact Hh|]. split; [left; repeat split|].
    intros _. exists []. rewrite app_nil_r. split; [reflexivity|constructor].
  - cbn [retained] in Hin. apply in_flat_map in Hin.
    destruct Hin as [[nm child] [He Hin]]. cbn [fst snd] in Hin.
    rewrite Forall_forall in IH.
    destruct (IH _ He _ _ _ _ Hin) as [Hh [Hb Hv]]. cbn [snd] in *.
    split; [exact Hh|]. split.
    + right. destruct Hb as [[Hb [Hn _]] | [mid Hb]].
      * exists []. rewrite Hb, Hn. reflexivity.
      * exists (nm :: mid). rewrite Hb, <- app_assoc. reflexivity.
    + intros Hvalid. cbn [validTree] in Hvalid.
      rewrite forallb_forall in Hvalid. specialize (Hvalid _ He).
      cbn [fst snd] in Hvalid. apply andb_true_iff in Hvalid.
      destruct Hvalid as [Hnm Hchild].
      destruct (Hv Hchild) as [tail [Hb' Ht]].
      exists (nm :: tail). rewrite Hb', <- app_assoc.
      split; [reflexivity | constructor; assumption].
Qed.

Lemma validName_inv (os : GOOS) (n : gostring) :
  validName os n = true ->
  n <> [] /\ existsb (Ascii.eqb slash) n = false
  /\ existsb (Ascii.eqb (Separator os)) n = false.
Proof.
  unfold validName. intros H.
  apply andb_true_iff in H. destruct H as [H H3].
  apply andb_true_iff in H. destruct H as [H1 H2].
  apply negb_true_iff in H1, H2, H3.
  repeat split; try assumption. destruct n; [discriminate | congruence].
Qed.

Lemma map_slashByte_id (os : GOOS) (n : gostring) :
  existsb (Ascii.eqb (Separator os)) n = false -> map (slashByte os) n = n.
Proof.
  induction n as [|c n IH]; [reflexivity|]. cbn [existsb map].
  intros H. apply orb_false_iff in H. destruct H as [Hc Hn].
  rewrite IH by assumption. unfold slashByte.
  rewrite Ascii.eqb_sym, Hc. reflexivity.
Qed.

Lemma slashByte_Separator (os : GOOS) :
  slashByte os (Separator os) = slash.
Proof. destruct os; reflexivity. Qed.

Lemma ToSlash_joinNames (os : GOOS) (names : list gostring) :
  Forall (fun x => validName os x = true) names ->
  ToSlash os (joinNames os names) = joinSlash names.
Proof.
  rewrite NormalizeFacts.ToSlash_map.
  induction 1 as [|n names Hn _ IH]; [reflexivity|].
  destruct (validName_inv os n Hn) as [_ [_ Hsep]].
  cbn [joinNames joinSlash]. destruct names as [|n' names'].
  - apply map_slashByte_id. exact Hsep.
  - rewrite map_app. cbn [map]. rewrite IH, slashByte_Separator.
    rewrite map_slashByte_id by exact Hsep. reflexivity.
Qed.

Lemma joinSlash_snoc (pre : list gostring) (nm : gostring) :
  pre <> [] -> joinSlash (pre ++ [nm]) = joinSlash pre ++ slash :: nm.
Proof.
  induction pre as [|n pre IH]; [congruence|]. intros _.
  destruct pre as [|n' pre']; [reflexivity|].
  change (joinSlash ((n :: n' :: pre') ++ [nm]))
    with (n ++ slash :: joinSlash ((n' :: pre') ++ [nm])).
  rewrite IH by discriminate.
  cbn [joinSlash]. rewrite <- app_assoc. reflexivity.
Qed.

Lemma baseName_plain (nm : gostring) :
  existsb (Ascii.eqb slash) nm = false -> baseName nm = nm.
Proof.
  destruct nm as [|c nm]; [reflexivity|]. cbn [existsb baseName].
  intros H. apply orb_false_iff in H. destruct H as [Hc Hn].
  rewrite Hn. rewrite Ascii.eqb_sym in Hc. rewrite Hc. reflexivity.
Qed.

Lemma existsb_slash_app (x nm : gostring) :
  existsb (Ascii.eqb slash) (x ++ slash :: nm) = true.
Proof.
  rewrite existsb_app. cbn [existsb]. rewrite Ascii.eqb_refl.
  rewrite orb_true_r. reflexivity.
Qed.

Lemma baseName_after_slash (x nm : gostring) :
  existsb (Ascii.eqb slash) nm = false ->
  baseName (x ++ slash :: nm) = nm.
Proof.
  intros Hn. induction x as [|c x IH].
  - cbn [app baseName]. rewrite Hn, Ascii.eqb_refl. reflexivity.
  - cbn [app baseName]. rewrite existsb_slash_app. exact IH.
Qed.

Lemma baseName_joinSlash (pre : list gostring) (nm : gostring) :
  existsb (Ascii.eqb slash) nm = false ->
  baseName (joinSlash (pre ++ [nm])) = nm.
Proof.
  intros Hn. destruct pre as [|n pre].
  - apply baseName_plain. exact Hn.
  - rewrite joinSlash_snoc by discriminate.
    apply baseName_after_slash. exact Hn.
Qed.

(** *** Double slashes *)


Lemma endsSlash_snoc (a : gostring) (c : byte) :
  endsSlash (a ++ [c]) = Ascii.eqb c slash.
Proof. unfold endsSlash. rewrite rev_app_distr. reflexivity. Qed.

Lemma HasSuffix_slash (s : gostring) :
  HasSuffix s (lit "/") = endsSlash s.
Proof.
  unfold HasSuffix. cbn [lit list_ascii_of_string length].
  destruct s as [|c s] using rev_ind; [reflexivity|].
  rewrite endsSlash_snoc, length_app. cbn [length].
  destruct (Nat.leb_spec 1 (length s + 1)); [|lia]. cbn [andb].
  replace (length s + 1 - 1) with (length s) by lia.
  rewrite skipn_app, skipn_all, Nat.sub_diag. cbn [skipn app].
  unfold GoString.eqb.
  destruct (list_eq_dec ascii_dec [c] ["/"%char]) as [E|E];
    destruct (Ascii.eqb_spec c slash) as [E'|E']; try reflexivity.
  - inversion E. contradiction.
  - subst c. contradiction.
Qed.

Lemma TrimSuffix_slash (s : gostring) :
  TrimSuffix s (lit "/") = trimSlash s.
Proof.
  unfold TrimSuffix, trimSlash. rewrite HasSuffix_slash.
  destruct (endsSlash s) eqn:E; [|reflexivity].
  cbn [lit list_ascii_of_string length].
  destruct s as [|c s] using rev_ind; [discriminate|].
  rewrite removelast_last, length_app. cbn [length].
  replace (length s + 1 - 1) with (length s) by lia.
  rewrite firstn_app, firstn_all, Nat.sub_diag. cbn. apply app_nil_r.
Qed.





Lemma relOf_names (os : GOOS) (p : pathref) :
  OS.below p <> [] ->
  Forall (fun x => validName os x = true) (OS.below p) ->
  relOf os p = joinSlash (OS.below p).
Proof.
  intros Hne Hv. unfold relOf, Rel.
  destruct (OS.below p) as [|n names] eqn:E; [congruence|].
  cbn [fst]. apply ToSlash_joinNames. exact Hv.
Qed.



Lemma retained_baseName (os : GOOS) (name : gostring) (n : node)
      (p : pathref) (info : FileInfo) :
  validTree os n = true -> plainFile n = false ->
  In (p, info) (retained [] name n) ->
  baseName (relOf os p) = OS.Name info
  /\ HasPrefix (OS.Name info) (lit ".") = false.
Proof.
  intros Hv Hpl Hin.
  destruct (retained_below os n [] name p info Hin) as [Hh [Hb Ht]].
  split; [|exact Hh].
  destruct Hb as [[_ [_ Hb]] | [mid Hb]]; [congruence|].
  destruct (Ht Hv) as [tail [E Hall]]. cbn [app] in E, Hb.
  rewrite relOf_names.
  - rewrite Hb. apply baseName_joinSlash.
    rewrite E, Hb in *. apply Forall_app in Hall. destruct Hall as [_ Hall].
    inversion Hall as [|? ? Hn _]; subst.
    apply (validName_inv os). exact Hn.
  - rewrite Hb. destruct mid; discriminate.
  - rewrite E. exact Hall.
Qed.

(** *** URL prefixes *)

Lemma HasPrefix_split (s p : gostring) :
  HasPrefix s p = true -> s = p ++ skipn (length p) s.
Proof.
  revert s. induction p as [|c p IH]; intros s H; [reflexivity|].
  destruct s as [|d s]; [discriminate|]. cbn [HasPrefix] in H.
  apply andb_true_iff in H. destruct H as [Hc Hp].
  apply Ascii.eqb_eq in Hc. subst d. cbn [length skipn app].
  f_equal. apply IH. exact Hp.
Qed.

Lemma HasPrefix_app (p r : gostring) : HasPrefix (p ++ r) p = true.
Proof.
  induction p as [|c p IH]; [destruct r; reflexivity|].
  cbn [app HasPrefix]. rewrite Ascii.eqb_refl. exact IH.
Qed.

Lemma HasPrefix_app_l (s p x : gostring) :
  HasPrefix s p = true -> HasPrefix (s ++ x) p = true.
Proof.
  intros H. rewrite (HasPrefix_split s p H), <- app_assoc.
  apply HasPrefix_app.
Qed.

Lemma endsSlash_removelast (r : gostring) :
  endsSlash r = true -> r = removelast r ++ [slash].
Proof.
  destruct r as [|c r] using rev_ind; [discriminate|].
  rewrite endsSlash_snoc, removelast_last. intros H.
  apply Ascii.eqb_eq in H. subst c. reflexivity.
Qed.



End GenerateFacts.

(** ** encoding/json: strings *)

Module JsonFacts.
Import GoString Utf8 Unicode Strings Filepath Errors OS Walk Manifest.
Import Descr Aux Utf8Facts StringsFacts NormalizeFacts GenerateFacts.
Import Utf8Enc Json.

(** *** Bits as arithmetic *)

Lemma N_land_shift_low (a b k : N) :
  (b < 2 ^ k)%N -> N.land (a * 2 ^ k) b = 0%N.
Proof.
  intros Hb. apply N.bits_inj. intros n. rewrite N.land_spec, N.bits_0.
  destruct (N.lt_ge_cases n k) as [Hn|Hn].
  - rewrite N.mul_pow2_bits_low by exact Hn. reflexivity.
  - rewrite <- (N.mod_small b (2 ^ k)) by exact Hb.
    rewrite N.mod_pow2_bits_high by exact Hn. apply andb_false_r.
Qed.

Lemma N_lor_add (a b k : N) :
  (b < 2 ^ k)%N -> N.lor (a * 2 ^ k) b = (a * 2 ^ k + b)%N.
Proof.
  intros Hb. pose proof (N_land_shift_low a b k Hb) as H.
  rewrite <- N.lxor_lor by exact H. symmetry. apply N.add_nocarry_lxor.
  exact H.
Qed.

Lemma Z_lor_add (a b k : Z) :
  (0 <= a)%Z -> (0 <= k)%Z -> (0 <= b < 2 ^ k)%Z ->
  Z.lor (a * 2 ^ k) b = (a * 2 ^ k + b)%Z.
Proof.
  intros Ha Hk Hb.
  assert (H : Z.land (a * 2 ^ k) b = 0%Z).
  { apply Z.bits_inj'. intros n Hn. rewrite Z.land_spec, Z.bits_0.
    destruct (Z.lt_ge_cases n k) as [Hnk|Hnk].
    - rewrite Z.mul_pow2_bits_low by lia. reflexivity.
    - rewrite <- (Z.mod_small b (2 ^ k)) by exact Hb.
      rewrite Z.mod_pow2_bits_high by lia. apply andb_false_r. }
  rewrite <- Z.lxor_lor by exact H. symmetry. apply Z.add_nocarry_lxor.
  exact H.
Qed.

Lemma byteOf_val (b : byte) : byteOf (Z.of_N (val b)) = b.
Proof.
  unfold byteOf. pose proof (N_ascii_bounded b) as Hb. fold (val b) in Hb.
  rewrite Z.mod_small by lia. rewrite N2Z.id. apply ascii_N_embedding.
Qed.

(** *** Decoding, in arithmetic *)

(** The ranges of the first byte and of the second byte for each class of
    first byte. *)
Lemma first_ranges (b : byte) :
  (first b = s1 -> 194 <= val b <= 223)%N
  /\ (first b = s2 -> val b = 224)%N
  /\ (first b = s3 -> 225 <= val b <= 239 /\ val b <> 237)%N
  /\ (first b = s4 -> val b = 237)%N
  /\ (first b = s5 -> val b = 240)%N
  /\ (first b = s6 -> 241 <= val b <= 243)%N
  /\ (first b = s7 -> val b = 244)%N.
Proof.
  unfold first.
  repeat match goal with
         | |- context [(?a <? ?c)%N] => destruct (N.ltb_spec a c)
         | |- context [(?a =? ?c)%N] => destruct (N.eqb_spec a c)
         end; repeat split; try discriminate; try lia.
Qed.

(** *** EncodeRune, in arithmetic *)

Ltac divmod := Z.div_mod_to_equations; lia.

Lemma lor_low (hi lo k : Z) :
  (0 <= hi)%Z -> (0 <= k)%Z -> (0 <= lo < 2 ^ k)%Z ->
  (hi mod 2 ^ k = 0)%Z -> Z.lor hi lo = (hi + lo)%Z.
Proof.
  intros Hhi Hk Hlo Hm.
  assert (E : hi = (hi / 2 ^ k * 2 ^ k)%Z).
  { pose proof (Z.div_mod hi (2 ^ k) ltac:(lia)). lia. }
  rewrite E at 1. rewrite Z_lor_add; try lia; try (apply Z.div_pos; lia).
Qed.

Lemma encode2 (a c : Z) :
  (2 <= a <= 31)%Z -> (0 <= c <= 63)%Z ->
  EncodeRune (a * 64 + c)%Z = [byteOf (192 + a)%Z; byteOf (128 + c)%Z].
Proof.
  intros Ha Hc. unfold EncodeRune.
  rewrite (Z.mod_small (a * 64 + c)) by lia.
  destruct (Z.leb_spec (a * 64 + c) 127); [lia|].
  destruct (Z.leb_spec (a * 64 + c) 2047); [|lia].
  rewrite Z.shiftr_div_pow2 by lia.
  change 63%Z with (Z.ones 6). rewrite Z.land_ones by lia.
  change (2 ^ 6)%Z with 64%Z.
  replace ((a * 64 + c) / 64)%Z with a by divmod.
  replace ((a * 64 + c) mod 64)%Z with c by divmod.
  rewrite (lor_low 192 a 5), (lor_low 128 c 6) by (cbn; lia).
  reflexivity.
Qed.

Lemma encode3 (a c d : Z) :
  (0 <= a <= 15)%Z -> (0 <= c <= 63)%Z -> (0 <= d <= 63)%Z ->
  (2048 <= a * 4096 + c * 64 + d)%Z ->
  (a * 4096 + c * 64 + d < 55296 \/ 57343 < a * 4096 + c * 64 + d)%Z ->
  EncodeRune (a * 4096 + c * 64 + d)%Z
  = [byteOf (224 + a)%Z; byteOf (128 + c)%Z; byteOf (128 + d)%Z].
Proof.
  intros Ha Hc Hd Hlo Hsur. unfold EncodeRune, MaxRune, surrogateMin, surrogateMax.
  set (r := (a * 4096 + c * 64 + d)%Z) in *.
  rewrite (Z.mod_small r) by lia.
  destruct (Z.leb_spec r 127); [lia|].
  destruct (Z.leb_spec r 2047); [lia|].
  destruct (Z.ltb_spec 1114111 r); [lia|]. cbn [orb].
  assert (Hs : ((55296 <=? r) && (r <=? 57343))%Z = false).
  { destruct (Z.leb_spec 55296 r), (Z.leb_spec r 57343); try reflexivity; lia. }
  rewrite Hs.
  destruct (Z.leb_spec r 65535); [|lia].
  rewrite !Z.shiftr_div_pow2 by lia.
  change 63%Z with (Z.ones 6). rewrite !Z.land_ones by lia.
  change (2 ^ 6)%Z with 64%Z. change (2 ^ 12)%Z with 4096%Z.
  replace (r / 4096)%Z with a by (subst r; divmod).
  replace ((r / 64) mod 64)%Z with c by (subst r; divmod).
  replace (r mod 64)%Z with d by (subst r; divmod).
  rewrite (lor_low 224 a 4), (lor_low 128 c 6), (lor_low 128 d 6)
    by (cbn; lia).
  reflexivity.
Qed.

Lemma encode4 (a c d e : Z) :
  (0 <= a <= 7)%Z -> (0 <= c <= 63)%Z -> (0 <= d <= 63)%Z ->
  (0 <= e <= 63)%Z ->
  (65536 <= a * 262144 + c * 4096 + d * 64 + e <= 1114111)%Z ->
  EncodeRune (a * 262144 + c * 4096 + d * 64 + e)%Z
  = [byteOf (240 + a)%Z; byteOf (128 + c)%Z; byteOf (128 + d)%Z;
     byteOf (128 + e)%Z].
Proof.
  intros Ha Hc Hd He Hr. unfold EncodeRune, MaxRune, surrogateMin, surrogateMax.
  set (r := (a * 262144 + c * 4096 + d * 64 + e)%Z) in *.
  rewrite (Z.mod_small r) by lia.
  destruct (Z.leb_spec r 127); [lia|].
  destruct (Z.leb_spec r 2047); [lia|].
  destruct (Z.ltb_spec 1114111 r); [lia|]. cbn [orb].
  assert (Hs : ((55296 <=? r) && (r <=? 57343))%Z = false).
  { destruct (Z.leb_spec 55296 r), (Z.leb_spec r 57343); try reflexivity; lia. }
  rewrite Hs.
  destruct (Z.leb_spec r 65535); [lia|].
  rewrite !Z.shiftr_div_pow2 by lia.
  change 63%Z with (Z.ones 6). rewrite !Z.land_ones by lia.
  change (2 ^ 6)%Z with 64%Z. change (2 ^ 12)%Z with 4096%Z.
  change (2 ^ 18)%Z with 262144%Z.
  replace (r / 262144)%Z with a by (subst r; divmod).
  replace ((r / 4096) mod 64)%Z with c by (subst r; divmod).
  replace ((r / 64) mod 64)%Z with d by (subst r; divmod).
  replace (r mod 64)%Z with e by (subst r; divmod).
  rewrite (lor_low 240 a 3), (lor_low 128 c 6), (lor_low 128 d 6),
    (lor_low 128 e 6) by (cbn; lia).
  reflexivity.
Qed.

(** The runes the decoder computes, in arithmetic. *)

Lemma N_land_sub (v m lo : N) (k : N) :
  m = N.ones k -> (lo mod 2 ^ k = 0)%N -> (lo <= v < lo + 2 ^ k)%N ->
  N.land v m = (v - lo)%N.
Proof.
  intros -> Hlo Hv. rewrite N.land_ones.
  assert (E : (v = 2 ^ k * (lo / 2 ^ k) + (v - lo))%N).
  { pose proof (N.div_mod lo (2 ^ k)) as H.
    assert (2 ^ k <> 0)%N by (apply N.pow_nonzero; discriminate).
    specialize (H ltac:(assumption)). rewrite Hlo in H. lia. }
  symmetry. apply (N.mod_unique _ _ (lo / 2 ^ k)); [lia | exact E].
Qed.

Lemma rune2 (v0 v1 : N) :
  (192 <= v0 <= 223)%N -> (128 <= v1 <= 191)%N ->
  Z.of_N (N.lor (N.shiftl (N.land v0 mask2) 6) (N.land v1 maskx))
  = ((Z.of_N v0 - 192) * 64 + (Z.of_N v1 - 128))%Z.
Proof.
  intros H0 H1.
  rewrite (N_land_sub v0 mask2 192 5), (N_land_sub v1 maskx 128 6)
    by (try reflexivity; cbn; lia).
  rewrite N.shiftl_mul_pow2, N_lor_add by (cbn; lia). cbn [N.pow]. lia.
Qed.

Lemma rune3 (v0 v1 v2 : N) :
  (224 <= v0 <= 239)%N -> (128 <= v1 <= 191)%N -> (128 <= v2 <= 191)%N ->
  Z.of_N (N.lor (N.lor (N.shiftl (N.land v0 mask3) 12)
                       (N.shiftl (N.land v1 maskx) 6))
                (N.land v2 maskx))
  = ((Z.of_N v0 - 224) * 4096 + (Z.of_N v1 - 128) * 64
     + (Z.of_N v2 - 128))%Z.
Proof.
  intros H0 H1 H2.
  rewrite (N_land_sub v0 mask3 224 4), (N_land_sub v1 maskx 128 6),
    (N_land_sub v2 maskx 128 6) by (try reflexivity; cbn; lia).
  rewrite !N.shiftl_mul_pow2.
  rewrite (N_lor_add (v0 - 224) _ 12) by (cbn; lia).
  replace ((v0 - 224) * 2 ^ 12 + (v1 - 128) * 2 ^ 6)%N
    with (((v0 - 224) * 64 + (v1 - 128)) * 2 ^ 6)%N by (cbn; lia).
  rewrite N_lor_add by (cbn; lia). cbn [N.pow]. lia.
Qed.

Lemma rune4 (v0 v1 v2 v3 : N) :
  (240 <= v0 <= 247)%N -> (128 <= v1 <= 191)%N -> (128 <= v2 <= 191)%N ->
  (128 <= v3 <= 191)%N ->
  Z.of_N (N.lor (N.lor (N.lor (N.shiftl (N.land v0 mask4) 18)
                              (N.shiftl (N.land v1 maskx) 12))
                       (N.shiftl (N.land v2 maskx) 6))
                (N.land v3 maskx))
  = ((Z.of_N v0 - 240) * 262144 + (Z.of_N v1 - 128) * 4096
     + (Z.of_N v2 - 128) * 64 + (Z.of_N v3 - 128))%Z.
Proof.
  intros H0 H1 H2 H3.
  rewrite (N_land_sub v0 mask4 240 3), (N_land_sub v1 maskx 128 6),
    (N_land_sub v2 maskx 128 6), (N_land_sub v3 maskx 128 6)
    by (try reflexivity; cbn; lia).
  rewrite !N.shiftl_mul_pow2.
  rewrite (N_lor_add (v0 - 240) _ 18) by (cbn; lia).
  replace ((v0 - 240) * 2 ^ 18 + (v1 - 128) * 2 ^ 12)%N
    with (((v0 - 240) * 64 + (v1 - 128)) * 2 ^ 12)%N by (cbn; lia).
  rewrite (N_lor_add _ _ 12) by (cbn; lia).
  replace (((v0 - 240) * 64 + (v1 - 128)) * 2 ^ 12 + (v2 - 128) * 2 ^ 6)%N
    with ((((v0 - 240) * 64 + (v1 - 128)) * 64 + (v2 - 128)) * 2 ^ 6)%N
    by (cbn; lia).
  rewrite N_lor_add by (cbn; lia). cbn [N.pow]. lia.
Qed.

Ltac byte_values :=
  cbn [firstn];
  repeat match goal with
         | |- context [byteOf (?k + (Z.of_N (val ?b) - ?k))%Z] =>
           replace (k + (Z.of_N (val b) - k))%Z with (Z.of_N (val b)) by lia
         end;
  rewrite !byteOf_val; reflexivity.

(** Encoding the rune of a valid encoding gives the encoding back. *)
Lemma encode_decode (b : byte) (t : gostring) (r : rune) (size : nat) :
  (128 <= val b)%N ->
  DecodeRuneInString (b :: t) = (r, size) ->
  (r = RuneError -> size <> 1) ->
  EncodeRune r = firstn size (b :: t).
Proof.
  intros Hb H Hvalid.
  destruct (first_ranges b) as [R1 [R2 [R3 [R4 [R5 [R6 R7]]]]]].
  shapes t; by_class b; try lia;
    try (inversion H; subst; exfalso; apply Hvalid; reflexivity);
    try specialize (R1 Hfirst); try specialize (R2 Hfirst);
    try specialize (R3 Hfirst); try specialize (R4 Hfirst);
    try specialize (R5 Hfirst); try specialize (R6 Hfirst);
    try specialize (R7 Hfirst).
  all: split_ifs; try (inversion H; subst; exfalso; apply Hvalid; reflexivity).
  all: inversion H; subst; clear H Hvalid; to_props.
  all: first
         [ rewrite rune2 by lia; rewrite encode2 by lia; byte_values
         | rewrite rune3 by lia; rewrite encode3 by lia; byte_values
         | rewrite rune4 by lia; rewrite encode4 by lia; byte_values ].
Qed.

(** *** Fuel *)

Lemma length_skipn_le {A : Type} (n : nat) (l : list A) (k : nat) :
  length l <= k -> length (skipn n l) <= k.
Proof. intros H. rewrite length_skipn. lia. Qed.

Lemma length_skipn_decode (s : gostring) (k : nat) :
  s <> [] -> length s <= S k ->
  length (skipn (snd (DecodeRuneInString s)) s) <= k.
Proof.
  intros Hs Hl. pose proof (decode_size s Hs). rewrite length_skipn. lia.
Qed.

(** The loop of [unquoteBytes] does not depend on its fuel, once that is
    the length of the string. *)
Lemma unquoteLoop_fuel (f1 : nat) :
  forall (f2 : nat) (s : gostring),
    length s <= f1 -> length s <= f2 ->
    unquoteLoop f1 s = unquoteLoop f2 s.
Proof.
  induction f1 as [|f1 IH]; intros f2 s H1 H2.
  - destruct s; [destruct f2; reflexivity | simpl in H1; lia].
  - destruct f2 as [|f2]; [destruct s; [reflexivity | simpl in H2; lia]|].
    destruct s as [|c rest]; [reflexivity|].
    cbn [length] in H1, H2.
    assert (Hrec : forall n, unquoteLoop f1 (skipn n (c :: rest))
                             = unquoteLoop f2 (skipn n (c :: rest))
                             \/ n = 0).
    { intros n. destruct n as [|n]; [right; reflexivity|left].
      apply IH; cbn [skipn]; apply length_skipn_le; lia. }
    assert (Hrest : forall n, unquoteLoop f1 (skipn n rest)
                              = unquoteLoop f2 (skipn n rest)).
    { intros n. apply IH; apply length_skipn_le; lia. }
    pose proof (Hrest 0) as Hrest0. cbn [skipn] in Hrest0.
    cbn [unquoteLoop].
    destruct (Ascii.eqb c "092"%char).
    + destruct rest as [|e rest']; [reflexivity|].
      pose proof (Hrest 1) as Hrest1. cbn [skipn] in Hrest1.
      rewrite Hrest1.
      repeat match goal with
             | |- (if ?x then _ else _) = (if ?x then _ else _) =>
               destruct x; try reflexivity
             end.
      * pose proof (Hrest 5) as H5. pose proof (Hrest 11) as H11.
        change (skipn 6 (c :: e :: rest')) with (skipn 5 (e :: rest')).
        rewrite skipn_skipn. cbn [Nat.add].
        change (skipn 12 (c :: e :: rest')) with (skipn 11 (e :: rest')).
        rewrite H11. reflexivity.
      * pose proof (Hrest 5) as H5.
        change (skipn 6 (c :: e :: rest')) with (skipn 5 (e :: rest')).
        rewrite H5. reflexivity.
      * pose proof (Hrest 5) as H5.
        change (skipn 6 (c :: e :: rest')) with (skipn 5 (e :: rest')).
        rewrite H5. reflexivity.
    + destruct (_ || _); [reflexivity|].
      destruct (_ <? _)%N; [rewrite Hrest0; reflexivity|].
      destruct (DecodeRuneInString (c :: rest)) as [rr size] eqn:E.
      pose proof (decode_size (c :: rest) ltac:(discriminate)) as Hsz.
      rewrite E in Hsz. cbn [snd] in Hsz.
      destruct size as [|size]; [lia|]. cbn [skipn].
      rewrite (Hrest size). reflexivity.
Qed.

(** A valid encoding is decoded the same whatever follows it. *)
Lemma decode_valid_app (s x : gostring) (r : rune) (size : nat) :
  s <> [] ->
  DecodeRuneInString s = (r, size) ->
  (r = RuneError -> size <> 1) ->
  DecodeRuneInString (firstn size s ++ x) = (r, size).
Proof.
  destruct s as [|b t]; [congruence|].
  intros _ H Hvalid. shapes t; by_class b.
  all: split_ifs; try discriminate; inversion H; subst; clear H;
    try (exfalso; apply Hvalid; reflexivity);
    cbn [firstn length at_ nth Nat.ltb Nat.leb app]; rewrite ?Hfirst;
    class_consts; use_conds; try reflexivity; try congruence.
  all: destruct x; cbn [length Nat.ltb Nat.leb at_ nth app];
    use_conds; try reflexivity; try congruence.
Qed.

(** Decoding looks at no more than [UTFMax] bytes. *)
Lemma decode_firstn_max (s : gostring) :
  DecodeRuneInString (firstn UTFMax s) = DecodeRuneInString s.
Proof.
  destruct s as [|b t]; [reflexivity|].
  unfold UTFMax. shapes t; try reflexivity.
  cbn [firstn]. destruct t as [|b4 t]; [reflexivity|].
  by_class b; reflexivity.
Qed.

(** The bytes of a valid encoding of more than one byte are not ASCII. *)
Lemma decode_valid_high (b : byte) (t : gostring) (r : rune) (size : nat) :
  (128 <= val b)%N ->
  DecodeRuneInString (b :: t) = (r, size) ->
  (r = RuneError -> size <> 1) ->
  Forall (fun c => (128 <= val c)%N) (firstn size (b :: t)).
Proof.
  intros Hb H Hvalid. shapes t; by_class b; try lia.
  all: split_ifs; try discriminate; inversion H; subst; clear H;
    try (exfalso; apply Hvalid; reflexivity).
  all: to_props; cbn [firstn]; repeat constructor; lia.
Qed.

(** *** Unquoting what was quoted *)

Lemma unquoteLoop_all (F : nat) (t : gostring) :
  length t <= F -> unquoteLoop F t = unquoteAll t.
Proof. intros H. apply unquoteLoop_fuel; [exact H | apply Nat.le_refl]. Qed.

Lemma validUtf8Loop_fuel (f1 : nat) :
  forall (f2 : nat) (s : gostring),
    length s <= f1 -> length s <= f2 ->
    validUtf8Loop f1 s = validUtf8Loop f2 s.
Proof.
  induction f1 as [|f1 IH]; intros f2 s H1 H2.
  - destruct s; [destruct f2; reflexivity | simpl in H1; lia].
  - destruct f2 as [|f2]; [destruct s; [reflexivity | simpl in H2; lia]|].
    destruct s as [|c rest]; [reflexivity|].
    cbn [validUtf8Loop].
    pose proof (length_skipn_decode (c :: rest) f1 ltac:(discriminate) H1).
    pose proof (length_skipn_decode (c :: rest) f2 ltac:(discriminate) H2).
    destruct (DecodeRuneInString (c :: rest)) as [r size].
    cbn [snd] in *. f_equal. apply IH; assumption.
Qed.

(** A valid string starts with a valid encoding, and the rest is valid. *)
Lemma validUtf8_inv (s : gostring) (r : rune) (size : nat) :
  s <> [] -> validUtf8 s = true -> DecodeRuneInString s = (r, size) ->
  (r = RuneError -> size <> 1) /\ validUtf8 (skipn size s) = true.
Proof.
  intros Hs Hv Hd. unfold validUtf8 in *.
  destruct s as [|c rest]; [congruence|].
  cbn [length validUtf8Loop] in Hv. rewrite Hd in Hv.
  apply andb_true_iff in Hv. destruct Hv as [Hr Hv].
  split.
  - intros -> ->. discriminate.
  - rewrite <- Hv. apply validUtf8Loop_fuel; [apply Nat.le_refl|].
    pose proof (length_skipn_decode (c :: rest) (length rest)
                                    ltac:(discriminate) (Nat.le_refl _)) as L.
    rewrite Hd in L. exact L.
Qed.

Lemma validUtf8_tail (b : byte) (rest : gostring) :
  (val b < 128)%N -> validUtf8 (b :: rest) = true -> validUtf8 rest = true.
Proof.
  intros Hb Hv.
  apply (validUtf8_inv (b :: rest) _ 1 ltac:(discriminate) Hv
                       (decode_ascii b rest Hb)).
Qed.

Lemma option_map_app_nil {A : Type} (o : option (list A)) :
  option_map (app []) o = o.
Proof. destruct o; reflexivity. Qed.

Lemma option_map_app_app {A : Type} (p q : list A) (o : option (list A)) :
  option_map (app p) (option_map (app q) o) = option_map (app (p ++ q)) o.
Proof. destruct o; cbn; [rewrite app_assoc|]; reflexivity. Qed.

Lemma option_map_cons_app {A : Type} (c : A) (q : list A)
      (o : option (list A)) :
  option_map (cons c) (option_map (app q) o) = option_map (app (c :: q)) o.
Proof. destruct o; reflexivity. Qed.

Lemma eqb_val (b c : byte) : val b <> val c -> Ascii.eqb b c = false.
Proof. intros H. apply Ascii.eqb_neq. intros ->. apply H. reflexivity. Qed.

(** Settles comparisons of a byte [b] with literal bytes from bounds on
    [val b]. *)
Ltac byte_neq :=
  repeat match goal with
         | |- context [Ascii.eqb ?b ?c] =>
           rewrite (eqb_val b c)
             by (let v := eval vm_compute in (val c) in
                 change (val c) with v; lia)
         end.

(** One step of the loop on a byte that is copied. *)
Lemma unquoteAll_plain (c : byte) (x : gostring) :
  Ascii.eqb c "092"%char = false -> Ascii.eqb c "034"%char = false ->
  (32 <= val c < 128)%N ->
  unquoteAll (c :: x) = option_map (cons c) (unquoteAll x).
Proof.
  intros H1 H2 Hc. unfold unquoteAll. cbn [length unquoteLoop].
  rewrite H1, H2. cbn [orb].
  destruct (N.ltb_spec (val c) 32); [lia|].
  unfold RuneSelf. destruct (N.ltb_spec (val c) 128); [|lia].
  reflexivity.
Qed.

(** One step of the loop on a valid encoding of more than one byte. *)
Lemma unquoteAll_rune (s x : gostring) (r : rune) (size : nat) :
  (128 <= val (at_ s 0))%N -> s <> [] ->
  DecodeRuneInString s = (r, size) -> (r = RuneError -> size <> 1) ->
  unquoteAll (firstn size s ++ x)
  = option_map (app (firstn size s)) (unquoteAll x).
Proof.
  intros Hb Hs Hd Hvalid.
  pose proof (decode_valid_app s x r size Hs Hd Hvalid) as Hd'.
  pose proof (decode_size s Hs) as Hsz. rewrite Hd in Hsz. cbn [snd] in Hsz.
  destruct s as [|b t]; [congruence|]. cbn [at_ nth] in Hb.
  pose proof (encode_decode b t r size Hb Hd Hvalid) as He.
  assert (Hskip : skipn size (firstn size (b :: t) ++ x) = x).
  { rewrite skipn_app, length_firstn.
    replace (size - Nat.min size (length (b :: t))) with 0 by lia.
    rewrite skipn_firstn_comm. replace (size - size) with 0 by lia.
    reflexivity. }
  destruct size as [|size]; [lia|].
  cbn [firstn app] in *. unfold unquoteAll at 1. cbn [length unquoteLoop].
  byte_neq. cbn [orb].
  destruct (N.ltb_spec (val b) 32); [lia|].
  unfold RuneSelf. destruct (N.ltb_spec (val b) 128); [lia|].
  rewrite Hd'. rewrite Hskip, He.
  rewrite unquoteLoop_all; [reflexivity|].
  rewrite length_app. lia.
Qed.

(** One step of the loop on an escape of two bytes. *)
Lemma unquoteAll_escape (e b : byte) (x : gostring) :
  In (e, b) [ ("034", "034"); ("092", "092"); ("b", "008"); ("f", "012");
              ("n", "010"); ("r", "013"); ("t", "009") ]%char ->
  unquoteAll ("092"%char :: e :: x) = option_map (cons b) (unquoteAll x).
Proof.
  intros H. unfold unquoteAll at 1. cbn [length].
  remember (S (length x)) as F eqn:HF. cbn [unquoteLoop].
  rewrite (unquoteLoop_all F x) by lia.
  cbn [In] in H.
  repeat (destruct H as [H | H]; [inversion H; subst e b; reflexivity|]).
  contradiction.
Qed.

Lemma lt16_cases (n : N) :
  (n < 16)%N ->
  In n [0; 1; 2; 3; 4; 5; 6; 7; 8; 9; 10; 11; 12; 13; 14; 15]%N.
Proof.
  intros H. destruct n as [|p]; [left; reflexivity|].
  repeat (destruct p as [p|p|]; try lia); cbn [In]; tauto.
Qed.

Lemma hexLower_digit (n : N) :
  (n < 16)%N ->
  isHex (hexLower n) = true /\ hexVal (hexLower n) = Z.of_N n.
Proof.
  intros H. apply lt16_cases in H. cbn [In] in H.
  repeat (destruct H as [H | H]; [subst n; split; reflexivity|]).
  contradiction.
Qed.

(** The loop on an escape of four hexadecimal digits. *)
Lemma unquoteLoop_u (F : nat) (t : gostring) :
  unquoteLoop (S F) ("092"%char :: "u"%char :: t)
  = let s := "092"%char :: "u"%char :: t in
    let rr := getu4 s in
    if (rr <? 0)%Z then None
    else if IsSurrogate rr then
           let dec := DecodeSurrogates rr (getu4 (skipn 4 t)) in
           if negb (dec =? RuneError)%Z
           then option_map (app (EncodeRune dec))
                           (unquoteLoop F (skipn 6 (skipn 4 t)))
           else option_map (app (EncodeRune RuneError))
                           (unquoteLoop F (skipn 4 t))
         else option_map (app (EncodeRune rr)) (unquoteLoop F (skipn 4 t)).
Proof. reflexivity. Qed.

(** One step of the loop on an escape of four hexadecimal digits that is
    not half of a surrogate pair. *)
Lemma unquoteAll_u4 (c1 c2 c3 c4 : byte) (x : gostring) (r : rune) :
  isHex c1 && isHex c2 && isHex c3 && isHex c4 = true ->
  r = (((hexVal c1 * 16 + hexVal c2) * 16 + hexVal c3) * 16 + hexVal c4)%Z ->
  (0 <= r)%Z -> IsSurrogate r = false ->
  unquoteAll ("092"%char :: "u"%char :: c1 :: c2 :: c3 :: c4 :: x)
  = option_map (app (EncodeRune r)) (unquoteAll x).
Proof.
  intros Hx Hr H0 Hs.
  assert (G : getu4 ("092"%char :: "u"%char :: c1 :: c2 :: c3 :: c4 :: x)
              = r).
  { unfold getu4.
    change (Ascii.eqb "092" "092") with true.
    change (Ascii.eqb "u" "u") with true.
    cbn [andb]. rewrite Hx. symmetry. exact Hr. }
  unfold unquoteAll at 1. cbn [length].
  rewrite unquoteLoop_u. cbv zeta. rewrite G.
  destruct (Z.ltb_spec r 0); [lia|].
  rewrite Hs. cbn [skipn].
  rewrite (unquoteLoop_all _ x) by lia.
  reflexivity.
Qed.

Lemma unquoteAll_u4_lower (h1 h2 h3 h4 : N) (x : gostring) :
  (h1 < 16)%N -> (h2 < 16)%N -> (h3 < 16)%N -> (h4 < 16)%N ->
  let r := (((Z.of_N h1 * 16 + Z.of_N h2) * 16 + Z.of_N h3) * 16
            + Z.of_N h4)%Z in
  IsSurrogate r = false ->
  unquoteAll ("092"%char :: "u"%char :: hexLower h1 :: hexLower h2
                         :: hexLower h3 :: hexLower h4 :: x)
  = option_map (app (EncodeRune r)) (unquoteAll x).
Proof.
  intros H1 H2 H3 H4 r Hs.
  destruct (hexLower_digit h1 H1) as [X1 V1].
  destruct (hexLower_digit h2 H2) as [X2 V2].
  destruct (hexLower_digit h3 H3) as [X3 V3].
  destruct (hexLower_digit h4 H4) as [X4 V4].
  apply unquoteAll_u4.
  - rewrite X1, X2, X3, X4. reflexivity.
  - rewrite V1, V2, V3, V4. reflexivity.
  - subst r. lia.
  - exact Hs.
Qed.

Lemma val_eq (b : byte) (n : N) : val b = n -> b = ascii_of_N n.
Proof. intros <-. symmetry. apply ascii_N_embedding. Qed.

Lemma eqb_val_eq (b c : byte) : Ascii.eqb b c = (val b =? val c)%N.
Proof.
  destruct (Ascii.eqb_spec b c) as [->|H].
  - symmetry. apply N.eqb_refl.
  - symmetry. apply N.eqb_neq. intros E. apply H.
    rewrite (val_eq b _ E). apply ascii_N_embedding.
Qed.

Lemma EncodeRune_ascii (b : byte) :
  (val b < 128)%N -> EncodeRune (Z.of_N (val b)) = [b].
Proof.
  intros H. unfold EncodeRune.
  rewrite Z.mod_small by (change (2 ^ 32)%Z with 4294967296%Z; lia).
  destruct (Z.leb_spec (Z.of_N (val b)) 127); [|lia].
  rewrite byteOf_val. reflexivity.
Qed.

Lemma nibbles (n : N) :
  (n < 256)%N ->
  (N.shiftr n 4 < 16)%N /\ (N.land n 15 < 16)%N
  /\ (Z.of_N (N.shiftr n 4) * 16 + Z.of_N (N.land n 15))%Z = Z.of_N n.
Proof.
  intros H. rewrite N.shiftr_div_pow2.
  change 15%N with (N.ones 4). rewrite N.land_ones.
  change (2 ^ 4)%N with 16%N.
  pose proof (N.div_mod n 16 ltac:(lia)).
  pose proof (N.mod_lt n 16 ltac:(lia)).
  assert (n / 16 < 16)%N by (apply N.Div0.div_lt_upper_bound; lia).
  lia.
Qed.

(** What [appendString] writes for a valid string is unquoted to the
    string. *)
Lemma unquoteAll_quoteLoop (f : nat) :
  forall s : gostring,
    length s <= f -> validUtf8 s = true ->
    unquoteAll (quoteLoop f s) = Some s.
Proof.
  induction f as [|f IH]; intros s Hl Hv.
  - destruct s; [reflexivity | simpl in Hl; lia].
  - destruct s as [|b rest]; [reflexivity|].
    cbn [length] in Hl. cbn [quoteLoop]. unfold RuneSelf.
    destruct (N.ltb_spec (val b) 128) as [Hb|Hb].
    + pose proof (validUtf8_tail b rest Hb Hv) as Hv'.
      pose proof (IH rest ltac:(lia) Hv') as IHrest.
      destruct (htmlSafe b) eqn:Hsafe.
      * unfold htmlSafe in Hsafe. to_props.
        rewrite unquoteAll_plain;
          [ rewrite IHrest; reflexivity
          | apply eqb_val; change (val "092"%char) with 92%N; lia
          | apply eqb_val; change (val "034"%char) with 34%N; lia
          | lia ].
      * rewrite !eqb_val_eq.
        change (val "092"%char) with 92%N. change (val "034"%char) with 34%N.
        destruct (N.eqb_spec (val b) 92) as [E|N1];
          [apply val_eq in E; subst b; cbn [orb app];
           rewrite (unquoteAll_escape _ "092"%char);
           [rewrite IHrest; reflexivity | cbn [In]; tauto]|].
        destruct (N.eqb_spec (val b) 34) as [E|N2];
          [apply val_eq in E; subst b; cbn [orb app];
           rewrite (unquoteAll_escape _ "034"%char);
           [rewrite IHrest; reflexivity | cbn [In]; tauto]|].
        cbn [orb].
        destruct (N.eqb_spec (val b) 8) as [E|N3];
          [apply val_eq in E; subst b; cbn [lit list_ascii_of_string app];
           rewrite (unquoteAll_escape _ "008"%char);
           [rewrite IHrest; reflexivity | cbn [In]; tauto]|].
        destruct (N.eqb_spec (val b) 12) as [E|N4];
          [apply val_eq in E; subst b; cbn [lit list_ascii_of_string app];
           rewrite (unquoteAll_escape _ "012"%char);
           [rewrite IHrest; reflexivity | cbn [In]; tauto]|].
        destruct (N.eqb_spec (val b) 10) as [E|N5];
          [apply val_eq in E; subst b; cbn [lit list_ascii_of_string app];
           rewrite (unquoteAll_escape _ "010"%char);
           [rewrite IHrest; reflexivity | cbn [In]; tauto]|].
        destruct (N.eqb_spec (val b) 13) as [E|N6];
          [apply val_eq in E; subst b; cbn [lit list_ascii_of_string app];
           rewrite (unquoteAll_escape _ "013"%char);
           [rewrite IHrest; reflexivity | cbn [In]; tauto]|].
        destruct (N.eqb_spec (val b) 9) as [E|N7];
          [apply val_eq in E; subst b; cbn [lit list_ascii_of_string app];
           rewrite (unquoteAll_escape _ "009"%char);
           [rewrite IHrest; reflexivity | cbn [In]; tauto]|].
        destruct (nibbles (val b) ltac:(lia)) as [Hhi [Hlo Hsum]].
        cbn [lit list_ascii_of_string app].
        change "0"%char with (hexLower 0).
        rewrite unquoteAll_u4_lower; try assumption; try reflexivity.
        -- cbn [Z.of_N Z.mul Z.add]. rewrite Hsum, IHrest.
           rewrite EncodeRune_ascii by exact Hb. reflexivity.
        -- cbn [Z.of_N Z.mul Z.add]. rewrite Hsum. unfold IsSurrogate.
           destruct (Z.leb_spec 55296 (Z.of_N (val b))); [lia|reflexivity].
    + rewrite decode_firstn_max.
      destruct (DecodeRuneInString (b :: rest)) as [c size] eqn:Hd.
      destruct (validUtf8_inv (b :: rest) c size ltac:(discriminate) Hv Hd)
        as [Hvalid Hv'].
      pose proof (decode_size (b :: rest) ltac:(discriminate)) as Hsz.
      rewrite Hd in Hsz. cbn [snd length] in Hsz.
      pose proof (IH (skipn size (b :: rest))
                     ltac:(rewrite length_skipn; cbn [length]; lia) Hv')
        as IHrest.
      pose proof (encode_decode b rest c size Hb Hd Hvalid) as Henc.
      replace ((c =? RuneError)%Z && (size =? 1)) with false.
      2:{ symmetry. apply andb_false_iff.
          destruct (Z.eqb_spec c RuneError) as [E|E]; [|left; reflexivity].
          right. apply Nat.eqb_neq. apply Hvalid. exact E. }
      destruct (Z.eqb_spec c 8232) as [E1|E1].
      { subst c. cbn [orb lit list_ascii_of_string app].
        rewrite (unquoteAll_u4 _ _ _ _ _ 8232%Z);
          [ | reflexivity | reflexivity | lia | reflexivity ].
        rewrite IHrest, Henc. cbn [option_map].
        rewrite firstn_skipn. reflexivity. }
      destruct (Z.eqb_spec c 8233) as [E2|E2].
      { subst c. cbn [orb lit list_ascii_of_string app].
        rewrite (unquoteAll_u4 _ _ _ _ _ 8233%Z);
          [ | reflexivity | reflexivity | lia | reflexivity ].
        rewrite IHrest, Henc. cbn [option_map].
        rewrite firstn_skipn. reflexivity. }
      cbn [orb].
      rewrite (unquoteAll_rune (b :: rest) _ c size);
        [ | exact Hb | discriminate | exact Hd | exact Hvalid ].
      rewrite IHrest. cbn [option_map]. rewrite firstn_skipn. reflexivity.
Qed.

(** The first loop of [unquoteBytes] is a short cut: the prefix it skips is
    what the second loop would copy. *)
Lemma unquoteAll_plainPrefix (fuel : nat) :
  forall t : gostring,
    length t <= fuel ->
    unquoteAll t
    = option_map (app (firstn (plainPrefix fuel t) t))
                 (unquoteAll (skipn (plainPrefix fuel t) t)).
Proof.
  induction fuel as [|fuel IH]; intros t Hl.
  - cbn [plainPrefix firstn skipn]. rewrite option_map_app_nil. reflexivity.
  - destruct t as [|c rest];
      [cbn [plainPrefix firstn skipn]; rewrite option_map_app_nil;
       reflexivity|].
    cbn [length] in Hl. cbn [plainPrefix].
    destruct (Ascii.eqb c "092"%char || Ascii.eqb c "034"%char
              || (val c <? 32)%N) eqn:Hstop.
    { cbn [firstn skipn]. rewrite option_map_app_nil. reflexivity. }
    to_props. unfold RuneSelf.
    destruct (N.ltb_spec (val c) 128) as [Hc|Hc].
    + cbn [firstn skipn].
      rewrite unquoteAll_plain by (try assumption; lia).
      rewrite (IH rest) by lia.
      rewrite option_map_cons_app. reflexivity.
    + destruct (DecodeRuneInString (c :: rest)) as [rr size] eqn:Hd.
      destruct ((rr =? RuneError)%Z && (size =? 1)) eqn:Hinv.
      { cbn [firstn skipn]. rewrite option_map_app_nil. reflexivity. }
      assert (Hvalid : rr = RuneError -> size <> 1).
      { intros -> ->. discriminate. }
      pose proof (decode_size (c :: rest) ltac:(discriminate)) as Hsz.
      rewrite Hd in Hsz. cbn [snd length] in Hsz.
      assert (Hsk : forall n, skipn (size + n) (c :: rest)
                              = skipn n (skipn size (c :: rest))).
      { intros n. rewrite skipn_skipn. f_equal. lia. }
      rewrite firstn_plus, Hsk.
      rewrite <- option_map_app_app.
      rewrite <- IH by (rewrite length_skipn; cbn [length]; lia).
      rewrite <- (unquoteAll_rune (c :: rest) _ rr size);
        [ | exact Hc | discriminate | exact Hd | exact Hvalid ].
      rewrite firstn_skipn. reflexivity.
Qed.

Lemma unquote_all (t : gostring) : unquote t = unquoteAll t.
Proof.
  unfold unquote.
  rewrite (unquoteAll_plainPrefix (length t) t (Nat.le_refl _)).
  set (r := plainPrefix (length t) t).
  destruct (Nat.eqb_spec r (length t)) as [E|E].
  - rewrite E, firstn_all, skipn_all. cbn. rewrite app_nil_r. reflexivity.
  - rewrite unquoteLoop_all by (rewrite length_skipn; lia). reflexivity.
Qed.

(** [unquote] inverts [quote] on valid strings. *)
Lemma unquote_quoteLoop (s : gostring) :
  validUtf8 s = true -> unquote (quoteLoop (length s) s) = Some s.
Proof.
  intros Hv. rewrite unquote_all.
  apply unquoteAll_quoteLoop; [apply Nat.le_refl | exact Hv].
Qed.

(** *** Scanning what was quoted *)

Lemma scanString_plain (c : byte) (x : gostring) :
  Ascii.eqb c "034"%char = false -> Ascii.eqb c "092"%char = false ->
  (32 <= val c)%N ->
  scanString (c :: x) = option_map (prepend [c]) (scanString x).
Proof.
  intros H1 H2 Hc. cbn [scanString]. rewrite H1, H2.
  destruct (N.ltb_spec (val c) 32); [lia|]. reflexivity.
Qed.

Lemma option_map_prepend (p q : gostring)
      (o : option (gostring * gostring)) :
  option_map (prepend p) (option_map (prepend q) o)
  = option_map (prepend (p ++ q)) o.
Proof.
  destruct o as [[a b]|]; cbn; [unfold prepend; cbn; rewrite app_assoc|];
    reflexivity.
Qed.

Lemma scanString_high (p x : gostring) :
  Forall (fun c => (128 <= val c)%N) p ->
  scanString (p ++ x) = option_map (prepend p) (scanString x).
Proof.
  induction 1 as [|c p Hc Hp IH].
  - cbn [app]. destruct (scanString x) as [[a b]|]; reflexivity.
  - cbn [app]. rewrite scanString_plain, IH.
    + rewrite option_map_prepend. reflexivity.
    + apply eqb_val. change (val "034"%char) with 34%N. lia.
    + apply eqb_val. change (val "092"%char) with 92%N. lia.
    + lia.
Qed.

Lemma scanString_escape (e : byte) (x : gostring) :
  In e ["b"; "f"; "n"; "r"; "t"; "092"; "/"; "034"]%char ->
  scanString ("092"%char :: e :: x)
  = option_map (prepend ["092"%char; e]) (scanString x).
Proof.
  intros H. cbn [In] in H.
  repeat (destruct H as [H | H]; [subst e; reflexivity|]).
  contradiction.
Qed.

Lemma scanString_u4 (c1 c2 c3 c4 : byte) (x : gostring) :
  isHex c1 && isHex c2 && isHex c3 && isHex c4 = true ->
  scanString ("092"%char :: "u"%char :: c1 :: c2 :: c3 :: c4 :: x)
  = option_map (prepend ["092"%char; "u"%char; c1; c2; c3; c4])
               (scanString x).
Proof.
  intros H.
  change (scanString ("092"%char :: "u"%char :: c1 :: c2 :: c3 :: c4 :: x))
    with (if isHex c1 && isHex c2 && isHex c3 && isHex c4
          then option_map
                 (fun p => ("092"%char :: "u"%char :: c1 :: c2 :: c3 :: c4
                                       :: fst p, snd p))
                 (scanString x)
          else None).
  rewrite H. reflexivity.
Qed.

Lemma scanString_quoteLoop (f : nat) :
  forall s rest : gostring,
    scanString (quoteLoop f s ++ "034"%char :: rest)
    = Some (quoteLoop f s, rest).
Proof.
  induction f as [|f IH]; intros s rest.
  - reflexivity.
  - destruct s as [|b t]; [reflexivity|].
    cbn [quoteLoop]. unfold RuneSelf.
    destruct (N.ltb_spec (val b) 128) as [Hb|Hb].
    + destruct (htmlSafe b) eqn:Hsafe.
      * unfold htmlSafe in Hsafe. to_props. cbn [app].
        rewrite scanString_plain;
          [ rewrite IH; reflexivity
          | apply eqb_val; change (val "034"%char) with 34%N; lia
          | apply eqb_val; change (val "092"%char) with 92%N; lia
          | lia ].
      * rewrite <- app_assoc.
        rewrite !eqb_val_eq.
        change (val "092"%char) with 92%N. change (val "034"%char) with 34%N.
        destruct (N.eqb_spec (val b) 92) as [E|N1];
          [apply val_eq in E; subst b; cbn [orb app];
           rewrite scanString_escape, IH;
           [reflexivity | cbn [In]; tauto]|].
        destruct (N.eqb_spec (val b) 34) as [E|N2];
          [apply val_eq in E; subst b; cbn [orb app];
           rewrite scanString_escape, IH;
           [reflexivity | cbn [In]; tauto]|].
        cbn [orb].
        repeat match goal with
               | |- context [if (val b =? ?n)%N then _ else _] =>
                 destruct (N.eqb_spec (val b) n);
                   [cbn [lit list_ascii_of_string app];
                    rewrite scanString_escape, IH;
                    [reflexivity | cbn [In]; tauto]|]
               end.
        destruct (nibbles (val b) ltac:(lia)) as [Hhi [Hlo _]].
        cbn [lit list_ascii_of_string app].
        rewrite scanString_u4, IH; [reflexivity|].
        rewrite (proj1 (hexLower_digit _ Hhi)), (proj1 (hexLower_digit _ Hlo)).
        reflexivity.
    + rewrite decode_firstn_max.
      destruct (DecodeRuneInString (b :: t)) as [c size] eqn:Hd.
      destruct ((c =? RuneError)%Z && (size =? 1)) eqn:Hinv.
      { cbn [lit list_ascii_of_string app].
        rewrite scanString_u4, IH; reflexivity. }
      assert (Hvalid : c = RuneError -> size <> 1).
      { intros -> ->. discriminate. }
      destruct ((c =? 8232)%Z || (c =? 8233)%Z) eqn:Hsep.
      { cbn [lit list_ascii_of_string app].
        rewrite scanString_u4, IH; [reflexivity|].
        apply orb_true_iff in Hsep.
        destruct Hsep as [E|E]; apply Z.eqb_eq in E; subst c; reflexivity. }
      rewrite <- app_assoc.
      rewrite scanString_high, IH;
        [ cbn [option_map]; unfold prepend; reflexivity
        | apply (decode_valid_high b t c size Hb Hd Hvalid) ].
Qed.

(** *** The scanner on the text of a value *)

(** More fuel does not change what the scanner returns. *)
Lemma lex_more (f : nat) :
  forall (s : gostring) (t : list token) (F : nat),
    lex f s = Some t -> f <= F -> lex F s = Some t.
Proof.
  induction f as [|f IH]; intros s t F H Hle.
  - destruct s; [|discriminate]. destruct F; exact H.
  - destruct F as [|F]; [lia|].
    destruct s as [|c rest]; [exact H|].
    assert (Hrec : forall r t', lex f r = Some t' -> lex F r = Some t').
    { intros r t' Hr. apply (IH r t' F Hr). lia. }
    assert (Hmore : forall tok r,
               option_map (cons tok) (lex f r) = Some t ->
               option_map (cons tok) (lex F r) = Some t).
    { intros tok r Hr. destruct (lex f r) as [t'|] eqn:E; [|discriminate].
      rewrite (Hrec r t' E). exact Hr. }
    cbn [lex] in *.
    repeat match goal with
           | |- (if ?c then _ else _) = _ =>
             destruct c;
               [ first [ solve [auto]
                       | match goal with
                         | |- match ?x with Some _ => _ | None => _ end = _ =>
                           destruct x as [[? ?]|]; solve [auto]
                         end ] |]
           end.
    exact H.
Qed.

Lemma lexes_nil : lexes [] [].
Proof.
  intros rest t f F _ Hr HF. cbn [app length] in *.
  apply (lex_more f); [exact Hr | lia].
Qed.

Lemma delim_app (x rest : gostring) :
  startsDelim x = true -> delim (x ++ rest) = true.
Proof. destruct x; [discriminate | intros H; exact H]. Qed.

Lemma lexes_app (x1 x2 : gostring) (t1 t2 : list token) :
  lexes x1 t1 -> lexes x2 t2 -> startsDelim x2 = true ->
  lexes (x1 ++ x2) (t1 ++ t2).
Proof.
  intros H1 H2 Hs rest t f F Hd Hr HF.
  rewrite <- !app_assoc. rewrite length_app in HF.
  apply (H1 (x2 ++ rest) (t2 ++ t) (length x2 + f) F).
  - apply delim_app. exact Hs.
  - apply (H2 rest t f _ Hd Hr). apply Nat.le_refl.
  - lia.
Qed.

Lemma lexesAny_lexes (x : gostring) (ts : list token) :
  lexesAny x ts -> lexes x ts.
Proof. intros H rest t f F _. apply H. Qed.

Lemma lexesAny_app (x1 x2 : gostring) (t1 t2 : list token) :
  lexesAny x1 t1 -> lexesAny x2 t2 -> lexesAny (x1 ++ x2) (t1 ++ t2).
Proof.
  intros H1 H2 rest t f F Hr HF.
  rewrite <- !app_assoc. rewrite length_app in HF.
  apply (H1 (x2 ++ rest) (t2 ++ t) (length x2 + f) F).
  - apply (H2 rest t f _ Hr). apply Nat.le_refl.
  - lia.
Qed.

Lemma lexesAny_then (x1 x2 : gostring) (t1 t2 : list token) :
  lexesAny x1 t1 -> lexes x2 t2 -> lexes (x1 ++ x2) (t1 ++ t2).
Proof.
  intros H1 H2 rest t f F Hd Hr HF.
  rewrite <- !app_assoc. rewrite length_app in HF.
  apply (H1 (x2 ++ rest) (t2 ++ t) (length x2 + f) F).
  - apply (H2 rest t f _ Hd Hr). apply Nat.le_refl.
  - lia.
Qed.

Lemma lexesAny_space (c : byte) : isSpace c = true -> lexesAny [c] [].
Proof.
  intros Hc rest t f F Hr HF. cbn [length app] in *.
  destruct F as [|F]; [lia|]. cbn [lex]. rewrite Hc.
  apply (lex_more f); [exact Hr | lia].
Qed.

Lemma lexesAny_spaces (x : gostring) :
  forallb isSpace x = true -> lexesAny x [].
Proof.
  induction x as [|c x IH]; intros H.
  - intros rest t f F Hr HF. apply (lex_more f); [exact Hr|].
    cbn [length] in HF. lia.
  - cbn [forallb] in H. apply andb_true_iff in H. destruct H as [Hc Hx].
    change (c :: x) with ([c] ++ x). change (@nil token) with (@nil token ++ []).
    apply lexesAny_app; [apply lexesAny_space; exact Hc | apply IH; exact Hx].
Qed.

Lemma lexesAny_newline (d : nat) : lexesAny (newline d) [].
Proof.
  apply lexesAny_spaces. unfold newline. cbn [forallb].
  change (isSpace (ascii_of_N 10)) with true. cbn [andb].
  induction d as [|d IH]; [reflexivity|].
  cbn [repeat concat]. rewrite forallb_app, IH. reflexivity.
Qed.

Lemma lexesAny_punct (c : byte) (tok : token) :
  In (c, tok) [ ("{", TLBrace); ("}", TRBrace); ("[", TLBracket);
                ("]", TRBracket); (":", TColon); (",", TComma) ]%char ->
  lexesAny [c] [tok].
Proof.
  intros H rest t f F Hr HF. cbn [length app] in *.
  destruct F as [|F]; [lia|].
  cbn [In] in H.
  repeat (destruct H as [H | H];
          [inversion H; subst c tok; cbn [lex];
           match goal with
           | |- (if ?c then _ else _) = _ => change c with false; cbv iota
           end;
           repeat match goal with
                  | |- (if ?c then _ else _) = _ =>
                    first [ change c with false; cbv iota
                          | change c with true; cbv iota ]
                  end;
           rewrite (lex_more f rest t F Hr ltac:(lia)); reflexivity|]).
  contradiction.
Qed.

Lemma lexesAny_string (s : gostring) : lexesAny (quote s) [TString (raw s)].
Proof.
  intros rest t f F Hr HF. unfold quote in *. cbn [length app] in *.
  destruct F as [|F]; [lia|]. cbn [lex].
  change (isSpace "034"%char) with false. cbv iota.
  repeat match goal with
         | |- (if ?c then _ else _) = _ =>
           first [ change c with false; cbv iota
                 | change c with true; cbv iota ]
         end.
  rewrite <- app_assoc. cbn [app].
  rewrite scanString_quoteLoop.
  rewrite (lex_more f rest t F Hr ltac:(lia)). reflexivity.
Qed.

Lemma delim_not_digit (rest : gostring) :
  delim rest = true ->
  match rest with [] => True | c :: _ => isDigit c = false end.
Proof.
  destruct rest as [|c rest]; [trivial|]. unfold delim, delimByte.
  intros H. apply negb_true_iff in H.
  repeat (apply orb_false_iff in H; destruct H as [H ?]). exact H.
Qed.

Lemma digits_all (r rest : gostring) :
  forallb isDigit r = true -> delim rest = true ->
  digits (r ++ rest) = (r, rest).
Proof.
  intros Hr Hd. induction r as [|c r IH].
  - cbn [app]. apply delim_not_digit in Hd.
    destruct rest as [|c rest]; [reflexivity|]. cbn [digits].
    rewrite Hd. reflexivity.
  - cbn [forallb] in Hr. apply andb_true_iff in Hr. destruct Hr as [Hc Hr].
    cbn [app digits]. rewrite Hc, (IH Hr). reflexivity.
Qed.

(** After the digits of an integer, and before a delimiter, the scanner
    finds neither a fraction nor an exponent. *)
Lemma scanNumber_unsigned (sign : gostring) (c : byte) (r rest : gostring) :
  (if Ascii.eqb c "0"%char then isEmpty r
   else isDigit c && forallb isDigit r) = true ->
  delim rest = true ->
  match (if Ascii.eqb c "0"%char then Some ([c], r ++ rest)
         else if isDigit c
              then let '(d, r') := digits (r ++ rest) in Some (c :: d, r')
              else None) with
  | None => None
  | Some (ip, s2) =>
    let frac :=
        match s2 with
        | c :: rest =>
          if Ascii.eqb c "."%char then
            match digits rest with
            | ([], _) => None
            | (d, r) => Some (c :: d, r)
            end
          else Some ([], s2)
        | [] => Some ([], s2)
        end in
    match frac with
    | None => None
    | Some (fp, s3) =>
      let exp :=
          match s3 with
          | c :: rest =>
            if Ascii.eqb c "e"%char || Ascii.eqb c "E"%char then
              let '(sg, rest') :=
                  match rest with
                  | g :: rest' =>
                    if Ascii.eqb g "+"%char || Ascii.eqb g "-"%char
                    then ([g], rest') else ([], rest)
                  | [] => ([], rest)
                  end in
              match digits rest' with
              | ([], _) => None
              | (d, r) => Some (c :: sg ++ d, r)
              end
            else Some ([], s3)
          | [] => Some ([], s3)
          end in
      match exp with
      | None => None
      | Some (ep, s4) => Some (sign ++ ip ++ fp ++ ep, s4)
      end
    end
  end = Some (sign ++ c :: r, rest).
Proof.
  intros Hl Hd.
  assert (Hint : (if Ascii.eqb c "0"%char then Some ([c], r ++ rest)
                  else if isDigit c
                       then let '(d, r') := digits (r ++ rest) in
                            Some (c :: d, r')
                       else None) = Some (c :: r, rest)).
  { destruct (Ascii.eqb c "0"%char).
    - destruct r; [reflexivity | discriminate].
    - apply andb_true_iff in Hl. destruct Hl as [Hc Hr].
      rewrite Hc, (digits_all r rest Hr Hd). reflexivity. }
  rewrite Hint. cbv beta iota zeta.
  destruct rest as [|d rest].
  - cbn [app]. rewrite !app_nil_r. reflexivity.
  - unfold delim, delimByte in Hd. apply negb_true_iff in Hd.
    apply orb_false_iff in Hd. destruct Hd as [Hd HE].
    apply orb_false_iff in Hd. destruct Hd as [Hd He].
    apply orb_false_iff in Hd. destruct Hd as [Hd Hp].
    rewrite Hp. cbv beta iota zeta. rewrite He, HE.
    cbn [orb app]. rewrite !app_nil_r. reflexivity.
Qed.

Lemma scanNumber_int (l rest : gostring) :
  isIntLit l = true -> delim rest = true ->
  scanNumber (l ++ rest) = Some (l, rest).
Proof.
  intros Hl Hd. unfold isIntLit in Hl.
  destruct l as [|c l]; [discriminate|].
  unfold scanNumber. cbn [app].
  destruct (Ascii.eqb c "-"%char) eqn:Hm.
  - apply Ascii.eqb_eq in Hm. subst c.
    destruct l as [|c r]; [discriminate|]. cbn [app].
    apply (scanNumber_unsigned ["-"%char] c r rest Hl Hd).
  - apply (scanNumber_unsigned [] c l rest Hl Hd).
Qed.

Lemma isDigit_val (c : byte) : isDigit c = true -> (48 <= val c <= 57)%N.
Proof.
  unfold isDigit. intros H. apply andb_true_iff in H. destruct H as [H1 H2].
  apply N.leb_le in H1, H2. lia.
Qed.

Lemma lexes_number (l : gostring) :
  isIntLit l = true -> lexes l [TNumber l].
Proof.
  intros Hl rest t f F Hd Hr HF.
  pose proof (scanNumber_int l rest Hl Hd) as Hscan.
  unfold isIntLit in Hl.
  destruct l as [|c l]; [discriminate|].
  cbn [length app] in *. destruct F as [|F]; [lia|].
  assert (Hc : (val c = 45 \/ 48 <= val c <= 57)%N).
  { destruct (Ascii.eqb c "-"%char) eqn:Hm.
    - apply Ascii.eqb_eq in Hm. subst c. left. reflexivity.
    - right. destruct (Ascii.eqb c "0"%char) eqn:H0.
      + apply Ascii.eqb_eq in H0. subst c. vm_compute. split; discriminate.
      + apply andb_true_iff in Hl. apply isDigit_val. tauto. }
  clear Hl. cbn [lex].
  unfold isSpace. rewrite !eqb_val_eq.
  change (val "{"%char) with 123%N. change (val "}"%char) with 125%N.
  change (val "["%char) with 91%N. change (val "]"%char) with 93%N.
  change (val ":"%char) with 58%N. change (val ","%char) with 44%N.
  change (val "034"%char) with 34%N. change (val "-"%char) with 45%N.
  repeat match goal with
         | |- context [(val c =? ?n)%N] =>
           destruct (N.eqb_spec (val c) n); [lia|]
         end.
  cbn [orb].
  destruct (N.eqb_spec (val c) 45) as [E|E].
  - cbn [orb]. rewrite Hscan.
    rewrite (lex_more f rest t F Hr ltac:(lia)). reflexivity.
  - unfold isDigit.
    destruct (N.leb_spec 48 (val c)); [|lia].
    destruct (N.leb_spec (val c) 57); [|lia].
    cbn [orb andb]. rewrite Hscan.
    rewrite (lex_more f rest t F Hr ltac:(lia)). reflexivity.
Qed.

Lemma lexesAny_word (w : gostring) (tok : token) :
  In (w, tok) [(lit "null", TNull); (lit "true", TTrue);
               (lit "false", TFalse)] ->
  lexesAny w [tok].
Proof.
  intros H rest t f F Hr HF.
  assert (Hstep : forall F', lex (S F') (w ++ rest)
                             = option_map (cons tok) (lex F' rest)).
  { intros F'. cbn [In] in H.
    repeat (destruct H as [H | H];
            [inversion H; subst w tok; destruct rest; reflexivity|]).
    contradiction. }
  assert (Hlen : 1 <= length w).
  { cbn [In] in H.
    repeat (destruct H as [H | H]; [inversion H; subst w tok; cbn; lia|]).
    contradiction. }
  destruct F as [|F]; [lia|].
  rewrite Hstep, (lex_more f rest t F Hr ltac:(lia)). reflexivity.
Qed.

(** Induction on values, with the hypothesis on every element and
    member. *)
Lemma value_ind2 (P : value -> Prop) :
  P Null -> (forall b, P (Bool b)) -> (forall l, P (Number l)) ->
  (forall s, P (String s)) ->
  (forall vs, Forall P vs -> P (Array vs)) ->
  (forall ms, Forall (fun m => P (snd m)) ms -> P (Object ms)) ->
  forall v, P v.
Proof.
  intros HN HB HNum HS HA HO. fix IH 1. intros [ |b|l|s|vs|ms].
  - exact HN.
  - apply HB.
  - apply HNum.
  - apply HS.
  - apply HA. induction vs as [|v vs IHvs]; constructor.
    + apply IH.
    + exact IHvs.
  - apply HO. induction ms as [|m ms IHms]; constructor.
    + apply IH.
    + exact IHms.
Qed.

(** A sequence of parts, each read as its tokens, before a tail. *)
Lemma lexes_flat_map {A : Type} (g : A -> gostring) (gt : A -> list token)
      (tail : gostring) (ttail : list token) (l : list A) :
  Forall (fun a => lexes (g a) (gt a)) l ->
  (forall a, startsDelim (g a) = true) ->
  lexes tail ttail -> startsDelim tail = true ->
  lexes (flat_map g l ++ tail) (flat_map gt l ++ ttail)
  /\ startsDelim (flat_map g l ++ tail) = true.
Proof.
  intros Hl Hg Ht Hs. induction Hl as [|a l Ha Hl IH].
  - split; assumption.
  - destruct IH as [IH1 IH2]. cbn [flat_map]. rewrite <- !app_assoc. split.
    + apply lexes_app; assumption.
    + specialize (Hg a). destruct (g a); [discriminate | exact Hg].
Qed.

Lemma lexesAny_lit (c : byte) (tok : token) (d : nat) :
  In (c, tok) [ ("{", TLBrace); ("}", TRBrace); ("[", TLBracket);
                ("]", TRBracket); (":", TColon); (",", TComma) ]%char ->
  lexesAny (c :: newline d) [tok].
Proof.
  intros H. change (c :: newline d) with ([c] ++ newline d).
  change [tok] with ([tok] ++ []).
  apply lexesAny_app; [apply lexesAny_punct; exact H | apply lexesAny_newline].
Qed.

Lemma lexesAny_close (c : byte) (tok : token) (d : nat) :
  In (c, tok) [ ("}", TRBrace); ("]", TRBracket) ]%char ->
  lexesAny (newline d ++ [c]) [tok].
Proof.
  intros H. change [tok] with ([] ++ [tok]).
  apply lexesAny_app; [apply lexesAny_newline | apply lexesAny_punct].
  cbn [In] in *. tauto.
Qed.

Lemma lexesAny_key (k : gostring) :
  lexesAny (quote k ++ lit ": ") [TString (raw k); TColon].
Proof.
  change [TString (raw k); TColon] with ([TString (raw k)] ++ [TColon] ++ []).
  apply lexesAny_app; [apply lexesAny_string|].
  change (lit ": ") with ([":"%char] ++ [" "%char]).
  apply lexesAny_app; [apply lexesAny_punct; cbn [In]; tauto|].
  apply lexesAny_space. reflexivity.
Qed.

(** The scanner reads the text of a value as the tokens of the value. *)
Lemma lexes_render (v : value) :
  wfValue v = true -> forall d : nat, lexes (render d v) (toks v).
Proof.
  induction v as [ |b|l|s|vs IH|ms IH] using value_ind2; intros Hwf d.
  - apply lexesAny_lexes, lexesAny_word. cbn [In]. tauto.
  - destruct b; apply lexesAny_lexes, lexesAny_word; cbn [In]; tauto.
  - apply lexes_number. exact Hwf.
  - apply lexesAny_lexes, lexesAny_string.
  - destruct vs as [|v vs].
    + apply lexesAny_lexes.
      change (render d (Array [])) with (["["%char] ++ ["]"%char]).
      change (toks (Array [])) with ([TLBracket] ++ [TRBracket]).
      apply lexesAny_app; apply lexesAny_punct; cbn [In]; tauto.
    + cbn [wfValue forallb] in Hwf. apply andb_true_iff in Hwf.
      destruct Hwf as [Hv Hvs].
      inversion IH as [|? ? IHv IHvs]; subst.
      cbn [render toks].
      match goal with
      | |- lexes (_ ++ _ ++ ?x) (_ :: ?y) =>
        change (lexes (("["%char :: newline (S d)) ++ x) ([TLBracket] ++ y))
      end.
      apply lexesAny_then; [apply lexesAny_lit; cbn [In]; tauto|].
      destruct (lexes_flat_map
                  (fun v => lit "," ++ newline (S d) ++ render (S d) v)
                  (fun v => TComma :: toks v)
                  (newline d ++ lit "]") [TRBracket] vs) as [L1 L2].
      * rewrite Forall_forall in IHvs. rewrite forallb_forall in Hvs.
        apply Forall_forall. intros a Ha.
        change (lit "," ++ newline (S d) ++ render (S d) a)
          with ((","%char :: newline (S d)) ++ render (S d) a).
        change (TComma :: toks a) with ([TComma] ++ toks a).
        apply lexesAny_then; [apply lexesAny_lit; cbn [In]; tauto|].
        apply IHvs; [exact Ha | apply Hvs; exact Ha].
      * reflexivity.
      * apply lexesAny_lexes, lexesAny_close. cbn [In]. tauto.
      * reflexivity.
      * apply lexes_app; [apply IHv; exact Hv | exact L1 | exact L2].
  - destruct ms as [|[k v] ms].
    + apply lexesAny_lexes.
      change (render d (Object [])) with (["{"%char] ++ ["}"%char]).
      change (toks (Object [])) with ([TLBrace] ++ [TRBrace]).
      apply lexesAny_app; apply lexesAny_punct; cbn [In]; tauto.
    + cbn [wfValue forallb fst snd] in Hwf. apply andb_true_iff in Hwf.
      destruct Hwf as [Hv Hms]. apply andb_true_iff in Hv.
      destruct Hv as [_ Hv].
      inversion IH as [|? ? IHv IHms]; subst. cbn [snd] in IHv.
      cbn [render toks].
      match goal with
      | |- lexes (_ ++ _ ++ _ ++ _ ++ ?x) (_ :: _ :: _ :: ?y) =>
        change (lexes (("{"%char :: newline (S d))
                         ++ quote k ++ lit ": " ++ x)
                      ([TLBrace] ++ [TString (raw k); TColon] ++ y))
      end.
      apply lexesAny_then; [apply lexesAny_lit; cbn [In]; tauto|].
      rewrite (app_assoc (quote k)).
      apply lexesAny_then; [apply lexesAny_key|].
      destruct (lexes_flat_map
                  (fun m => lit "," ++ newline (S d) ++ quote (fst m)
                                ++ lit ": " ++ render (S d) (snd m))
                  (fun m => TComma :: TString (raw (fst m)) :: TColon
                                   :: toks (snd m))
                  (newline d ++ lit "}") [TRBrace] ms) as [L1 L2].
      * rewrite Forall_forall in IHms. rewrite forallb_forall in Hms.
        apply Forall_forall. intros a Ha.
        change (lit "," ++ newline (S d) ++ quote (fst a) ++ lit ": "
                    ++ render (S d) (snd a))
          with ((","%char :: newline (S d)) ++ quote (fst a) ++ lit ": "
                                            ++ render (S d) (snd a)).
        change (TComma :: TString (raw (fst a)) :: TColon :: toks (snd a))
          with ([TComma] ++ [TString (raw (fst a)); TColon] ++ toks (snd a)).
        apply lexesAny_then; [apply lexesAny_lit; cbn [In]; tauto|].
        rewrite (app_assoc (quote (fst a))).
        apply lexesAny_then; [apply lexesAny_key|].
        apply IHms; [exact Ha|].
        specialize (Hms a Ha). apply andb_true_iff in Hms. tauto.
      * reflexivity.
      * apply lexesAny_lexes, lexesAny_close. cbn [In]. tauto.
      * reflexivity.
      * apply lexes_app; [apply IHv; exact Hv | exact L1 | exact L2].
Qed.

(** *** The parser on the tokens of a value *)

Lemma toks_head (v : value) :
  exists t r, toks v = t :: r /\ opener t = true.
Proof.
  destruct v as [ |[|]|l|s|[|v vs]|[|[k v] ms]]; cbn [toks];
    eexists; eexists; split; reflexivity.
Qed.

Lemma toks_length (v : value) : 1 <= length (toks v).
Proof.
  destruct (toks_head v) as [t [r [E _]]]. rewrite E. cbn [length]. lia.
Qed.

Lemma parseValue_array (f d : nat) (t : token) (r : list token) :
  opener t = true ->
  parseValue (S f) d (TLBracket :: t :: r)
  = if maxNestingDepth <=? d then None
    else match parseElements f (S d) (t :: r) with
         | Some (vs, rest') => Some (Array vs, rest')
         | None => None
         end.
Proof. intros H. destruct t; try discriminate; reflexivity. Qed.

Lemma parseValue_object (f d : nat) (raw : gostring) (r : list token) :
  parseValue (S f) d (TLBrace :: TString raw :: r)
  = if maxNestingDepth <=? d then None
    else match parseMembers f (S d) (TString raw :: r) with
         | Some (ms, rest') => Some (Object ms, rest')
         | None => None
         end.
Proof. reflexivity. Qed.

Lemma parseElements_step (f d : nat) (ts : list token) :
  parseElements (S f) d ts
  = match parseValue f d ts with
    | Some (v, TComma :: rest) =>
      match parseElements f d rest with
      | Some (vs, rest') => Some (v :: vs, rest')
      | None => None
      end
    | Some (v, TRBracket :: rest) => Some ([v], rest)
    | _ => None
    end.
Proof. reflexivity. Qed.

Lemma parseMembers_step (f d : nat) (raw : gostring) (ts : list token) :
  parseMembers (S f) d (TString raw :: TColon :: ts)
  = match unquote raw, parseValue f d ts with
    | Some k, Some (v, TComma :: rest') =>
      match parseMembers f d rest' with
      | Some (ms, rest'') => Some ((k, v) :: ms, rest'')
      | None => None
      end
    | Some k, Some (v, TRBrace :: rest') => Some ([(k, v)], rest')
    | _, _ => None
    end.
Proof. reflexivity. Qed.

Lemma parseElements_toks (vs : list value) :
  Forall parsesAt vs ->
  forall (v : value) (fuel depth : nat) (rest : list token),
    parsesAt v ->
    length (toks v ++ flat_map (fun v => TComma :: toks v) vs) + 1 < fuel ->
    depth + height v <= maxNestingDepth ->
    Forall (fun v => depth + height v <= maxNestingDepth) vs ->
    parseElements fuel depth
                  (toks v ++ flat_map (fun v => TComma :: toks v) vs
                         ++ TRBracket :: rest)
    = Some (v :: vs, rest).
Proof.
  induction 1 as [|v' vs Hv' Hvs IH]; intros v fuel depth rest Hv Hf Hd Hds.
  - destruct fuel as [|fuel]; [lia|]. cbn [flat_map app] in *.
    rewrite app_nil_r in Hf.
    rewrite parseElements_step, (Hv fuel depth _ ltac:(lia) Hd).
    reflexivity.
  - destruct fuel as [|fuel]; [lia|].
    cbn [flat_map] in *. rewrite ?length_app in Hf. cbn [length] in Hf.
    rewrite ?length_app in Hf.
    pose proof (toks_length v) as L.
    inversion Hds as [|? ? Hd' Hds']; subst.
    rewrite parseElements_step, (Hv fuel depth _ ltac:(lia) Hd).
    rewrite <- app_assoc. cbn [app].
    rewrite (IH v' fuel depth rest Hv'); [reflexivity | | exact Hd' | exact Hds'].
    rewrite length_app. lia.
Qed.

Lemma parseMembers_toks (ms : list (gostring * value)) :
  Forall (fun m => parsesAt (snd m)) ms ->
  forall (k : gostring) (v : value) (fuel depth : nat) (rest : list token),
    parsesAt v -> validUtf8 k = true ->
    forallb (fun m => validUtf8 (fst m)) ms = true ->
    length (toks v ++ flat_map (fun m => TComma :: TString (raw (fst m))
                                               :: TColon :: toks (snd m)) ms)
    + 3 < fuel ->
    depth + height v <= maxNestingDepth ->
    Forall (fun m => depth + height (snd m) <= maxNestingDepth) ms ->
    parseMembers fuel depth
                 (TString (raw k) :: TColon :: toks v
                    ++ flat_map (fun m => TComma :: TString (raw (fst m))
                                                 :: TColon :: toks (snd m)) ms
                    ++ TRBrace :: rest)
    = Some ((k, v) :: ms, rest).
Proof.
  induction 1 as [|[k' v'] ms Hv' Hms IH];
    intros k v fuel depth rest Hv Hk Hks Hf Hd Hds.
  - destruct fuel as [|fuel]; [lia|]. cbn [flat_map app] in *.
    rewrite app_nil_r in Hf.
    rewrite parseMembers_step, (Hv fuel depth _ ltac:(lia) Hd).
    unfold raw. rewrite (unquote_quoteLoop k Hk). reflexivity.
  - destruct fuel as [|fuel]; [lia|].
    cbn [flat_map fst snd forallb] in *.
    rewrite ?length_app in Hf. cbn [length] in Hf.
    rewrite ?length_app in Hf.
    pose proof (toks_length v) as L.
    apply andb_true_iff in Hks. destruct Hks as [Hk' Hks].
    inversion Hds as [|? ? Hd' Hds']; subst. cbn [snd] in Hd'.
    rewrite parseMembers_step, (Hv fuel depth _ ltac:(lia) Hd).
    unfold raw at 1. rewrite (unquote_quoteLoop k Hk).
    rewrite <- app_assoc. cbn [app].
    rewrite (IH k' v' fuel depth rest Hv' Hk' Hks);
      [reflexivity | | exact Hd' | exact Hds'].
    rewrite length_app. lia.
Qed.

Lemma height_elements (vs : list value) (d : nat) :
  d + S (fold_right (fun v h => Nat.max (height v) h) 0 vs)
  <= maxNestingDepth ->
  Forall (fun v => S d + height v <= maxNestingDepth) vs.
Proof.
  generalize maxNestingDepth. intros M.
  induction vs as [|v vs IH]; intros H; constructor; cbn [fold_right] in H.
  - lia.
  - apply IH. lia.
Qed.

Lemma height_members (ms : list (gostring * value)) (d : nat) :
  d + S (fold_right (fun m h => Nat.max (height (snd m)) h) 0 ms)
  <= maxNestingDepth ->
  Forall (fun m => S d + height (snd m) <= maxNestingDepth) ms.
Proof.
  generalize maxNestingDepth. intros M.
  induction ms as [|m ms IH]; intros H; constructor; cbn [fold_right] in H.
  - lia.
  - apply IH. lia.
Qed.

(** The parser reads the tokens of a value as the value. *)
Lemma parseValue_toks (v : value) : wfValue v = true -> parsesAt v.
Proof.
  induction v as [ |b|l|s|vs IH|ms IH] using value_ind2; intros Hwf.
  - intros [|fuel] depth rest Hf Hd; [lia | reflexivity].
  - intros [|fuel] depth rest Hf Hd; [lia | destruct b; reflexivity].
  - intros [|fuel] depth rest Hf Hd; [lia | reflexivity].
  - intros [|fuel] depth rest Hf Hd; [lia|].
    cbn [toks app parseValue]. unfold raw.
    rewrite (unquote_quoteLoop s Hwf). reflexivity.
  - intros [|fuel] depth rest Hf Hd; [lia|].
    destruct vs as [|v vs].
    + cbn [toks app]. cbn [height fold_right] in Hd.
      change (parseValue (S fuel) depth (TLBracket :: TRBracket :: rest))
        with (if maxNestingDepth <=? depth then None
              else Some (Array [], rest)).
      destruct (Nat.leb_spec maxNestingDepth depth); [lia | reflexivity].
    + cbn [wfValue forallb] in Hwf. apply andb_true_iff in Hwf.
      destruct Hwf as [Hv Hvs].
      inversion IH as [|? ? IHv IHvs]; subst.
      pose proof (height_elements (v :: vs) depth Hd) as Hh.
      inversion Hh as [|? ? Hhv Hhvs]; subst.
      cbn [toks] in *. cbn [length] in Hf. rewrite ?length_app in Hf.
      cbn [length] in Hf. rewrite ?length_app in Hf.
      destruct (toks_head v) as [t [r [E Ht]]].
      cbn [app]. rewrite <- !app_assoc. cbn [app].
      rewrite E at 1. cbn [app].
      rewrite parseValue_array by exact Ht.
      cbn [height] in Hd.
      destruct (Nat.leb_spec maxNestingDepth depth); [lia|].
      change (t :: r ++ ?x) with ((t :: r) ++ x). rewrite <- E.
      rewrite (parseElements_toks vs); [reflexivity | | | | exact Hhv | exact Hhvs].
      * apply Forall_forall. intros a Ha.
        rewrite Forall_forall in IHvs. rewrite forallb_forall in Hvs.
        apply IHvs; [exact Ha | apply Hvs; exact Ha].
      * apply IHv. exact Hv.
      * rewrite length_app. lia.
  - intros [|fuel] depth rest Hf Hd; [lia|].
    destruct ms as [|[k v] ms].
    + cbn [toks app]. cbn [height fold_right] in Hd.
      change (parseValue (S fuel) depth (TLBrace :: TRBrace :: rest))
        with (if maxNestingDepth <=? depth then None
              else Some (Object [], rest)).
      destruct (Nat.leb_spec maxNestingDepth depth); [lia | reflexivity].
    + cbn [wfValue forallb fst snd] in Hwf. apply andb_true_iff in Hwf.
      destruct Hwf as [Hv Hms]. apply andb_true_iff in Hv.
      destruct Hv as [Hk Hv].
      inversion IH as [|? ? IHv IHms]; subst. cbn [snd] in IHv.
      pose proof (height_members ((k, v) :: ms) depth Hd) as Hh.
      inversion Hh as [|? ? Hhv Hhms]; subst. cbn [snd] in Hhv.
      cbn [toks] in *. cbn [length] in Hf. rewrite ?length_app in Hf.
      cbn [length] in Hf. rewrite ?length_app in Hf.
      cbn [app]. rewrite <- !app_assoc. cbn [app].
      rewrite parseValue_object.
      cbn [height] in Hd.
      destruct (Nat.leb_spec maxNestingDepth depth); [lia|].
      rewrite (parseMembers_toks ms);
        [reflexivity | | | exact Hk | | | exact Hhv | exact Hhms].
      * apply Forall_forall. intros a Ha.
        rewrite Forall_forall in IHms. rewrite forallb_forall in Hms.
        apply IHms; [exact Ha|].
        specialize (Hms a Ha). apply andb_true_iff in Hms. tauto.
      * apply IHv. exact Hv.
      * rewrite forallb_forall in Hms. apply forallb_forall. intros a Ha.
        specialize (Hms a Ha). apply andb_true_iff in Hms. tauto.
      * rewrite length_app. lia.
Qed.

(** *** Integers *)

(** The decimal digits of a positive number start with none of [0]. *)
Lemma to_uint_head (p : positive) :
  Pos.to_uint p <> Decimal.Nil
  /\ forall d, Pos.to_uint p <> Decimal.D0 d.
Proof.
  split; [apply DecimalPos.Unsigned.to_uint_nonnil|].
  intros d E.
  pose proof (DecimalPos.Unsigned.to_of (Pos.to_uint p)) as H.
  rewrite DecimalPos.Unsigned.of_to in H. cbn [N.to_uint] in H.
  unfold Decimal.unorm in H.
  pose proof (DecimalFacts.nzhead_nonzero (Pos.to_uint p)) as Hnz.
  destruct (Decimal.nzhead (Pos.to_uint p)) eqn:En.
  - apply (DecimalPos.Unsigned.to_uint_nonzero p). exact H.
  - apply (Hnz u). reflexivity.
  - rewrite E in H. discriminate.
  - rewrite E in H. discriminate.
  - rewrite E in H. discriminate.
  - rewrite E in H. discriminate.
  - rewrite E in H. discriminate.
  - rewrite E in H. discriminate.
  - rewrite E in H. discriminate.
  - rewrite E in H. discriminate.
  - rewrite E in H. discriminate.
Qed.

Lemma digits_of_uint (d : Decimal.uint) :
  forallb isDigit
          (list_ascii_of_string (DecimalString.NilEmpty.string_of_uint d))
  = true.
Proof. induction d; cbn; try assumption; reflexivity. Qed.

Lemma isIntLit_uint (d : Decimal.uint) :
  d <> Decimal.Nil -> (forall d', d <> Decimal.D0 d') ->
  let l := list_ascii_of_string (DecimalString.NilZero.string_of_uint d) in
  isIntLit l = true /\ isIntLit ("-"%char :: l) = true.
Proof.
  intros Hn H0. pose proof (digits_of_uint d) as Hd.
  destruct d; try congruence;
    try (exfalso; apply (H0 d); reflexivity);
    cbn in Hd |- *; rewrite Hd; split; reflexivity.
Qed.

Lemma isIntLit_FormatInt (n : Z) : isIntLit (Strconv.FormatInt n) = true.
Proof.
  unfold Strconv.FormatInt. destruct n as [|p|p]; [reflexivity| |].
  - destruct (to_uint_head p) as [Hn H0]. cbn [Z.to_int].
    apply (isIntLit_uint _ Hn H0).
  - destruct (to_uint_head p) as [Hn H0].
    apply (isIntLit_uint _ Hn H0).
Qed.

Lemma ParseInt_FormatInt (n : Z) :
  isInt64 n = true -> Strconv.ParseInt (Strconv.FormatInt n) = Some n.
Proof.
  intros Hn. pose proof (isIntLit_FormatInt n) as Hl.
  unfold Strconv.ParseInt, Strconv.FormatInt in *.
  set (d := Z.to_int n) in *.
  assert (Hd : DecimalString.NilZero.int_of_string
                 (DecimalString.NilZero.string_of_int d) = Some d).
  { apply DecimalString.NilZero.isi; subst d; destruct n as [|p|p];
      cbn [Z.to_int]; try discriminate;
        intros E; inversion E as [E'];
          apply (DecimalPos.Unsigned.to_uint_nonnil p E'). }
  destruct (list_ascii_of_string (DecimalString.NilZero.string_of_int d))
    as [|c rest] eqn:E; [discriminate|].
  assert (Hplus : Ascii.eqb c "+"%char = false).
  { destruct (Ascii.eqb_spec c "+"%char) as [->|]; [|reflexivity].
    discriminate. }
  rewrite Hplus, <- E, string_of_list_ascii_of_string, Hd.
  subst d. rewrite DecimalZ.of_to.
  unfold isInt64 in Hn. rewrite Hn. reflexivity.
Qed.

(** *** Decoding what was encoded *)

(** [checkValid] and the decoder read the text of a value as the value. *)
Lemma parse_render (v : value) :
  wfValue v = true -> height v <= maxNestingDepth ->
  parse (render 0 v) = Some v.
Proof.
  intros Hwf Hh. unfold parse.
  pose proof (lexes_render v Hwf 0 [] [] 0 (length (render 0 v))
                           eq_refl eq_refl ltac:(lia)) as Hlex.
  rewrite !app_nil_r in Hlex. rewrite Hlex.
  pose proof (parseValue_toks v Hwf (S (length (toks v))) 0 []
                              ltac:(lia) Hh) as Hp.
  rewrite app_nil_r in Hp. rewrite Hp. reflexivity.
Qed.

Lemma decodeElems_strings (l backing : list gostring) :
  decodeElems gostring [] decodeString (map String l) backing = (l, false).
Proof.
  revert backing. induction l as [|s l IH]; intros backing; [reflexivity|].
  cbn [map decodeElems decodeString]. rewrite IH. reflexivity.
Qed.

Lemma decodeFile_encodeFile (f old : File) :
  isInt64 (Size f) = true -> decodeFile (encodeFile f) old = (f, false).
Proof.
  intros Hn. destruct f as [path url size sha compression].
  destruct old as [path0 url0 size0 sha0 compression0].
  cbn [Size] in Hn.
  assert (E0 : fieldIndex fileFields (lit "path") = Some 0)
    by (vm_compute; reflexivity).
  assert (E1 : fieldIndex fileFields (lit "url") = Some 1)
    by (vm_compute; reflexivity).
  assert (E2 : fieldIndex fileFields (lit "size") = Some 2)
    by (vm_compute; reflexivity).
  assert (E3 : fieldIndex fileFields (lit "sha256") = Some 3)
    by (vm_compute; reflexivity).
  assert (E4 : fieldIndex fileFields (lit "compression") = Some 4)
    by (vm_compute; reflexivity).
  unfold decodeFile, encodeFile. cbn [fold_left].
  cbn [Path URL Size SHA256 Compression].
  unfold decodeFileMember at 5. rewrite E0.
  cbn [decodeString orb].
  unfold decodeFileMember at 4. rewrite E1.
  cbn [decodeString orb].
  unfold decodeFileMember at 3. rewrite E2.
  cbn [decodeInt64]. rewrite (ParseInt_FormatInt size Hn). cbn [orb].
  unfold decodeFileMember at 2. rewrite E3.
  cbn [decodeString orb].
  unfold decodeFileMember at 1. rewrite E4.
  cbn [decodeString orb].
  reflexivity.
Qed.

Lemma decodeElems_files (l backing : list File) :
  forallb (fun f => isInt64 (Size f)) l = true ->
  decodeElems File zeroFile decodeFile (map encodeFile l) backing
  = (l, false).
Proof.
  revert backing. induction l as [|f l IH]; intros backing H; [reflexivity|].
  cbn [forallb] in H. apply andb_true_iff in H. destruct H as [Hf Hl].
  cbn [map decodeElems]. rewrite (decodeFile_encodeFile f _ Hf), (IH _ Hl).
  reflexivity.
Qed.

Lemma decodeSlice_strings (s : goslice gostring) (b : backed gostring) :
  exists backing,
    decodeSlice gostring [] decodeString (encodeSlice String s) b
    = ((s, backing), false).
Proof.
  destruct s as [[|x l]|]; cbn [encodeSlice map decodeSlice].
  - eexists. reflexivity.
  - change (String x :: map String l) with (map String (x :: l)).
    rewrite decodeElems_strings. eexists. reflexivity.
  - eexists. reflexivity.
Qed.

Lemma decodeSlice_files (s : goslice File) (b : backed File) :
  forallb (fun f => isInt64 (Size f)) (elems s) = true ->
  exists backing,
    decodeSlice File zeroFile decodeFile (encodeSlice encodeFile s) b
    = ((s, backing), false).
Proof.
  intros H. destruct s as [[|x l]|]; cbn [encodeSlice map decodeSlice].
  - eexists. reflexivity.
  - change (encodeFile x :: map encodeFile l) with (map encodeFile (x :: l)).
    rewrite (decodeElems_files (x :: l) _ H). eexists. reflexivity.
  - eexists. reflexivity.
Qed.

Lemma forallb_map_comp {A B : Type} (p : B -> bool) (g : A -> B)
      (l : list A) :
  forallb p (map g l) = forallb (fun x => p (g x)) l.
Proof.
  induction l as [|x l IH]; [reflexivity|]. cbn [map forallb].
  rewrite IH. reflexivity.
Qed.

Lemma validFile_inv (f : File) :
  validFile f = true ->
  wfValue (encodeFile f) = true /\ isInt64 (Size f) = true.
Proof.
  unfold validFile. intros H.
  repeat (apply andb_true_iff in H; destruct H as [H ?]).
  split; [|assumption].
  unfold encodeFile. cbn [wfValue forallb fst snd].
  rewrite isIntLit_FormatInt.
  repeat match goal with
         | H : validUtf8 _ = true |- _ => rewrite H; clear H
         end.
  reflexivity.
Qed.

Lemma wfValue_encodeManifest (m : Manifest) :
  validManifest m = true -> wfValue (encodeManifest m) = true.
Proof.
  unfold validManifest. intros H.
  repeat (apply andb_true_iff in H; destruct H as [H ?]).
  unfold encodeManifest. cbn [wfValue forallb fst snd].
  repeat match goal with
         | H : validUtf8 _ = true |- _ => rewrite H; clear H
         end.
  cbn [andb].
  assert (Hp : wfValue (encodeSlice String (Prefetch m)) = true).
  { destruct (Prefetch m) as [l|]; [|reflexivity].
    cbn [encodeSlice wfValue elems] in *. rewrite forallb_map_comp.
    assumption. }
  assert (Hf : wfValue (encodeSlice encodeFile (Files m)) = true).
  { destruct (Files m) as [l|]; [|reflexivity].
    cbn [encodeSlice wfValue elems] in *. rewrite forallb_map_comp.
    apply forallb_forall. intros f Hin.
    apply validFile_inv.
    match goal with
    | H : forallb validFile _ = true |- _ =>
      rewrite forallb_forall in H; apply H; exact Hin
    end. }
  rewrite Hp, Hf. reflexivity.
Qed.

Lemma height_encodeManifest (m : Manifest) :
  height (encodeManifest m) <= 3.
Proof.
  unfold encodeManifest. cbn [height fold_right snd].
  assert (Hp : height (encodeSlice String (Prefetch m)) <= 1).
  { destruct (Prefetch m) as [l|]; [|cbn; lia].
    cbn [encodeSlice height]. apply le_n_S.
    induction l as [|s l IH]; cbn [map fold_right height]; lia. }
  assert (Hf : height (encodeSlice encodeFile (Files m)) <= 2).
  { destruct (Files m) as [l|]; [|cbn; lia].
    cbn [encodeSlice height]. apply le_n_S.
    induction l as [|s l IH]; [cbn; lia|].
    cbn [map fold_right].
    change (height (encodeFile s)) with 1. lia. }
  lia.
Qed.

Lemma maxNestingDepth_3 : 3 <= maxNestingDepth.
Proof. apply Nat.leb_le. vm_compute. reflexivity. Qed.

Lemma decode_encodeManifest (m : Manifest) (d0 : decoding) :
  forallb (fun f => isInt64 (Size f)) (elems (Files m)) = true ->
  exists b1 b2,
    match encodeManifest m with
    | Object members => fold_left decodeManifestMember members d0
    | _ => d0
    end
    = mkDecoding (ArtifactID m) (Version m) (MountPath m)
                 (Prefetch m, b1) (Files m, b2) (failed d0).
Proof.
  intros Hsizes.
  assert (E0 : fieldIndex manifestFields (lit "artifact_id") = Some 0)
    by (vm_compute; reflexivity).
  assert (E1 : fieldIndex manifestFields (lit "version") = Some 1)
    by (vm_compute; reflexivity).
  assert (E2 : fieldIndex manifestFields (lit "mount_path") = Some 2)
    by (vm_compute; reflexivity).
  assert (E3 : fieldIndex manifestFields (lit "prefetch") = Some 3)
    by (vm_compute; reflexivity).
  assert (E4 : fieldIndex manifestFields (lit "files") = Some 4)
    by (vm_compute; reflexivity).
  destruct m as [id ver mp pf fl]. cbn [Files elems] in Hsizes.
  destruct d0 as [id0 ver0 mp0 pf0 fl0 e0].
  unfold encodeManifest. cbn [fold_left].
  cbn [ArtifactID Version MountPath Prefetch Files failed].
  unfold decodeManifestMember at 5. rewrite E0. cbn [decodeString].
  unfold decodeManifestMember at 4. rewrite E1. cbn [decodeString].
  unfold decodeManifestMember at 3. rewrite E2. cbn [decodeString].
  unfold decodeManifestMember at 2. rewrite E3.
  destruct (decodeSlice_strings pf pf0) as [b1 ->].
  unfold decodeManifestMember at 1. rewrite E4.
  destruct (decodeSlice_files fl fl0 Hsizes) as [b2 ->].
  exists b1, b2. rewrite !orb_false_r. reflexivity.
Qed.

(** [json.Unmarshal] of what [Marshal] wrote for a valid manifest sets
    every field, whatever was there. *)
Lemma Unmarshal_Marshal (m m0 : Manifest) :
  validManifest m = true -> Unmarshal (fst (Marshal m)) m0 = (m, None).
Proof.
  intros Hv. unfold Unmarshal, Marshal. cbn [fst].
  rewrite (parse_render (encodeManifest m) (wfValue_encodeManifest m Hv)
                        (Nat.le_trans _ _ _ (height_encodeManifest m)
                                      maxNestingDepth_3)).
  assert (Hsizes : forallb (fun f => isInt64 (Size f)) (elems (Files m))
                   = true).
  { unfold validManifest in Hv. apply andb_true_iff in Hv.
    destruct Hv as [_ Hv]. rewrite forallb_forall in Hv.
    apply forallb_forall. intros f Hin.
    apply (validFile_inv f (Hv f Hin)). }
  cbv zeta.
  destruct (decode_encodeManifest
              m (mkDecoding (ArtifactID m0) (Version m0) (MountPath m0)
                            (Prefetch m0, []) (Files m0, []) false) Hsizes)
    as [b1 [b2 E]].
  unfold encodeManifest in *. rewrite E.
  destruct m; reflexivity.
Qed.

(** *** Objects without sequences *)

(** Members that match no sequence leave the sequences as they are, and
    do not fail when the strings they set are strings. *)
Lemma scalarsOnly_fold (members : list (gostring * value)) :
  scalarsOnly members = true ->
  forall d : decoding,
    let d' := fold_left decodeManifestMember members d in
    prefetch d' = prefetch d /\ files d' = files d /\ failed d' = failed d.
Proof.
  induction members as [|[key v] members IH]; intros H d.
  - cbn. auto.
  - unfold scalarsOnly in H. cbn [forallb fst snd] in H.
    apply andb_true_iff in H. destruct H as [Hm H].
    specialize (IH H). cbn [fold_left].
    destruct (IH (decodeManifestMember d (key, v))) as [I1 [I2 I3]].
    cbv zeta. rewrite I1, I2, I3. clear IH I1 I2 I3.
    destruct d as [id ver mp pf fl e]. unfold decodeManifestMember.
    destruct (fieldIndex manifestFields key) as [[|[|[|[|[|n]]]]]|];
      try discriminate; try (cbn; auto; fail);
      destruct v; try discriminate; cbn; rewrite orb_false_r; auto.
Qed.

(** [Load] on an object without sequences. *)
Lemma Load_scalarsOnly (readFile : gostring -> errno + gostring)
      (path data : gostring) (members : list (gostring * value)) :
  readFile path = inr data -> parse data = Some (Object members) ->
  scalarsOnly members = true ->
  exists m, Load readFile path = (Some m, None)
            /\ Prefetch m = None /\ Files m = None.
Proof.
  intros Hread Hparse Hs. unfold Load, Unmarshal.
  rewrite Hread, Hparse. cbv zeta.
  destruct (scalarsOnly_fold members Hs
              (mkDecoding (ArtifactID zeroManifest) (Version zeroManifest)
                          (MountPath zeroManifest)
                          (Prefetch zeroManifest, [])
                          (Files zeroManifest, []) false))
    as [I1 [I2 I3]].
  cbv zeta in I1, I2, I3. rewrite I1, I2, I3.
  cbn [prefetch files failed fst Prefetch Files zeroManifest].
  eexists. split; [reflexivity|]. split; reflexivity.
Qed.

(** Every manifest that [Generate] returns has sequences that are not
    nil. *)
Lemma Generate_sequences (fs : FileSystem) (os : GOOS)
      (dir id version urlPrefix : gostring) (pf : goslice gostring)
      (m : Manifest) (err : option error) :
  Generate fs os dir id version urlPrefix pf = (Some m, err) ->
  Prefetch m <> None /\ Files m <> None.
Proof.
  intros H. apply Generate_success in H. destruct H as [_ [_ [_ ->]]].
  unfold generated. cbn [Prefetch Files].
  rewrite normalizePrefetchPaths_eq. split; discriminate.
Qed.

(** Members that match a field of no sequence leave the sequences as they
    are. *)
Lemma unmatched_fold (field : nat) (members : list (gostring * value)) :
  unmatched field members = true ->
  forall d : decoding,
    let d' := fold_left decodeManifestMember members d in
    (field = 3 -> prefetch d' = prefetch d)
    /\ (field = 4 -> files d' = files d).
Proof.
  induction members as [|[key v] members IH]; intros H d.
  - cbn. auto.
  - unfold unmatched in H. cbn [forallb fst snd] in H.
    apply andb_true_iff in H. destruct H as [Hm H].
    specialize (IH H). cbn [fold_left].
    destruct (IH (decodeManifestMember d (key, v))) as [I1 I2].
    cbv zeta. clear IH.
    destruct d as [id ver mp pf fl e]. unfold decodeManifestMember in *.
    destruct (fieldIndex manifestFields key) as [[|[|[|[|[|n]]]]]|];
      split; intros ->; try discriminate;
        try (rewrite (I1 eq_refl)); try (rewrite (I2 eq_refl));
          repeat match goal with
                 | |- context [let '(_, _) := ?x in _] => destruct x
                 end;
          reflexivity.
Qed.

(** What [Load] returns for the text of an object. *)
Lemma Load_object (readFile : gostring -> errno + gostring)
      (path data : gostring) (members : list (gostring * value)) :
  readFile path = inr data -> parse data = Some (Object members) ->
  exists d,
    d = fold_left decodeManifestMember members
                  (mkDecoding [] [] [] (None, []) (None, []) false)
    /\ Load readFile path
       = if failed d then (None, Some UnmarshalTypeError)
         else (Some (mkManifest (artifactID d) (version d) (mountPath d)
                                (fst (prefetch d)) (fst (files d))), None).
Proof.
  intros Hread Hparse. unfold Load, Unmarshal.
  rewrite Hread, Hparse. cbv zeta.
  match goal with
  | |- context [failed ?x] => exists x; destruct (failed x)
  end; split; reflexivity.
Qed.

End JsonFacts.

(** * The claims *)

Import Utf8 Unicode Strings Filepath Errors OS Walk Manifest Descr Aux.
Import Utf8Facts StringsFacts NormalizeFacts GenerateFacts.
Import Json JsonFacts.

(** C8: [normalizePrefetchPaths] always returns a sequence that is not
    nil: the elements of its input, each with the white space at its ends
    trimmed, those that are then empty left out, the separators of the
    others turned into slashes, in the order of the input; a nil input
    gives the empty sequence. *)
Theorem normalizePrefetchPaths_spec (os : GOOS) (paths : goslice gostring) :
  normalizePrefetchPaths os paths
  = Some (map (ToSlash os)
              (filter (fun p => negb (isEmpty p))
                      (map TrimSpace (elems paths))))
  /\ (forall p : gostring,
         exists l r,
           p = l ++ TrimSpace p ++ r /\ Spaces l /\ Spaces r
           /\ LeftTrimmed (TrimSpace p) /\ RightTrimmed (TrimSpace p))
  /\ (forall p : gostring,
         ToSlash os p
         = map (fun c => if Ascii.eqb c (Separator os) then "/"%char else c)
               p)
  /\ normalizePrefetchPaths os None = Some []
  /\ normalizePrefetchPaths os
       (Some [lit " config.json "; lit "  tokenizer.json"])
     = Some [lit "config.json"; lit "tokenizer.json"].
Proof.
  split; [apply normalizePrefetchPaths_eq|].
  split.
  { intros p. destruct (TrimSpace_spec p) as [a [b [Hab [E [Hs1 [Hs2 [Hl Hr]]]]]]].
    exists (firstn a p), (skipn b p). repeat split; try assumption.
    rewrite E. rewrite <- (firstn_skipn a p) at 1. f_equal.
    rewrite <- (slice_to_end p a).
    rewrite <- slice_to_end. apply slice_split. lia. }
  split; [apply ToSlash_map|].
  split; [reflexivity|].
  destruct os; vm_compute; reflexivity.
Qed.

(** C9: [normalizePrefetchPaths] is idempotent: applied to its own
    result, it returns that result. *)
Theorem normalizePrefetchPaths_idempotent
        (os : GOOS) (paths : goslice gostring) :
  normalizePrefetchPaths os (normalizePrefetchPaths os paths)
  = normalizePrefetchPaths os paths.
Proof.
  rewrite !normalizePrefetchPaths_eq. cbn [elems].
  rewrite normalized_idempotent. reflexivity.
Qed.

(** C1, as stated, fails: the file [config] of the directory [.git] is
    retained, and its path has a segment that begins with a dot. *)
Lemma dot_directory_is_walked :
  exists m f,
    Generate Examples.fsCheckout Unix (lit "repo") (lit "id") (lit "v1")
             (lit "https://example.com") None = (Some m, None)
    /\ In f (elems (Files m))
    /\ Path f = lit ".git/config"
    /\ hasDotSegment (Path f) = true.
Proof.
  eexists. eexists.
  split; [vm_compute; reflexivity|].
  split; [left; reflexivity|].
  split; reflexivity.
Qed.

(** C1, amended: entries that are no directories and whose name begins
    with a dot are skipped; the files of a successful run are the
    retained files in walk order, and the last segment of the path of
    none of them begins with a dot. *)
Theorem Generate_skips_hidden_files
        (fs : FileSystem) (os : GOOS) (dir id version urlPrefix : gostring)
        (pf : goslice gostring) (m : Manifest) (f : File) :
  validTree os (root (fs dir)) = true ->
  plainFile (root (fs dir)) = false ->
  Generate fs os dir id version urlPrefix pf = (Some m, None) ->
  In f (elems (Files m)) ->
  elems (Files m)
  = map (fileRecord os (TrimSuffix urlPrefix (lit "/")))
        (retained [] (base (fs dir)) (root (fs dir)))
  /\ HasPrefix (baseName (Path f)) (lit ".") = false.
Proof.
  intros Hv Hpl Hg Hin.
  destruct (Generate_success _ _ _ _ _ _ _ _ _ Hg) as [_ [_ [_ ->]]].
  cbn [generated Files elems] in *. split; [reflexivity|].
  apply in_map_iff in Hin. destruct Hin as [[p info] [<- Hin]].
  destruct (retained_baseName os _ _ p info Hv Hpl Hin) as [Hb Hh].
  unfold fileRecord. cbn [Path fst]. fold (relOf os p). rewrite Hb. exact Hh.
Qed.

Lemma Generate_skips_hidden_files_witness :
  let m := generated Examples.fsCheckout Unix (lit "repo") (lit "id")
                     (lit "v1") (lit "https://example.com") None in
  let f := mkFile (lit ".git/config")
                  (lit "https://example.com/.git/config") 1
                  (lit "2d711642b726b04401627ca9fbac32f5c8530fb1903cc4db02258717921a4881")
                  (lit "none") in
  elems (Files m)
  = map (fileRecord Unix (TrimSuffix (lit "https://example.com") (lit "/")))
        (retained [] (base (Examples.fsCheckout (lit "repo")))
                  (root (Examples.fsCheckout (lit "repo"))))
  /\ HasPrefix (baseName (Path f)) (lit ".") = false.
Proof.
  intros m f.
  apply (Generate_skips_hidden_files Examples.fsCheckout Unix (lit "repo")
           (lit "id") (lit "v1") (lit "https://example.com") None m f).
  - reflexivity.
  - reflexivity.
  - vm_compute. reflexivity.
  - left. vm_compute. reflexivity.
Defined.

(** C2: validation fails fast, in the order id and version, directory,
    URL prefix, and returns an error and no manifest. *)
Theorem Generate_validation_order
        (fs : FileSystem) (os : GOOS) (dir id version urlPrefix : gostring)
        (pf : goslice gostring) :
  (isEmpty id || isEmpty version = true ->
   Generate fs os dir id version urlPrefix pf
   = (None, Some (Errorf "id and version are required" None None))
   /\ kindOf (Errorf "id and version are required" None None)
      = ValidationError)
  /\ (isEmpty id || isEmpty version = false ->
      forall err, Stat (fs dir) = inl err ->
      Generate fs os dir id version urlPrefix pf
      = (None, Some (Errorf "cannot access directory: %w" None
                            (Some (Sys err))))
      /\ kindOf (Errorf "cannot access directory: %w" None (Some (Sys err)))
         = FilesystemError)
  /\ (isEmpty id || isEmpty version = false ->
      forall info, Stat (fs dir) = inr info -> OS.IsDir info = false ->
      Generate fs os dir id version urlPrefix pf
      = (None, Some (Errorf "path is not a directory: %s" (Some dir) None))
      /\ kindOf (Errorf "path is not a directory: %s" (Some dir) None)
         = FilesystemError)
  /\ (isEmpty id || isEmpty version = false ->
      forall info, Stat (fs dir) = inr info -> OS.IsDir info = true ->
      HasPrefix urlPrefix (lit "http://") = false ->
      HasPrefix urlPrefix (lit "https://") = false ->
      Generate fs os dir id version urlPrefix pf
      = (None,
         Some (Errorf "url-prefix must start with http:// or https://"
                      None None))
      /\ kindOf (Errorf "url-prefix must start with http:// or https://"
                        None None)
         = ValidationError).
Proof.
  unfold Generate.
  split; [intros Hid; rewrite Hid; split; reflexivity|].
  split; [intros Hid err Hs; rewrite Hid, Hs; split; reflexivity|].
  split; [intros Hid info Hs Hd; rewrite Hid, Hs, Hd; split; reflexivity|].
  intros Hid info Hs Hd Hhttp Hhttps.
  rewrite Hid, Hs, Hd, Hhttp, Hhttps. split; reflexivity.
Qed.

Lemma Generate_validation_order_witness :
  (* no id, although the directory is missing and the prefix is bad *)
  Generate Examples.fsMissing Unix (lit "nowhere") [] (lit "v1")
           (lit "s3://bucket") None
  = (None, Some (Errorf "id and version are required" None None))
  (* a missing directory, although the prefix is bad *)
  /\ Generate Examples.fsMissing Unix (lit "nowhere") (lit "id") (lit "v1")
              (lit "s3://bucket") None
     = (None, Some (Errorf "cannot access directory: %w" None
                           (Some (Sys ENOENT))))
  (* no directory, although the prefix is bad *)
  /\ Generate Examples.fsNotDir Unix (lit "f") (lit "id") (lit "v1")
              (lit "s3://bucket") None
     = (None, Some (Errorf "path is not a directory: %s" (Some (lit "f"))
                           None))
  (* a bad prefix *)
  /\ Generate Examples.fsOne Unix (lit "model") (lit "id") (lit "v1")
              (lit "s3://bucket") None
     = (None,
        Some (Errorf "url-prefix must start with http:// or https://"
                     None None)).
Proof.
  split; [|split; [|split]].
  - apply (Generate_validation_order Examples.fsMissing Unix (lit "nowhere")
             [] (lit "v1") (lit "s3://bucket") None).
    reflexivity.
  - apply (proj1 (proj2 (Generate_validation_order Examples.fsMissing Unix
             (lit "nowhere") (lit "id") (lit "v1") (lit "s3://bucket")
             None)) eq_refl ENOENT eq_refl).
  - apply (proj1 (proj2 (proj2 (Generate_validation_order Examples.fsNotDir
             Unix (lit "f") (lit "id") (lit "v1") (lit "s3://bucket")
             None))) eq_refl _ eq_refl eq_refl).
  - apply (proj2 (proj2 (proj2 (Generate_validation_order Examples.fsOne
             Unix (lit "model") (lit "id") (lit "v1") (lit "s3://bucket")
             None))) eq_refl _ eq_refl eq_refl eq_refl eq_refl).
Defined.



(** C4: the records of a generated manifest are those of the retained
    files, one for each in the order of the walk, so that every retained
    file has a record; the URL of every record is the URL prefix without
    its trailing slash, a slash, and the path; a prefix and the same
    prefix with one more slash at its end give the same result. *)
Theorem Generate_URL_canonical
        (fs : FileSystem) (os : GOOS) (dir id version : gostring)
        (pf : goslice gostring) :
  (forall (urlPrefix : gostring) (m : Manifest),
      Generate fs os dir id version urlPrefix pf = (Some m, None) ->
      Files m
      = Some (map (fileRecord os (TrimSuffix urlPrefix (lit "/")))
                  (retained [] (base (fs dir)) (root (fs dir))))
      /\ map Path (elems (Files m))
         = map (fun e => ToSlash os (fst (Rel os (fst e))))
               (retained [] (base (fs dir)) (root (fs dir)))
      /\ map URL (elems (Files m))
         = map (fun e => TrimSuffix urlPrefix (lit "/") ++ lit "/"
                         ++ ToSlash os (fst (Rel os (fst e))))
               (retained [] (base (fs dir)) (root (fs dir)))
      /\ (forall e : pathref * FileInfo,
             In e (retained [] (base (fs dir)) (root (fs dir))) ->
             exists f : File,
               In f (elems (Files m))
               /\ Path f = ToSlash os (fst (Rel os (fst e)))
               /\ URL f = TrimSuffix urlPrefix (lit "/") ++ lit "/" ++ Path f)
      /\ (forall f : File,
             In f (elems (Files m)) ->
             URL f = TrimSuffix urlPrefix (lit "/") ++ lit "/" ++ Path f))
  /\ (forall p : gostring,
         HasSuffix p (lit "/") = false ->
         HasPrefix p (lit "http://") || HasPrefix p (lit "https://") = true ->
         Generate fs os dir id version (p ++ lit "/") pf
         = Generate fs os dir id version p pf).
Proof.
  split.
  - intros urlPrefix m Hg.
    destruct (Generate_success _ _ _ _ _ _ _ _ _ Hg) as [_ [_ [_ ->]]].
    cbn [generated Files elems].
    split; [reflexivity|].
    split; [rewrite map_map; reflexivity|].
    split; [rewrite map_map; reflexivity|].
    split.
    + intros e He.
      exists (fileRecord os (TrimSuffix urlPrefix (lit "/")) e).
      split; [apply in_map; exact He|]. split; reflexivity.
    + intros f Hin.
      apply in_map_iff in Hin. destruct Hin as [[p info] [<- _]].
      reflexivity.
  - intros p Hs Hp.
    assert (Hp' : HasPrefix (p ++ lit "/") (lit "http://")
                  || HasPrefix (p ++ lit "/") (lit "https://") = true).
    { apply orb_true_iff in Hp. apply orb_true_iff.
      destruct Hp as [Hp|Hp]; [left|right]; apply HasPrefix_app_l; exact Hp. }
    assert (Ht : TrimSuffix (p ++ lit "/") (lit "/")
                 = TrimSuffix p (lit "/")).
    { rewrite !TrimSuffix_slash. unfold trimSlash.
      rewrite HasSuffix_slash in Hs. rewrite Hs.
      change (lit "/") with [slash].
      rewrite (endsSlash_snoc p slash), Ascii.eqb_refl.
      apply removelast_last. }
    unfold Generate. rewrite Ht.
    assert (Hn : forall u, HasPrefix u (lit "http://")
                           || HasPrefix u (lit "https://") = true ->
                           negb (HasPrefix u (lit "http://"))
                           && negb (HasPrefix u (lit "https://")) = false).
    { intros u Hu. apply orb_true_iff in Hu.
      destruct Hu as [-> | ->]; [reflexivity | apply andb_false_r]. }
    rewrite (Hn _ Hp), (Hn _ Hp'). reflexivity.
Qed.

Lemma Generate_URL_canonical_witness :
  (exists f : File,
      In f (elems (Files (generated
                            Examples.fsOne Unix (lit "model") (lit "id")
                            (lit "v1")
                            (lit "https://bucket.s3.amazonaws.com/path/")
                            None)))
      /\ Path f = lit "test.txt"
      /\ URL f = lit "https://bucket.s3.amazonaws.com/path/test.txt")
  /\ map URL (elems (Files (generated
                              Examples.fsOne Unix (lit "model") (lit "id")
                              (lit "v1")
                              (lit "https://bucket.s3.amazonaws.com/path/")
                              None)))
     = [lit "https://bucket.s3.amazonaws.com/path/test.txt"]
  /\ Generate Examples.fsOne Unix (lit "model") (lit "id") (lit "v1")
              (lit "https://bucket.s3.amazonaws.com/path" ++ lit "/") None
     = Generate Examples.fsOne Unix (lit "model") (lit "id") (lit "v1")
                (lit "https://bucket.s3.amazonaws.com/path") None.
Proof.
  assert (HG : Generate Examples.fsOne Unix (lit "model") (lit "id")
                        (lit "v1")
                        (lit "https://bucket.s3.amazonaws.com/path/") None
               = (Some (generated
                          Examples.fsOne Unix (lit "model") (lit "id")
                          (lit "v1")
                          (lit "https://bucket.s3.amazonaws.com/path/")
                          None), None))
    by (vm_compute; reflexivity).
  destruct (proj1 (Generate_URL_canonical Examples.fsOne Unix (lit "model")
                     (lit "id") (lit "v1") None) _ _ HG)
    as [_ [_ [Hurls [Hall _]]]].
  split; [|split].
  - destruct (Hall (mkPath [lit "test.txt"] (Examples.regular "test"),
                    infoOf (lit "test.txt") (Examples.regular "test"))
                   (or_introl eq_refl))
      as [f [Hin [Hp Hu]]].
    exists f. split; [exact Hin|]. split; [exact Hp|].
    rewrite Hu, Hp. reflexivity.
  - rewrite Hurls. reflexivity.
  - apply (proj2 (Generate_URL_canonical Examples.fsOne Unix (lit "model")
                    (lit "id") (lit "v1") None)
                 (lit "https://bucket.s3.amazonaws.com/path")).
    + reflexivity.
    + reflexivity.
Defined.

(** C7: [Generate] returns either an error and no manifest, or a manifest
    and no error; when anything fails during the walk or while a retained
    file is hashed, it returns an error and no manifest. *)
Theorem Generate_all_or_nothing
        (fs : FileSystem) (os : GOOS) (dir id version urlPrefix : gostring)
        (pf : goslice gostring) :
  ((exists e, Generate fs os dir id version urlPrefix pf = (None, Some e))
   \/ (exists m, Generate fs os dir id version urlPrefix pf = (Some m, None)))
  /\ (walkFails (fs dir) = true ->
      exists e, Generate fs os dir id version urlPrefix pf = (None, Some e))
  /\ (walkFails (fs dir) = true ->
      validInputs fs dir id version urlPrefix = true ->
      exists e, Generate fs os dir id version urlPrefix pf
                = (None, Some (Errorf "failed to walk directory: %w" None
                                      (Some e)))).
Proof.
  destruct (validInputs fs dir id version urlPrefix) eqn:Hv.
  - pose proof (Generate_valid fs os dir id version urlPrefix pf Hv) as G.
    destruct (walkFails (fs dir)).
    + destruct G as [e G]. rewrite G.
      split; [left; eexists; reflexivity|].
      split; intros; eexists; reflexivity.
    + rewrite G. split; [right; eexists; reflexivity|].
      split; intros; discriminate.
  - destruct (Generate_invalid fs os dir id version urlPrefix pf Hv)
      as [e [G _]].
    rewrite G. split; [left; eexists; reflexivity|].
    split; intros; [eexists; reflexivity | discriminate].
Qed.

Lemma Generate_all_or_nothing_witness :
  exists e,
    Generate Examples.fsBroken Unix (lit "model") (lit "id") (lit "v1")
             (lit "https://example.com") None
    = (None, Some (Errorf "failed to walk directory: %w" None (Some e))).
Proof.
  apply (proj2 (proj2 (Generate_all_or_nothing Examples.fsBroken Unix
           (lit "model") (lit "id") (lit "v1") (lit "https://example.com")
           None))).
  - reflexivity.
  - reflexivity.
Defined.
(** C6: for a file that can be opened and read to its end, [hashFile]
    returns the SHA-256 digest of the bytes read, whatever the chunks they
    arrive in, as 64 lowercase hexadecimal digits; files with the same
    bytes have the same digest, whatever their names, sizes and modes; the
    digest of the five bytes of [test] and a line feed is the one
    given. *)
Theorem hashFile_digest (path : pathref) (file : stream) :
  Open path = inr file -> final file = None ->
  hashFile path
  = (Hex.EncodeToString (sha256 (concat (chunks file))), None)
  /\ length (fst (hashFile path)) = 64
  /\ forallb lowerHex (fst (hashFile path)) = true
  /\ (forall (path' : pathref) (file' : stream),
         Open path' = inr file' -> final file' = None ->
         concat (chunks file') = concat (chunks file) ->
         hashFile path' = hashFile path)
  /\ Hex.EncodeToString (sha256 (lit "test" ++ [ascii_of_N 10]))
     = lit "f2ca1bb6c7e907d06dafe4687e579fce76b37e4e93b7605022da52e6ccc26fd2".
Proof.
  intros Ho Hf.
  assert (Hh : forall (p : pathref) (s : stream),
             Open p = inr s -> final s = None ->
             hashFile p
             = (Hex.EncodeToString (sha256 (concat (chunks s))), None)).
  { intros p s Hp Hs. unfold hashFile, copy. rewrite Hp, Hs. cbn [option_map].
    rewrite ShaFacts.Sum_chunks. reflexivity. }
  rewrite (Hh path file Ho Hf). cbn [fst].
  split; [reflexivity|].
  split; [rewrite ShaFacts.EncodeToString_length, ShaFacts.sha256_length;
          reflexivity|].
  split; [apply ShaFacts.EncodeToString_lowerHex|].
  split; [|vm_compute; reflexivity].
  intros path' file' Ho' Hf' E. rewrite (Hh path' file' Ho' Hf'), E.
  reflexivity.
Qed.

Lemma hashFile_digest_witness :
  hashFile (mkPath [lit "test.txt"]
                   (OS.File false 5
                            (inr (mkStream [lit "te";
                                            lit "st" ++ [ascii_of_N 10]]
                                           None))))
  = (Hex.EncodeToString (sha256 (lit "test" ++ [ascii_of_N 10])), None).
Proof.
  exact (proj1 (hashFile_digest
                  (mkPath [lit "test.txt"]
                          (OS.File false 5
                                   (inr (mkStream
                                           [lit "te";
                                            lit "st" ++ [ascii_of_N 10]]
                                           None))))
                  (mkStream [lit "te"; lit "st" ++ [ascii_of_N 10]] None)
                  eq_refl eq_refl)).
Defined.

(** C5, as stated, fails: [Generate] returns a manifest for a directory
    that holds a file whose name is no UTF-8, [Marshal] writes it without
    error, and [Load] of the bytes returns another manifest: in the path
    and in the URL of the file, the byte [0xE9] has become the three bytes
    of U+FFFD. *)
Lemma round_trip_changes_invalid_text :
  let m := generated Examples.fsLatin1 Unix (lit "model") (lit "id")
                     (lit "v1") (lit "https://example.com") None in
  let name := lit "caf" ++ [ascii_of_N 233] ++ lit ".txt" in
  let name' := lit "caf" ++ replacement ++ lit ".txt" in
  Generate Examples.fsLatin1 Unix (lit "model") (lit "id") (lit "v1")
           (lit "https://example.com") None = (Some m, None)
  /\ map Path (elems (Files m)) = [name]
  /\ validManifest m = false
  /\ snd (Marshal m) = None
  /\ exists m' : Manifest,
       Load (Examples.fileWith (fst (Marshal m))) (lit "manifest.json")
       = (Some m', None)
       /\ map Path (elems (Files m')) = [name']
       /\ map URL (elems (Files m')) = [lit "https://example.com/" ++ name']
       /\ m' <> m.
Proof.
  cbv zeta.
  split; [vm_compute; reflexivity|].
  split; [vm_compute; reflexivity|].
  split; [vm_compute; reflexivity|].
  split; [reflexivity|].
  eexists. split; [vm_compute; reflexivity|].
  split; [vm_compute; reflexivity|].
  split; [vm_compute; reflexivity|].
  vm_compute. discriminate.
Qed.

(** C5, amended: for a manifest whose strings are all valid UTF-8, its
    sizes being [int64] values, [Marshal] returns no error, and decoding
    the bytes it returns gives the manifest back, field by field, nil and
    empty sequences told apart: [json.Unmarshal] into any manifest, and
    [Load] of a file that holds the bytes. *)
Theorem Marshal_round_trip
        (readFile : gostring -> errno + gostring) (path : gostring)
        (m : Manifest) :
  validManifest m = true ->
  readFile path = inr (fst (Marshal m)) ->
  snd (Marshal m) = None
  /\ (forall m0 : Manifest, Unmarshal (fst (Marshal m)) m0 = (m, None))
  /\ Load readFile path = (Some m, None).
Proof.
  intros Hv Hread.
  split; [reflexivity|].
  split; [intros m0; apply Unmarshal_Marshal; exact Hv|].
  unfold Load. rewrite Hread, (Unmarshal_Marshal m zeroManifest Hv).
  reflexivity.
Qed.

Lemma Marshal_round_trip_witness :
  validManifest Examples.manifestOne = true
  /\ Load (Examples.fileWith (fst (Marshal Examples.manifestOne)))
          (lit "manifest.json")
     = (Some Examples.manifestOne, None).
Proof.
  assert (Hv : validManifest Examples.manifestOne = true)
    by (vm_compute; reflexivity).
  split; [exact Hv|].
  apply (Marshal_round_trip
           (Examples.fileWith (fst (Marshal Examples.manifestOne)))
           (lit "manifest.json") Examples.manifestOne Hv).
  reflexivity.
Defined.

(** Where validity ends: a byte that is no UTF-8 is written as the
    replacement character, and read back as its encoding. *)
Remark Marshal_replaces_invalid_text :
  validManifest Examples.manifestBadText = false
  /\ Unmarshal (fst (Marshal Examples.manifestBadText)) zeroManifest
     = (Examples.manifestReplaced, None).
Proof. split; vm_compute; reflexivity. Qed.

(** C10, as stated, fails: keys are matched up to the case of letters, so
    an object with neither the key [prefetch] nor the key [files] can set
    both sequences to empty ones; and an object without the two keys whose
    version is a number makes [Load] fail. *)
Lemma absent_keys_need_not_give_nil :
  parse Examples.textUpperKeys
  = Some (Object [(lit "PREFETCH", Array []); (lit "FILES", Array [])])
  /\ Load (Examples.fileWith Examples.textUpperKeys) (lit "manifest.json")
     = (Some (mkManifest [] [] [] (Some []) (Some [])), None)
  /\ parse Examples.textVersionNumber
     = Some (Object [(lit "version", Number (lit "1"))])
  /\ Load (Examples.fileWith Examples.textVersionNumber)
          (lit "manifest.json")
     = (None, Some UnmarshalTypeError).
Proof. repeat split; vm_compute; reflexivity. Qed.

(** C10, amended: when [Load] reads the text of an object no key of which
    matches [prefetch] or [files], exactly or up to the case of letters,
    and in which the keys that match [artifact_id], [version] and
    [mount_path] hold strings or [null], it succeeds, and [Prefetch] and
    [Files] of the manifest are nil.  For the text of any object, [Load]
    either succeeds or fails with a type error, and when it succeeds, a
    sequence that no key matches is nil.  Every manifest that [Generate]
    returns has sequences that are not nil. *)
Theorem Load_without_sequences
        (readFile : gostring -> errno + gostring) (path data : gostring)
        (members : list (gostring * value)) :
  readFile path = inr data ->
  parse data = Some (Object members) ->
  (scalarsOnly members = true ->
   exists m, Load readFile path = (Some m, None)
             /\ Prefetch m = None /\ Files m = None)
  /\ ((exists m, Load readFile path = (Some m, None))
      \/ Load readFile path = (None, Some UnmarshalTypeError))
  /\ (forall m : Manifest,
         Load readFile path = (Some m, None) ->
         (unmatched 3 members = true -> Prefetch m = None)
         /\ (unmatched 4 members = true -> Files m = None))
  /\ (forall (fs : FileSystem) (os : GOOS)
             (dir id version urlPrefix : gostring) (pf : goslice gostring)
             (g : Manifest) (err : option error),
         Generate fs os dir id version urlPrefix pf = (Some g, err) ->
         Prefetch g <> None /\ Files g <> None).
Proof.
  intros Hread Hparse.
  split; [intros Hs; apply (Load_scalarsOnly _ _ data members); assumption|].
  destruct (Load_object readFile path data members Hread Hparse)
    as [d [Ed HL]].
  split.
  { rewrite HL. destruct (failed d); [right; reflexivity|].
    left. eexists. reflexivity. }
  split.
  { intros m Hm. rewrite HL in Hm.
    destruct (failed d); [discriminate|].
    inversion Hm as [E]. cbn [Prefetch Files].
    split; intros Hu;
      destruct (unmatched_fold _ members Hu
                  (mkDecoding [] [] [] (None, []) (None, []) false))
        as [I1 I2];
      cbv zeta in I1, I2; rewrite <- Ed in I1, I2.
    - rewrite (I1 eq_refl). reflexivity.
    - rewrite (I2 eq_refl). reflexivity. }
  intros fs os dir id version urlPrefix pf g err HG.
  apply (Generate_sequences fs os dir id version urlPrefix pf g err HG).
Qed.

Lemma Load_without_sequences_witness :
  exists m,
    Load (Examples.fileWith Examples.textEmptyObject) (lit "manifest.json")
    = (Some m, None)
    /\ Prefetch m = None /\ Files m = None.
Proof.
  apply (Load_without_sequences
           (Examples.fileWith Examples.textEmptyObject)
           (lit "manifest.json") Examples.textEmptyObject []).
  - reflexivity.
  - vm_compute. reflexivity.
  - reflexivity.
Defined.

(** * More facts about the walk, the paths and the text of a manifest *)

Module MoreFacts.
Import GoString Utf8 Unicode Utf8Facts Strings Descr Filepath Errors OS Walk.
Import Manifest Aux StringsFacts NormalizeFacts GenerateFacts Json Utf8Enc.
Import JsonFacts.

(** *** White space *)

Lemma IsSpace_not_RuneError (r : rune) : IsSpace r = true -> r <> RuneError.
Proof. intros H ->. vm_compute in H. discriminate. Qed.

(** The encoding of a space is decoded the same whatever follows it. *)
Lemma decode_space_app (enc z : gostring) (r : rune) :
  enc <> [] -> DecodeRuneInString enc = (r, length enc) ->
  IsSpace r = true ->
  DecodeRuneInString (enc ++ z) = (r, length enc).
Proof.
  intros Hne Hd Hs.
  pose proof (decode_valid_app enc z r (length enc) Hne Hd) as H.
  rewrite firstn_all in H. apply H. intros E.
  exfalso. apply (IsSpace_not_RuneError r Hs E).
Qed.

(** A string of white space starts with the encoding of a space, and
    white space follows it. *)
Lemma Spaces_inv (y : gostring) :
  Spaces y -> y <> [] ->
  IsSpace (fst (DecodeRuneInString y)) = true
  /\ Spaces (skipn (snd (DecodeRuneInString y)) y).
Proof.
  intros H Hy. destruct H as [|enc rest r Hne Hd Hs Hrest]; [congruence|].
  rewrite (decode_space_app enc rest r Hne Hd Hs). cbn [fst snd].
  split; [exact Hs|].
  rewrite skipn_app, skipn_all, Nat.sub_diag. exact Hrest.
Qed.

Lemma Spaces_cancel (l x : gostring) :
  Spaces l -> Spaces (l ++ x) -> Spaces x.
Proof.
  induction 1 as [|enc rest r Hne Hd Hs Hrest IH]; intros H; [exact H|].
  rewrite <- app_assoc in H.
  assert (Hy : enc ++ rest ++ x <> []) by (destruct enc; [congruence|discriminate]).
  destruct (Spaces_inv _ H Hy) as [_ H'].
  rewrite (decode_space_app enc (rest ++ x) r Hne Hd Hs) in H'.
  cbn [snd] in H'.
  rewrite skipn_app, skipn_all, Nat.sub_diag in H'. cbn [skipn app] in H'.
  apply IH. exact H'.
Qed.

(** [TrimSpace] leaves nothing exactly of the strings that are white space
    only. *)
Lemma TrimSpace_empty_iff (q : gostring) :
  TrimSpace q = [] <-> Spaces q.
Proof.
  destruct (TrimSpace_spec q) as [a [b [Hab [E [Hl [Hr [HL _]]]]]]].
  assert (Hq : q = firstn a q ++ TrimSpace q ++ skipn b q).
  { rewrite E. rewrite <- (firstn_skipn a q) at 1. f_equal.
    rewrite <- (slice_to_end q a), <- slice_to_end.
    apply slice_split. lia. }
  split.
  - intros Ht. rewrite Hq, Ht. cbn [app]. apply Spaces_app; assumption.
  - intros Hs. rewrite Hq in Hs.
    apply (Spaces_cancel _ _ Hl) in Hs.
    destruct (TrimSpace q) as [|c t] eqn:Et; [reflexivity|].
    exfalso.
    assert (Hne : (c :: t) ++ skipn b q <> []) by discriminate.
    destruct (Spaces_inv _ Hs Hne) as [Hsp _].
    rewrite (decode_app (c :: t) (skipn b q) ltac:(discriminate)
                        (Spaces_startsRune _ Hr)) in Hsp.
    destruct HL as [HL|HL]; [discriminate | congruence].
Qed.

(** *** The elements of a normalized list *)

Lemma normalized_In (os : GOOS) (paths : list gostring) (p : gostring) :
  In p (normalized os paths)
  <-> exists q, In q paths /\ TrimSpace q <> []
                /\ p = ToSlash os (TrimSpace q).
Proof.
  unfold normalized. rewrite in_map_iff. split.
  - intros [t [Hp Ht]]. apply filter_In in Ht. destruct Ht as [Ht Hne].
    apply in_map_iff in Ht. destruct Ht as [q [Hq Hin]].
    exists q. subst t. split; [exact Hin|]. split; [|symmetry; exact Hp].
    destruct (TrimSpace q); [discriminate | discriminate].
  - intros [q [Hin [Hne Hp]]]. exists (TrimSpace q).
    split; [symmetry; exact Hp|]. apply filter_In. split.
    + apply in_map. exact Hin.
    + destruct (TrimSpace q); [congruence | reflexivity].
Qed.

Lemma normalized_length (os : GOOS) (paths : list gostring) :
  length (normalized os paths) <= length paths.
Proof.
  unfold normalized. rewrite length_map.
  etransitivity; [apply filter_length_le|]. rewrite length_map. lia.
Qed.

Lemma ToSlash_Windows (p : gostring) :
  existsb (Ascii.eqb "092"%char) (ToSlash Windows p) = false.
Proof.
  rewrite ToSlash_map. induction p as [|c p IH]; [reflexivity|].
  cbn [map existsb]. rewrite IH, orb_false_r. unfold slashByte.
  change (Separator Windows) with "092"%char.
  destruct (Ascii.eqb_spec c "092"%char) as [->|H]; [reflexivity|].
  apply Ascii.eqb_neq. congruence.
Qed.

Lemma normalized_fixed (os : GOOS) (q : gostring) :
  TrimSpace q <> [] ->
  normalized os [ToSlash os (TrimSpace q)] = [ToSlash os (TrimSpace q)].
Proof.
  intros Hne. unfold normalized. cbn [map].
  rewrite TrimSpace_ToSlash. cbn [filter].
  rewrite ToSlash_isEmpty.
  destruct (TrimSpace q); [congruence|]. cbn [isEmpty negb map].
  rewrite ToSlash_idempotent. reflexivity.
Qed.

(** *** The records of a generated manifest *)

(** When nothing fails, every retained entry is a file that can be opened
    and read to its end. *)
Lemma retained_readable (n : node) :
  forall (below : list gostring) (name : gostring)
         (p : pathref) (info : FileInfo),
    fails name n = false ->
    In (p, info) (retained below name n) ->
    exists size s,
      target p = OS.File false size (inr s) /\ final s = None
      /\ OS.Size info = size /\ OS.IsDir info = false
      /\ OS.ModeSymlink info = false.
Proof.
  induction n as [e | symlink size data | readErr entries IH]
    using node_ind2; intros below name p info Hf Hin.
  - destruct Hin.
  - cbn [retained fails] in *.
    destruct (HasPrefix name (lit ".")); [destruct Hin|].
    destruct symlink; [destruct Hin|]. cbn [negb andb orb] in *.
    destruct Hin as [Hin|[]]. inversion Hin; subst. cbn.
    unfold unreadable in Hf. destruct data as [e|s]; [discriminate|].
    destruct (final s) eqn:E; [discriminate|].
    exists size, s. repeat split; assumption.
  - cbn [retained fails] in *. destruct readErr; [discriminate|].
    apply in_flat_map in Hin. destruct Hin as [[nm child] [He Hin]].
    rewrite Forall_forall in IH. cbn [fst snd] in Hin.
    apply (IH _ He _ _ _ _) with (2 := Hin). cbn [snd].
    destruct (fails nm child) eqn:E; [|reflexivity].
    assert (existsb (fun e => fails (fst e) (snd e)) entries = true);
      [|congruence].
    apply existsb_exists. exists (nm, child). split; [exact He | exact E].
Qed.

Lemma hashFile_readable (p : pathref) (s : stream) :
  Open p = inr s -> final s = None ->
  hashFile p = (Hex.EncodeToString (sha256 (concat (chunks s))), None).
Proof.
  intros Hp Hs. unfold hashFile, copy. rewrite Hp, Hs. cbn [option_map].
  rewrite ShaFacts.Sum_chunks. reflexivity.
Qed.

(** The URL prefix, canonicalized and followed by a slash, starts with the
    URL prefix. *)
Lemma HasPrefix_trimmed (u x : gostring) :
  HasPrefix (TrimSuffix u (lit "/") ++ lit "/" ++ x) u = true.
Proof.
  rewrite TrimSuffix_slash. unfold trimSlash.
  destruct (endsSlash u) eqn:E.
  - rewrite (endsSlash_removelast u E) at 2.
    change (lit "/" ++ x) with ([slash] ++ x). rewrite app_assoc.
    apply HasPrefix_app.
  - apply HasPrefix_app.
Qed.

Lemma HasPrefix_trans (s u p : gostring) :
  HasPrefix s u = true -> HasPrefix u p = true -> HasPrefix s p = true.
Proof.
  intros H1 H2. rewrite (HasPrefix_split s u H1).
  apply HasPrefix_app_l. exact H2.
Qed.

(** The files of a generated manifest, one by one. *)
Lemma generated_In (fs : FileSystem) (os : GOOS)
      (dir id version urlPrefix : gostring) (pf : goslice gostring)
      (m : Manifest) (err : option error) (f : File) :
  Generate fs os dir id version urlPrefix pf = (Some m, err) ->
  In f (elems (Files m)) ->
  walkFails (fs dir) = false
  /\ validInputs fs dir id version urlPrefix = true
  /\ exists e, In e (retained [] (base (fs dir)) (root (fs dir)))
               /\ f = fileRecord os (TrimSuffix urlPrefix (lit "/")) e.
Proof.
  intros HG Hin. apply Generate_success in HG.
  destruct HG as [Hv [Hw [_ ->]]]. unfold generated in Hin.
  cbn [Files elems] in Hin. apply in_map_iff in Hin.
  destruct Hin as [e [Hf He]].
  split; [exact Hw|]. split; [exact Hv|].
  exists e. split; [exact He | symmetry; exact Hf].
Qed.

(** *** Paths *)

Lemma eqb_true_iff (s t : gostring) : GoString.eqb s t = true <-> s = t.
Proof.
  unfold GoString.eqb. destruct (list_eq_dec ascii_dec s t); split;
    congruence.
Qed.

Lemma nodupb_NoDup (l : list gostring) : nodupb l = true -> NoDup l.
Proof.
  induction l as [|x l IH]; intros H; constructor;
    cbn [nodupb] in H; apply andb_true_iff in H; destruct H as [Hx Hl].
  - intros Hin. apply negb_true_iff in Hx.
    assert (existsb (GoString.eqb x) l = true); [|congruence].
    apply existsb_exists. exists x. split; [exact Hin|].
    apply eqb_true_iff. reflexivity.
  - apply IH. exact Hl.
Qed.

Lemma segments_nonempty (p : gostring) : segments p <> [].
Proof.
  induction p as [|c p IH]; cbn [segments]; [discriminate|].
  destruct (Ascii.eqb c slash); [discriminate|].
  destruct (segments p); discriminate.
Qed.

(** The segments of a name followed by more. *)
Lemma segments_app (n x : gostring) :
  existsb (Ascii.eqb slash) n = false ->
  segments (n ++ x)
  = (n ++ hd [] (segments x)) :: tl (segments x).
Proof.
  induction n as [|c n IH]; intros Hn.
  - cbn [app]. pose proof (segments_nonempty x).
    destruct (segments x); [congruence | reflexivity].
  - cbn [existsb] in Hn. apply orb_false_iff in Hn. destruct Hn as [Hc Hn].
    cbn [app segments]. rewrite Ascii.eqb_sym, Hc, (IH Hn). reflexivity.
Qed.

Lemma segments_joinSlash (os : GOOS) (names : list gostring) :
  names <> [] -> Forall (fun x => validName os x = true) names ->
  segments (joinSlash names) = names.
Proof.
  intros Hne Hv. induction Hv as [|n names Hn Hv IH]; [congruence|].
  destruct (validName_inv os n Hn) as [_ [Hsl _]].
  destruct names as [|n' names'].
  - cbn [joinSlash]. rewrite <- (app_nil_r n) at 1.
    rewrite (segments_app n [] Hsl). cbn. rewrite app_nil_r. reflexivity.
  - change (joinSlash (n :: n' :: names'))
      with (n ++ slash :: joinSlash (n' :: names')).
    rewrite (segments_app n _ Hsl). cbn [segments].
    rewrite Ascii.eqb_refl. cbn [hd tl]. rewrite app_nil_r.
    rewrite IH by discriminate. reflexivity.
Qed.

Lemma joinSlash_inj (os : GOOS) (a b : list gostring) :
  a <> [] -> b <> [] ->
  Forall (fun x => validName os x = true) a ->
  Forall (fun x => validName os x = true) b ->
  joinSlash a = joinSlash b -> a = b.
Proof.
  intros Ha Hb Va Vb E.
  rewrite <- (segments_joinSlash os a Ha Va),
          <- (segments_joinSlash os b Hb Vb), E.
  reflexivity.
Qed.

(** The paths of the retained entries lie below the entry walked. *)
Lemma retained_prefix (os : GOOS) (n : node) (below : list gostring)
      (name : gostring) (p : pathref) (info : FileInfo) :
  In (p, info) (retained below name n) ->
  exists tail, OS.below p = below ++ tail.
Proof.
  intros Hin.
  destruct (retained_below os n below name p info Hin) as [_ [Hb _]].
  destruct Hb as [[Hb _] | [mid Hb]].
  - exists []. rewrite app_nil_r. exact Hb.
  - eexists. exact Hb.
Qed.

Lemma NoDup_append {A : Type} (l l' : list A) :
  NoDup l -> NoDup l' -> (forall a, In a l -> ~ In a l') ->
  NoDup (l ++ l').
Proof.
  induction 1 as [|x l Hx Hl IH]; intros Hl' Hd; [exact Hl'|].
  cbn [app]. constructor.
  - rewrite in_app_iff. intros [H|H]; [contradiction|].
    apply (Hd x); [left; reflexivity | exact H].
  - apply IH; [exact Hl'|]. intros a Ha. apply Hd. right. exact Ha.
Qed.

Lemma NoDup_map_by {A B C : Type} (k : A -> B) (h : A -> C) (l : list A) :
  NoDup (map k l) ->
  (forall x y, In x l -> In y l -> h x = h y -> k x = k y) ->
  NoDup (map h l).
Proof.
  induction l as [|a l IH]; intros Hk Hinj; [constructor|].
  cbn [map] in *. inversion Hk as [|? ? Ha Hl]; subst. constructor.
  - intros Hin. apply in_map_iff in Hin. destruct Hin as [y [Hy Hin]].
    apply Ha. apply in_map_iff. exists y. split; [|exact Hin].
    symmetry. apply Hinj; [left; reflexivity | right; exact Hin|].
    symmetry. exact Hy.
  - apply IH; [exact Hl|]. intros x y Hx Hy. apply Hinj; right; assumption.
Qed.

(** With distinct names in every directory, no two retained entries have
    the same path. *)
Lemma retained_NoDup (os : GOOS) (n : node) :
  forall (below : list gostring) (name : gostring),
    distinctNames n = true ->
    NoDup (map (fun e => OS.below (fst e)) (retained below name n)).
Proof.
  induction n as [e | symlink size data | readErr entries IH]
    using node_ind2; intros below name Hd.
  - constructor.
  - cbn [retained]. destruct (HasPrefix name (lit ".") || symlink);
      cbn [map]; repeat constructor. intros [].
  - cbn [retained distinctNames] in *.
    apply andb_true_iff in Hd. destruct Hd as [Hn Hc].
    induction entries as [|[nm child] es IHes]; [constructor|].
    cbn [flat_map map fst snd nodupb forallb] in *.
    apply andb_true_iff in Hn. destruct Hn as [Hnm Hn].
    apply andb_true_iff in Hc. destruct Hc as [Hchild Hc].
    inversion IH as [|? ? IHchild IHrest]; subst. cbn [snd] in IHchild.
    rewrite map_app. apply NoDup_append.
    + apply IHchild. exact Hchild.
    + apply IHes; assumption.
    + intros a Ha Ha'.
      apply in_map_iff in Ha. destruct Ha as [[p info] [Ea Ha]].
      apply in_map_iff in Ha'. destruct Ha' as [[p' info'] [Ea' Ha']].
      cbn [fst] in Ea, Ea'. subst a.
      apply in_flat_map in Ha'. destruct Ha' as [[nm' child'] [He' Ha']].
      cbn [fst snd] in Ha'.
      destruct (retained_prefix os _ _ _ _ _ Ha) as [t E].
      destruct (retained_prefix os _ _ _ _ _ Ha') as [t' E'].
      rewrite E' in Ea'. rewrite E in Ea'.
      rewrite <- !app_assoc in Ea'. apply app_inv_head in Ea'.
      cbn [app] in Ea'. injection Ea' as Enm _.
      apply negb_true_iff in Hnm.
      assert (existsb (GoString.eqb nm) (map fst es) = true); [|congruence].
      apply existsb_exists. exists nm'. split.
      * apply in_map_iff. exists (nm', child'). split; [reflexivity|exact He'].
      * apply eqb_true_iff. symmetry. exact Enm.
Qed.

(** Below a root that is no plain file, with valid names, the path
    recorded for a retained entry is its names joined by slashes. *)
Lemma retained_relOf (os : GOOS) (name : gostring) (n : node)
      (p : pathref) (info : FileInfo) :
  validTree os n = true -> plainFile n = false ->
  In (p, info) (retained [] name n) ->
  OS.below p <> []
  /\ Forall (fun x => validName os x = true) (OS.below p)
  /\ relOf os p = joinSlash (OS.below p).
Proof.
  intros Hv Hpl Hin.
  destruct (retained_below os n [] name p info Hin) as [_ [Hb Ht]].
  destruct (Ht Hv) as [tail [E Hall]]. cbn [app] in E.
  assert (Hne : OS.below p <> []).
  { destruct Hb as [[_ [_ Hb]] | [mid Hb]]; [congruence|].
    rewrite Hb. cbn [app]. destruct mid; discriminate. }
  split; [exact Hne|]. split; [rewrite E; exact Hall|].
  apply relOf_names; [exact Hne | rewrite E; exact Hall].
Qed.

Lemma validTree_Unix (n : node) :
  validTree Windows n = true -> validTree Unix n = true.
Proof.
  induction n as [e | symlink size data | readErr entries IH]
    using node_ind2; intros H; try reflexivity.
  cbn [validTree] in *. rewrite forallb_forall in H.
  apply forallb_forall. intros [nm child] He.
  rewrite Forall_forall in IH. specialize (H _ He).
  specialize (IH _ He). cbn [fst snd] in *.
  apply andb_true_iff in H. destruct H as [Hn Hc].
  rewrite (IH Hc), andb_true_r.
  unfold validName in *.
  apply andb_true_iff in Hn. destruct Hn as [Hn _].
  rewrite Hn. apply andb_true_iff in Hn. destruct Hn as [_ Hn].
  exact Hn.
Qed.

(** *** The error of a walk *)

Lemma firstError_plain (os : GOOS) (n : node) :
  forall (below : list gostring) (name : gostring) (e : error),
    firstError os below name n = Some e ->
    isSkipDir e = false /\ isSkipAll e = false.
Proof.
  induction n as [e0 | symlink size data | readErr entries IH]
    using node_ind2; intros below name e H.
  - inversion H. split; reflexivity.
  - cbn [firstError] in H.
    destruct (HasPrefix name (lit ".") || symlink); [discriminate|].
    destruct data as [e1|s]; [inversion H; split; reflexivity|].
    destruct (final s); inversion H. split; reflexivity.
  - cbn [firstError] in H. destruct readErr as [e1|];
      [inversion H; split; reflexivity|].
    induction IH as [|[nm child] es Hc _ IHes]; [discriminate|].
    cbn [fst snd] in *.
    destruct (firstError os (below ++ [nm]) nm child) as [x|] eqn:E.
    + inversion H; subst. apply (Hc _ _ _ E).
    + apply IHes. exact H.
Qed.

Lemma walkFn_error (os : GOOS) (u : gostring) (path : pathref)
      (info : FileInfo) (e : error) (m : Manifest) :
  walkFn os u path info (Some e) m = (m, Some e).
Proof. reflexivity. Qed.

Lemma walkFn_file_error (os : GOOS) (u : gostring) (below : list gostring)
      (name : gostring) (symlink : bool) (size : Z) (data : errno + stream)
      (m : Manifest) :
  let n := OS.File symlink size data in
  snd (walkFn os u (mkPath below n) (infoOf name n) None m)
  = firstError os below name n.
Proof.
  cbn [walkFn infoOf OS.IsDir OS.Name OS.ModeSymlink OS.Size firstError].
  destruct (HasPrefix name (lit ".")); cbn [orb]; [reflexivity|].
  destruct symlink; [reflexivity|].
  unfold Rel at 1. cbn [OS.below].
  unfold hashFile, Open, copy. cbn [target].
  destruct data as [e|s].
  - destruct below; reflexivity.
  - destruct (final s); destruct below; reflexivity.
Qed.

Lemma eachName_error (os : GOOS) (u : gostring) (below : list gostring)
      (es : list (gostring * node)) :
  Forall (fun e =>
            forall (below : list gostring) (name : gostring) (m : Manifest),
              match snd e with
              | NoEntry _ => True
              | _ => snd (walk (walkFn os u) below name (snd e) m)
                     = firstError os below name (snd e)
              end) es ->
  forall m : Manifest,
    snd (eachName (walkFn os u) (walk (walkFn os u)) below es m)
    = (fix first (es : list (gostring * node)) : option error :=
         match es with
         | [] => None
         | e :: es' =>
           match firstError os (below ++ [fst e]) (fst e) (snd e) with
           | Some x => Some x
           | None => first es'
           end
         end) es.
Proof.
  induction 1 as [|[nm child] es Hchild _ IHes]; intros m; [reflexivity|].
  cbn [eachName fst snd]. cbn [fst snd] in Hchild.
  specialize (Hchild (below ++ [nm]) nm m).
  destruct child as [e | symlink size data | readErr entries].
  - rewrite walkFn_error. reflexivity.
  - destruct (walk (walkFn os u) (below ++ [nm]) nm
                   (OS.File symlink size data) m) as [st [e'|]];
      cbn [snd] in Hchild; rewrite <- Hchild.
    + cbn [isDirNode negb orb]. reflexivity.
    + apply IHes.
  - destruct (walk (walkFn os u) (below ++ [nm]) nm
                   (Dir readErr entries) m) as [st [e'|]];
      cbn [snd] in Hchild; rewrite <- Hchild.
    + symmetry in Hchild.
      destruct (firstError_plain os _ _ _ _ Hchild) as [-> _].
      cbn [negb orb]. rewrite orb_true_r. reflexivity.
    + apply IHes.
Qed.

(** The first failure is the failure of a system call, or that of hashing
    a file. *)
Lemma firstError_shape (os : GOOS) (n : node) :
  forall (below : list gostring) (name : gostring) (e : error),
    firstError os below name n = Some e ->
    (exists code, e = Sys code)
    \/ (exists relPath code, e = hashError relPath code).
Proof.
  induction n as [e0 | symlink size data | readErr entries IH]
    using node_ind2; intros below name e H.
  - inversion H. left. eexists. reflexivity.
  - cbn [firstError] in H.
    destruct (HasPrefix name (lit ".") || symlink); [discriminate|].
    destruct data as [e1|s];
      [inversion H; right; eexists; eexists; reflexivity|].
    destruct (final s); inversion H. right. eexists. eexists. reflexivity.
  - cbn [firstError] in H. destruct readErr as [e1|];
      [inversion H; left; eexists; reflexivity|].
    induction IH as [|[nm child] es Hc _ IHes]; [discriminate|].
    cbn [fst snd] in *.
    destruct (firstError os (below ++ [nm]) nm child) as [x|] eqn:E.
    + inversion H; subst. apply (Hc _ _ _ E).
    + apply IHes. exact H.
Qed.

(** [walk] stops at the first failure, and returns its error. *)
Lemma walk_error (os : GOOS) (u : gostring) (n : node) :
  forall (below : list gostring) (name : gostring) (m : Manifest),
    match n with
    | NoEntry _ => True
    | _ => snd (walk (walkFn os u) below name n m)
           = firstError os below name n
    end.
Proof.
  induction n as [e | symlink size data | readErr entries IH]
    using node_ind2; intros below name m.
  - exact I.
  - cbn [walk]. apply walkFn_file_error.
  - cbn [walk infoOf].
    destruct readErr as [e|]; cbn [option_map]; [reflexivity|].
    rewrite walkFn_dir. cbn [firstError].
    apply eachName_error.
    apply Forall_forall. intros x Hx below' name' m'.
    rewrite Forall_forall in IH. apply (IH x Hx).
Qed.

Lemma Walk_error (os : GOOS) (u : gostring) (v : View) (m : Manifest) :
  snd (Walk (walkFn os u) v m) = firstError os [] (base v) (root v).
Proof.
  unfold Walk.
  pose proof (walk_error os u (root v) [] (base v) m) as H.
  destruct (root v) as [e | symlink size data | readErr entries] eqn:Er.
  - reflexivity.
  - destruct (walk _ _ _ _ m) as [m' [e|]]; cbn [snd] in H;
      rewrite <- H; [|reflexivity].
    symmetry in H. destruct (firstError_plain os _ _ _ _ H) as [-> ->].
    reflexivity.
  - destruct (walk _ _ _ _ m) as [m' [e|]]; cbn [snd] in H;
      rewrite <- H; [|reflexivity].
    symmetry in H. destruct (firstError_plain os _ _ _ _ H) as [-> ->].
    reflexivity.
Qed.

(** With valid inputs, [Generate] returns the first failure of the walk,
    wrapped, or the manifest. *)
Lemma Generate_firstError (fs : FileSystem) (os : GOOS)
      (dir id version urlPrefix : gostring) (pf : goslice gostring) :
  validInputs fs dir id version urlPrefix = true ->
  Generate fs os dir id version urlPrefix pf
  = match firstError os [] (base (fs dir)) (root (fs dir)) with
    | Some e =>
      (None, Some (Errorf "failed to walk directory: %w" None (Some e)))
    | None => (Some (generated fs os dir id version urlPrefix pf), None)
    end.
Proof.
  intros Hv.
  pose proof (Generate_valid fs os dir id version urlPrefix pf Hv) as G.
  unfold validInputs in Hv.
  apply andb_true_iff in Hv. destruct Hv as [H Hp].
  apply andb_true_iff in H. destruct H as [Hid Hst].
  apply negb_true_iff in Hid.
  assert (Hp' : negb (HasPrefix urlPrefix (lit "http://"))
                && negb (HasPrefix urlPrefix (lit "https://")) = false).
  { apply orb_true_iff in Hp. destruct Hp as [-> | ->];
      [reflexivity | apply andb_false_r]. }
  assert (E : snd (Generate fs os dir id version urlPrefix pf)
              = option_map
                  (fun e => Errorf "failed to walk directory: %w" None
                                   (Some e))
                  (firstError os [] (base (fs dir)) (root (fs dir)))).
  { unfold Generate. rewrite Hid.
    destruct (Stat (fs dir)) as [err|info]; [discriminate|].
    rewrite Hst. cbn [negb]. rewrite Hp'.
    rewrite <- (Walk_error os (TrimSuffix urlPrefix (lit "/")) (fs dir)
                           (mkManifest id version (lit "/mnt/mlmodel")
                                       (normalizePrefetchPaths os pf)
                                       (Some []))).
    destruct (Walk _ (fs dir) _) as [m' [e|]]; reflexivity. }
  destruct (walkFails (fs dir)).
  - destruct G as [e G]. rewrite G in E |- *. cbn [snd] in E.
    destruct (firstError os [] (base (fs dir)) (root (fs dir)));
      [|discriminate].
    cbn [option_map] in E. rewrite E. reflexivity.
  - rewrite G in E |- *. cbn [snd] in E.
    destruct (firstError os [] (base (fs dir)) (root (fs dir)));
      [discriminate | reflexivity].
Qed.

(** *** Valid UTF-8 *)

Lemma validUtf8_step (s : gostring) :
  s <> [] ->
  validUtf8 s
  = negb ((fst (DecodeRuneInString s) =? RuneError)%Z
          && (snd (DecodeRuneInString s) =? 1))
    && validUtf8 (skipn (snd (DecodeRuneInString s)) s).
Proof.
  intros Hs. unfold validUtf8. destruct s as [|c rest]; [congruence|].
  cbn [length validUtf8Loop].
  pose proof (length_skipn_decode (c :: rest) (length rest)
                                  ltac:(discriminate) (Nat.le_refl _)) as L.
  destruct (DecodeRuneInString (c :: rest)) as [r size]. cbn [fst snd] in *.
  f_equal. apply validUtf8Loop_fuel; [exact L | apply Nat.le_refl].
Qed.

Lemma validUtf8_nil : validUtf8 [] = true.
Proof. reflexivity. Qed.

(** A valid string before another one. *)
Lemma validUtf8_app_n (n : nat) :
  forall a b : gostring,
    length a <= n -> validUtf8 a = true ->
    validUtf8 (a ++ b) = validUtf8 b.
Proof.
  induction n as [|n IH]; intros a b Hl Ha.
  - destruct a; [reflexivity | cbn in Hl; lia].
  - destruct a as [|c a']; [reflexivity|].
    set (a := c :: a') in *.
    destruct (DecodeRuneInString a) as [r size] eqn:Hd.
    destruct (validUtf8_inv a r size ltac:(discriminate) Ha Hd)
      as [Hvalid Hrest].
    pose proof (decode_size a ltac:(discriminate)) as Hsz.
    rewrite Hd in Hsz. cbn [snd] in Hsz.
    pose proof (decode_valid_app a (skipn size a ++ b) r size
                                 ltac:(discriminate) Hd Hvalid) as Hd'.
    rewrite app_assoc, firstn_skipn in Hd'.
    rewrite (validUtf8_step (a ++ b)) by discriminate.
    rewrite Hd'. cbn [fst snd].
    replace ((r =? RuneError)%Z && (size =? 1)) with false.
    2:{ symmetry. apply andb_false_iff.
        destruct (Z.eqb_spec r RuneError) as [E|E]; [|left; reflexivity].
        right. apply Nat.eqb_neq. apply Hvalid. exact E. }
    cbn [negb andb].
    rewrite skipn_app.
    replace (size - length a) with 0 by lia. cbn [skipn].
    apply IH; [|exact Hrest].
    rewrite length_skipn. subst a. cbn [length] in *. lia.
Qed.

Lemma validUtf8_app (a b : gostring) :
  validUtf8 a = true -> validUtf8 (a ++ b) = validUtf8 b.
Proof. apply (validUtf8_app_n (length a)). apply Nat.le_refl. Qed.

Lemma validUtf8_join (a b : gostring) :
  validUtf8 a = true -> validUtf8 b = true -> validUtf8 (a ++ b) = true.
Proof. intros Ha Hb. rewrite validUtf8_app; assumption. Qed.

(** A valid string cut where a rune starts. *)
Lemma validUtf8_cut_n (n : nat) :
  forall a b : gostring,
    length a <= n -> startsRune b = true ->
    validUtf8 (a ++ b) = true -> validUtf8 a = true.
Proof.
  induction n as [|n IH]; intros a b Hl Hb Hab.
  - destruct a; [reflexivity | cbn in Hl; lia].
  - destruct a as [|c a']; [reflexivity|].
    set (a := c :: a') in *.
    pose proof (decode_app a b ltac:(discriminate) Hb) as Hd.
    pose proof (decode_size a ltac:(discriminate)) as Hsz.
    rewrite (validUtf8_step (a ++ b)) in Hab by discriminate.
    rewrite Hd in Hab.
    rewrite (validUtf8_step a) by discriminate.
    apply andb_true_iff in Hab. destruct Hab as [H1 H2].
    rewrite H1. cbn [andb].
    rewrite skipn_app in H2.
    replace (snd (DecodeRuneInString a) - length a) with 0 in H2 by lia.
    cbn [skipn] in H2.
    apply (IH _ b); [|exact Hb|exact H2].
    rewrite length_skipn. subst a. cbn [length] in *. lia.
Qed.

Lemma validUtf8_cut (a b : gostring) :
  startsRune b = true -> validUtf8 (a ++ b) = true -> validUtf8 a = true.
Proof. apply (validUtf8_cut_n (length a)). apply Nat.le_refl. Qed.

Lemma validUtf8_ascii (s : gostring) :
  forallb (fun c => (val c <? 128)%N) s = true -> validUtf8 s = true.
Proof.
  induction s as [|c s IH]; intros H; [reflexivity|].
  cbn [forallb] in H. apply andb_true_iff in H. destruct H as [Hc Hs].
  apply N.ltb_lt in Hc.
  rewrite validUtf8_step by discriminate.
  rewrite (decode_ascii c s Hc). cbn [fst snd skipn].
  rewrite (IH Hs), andb_true_r.
  apply negb_true_iff, andb_false_iff. left. apply Z.eqb_neq.
  unfold RuneError. lia.
Qed.

Lemma lowerHex_ascii (s : gostring) :
  forallb lowerHex s = true -> validUtf8 s = true.
Proof.
  intros H. apply validUtf8_ascii. rewrite forallb_forall in H.
  apply forallb_forall. intros c Hc. specialize (H c Hc).
  unfold lowerHex in H. apply N.ltb_lt.
  apply orb_true_iff in H. destruct H as [H|H];
    apply andb_true_iff in H; destruct H as [_ H]; apply N.leb_le in H; lia.
Qed.

(** White space is valid. *)
Lemma Spaces_valid (l : gostring) : Spaces l -> validUtf8 l = true.
Proof.
  induction 1 as [|enc rest r Hne Hd Hs Hrest IH]; [reflexivity|].
  rewrite validUtf8_app; [exact IH|].
  rewrite validUtf8_step by exact Hne. rewrite Hd. cbn [fst snd].
  rewrite skipn_all. cbn. rewrite andb_true_r.
  apply negb_true_iff, andb_false_iff. left. apply Z.eqb_neq.
  apply IsSpace_not_RuneError. exact Hs.
Qed.

Lemma TrimSpace_valid (p : gostring) :
  validUtf8 p = true -> validUtf8 (TrimSpace p) = true.
Proof.
  intros Hp.
  destruct (TrimSpace_spec p) as [a [b [Hab [E [Hl [Hr _]]]]]].
  assert (Hq : p = firstn a p ++ TrimSpace p ++ skipn b p).
  { rewrite E. rewrite <- (firstn_skipn a p) at 1. f_equal.
    rewrite <- (slice_to_end p a), <- slice_to_end.
    apply slice_split. lia. }
  rewrite Hq in Hp. rewrite validUtf8_app in Hp by (apply Spaces_valid, Hl).
  apply (validUtf8_cut _ (skipn b p)); [|exact Hp].
  apply Spaces_startsRune. exact Hr.
Qed.

Lemma TrimSuffix_valid (u : gostring) :
  validUtf8 u = true -> validUtf8 (TrimSuffix u (lit "/")) = true.
Proof.
  intros Hu. rewrite TrimSuffix_slash. unfold trimSlash.
  destruct (endsSlash u) eqn:E; [|exact Hu].
  rewrite (endsSlash_removelast u E) in Hu.
  apply (validUtf8_cut _ [slash]); [reflexivity | exact Hu].
Qed.

(** *** Valid UTF-8 in paths and records *)

Lemma ToSlash_valid_n (os : GOOS) (n : nat) :
  forall p : gostring,
    length p <= n ->
    validUtf8 (map (slashByte os) p) = validUtf8 p.
Proof.
  induction n as [|n IH]; intros p Hl.
  - destruct p; [reflexivity | cbn in Hl; lia].
  - destruct p as [|c t]; [reflexivity|]. cbn [length] in Hl.
    rewrite (validUtf8_step (map (slashByte os) (c :: t))) by discriminate.
    rewrite (validUtf8_step (c :: t)) by discriminate.
    destruct (N.lt_ge_cases (val c) 128) as [Hc|Hc].
    + cbn [map].
      rewrite (decode_ascii _ _ (slashByte_low os c Hc)).
      rewrite (decode_ascii c t Hc). cbn [fst snd skipn].
      rewrite (IH t ltac:(lia)).
      pose proof (slashByte_low os c Hc).
      replace ((Z.of_N (val (slashByte os c)) =? RuneError)%Z) with false
        by (symmetry; apply Z.eqb_neq; unfold RuneError; lia).
      replace ((Z.of_N (val c) =? RuneError)%Z) with false
        by (symmetry; apply Z.eqb_neq; unfold RuneError; lia).
      reflexivity.
    + rewrite (decode_map_high (slashByte os) (slashByte_high os)
                               (slashByte_low os) c t Hc).
      pose proof (decode_size (c :: t) ltac:(discriminate)) as Hsz.
      destruct (DecodeRuneInString (c :: t)) as [r size].
      cbn [fst snd] in *. f_equal.
      rewrite skipn_map. apply IH.
      rewrite length_skipn. cbn [length]. lia.
Qed.

Lemma ToSlash_valid (os : GOOS) (p : gostring) :
  validUtf8 (ToSlash os p) = validUtf8 p.
Proof.
  rewrite ToSlash_map. apply (ToSlash_valid_n os (length p)).
  apply Nat.le_refl.
Qed.

Lemma Separator_valid (os : GOOS) : validUtf8 [Separator os] = true.
Proof. destruct os; reflexivity. Qed.

Lemma joinNames_valid (os : GOOS) (names : list gostring) :
  Forall (fun n => validUtf8 n = true) names ->
  validUtf8 (joinNames os names) = true.
Proof.
  induction 1 as [|n names Hn Hv IH]; [reflexivity|].
  cbn [joinNames]. destruct names as [|n' names']; [exact Hn|].
  apply validUtf8_join; [exact Hn|].
  change (Separator os :: joinNames os (n' :: names'))
    with ([Separator os] ++ joinNames os (n' :: names')).
  apply validUtf8_join; [apply Separator_valid | exact IH].
Qed.

(** The names that lead to a retained entry are names of the tree, and
    its size is the size of a file of the tree. *)
Lemma retained_text (n : node) :
  forall (below : list gostring) (name : gostring)
         (p : pathref) (info : FileInfo),
    textTree n = true ->
    In (p, info) (retained below name n) ->
    isInt64 (OS.Size info) = true
    /\ exists tail, OS.below p = below ++ tail
                    /\ Forall (fun x => validUtf8 x = true) tail.
Proof.
  induction n as [e | symlink size data | readErr entries IH]
    using node_ind2; intros below name p info Ht Hin.
  - destruct Hin.
  - cbn [retained textTree] in *.
    destruct (HasPrefix name (lit ".") || symlink); [destruct Hin|].
    destruct Hin as [Hin|[]]. inversion Hin; subst. cbn.
    split; [exact Ht|]. exists []. rewrite app_nil_r.
    split; [reflexivity | constructor].
  - cbn [retained textTree] in *.
    apply in_flat_map in Hin. destruct Hin as [[nm child] [He Hin]].
    rewrite Forall_forall in IH. rewrite forallb_forall in Ht.
    specialize (Ht _ He). cbn [fst snd] in *.
    apply andb_true_iff in Ht. destruct Ht as [Hnm Hc].
    destruct (IH _ He _ _ _ _ Hc Hin) as [Hsz [tail [E Hall]]].
    split; [exact Hsz|]. exists (nm :: tail).
    rewrite E, <- app_assoc. split; [reflexivity|].
    constructor; assumption.
Qed.

Lemma relOf_valid (os : GOOS) (p : pathref) :
  Forall (fun x => validUtf8 x = true) (OS.below p) ->
  validUtf8 (relOf os p) = true.
Proof.
  intros H. unfold relOf. rewrite ToSlash_valid. unfold Rel.
  destruct (OS.below p) as [|n names] eqn:E; [reflexivity|].
  cbn [fst]. apply joinNames_valid. exact H.
Qed.

Lemma normalized_valid (os : GOOS) (paths : list gostring) :
  forallb validUtf8 paths = true ->
  forallb validUtf8 (normalized os paths) = true.
Proof.
  intros H. apply forallb_forall. intros p Hp.
  apply normalized_In in Hp. destruct Hp as [q [Hq [_ ->]]].
  rewrite ToSlash_valid. apply TrimSpace_valid.
  rewrite forallb_forall in H. apply H. exact Hq.
Qed.

(** The manifest of a run on texts is valid. *)
Lemma generated_valid (fs : FileSystem) (os : GOOS)
      (dir id version urlPrefix : gostring) (pf : goslice gostring) :
  validUtf8 id = true -> validUtf8 version = true ->
  validUtf8 urlPrefix = true ->
  forallb validUtf8 (elems pf) = true ->
  textTree (root (fs dir)) = true ->
  walkFails (fs dir) = false ->
  validManifest (generated fs os dir id version urlPrefix pf) = true.
Proof.
  intros Hid Hver Hu Hpf Ht Hw. unfold validManifest, generated.
  cbn [ArtifactID Version MountPath Prefetch Files elems].
  rewrite Hid, Hver. cbn [andb].
  rewrite normalizePrefetchPaths_eq. cbn [elems].
  rewrite (normalized_valid os _ Hpf).
  change (validUtf8 (lit "/mnt/mlmodel")) with true. cbn [andb].
  apply forallb_forall. intros f Hf. apply in_map_iff in Hf.
  destruct Hf as [[p info] [<- He]].
  destruct (retained_text _ _ _ _ _ Ht He) as [Hsz [tail [E Hall]]].
  cbn [app] in E.
  destruct (retained_readable _ _ _ _ _ Hw He)
    as [size [s [Htg [Hs _]]]].
  assert (Hh : hashFile p
               = (Hex.EncodeToString (sha256 (concat (chunks s))), None)).
  { apply hashFile_readable; [|exact Hs].
    unfold Open. rewrite Htg. reflexivity. }
  assert (Hrel : validUtf8 (relOf os p) = true).
  { apply relOf_valid. rewrite E. exact Hall. }
  unfold validFile, fileRecord.
  cbn [fst snd Path URL Size SHA256 Compression]. fold (relOf os p).
  rewrite Hrel, Hsz, Hh. cbn [fst].
  rewrite (lowerHex_ascii _ (ShaFacts.EncodeToString_lowerHex _)).
  change (validUtf8 (lit "none")) with true.
  rewrite !andb_true_r. cbn [andb].
  apply validUtf8_join; [apply TrimSuffix_valid; exact Hu|].
  apply validUtf8_join; [reflexivity | exact Hrel].
Qed.

(** *** The bytes of a text *)

Section Pieces.

(** A property of strings that the empty string has, that concatenation
    keeps, and that ASCII bytes of a text and valid encodings of runes
    outside ASCII have. *)
Variable P : gostring -> Prop.
Hypothesis P_nil : P [].
Hypothesis P_app : forall a b, P a -> P b -> P (a ++ b).
Hypothesis P_ascii :
  forall c, textByte c = true -> (val c < 128)%N -> P [c].
Hypothesis P_rune :
  forall (b : byte) (t : gostring) (r : rune) (size : nat),
    (128 <= val b)%N -> DecodeRuneInString (b :: t) = (r, size) ->
    (r = RuneError -> size <> 1) -> P (firstn size (b :: t)).

Lemma P_cons (c : byte) (s : gostring) :
  textByte c = true -> (val c < 128)%N -> P s -> P (c :: s).
Proof.
  intros Hc Hv Hs. change (c :: s) with ([c] ++ s).
  apply P_app; [apply P_ascii; assumption | exact Hs].
Qed.

Lemma P_text (s : gostring) :
  forallb (fun c => textByte c && (val c <? 128)%N) s = true -> P s.
Proof.
  induction s as [|c s IH]; intros H; [exact P_nil|].
  cbn [forallb] in H. apply andb_true_iff in H. destruct H as [Hc Hs].
  apply andb_true_iff in Hc. destruct Hc as [Hc Hv]. apply N.ltb_lt in Hv.
  apply P_cons; auto.
Qed.

Lemma hexLower_text (n : N) :
  (n < 16)%N ->
  textByte (hexLower n) = true /\ (val (hexLower n) < 128)%N.
Proof.
  intros H. apply lt16_cases in H. cbn [In] in H.
  repeat (destruct H as [H | H];
          [subst n; split; [reflexivity | vm_compute; reflexivity]|]).
  contradiction.
Qed.

Lemma quoteLoop_P (f : nat) : forall s : gostring, P (quoteLoop f s).
Proof.
  induction f as [|f IH]; intros s; [exact P_nil|].
  destruct s as [|b t]; [exact P_nil|].
  cbn [quoteLoop]. unfold RuneSelf.
  destruct (N.ltb_spec (val b) 128) as [Hb|Hb].
  - destruct (htmlSafe b) eqn:Hsafe.
    + apply P_cons; [|exact Hb|apply IH].
      unfold htmlSafe in Hsafe. unfold textByte.
      rewrite !eqb_val_eq.
      change (val "<"%char) with 60%N. change (val ">"%char) with 62%N.
      change (val "&"%char) with 38%N.
      repeat (apply andb_true_iff in Hsafe; destruct Hsafe as [Hsafe ?]).
      repeat match goal with
             | H : negb _ = true |- _ => apply negb_true_iff in H; rewrite H
             end.
      rewrite Hsafe. cbn. apply orb_true_r.
    + apply P_app; [|apply IH].
      destruct (Ascii.eqb b "092"%char || Ascii.eqb b "034"%char) eqn:E.
      { apply orb_true_iff in E.
        destruct E as [E|E]; apply Ascii.eqb_eq in E; subst b;
          apply P_text; reflexivity. }
      repeat match goal with
             | |- P (if ?c then _ else _) =>
               destruct c; [apply P_text; reflexivity|]
             end.
      destruct (nibbles (val b) ltac:(lia)) as [Hhi [Hlo _]].
      destruct (hexLower_text _ Hhi) as [T1 V1].
      destruct (hexLower_text _ Hlo) as [T2 V2].
      apply P_app; [apply P_text; reflexivity|].
      apply P_cons; [exact T1 | exact V1|].
      apply P_ascii; assumption.
  - rewrite decode_firstn_max.
    destruct (DecodeRuneInString (b :: t)) as [c size] eqn:Hd.
    destruct ((c =? RuneError)%Z && (size =? 1)) eqn:Hinv.
    { apply P_app; [apply P_text; reflexivity | apply IH]. }
    assert (Hvalid : c = RuneError -> size <> 1).
    { intros -> ->. discriminate. }
    destruct ((c =? 8232)%Z || (c =? 8233)%Z) eqn:Hsep.
    { apply P_app; [apply P_text; reflexivity|].
      apply P_app; [|apply IH].
      apply orb_true_iff in Hsep.
      destruct Hsep as [E|E]; apply Z.eqb_eq in E; subst c;
        apply P_text; reflexivity. }
    apply P_app; [|apply IH].
    apply (P_rune b t c size Hb Hd Hvalid).
Qed.

Lemma quote_P (s : gostring) : P (quote s).
Proof.
  unfold quote. apply P_cons; [reflexivity | vm_compute; reflexivity|].
  apply P_app; [apply quoteLoop_P | apply P_text; reflexivity].
Qed.

Lemma isIntLit_P (l : gostring) : isIntLit l = true -> P l.
Proof.
  intros H. apply P_text.
  assert (Hd : forall r, forallb isDigit r = true ->
                         forallb (fun c => textByte c && (val c <? 128)%N) r
                         = true).
  { intros r Hr. rewrite forallb_forall in Hr. apply forallb_forall.
    intros c Hc. specialize (Hr c Hc). apply isDigit_val in Hr.
    unfold textByte. rewrite !eqb_val_eq.
    change (val "<"%char) with 60%N. change (val ">"%char) with 62%N.
    change (val "&"%char) with 38%N.
    destruct (N.eqb_spec (val c) 10); [lia|].
    destruct (N.leb_spec 32 (val c)); [|lia].
    destruct (N.eqb_spec (val c) 60); [lia|].
    destruct (N.eqb_spec (val c) 62); [lia|].
    destruct (N.eqb_spec (val c) 38); [lia|].
    destruct (N.ltb_spec (val c) 128); [|lia]. reflexivity. }
  assert (Hbody : forall c r,
             (if Ascii.eqb c "0"%char then isEmpty r
              else isDigit c && forallb isDigit r) = true ->
             forallb (fun c => textByte c && (val c <? 128)%N) (c :: r)
             = true).
  { intros c r Hb. destruct (Ascii.eqb_spec c "0"%char) as [->|_].
    - destruct r; [reflexivity | discriminate].
    - apply (Hd (c :: r)). exact Hb. }
  unfold isIntLit in H. destruct l as [|c l]; [discriminate|].
  destruct (Ascii.eqb_spec c "-"%char) as [->|_].
  - destruct l as [|c r]; [discriminate|].
    change (forallb _ ("-"%char :: c :: r))
      with (forallb (fun c => textByte c && (val c <? 128)%N) (c :: r)).
    apply Hbody. exact H.
  - apply Hbody. exact H.
Qed.

Lemma newline_P (d : nat) : P (newline d).
Proof.
  unfold newline. apply P_cons; [reflexivity | vm_compute; reflexivity|].
  induction d as [|d IH]; [exact P_nil|].
  cbn [repeat concat]. apply P_app; [apply P_text; reflexivity | exact IH].
Qed.

Lemma flat_map_P {A : Type} (g : A -> gostring) (l : list A) :
  Forall (fun a => P (g a)) l -> P (flat_map g l).
Proof.
  induction 1 as [|a l Ha _ IH]; [exact P_nil|].
  cbn [flat_map]. apply P_app; assumption.
Qed.

(** The text of a value has the property. *)
Lemma render_P (v : value) :
  intNumbers v = true -> forall d : nat, P (render d v).
Proof.
  induction v as [ |b|l|s|vs IH|ms IH] using value_ind2; intros Hn d.
  - apply P_text. reflexivity.
  - destruct b; apply P_text; reflexivity.
  - apply isIntLit_P. exact Hn.
  - apply quote_P.
  - destruct vs as [|v vs]; [apply P_text; reflexivity|].
    cbn [intNumbers forallb] in Hn. apply andb_true_iff in Hn.
    destruct Hn as [Hv Hvs].
    inversion IH as [|? ? IHv IHvs]; subst. cbn [render].
    apply P_app; [apply P_text; reflexivity|].
    apply P_app; [apply newline_P|].
    apply P_app; [apply IHv; exact Hv|].
    apply P_app; [|apply P_app; [apply newline_P | apply P_text; reflexivity]].
    apply flat_map_P. apply Forall_forall. intros a Ha.
    rewrite Forall_forall in IHvs. rewrite forallb_forall in Hvs.
    apply P_app; [apply P_text; reflexivity|].
    apply P_app; [apply newline_P|].
    apply IHvs; [exact Ha | apply Hvs; exact Ha].
  - destruct ms as [|[k v] ms]; [apply P_text; reflexivity|].
    cbn [intNumbers forallb snd] in Hn. apply andb_true_iff in Hn.
    destruct Hn as [Hv Hms].
    inversion IH as [|? ? IHv IHms]; subst. cbn [snd] in IHv. cbn [render].
    apply P_app; [apply P_text; reflexivity|].
    apply P_app; [apply newline_P|].
    apply P_app; [apply quote_P|].
    apply P_app; [apply P_text; reflexivity|].
    apply P_app; [apply IHv; exact Hv|].
    apply P_app; [|apply P_app; [apply newline_P | apply P_text; reflexivity]].
    apply flat_map_P. apply Forall_forall. intros a Ha.
    rewrite Forall_forall in IHms. rewrite forallb_forall in Hms.
    apply P_app; [apply P_text; reflexivity|].
    apply P_app; [apply newline_P|].
    apply P_app; [apply quote_P|].
    apply P_app; [apply P_text; reflexivity|].
    apply IHms; [exact Ha | apply Hms; exact Ha].
Qed.

End Pieces.

Lemma intNumbers_encodeManifest (m : Manifest) :
  intNumbers (encodeManifest m) = true.
Proof.
  unfold encodeManifest. cbn [intNumbers forallb snd].
  assert (Hp : intNumbers (encodeSlice String (Prefetch m)) = true).
  { destruct (Prefetch m) as [l|]; [|reflexivity].
    cbn [encodeSlice intNumbers]. rewrite forallb_map_comp.
    apply forallb_forall. reflexivity. }
  assert (Hf : intNumbers (encodeSlice encodeFile (Files m)) = true).
  { destruct (Files m) as [l|]; [|reflexivity].
    cbn [encodeSlice intNumbers]. rewrite forallb_map_comp.
    apply forallb_forall. intros f _. unfold encodeFile.
    cbn [intNumbers forallb snd]. rewrite isIntLit_FormatInt. reflexivity. }
  rewrite Hp, Hf. reflexivity.
Qed.

Lemma rune_valid (b : byte) (t : gostring) (r : rune) (size : nat) :
  (128 <= val b)%N -> DecodeRuneInString (b :: t) = (r, size) ->
  (r = RuneError -> size <> 1) ->
  validUtf8 (firstn size (b :: t)) = true.
Proof.
  intros Hb Hd Hvalid.
  pose proof (decode_size (b :: t) ltac:(discriminate)) as Hsz.
  rewrite Hd in Hsz. cbn [snd] in Hsz.
  assert (Hne : firstn size (b :: t) <> []).
  { destruct size; [lia | discriminate]. }
  rewrite validUtf8_step by exact Hne.
  rewrite (decode_firstn _ _ _ Hd). cbn [fst snd].
  rewrite skipn_all2 by (rewrite length_firstn; lia).
  rewrite validUtf8_nil, andb_true_r.
  apply negb_true_iff, andb_false_iff.
  destruct (Z.eqb_spec r RuneError) as [E|E]; [|left; reflexivity].
  right. apply Nat.eqb_neq. apply Hvalid. exact E.
Qed.

Lemma rune_text (b : byte) (t : gostring) (r : rune) (size : nat) :
  (128 <= val b)%N -> DecodeRuneInString (b :: t) = (r, size) ->
  (r = RuneError -> size <> 1) ->
  forallb textByte (firstn size (b :: t)) = true.
Proof.
  intros Hb Hd Hvalid.
  pose proof (decode_valid_high b t r size Hb Hd Hvalid) as H.
  apply forallb_forall. rewrite Forall_forall in H.
  intros c Hc. specialize (H c Hc). unfold textByte.
  rewrite !eqb_val_eq.
  change (val "<"%char) with 60%N. change (val ">"%char) with 62%N.
  change (val "&"%char) with 38%N.
  destruct (N.eqb_spec (val c) 10); [lia|].
  destruct (N.leb_spec 32 (val c)); [|lia].
  destruct (N.eqb_spec (val c) 60); [lia|].
  destruct (N.eqb_spec (val c) 62); [lia|].
  destruct (N.eqb_spec (val c) 38); [lia|]. reflexivity.
Qed.

Lemma render_text (v : value) (d : nat) :
  intNumbers v = true -> forallb textByte (render d v) = true.
Proof.
  intros Hn.
  apply (render_P (fun s => forallb textByte s = true)); try assumption.
  - reflexivity.
  - intros a b Ha Hb. rewrite forallb_app, Ha, Hb. reflexivity.
  - intros c Hc _. cbn [forallb]. rewrite Hc. reflexivity.
  - apply rune_text.
Qed.

Lemma render_valid (v : value) (d : nat) :
  intNumbers v = true -> validUtf8 (render d v) = true.
Proof.
  intros Hn.
  apply (render_P (fun s => validUtf8 s = true)); try assumption.
  - reflexivity.
  - apply validUtf8_join.
  - intros c _ Hc. apply validUtf8_ascii. cbn [forallb].
    apply N.ltb_lt in Hc. rewrite Hc. reflexivity.
  - apply rune_valid.
Qed.

(** *** Strings that are not valid UTF-8 *)

Lemma replaceInvalidLoop_ascii (f : nat) (b : byte) (rest : gostring) :
  (val b < 128)%N ->
  replaceInvalidLoop (S f) (b :: rest) = b :: replaceInvalidLoop f rest.
Proof.
  intros Hb. cbn [replaceInvalidLoop]. rewrite (decode_ascii b rest Hb).
  replace ((Z.of_N (val b) =? RuneError)%Z) with false
    by (symmetry; apply Z.eqb_neq; unfold RuneError; lia).
  reflexivity.
Qed.

(** What [appendString] writes for a string is unquoted to the string with
    its invalid bytes replaced. *)
Lemma unquoteAll_quoteLoop_any (f : nat) :
  forall s : gostring,
    length s <= f ->
    unquoteAll (quoteLoop f s) = Some (replaceInvalidLoop f s).
Proof.
  induction f as [|f IH]; intros s Hl.
  - destruct s; [reflexivity | simpl in Hl; lia].
  - destruct s as [|b rest]; [reflexivity|].
    cbn [length] in Hl. cbn [quoteLoop]. unfold RuneSelf.
    destruct (N.ltb_spec (val b) 128) as [Hb|Hb].
    + rewrite (replaceInvalidLoop_ascii f b rest Hb).
      pose proof (IH rest ltac:(lia)) as IHrest.
      destruct (htmlSafe b) eqn:Hsafe.
      * unfold htmlSafe in Hsafe. to_props.
        rewrite unquoteAll_plain;
          [ rewrite IHrest; reflexivity
          | apply eqb_val; change (val "092"%char) with 92%N; lia
          | apply eqb_val; change (val "034"%char) with 34%N; lia
          | lia ].
      * rewrite !eqb_val_eq.
        change (val "092"%char) with 92%N. change (val "034"%char) with 34%N.
        destruct (N.eqb_spec (val b) 92) as [E|N1];
          [apply val_eq in E; subst b; cbn [orb app];
           rewrite (unquoteAll_escape _ "092"%char);
           [rewrite IHrest; reflexivity | cbn [In]; tauto]|].
        destruct (N.eqb_spec (val b) 34) as [E|N2];
          [apply val_eq in E; subst b; cbn [orb app];
           rewrite (unquoteAll_escape _ "034"%char);
           [rewrite IHrest; reflexivity | cbn [In]; tauto]|].
        cbn [orb].
        destruct (N.eqb_spec (val b) 8) as [E|N3];
          [apply val_eq in E; subst b; cbn [lit list_ascii_of_string app];
           rewrite (unquoteAll_escape _ "008"%char);
           [rewrite IHrest; reflexivity | cbn [In]; tauto]|].
        destruct (N.eqb_spec (val b) 12) as [E|N4];
          [apply val_eq in E; subst b; cbn [lit list_ascii_of_string app];
           rewrite (unquoteAll_escape _ "012"%char);
           [rewrite IHrest; reflexivity | cbn [In]; tauto]|].
        destruct (N.eqb_spec (val b) 10) as [E|N5];
          [apply val_eq in E; subst b; cbn [lit list_ascii_of_string app];
           rewrite (unquoteAll_escape _ "010"%char);
           [rewrite IHrest; reflexivity | cbn [In]; tauto]|].
        destruct (N.eqb_spec (val b) 13) as [E|N6];
          [apply val_eq in E; subst b; cbn [lit list_ascii_of_string app];
           rewrite (unquoteAll_escape _ "013"%char);
           [rewrite IHrest; reflexivity | cbn [In]; tauto]|].
        destruct (N.eqb_spec (val b) 9) as [E|N7];
          [apply val_eq in E; subst b; cbn [lit list_ascii_of_string app];
           rewrite (unquoteAll_escape _ "009"%char);
           [rewrite IHrest; reflexivity | cbn [In]; tauto]|].
        destruct (nibbles (val b) ltac:(lia)) as [Hhi [Hlo Hsum]].
        cbn [lit list_ascii_of_string app].
        change "0"%char with (hexLower 0).
        rewrite unquoteAll_u4_lower; try assumption; try reflexivity.
        -- cbn [Z.of_N Z.mul Z.add]. rewrite Hsum, IHrest.
           rewrite EncodeRune_ascii by exact Hb. reflexivity.
        -- cbn [Z.of_N Z.mul Z.add]. rewrite Hsum. unfold IsSurrogate.
           destruct (Z.leb_spec 55296 (Z.of_N (val b))); [lia|reflexivity].
    + rewrite decode_firstn_max. cbn [replaceInvalidLoop].
      destruct (DecodeRuneInString (b :: rest)) as [c size] eqn:Hd.
      pose proof (decode_size (b :: rest) ltac:(discriminate)) as Hsz.
      rewrite Hd in Hsz. cbn [snd length] in Hsz.
      pose proof (IH (skipn size (b :: rest))
                     ltac:(rewrite length_skipn; cbn [length]; lia))
        as IHrest.
      destruct ((c =? RuneError)%Z && (size =? 1)) eqn:Hinv.
      { cbn [lit list_ascii_of_string app].
        rewrite (unquoteAll_u4 _ _ _ _ _ 65533%Z);
          [ | reflexivity | reflexivity | lia | reflexivity ].
        rewrite IHrest. reflexivity. }
      assert (Hvalid : c = RuneError -> size <> 1).
      { intros -> ->. discriminate. }
      pose proof (encode_decode b rest c size Hb Hd Hvalid) as Henc.
      destruct (Z.eqb_spec c 8232) as [E1|E1].
      { subst c. cbn [orb lit list_ascii_of_string app].
        rewrite (unquoteAll_u4 _ _ _ _ _ 8232%Z);
          [ | reflexivity | reflexivity | lia | reflexivity ].
        rewrite IHrest, Henc. reflexivity. }
      destruct (Z.eqb_spec c 8233) as [E2|E2].
      { subst c. cbn [orb lit list_ascii_of_string app].
        rewrite (unquoteAll_u4 _ _ _ _ _ 8233%Z);
          [ | reflexivity | reflexivity | lia | reflexivity ].
        rewrite IHrest, Henc. reflexivity. }
      cbn [orb].
      rewrite (unquoteAll_rune (b :: rest) _ c size);
        [ | exact Hb | discriminate | exact Hd | exact Hvalid ].
      rewrite IHrest. reflexivity.
Qed.

Lemma unquote_raw (s : gostring) :
  unquote (raw s) = Some (replaceInvalid s).
Proof.
  unfold raw, replaceInvalid. rewrite unquote_all.
  apply unquoteAll_quoteLoop_any. apply Nat.le_refl.
Qed.

(** A valid string has nothing to replace. *)
Lemma replaceInvalidLoop_fixed (f : nat) :
  forall s : gostring,
    length s <= f -> validUtf8 s = true -> replaceInvalidLoop f s = s.
Proof.
  induction f as [|f IH]; intros s Hl Hv.
  - destruct s; [reflexivity | simpl in Hl; lia].
  - destruct s as [|b rest]; [reflexivity|].
    cbn [replaceInvalidLoop].
    destruct (DecodeRuneInString (b :: rest)) as [c size] eqn:Hd.
    destruct (validUtf8_inv (b :: rest) c size ltac:(discriminate) Hv Hd)
      as [Hvalid Hv'].
    pose proof (decode_size (b :: rest) ltac:(discriminate)) as Hsz.
    rewrite Hd in Hsz. cbn [snd length] in Hsz. cbn [length] in Hl.
    replace ((c =? RuneError)%Z && (size =? 1)) with false.
    2:{ symmetry. apply andb_false_iff.
        destruct (Z.eqb_spec c RuneError) as [E|E]; [|left; reflexivity].
        right. apply Nat.eqb_neq. apply Hvalid. exact E. }
    rewrite IH; [apply firstn_skipn | | exact Hv'].
    rewrite length_skipn. cbn [length]. lia.
Qed.

Lemma replaceInvalid_fixed (s : gostring) :
  validUtf8 s = true -> replaceInvalid s = s.
Proof. apply replaceInvalidLoop_fixed. apply Nat.le_refl. Qed.

(** The result of the replacement is valid. *)
Lemma replaceInvalidLoop_valid (f : nat) :
  forall s : gostring, validUtf8 (replaceInvalidLoop f s) = true.
Proof.
  induction f as [|f IH]; intros s; [reflexivity|].
  destruct s as [|b rest]; [reflexivity|]. cbn [replaceInvalidLoop].
  destruct (DecodeRuneInString (b :: rest)) as [c size] eqn:Hd.
  apply validUtf8_join; [|apply IH].
  destruct ((c =? RuneError)%Z && (size =? 1)) eqn:Hinv; [reflexivity|].
  assert (Hvalid : c = RuneError -> size <> 1).
  { intros -> ->. discriminate. }
  destruct (N.lt_ge_cases (val b) 128) as [Hb|Hb].
  - rewrite (decode_ascii b rest Hb) in Hd. inversion Hd; subst.
    apply validUtf8_ascii. cbn [firstn forallb].
    apply N.ltb_lt in Hb. rewrite Hb. reflexivity.
  - apply (rune_valid b rest c size Hb Hd Hvalid).
Qed.

Lemma replaceInvalid_valid (s : gostring) :
  validUtf8 (replaceInvalid s) = true.
Proof. apply replaceInvalidLoop_valid. Qed.

(** *** Reading the text of any value *)

Lemma lexes_render_any (v : value) :
  intNumbers v = true -> forall d : nat, lexes (render d v) (toks v).
Proof.
  induction v as [ |b|l|s|vs IH|ms IH] using value_ind2; intros Hwf d.
  - apply lexesAny_lexes, lexesAny_word. cbn [In]. tauto.
  - destruct b; apply lexesAny_lexes, lexesAny_word; cbn [In]; tauto.
  - apply lexes_number. exact Hwf.
  - apply lexesAny_lexes, lexesAny_string.
  - destruct vs as [|v vs].
    + apply lexesAny_lexes.
      change (render d (Array [])) with (["["%char] ++ ["]"%char]).
      change (toks (Array [])) with ([TLBracket] ++ [TRBracket]).
      apply lexesAny_app; apply lexesAny_punct; cbn [In]; tauto.
    + cbn [intNumbers forallb] in Hwf. apply andb_true_iff in Hwf.
      destruct Hwf as [Hv Hvs].
      inversion IH as [|? ? IHv IHvs]; subst.
      cbn [render toks].
      match goal with
      | |- lexes (_ ++ _ ++ ?x) (_ :: ?y) =>
        change (lexes (("["%char :: newline (S d)) ++ x) ([TLBracket] ++ y))
      end.
      apply lexesAny_then; [apply lexesAny_lit; cbn [In]; tauto|].
      destruct (lexes_flat_map
                  (fun v => lit "," ++ newline (S d) ++ render (S d) v)
                  (fun v => TComma :: toks v)
                  (newline d ++ lit "]") [TRBracket] vs) as [L1 L2].
      * rewrite Forall_forall in IHvs. rewrite forallb_forall in Hvs.
        apply Forall_forall. intros a Ha.
        change (lit "," ++ newline (S d) ++ render (S d) a)
          with ((","%char :: newline (S d)) ++ render (S d) a).
        change (TComma :: toks a) with ([TComma] ++ toks a).
        apply lexesAny_then; [apply lexesAny_lit; cbn [In]; tauto|].
        apply IHvs; [exact Ha | apply Hvs; exact Ha].
      * reflexivity.
      * apply lexesAny_lexes, lexesAny_close. cbn [In]. tauto.
      * reflexivity.
      * apply lexes_app; [apply IHv; exact Hv | exact L1 | exact L2].
  - destruct ms as [|[k v] ms].
    + apply lexesAny_lexes.
      change (render d (Object [])) with (["{"%char] ++ ["}"%char]).
      change (toks (Object [])) with ([TLBrace] ++ [TRBrace]).
      apply lexesAny_app; apply lexesAny_punct; cbn [In]; tauto.
    + cbn [intNumbers forallb fst snd] in Hwf. apply andb_true_iff in Hwf.
      destruct Hwf as [Hv Hms].
      inversion IH as [|? ? IHv IHms]; subst. cbn [snd] in IHv.
      cbn [render toks].
      match goal with
      | |- lexes (_ ++ _ ++ _ ++ _ ++ ?x) (_ :: _ :: _ :: ?y) =>
        change (lexes (("{"%char :: newline (S d))
                         ++ quote k ++ lit ": " ++ x)
                      ([TLBrace] ++ [TString (raw k); TColon] ++ y))
      end.
      apply lexesAny_then; [apply lexesAny_lit; cbn [In]; tauto|].
      rewrite (app_assoc (quote k)).
      apply lexesAny_then; [apply lexesAny_key|].
      destruct (lexes_flat_map
                  (fun m => lit "," ++ newline (S d) ++ quote (fst m)
                                ++ lit ": " ++ render (S d) (snd m))
                  (fun m => TComma :: TString (raw (fst m)) :: TColon
                                   :: toks (snd m))
                  (newline d ++ lit "}") [TRBrace] ms) as [L1 L2].
      * rewrite Forall_forall in IHms. rewrite forallb_forall in Hms.
        apply Forall_forall. intros a Ha.
        change (lit "," ++ newline (S d) ++ quote (fst a) ++ lit ": "
                    ++ render (S d) (snd a))
          with ((","%char :: newline (S d)) ++ quote (fst a) ++ lit ": "
                                            ++ render (S d) (snd a)).
        change (TComma :: TString (raw (fst a)) :: TColon :: toks (snd a))
          with ([TComma] ++ [TString (raw (fst a)); TColon] ++ toks (snd a)).
        apply lexesAny_then; [apply lexesAny_lit; cbn [In]; tauto|].
        rewrite (app_assoc (quote (fst a))).
        apply lexesAny_then; [apply lexesAny_key|].
        apply IHms; [exact Ha | apply Hms; exact Ha].
      * reflexivity.
      * apply lexesAny_lexes, lexesAny_close. cbn [In]. tauto.
      * reflexivity.
      * apply lexes_app; [apply IHv; exact Hv | exact L1 | exact L2].
Qed.

Lemma parseElements_toks_any (vs : list value) :
  Forall parsesTo vs ->
  forall (v : value) (fuel depth : nat) (rest : list token),
    parsesTo v ->
    length (toks v ++ flat_map (fun v => TComma :: toks v) vs) + 1 < fuel ->
    depth + height v <= maxNestingDepth ->
    Forall (fun v => depth + height v <= maxNestingDepth) vs ->
    parseElements fuel depth
                  (toks v ++ flat_map (fun v => TComma :: toks v) vs
                         ++ TRBracket :: rest)
    = Some (map replaceValue (v :: vs), rest).
Proof.
  induction 1 as [|v' vs Hv' Hvs IH]; intros v fuel depth rest Hv Hf Hd Hds.
  - destruct fuel as [|fuel]; [lia|]. cbn [flat_map app] in *.
    rewrite app_nil_r in Hf.
    rewrite parseElements_step, (Hv fuel depth _ ltac:(lia) Hd).
    reflexivity.
  - destruct fuel as [|fuel]; [lia|].
    cbn [flat_map] in *. rewrite ?length_app in Hf. cbn [length] in Hf.
    rewrite ?length_app in Hf.
    pose proof (toks_length v) as L.
    inversion Hds as [|? ? Hd' Hds']; subst.
    rewrite parseElements_step, (Hv fuel depth _ ltac:(lia) Hd).
    rewrite <- app_assoc. cbn [app].
    rewrite (IH v' fuel depth rest Hv');
      [reflexivity | | exact Hd' | exact Hds'].
    rewrite length_app. lia.
Qed.

Lemma parseMembers_toks_any (ms : list (gostring * value)) :
  Forall (fun m => parsesTo (snd m)) ms ->
  forall (k : gostring) (v : value) (fuel depth : nat) (rest : list token),
    parsesTo v ->
    length (toks v ++ flat_map (fun m => TComma :: TString (raw (fst m))
                                               :: TColon :: toks (snd m)) ms)
    + 3 < fuel ->
    depth + height v <= maxNestingDepth ->
    Forall (fun m => depth + height (snd m) <= maxNestingDepth) ms ->
    parseMembers fuel depth
                 (TString (raw k) :: TColon :: toks v
                    ++ flat_map (fun m => TComma :: TString (raw (fst m))
                                                 :: TColon :: toks (snd m)) ms
                    ++ TRBrace :: rest)
    = Some (map (fun m => (replaceInvalid (fst m), replaceValue (snd m)))
                ((k, v) :: ms), rest).
Proof.
  induction 1 as [|[k' v'] ms Hv' Hms IH];
    intros k v fuel depth rest Hv Hf Hd Hds.
  - destruct fuel as [|fuel]; [lia|]. cbn [flat_map app] in *.
    rewrite app_nil_r in Hf.
    rewrite parseMembers_step, (Hv fuel depth _ ltac:(lia) Hd).
    rewrite unquote_raw. reflexivity.
  - destruct fuel as [|fuel]; [lia|].
    cbn [flat_map fst snd] in *.
    rewrite ?length_app in Hf. cbn [length] in Hf.
    rewrite ?length_app in Hf.
    pose proof (toks_length v) as L.
    inversion Hds as [|? ? Hd' Hds']; subst. cbn [snd] in Hd'.
    rewrite parseMembers_step, (Hv fuel depth _ ltac:(lia) Hd).
    rewrite unquote_raw.
    rewrite <- app_assoc. cbn [app].
    rewrite (IH k' v' fuel depth rest Hv');
      [reflexivity | | exact Hd' | exact Hds'].
    rewrite length_app. lia.
Qed.

(** The parser reads the tokens of a value as the value with its strings
    made valid. *)
Lemma parseValue_toks_any (v : value) : parsesTo v.
Proof.
  induction v as [ |b|l|s|vs IH|ms IH] using value_ind2.
  - intros [|fuel] depth rest Hf Hd; [lia | reflexivity].
  - intros [|fuel] depth rest Hf Hd; [lia | destruct b; reflexivity].
  - intros [|fuel] depth rest Hf Hd; [lia | reflexivity].
  - intros [|fuel] depth rest Hf Hd; [lia|].
    cbn [toks app parseValue]. rewrite unquote_raw. reflexivity.
  - intros [|fuel] depth rest Hf Hd; [lia|].
    destruct vs as [|v vs].
    + cbn [toks app]. cbn [height fold_right] in Hd.
      change (parseValue (S fuel) depth (TLBracket :: TRBracket :: rest))
        with (if maxNestingDepth <=? depth then None
              else Some (Array [], rest)).
      destruct (Nat.leb_spec maxNestingDepth depth); [lia | reflexivity].
    + inversion IH as [|? ? IHv IHvs]; subst.
      pose proof (height_elements (v :: vs) depth Hd) as Hh.
      inversion Hh as [|? ? Hhv Hhvs]; subst.
      cbn [toks] in *. cbn [length] in Hf. rewrite ?length_app in Hf.
      cbn [length] in Hf. rewrite ?length_app in Hf.
      destruct (toks_head v) as [t [r [E Ht]]].
      cbn [app]. rewrite <- !app_assoc. cbn [app].
      rewrite E at 1. cbn [app].
      rewrite parseValue_array by exact Ht.
      cbn [height] in Hd.
      destruct (Nat.leb_spec maxNestingDepth depth); [lia|].
      change (t :: r ++ ?x) with ((t :: r) ++ x). rewrite <- E.
      rewrite (parseElements_toks_any vs);
        [reflexivity | exact IHvs | exact IHv | | exact Hhv | exact Hhvs].
      rewrite length_app. lia.
  - intros [|fuel] depth rest Hf Hd; [lia|].
    destruct ms as [|[k v] ms].
    + cbn [toks app]. cbn [height fold_right] in Hd.
      change (parseValue (S fuel) depth (TLBrace :: TRBrace :: rest))
        with (if maxNestingDepth <=? depth then None
              else Some (Object [], rest)).
      destruct (Nat.leb_spec maxNestingDepth depth); [lia | reflexivity].
    + inversion IH as [|? ? IHv IHms]; subst. cbn [snd] in IHv.
      pose proof (height_members ((k, v) :: ms) depth Hd) as Hh.
      inversion Hh as [|? ? Hhv Hhms]; subst. cbn [snd] in Hhv.
      cbn [toks] in *. cbn [length] in Hf. rewrite ?length_app in Hf.
      cbn [length] in Hf. rewrite ?length_app in Hf.
      cbn [app]. rewrite <- !app_assoc. cbn [app].
      rewrite parseValue_object.
      cbn [height] in Hd.
      destruct (Nat.leb_spec maxNestingDepth depth); [lia|].
      rewrite (parseMembers_toks_any ms);
        [reflexivity | exact IHms | exact IHv | | exact Hhv | exact Hhms].
      rewrite length_app. lia.
Qed.

(** [checkValid] and the decoder read the text of any value whose numbers
    are integers, with its strings made valid. *)
Lemma parse_render_any (v : value) :
  intNumbers v = true -> height v <= maxNestingDepth ->
  parse (render 0 v) = Some (replaceValue v).
Proof.
  intros Hn Hh. unfold parse.
  pose proof (lexes_render_any v Hn 0 [] [] 0 (length (render 0 v))
                               eq_refl eq_refl ltac:(lia)) as Hlex.
  rewrite !app_nil_r in Hlex. rewrite Hlex.
  pose proof (parseValue_toks_any v (S (length (toks v))) 0 []
                                  ltac:(lia) Hh) as Hp.
  rewrite app_nil_r in Hp. rewrite Hp. reflexivity.
Qed.

Lemma replaceValue_encodeManifest (m : Manifest) :
  replaceValue (encodeManifest m)
  = encodeManifest (replaceInvalidManifest m).
Proof.
  destruct m as [id ver mp pf fl]. unfold encodeManifest.
  cbn [replaceValue map fst snd replaceInvalidManifest
       ArtifactID Version MountPath Prefetch Files].
  change (replaceInvalid (lit "artifact_id")) with (lit "artifact_id").
  change (replaceInvalid (lit "version")) with (lit "version").
  change (replaceInvalid (lit "mount_path")) with (lit "mount_path").
  change (replaceInvalid (lit "prefetch")) with (lit "prefetch").
  change (replaceInvalid (lit "files")) with (lit "files").
  assert (Hp : replaceValue (encodeSlice String pf)
               = encodeSlice String (option_map (map replaceInvalid) pf)).
  { destruct pf as [l|]; [|reflexivity].
    cbn [encodeSlice replaceValue option_map]. rewrite !map_map.
    reflexivity. }
  assert (Hf : replaceValue (encodeSlice encodeFile fl)
               = encodeSlice encodeFile
                             (option_map (map replaceInvalidFile) fl)).
  { destruct fl as [l|]; [|reflexivity].
    cbn [encodeSlice replaceValue option_map]. rewrite !map_map.
    reflexivity. }
  rewrite Hp, Hf. reflexivity.
Qed.

Lemma elems_replaceInvalid (m : Manifest) :
  elems (Files (replaceInvalidManifest m))
  = map replaceInvalidFile (elems (Files m)).
Proof. destruct m as [id ver mp pf [l|]]; reflexivity. Qed.

(** The manifest with its strings made valid is valid, when its sizes
    are. *)
Lemma replaceInvalidManifest_valid (m : Manifest) :
  forallb (fun f => isInt64 (Size f)) (elems (Files m)) = true ->
  validManifest (replaceInvalidManifest m) = true.
Proof.
  intros Hs. destruct m as [id ver mp pf fl].
  unfold validManifest, replaceInvalidManifest.
  cbn [ArtifactID Version MountPath Prefetch Files] in *.
  rewrite !replaceInvalid_valid. cbn [andb].
  apply andb_true_iff. split.
  - destruct pf as [l|]; [|reflexivity]. cbn [option_map elems].
    rewrite forallb_map_comp. apply forallb_forall. intros p _.
    apply replaceInvalid_valid.
  - destruct fl as [l|]; [|reflexivity]. cbn [option_map elems] in *.
    rewrite forallb_map_comp. apply forallb_forall. intros f Hf.
    rewrite forallb_forall in Hs. specialize (Hs f Hf).
    unfold validFile, replaceInvalidFile.
    cbn [Path URL Size SHA256 Compression].
    rewrite !replaceInvalid_valid, Hs. reflexivity.
Qed.

(** A valid manifest has nothing to replace. *)
Lemma replaceInvalidManifest_fixed (m : Manifest) :
  validManifest m = true -> replaceInvalidManifest m = m.
Proof.
  intros Hv. destruct m as [id ver mp pf fl].
  unfold validManifest in Hv.
  cbn [ArtifactID Version MountPath Prefetch Files] in Hv.
  repeat (apply andb_true_iff in Hv; destruct Hv as [Hv ?]).
  unfold replaceInvalidManifest.
  cbn [ArtifactID Version MountPath Prefetch Files].
  rewrite !replaceInvalid_fixed by assumption.
  f_equal.
  - destruct pf as [l|]; [|reflexivity]. cbn [option_map elems] in *.
    f_equal. rewrite <- (map_id l) at 2. apply map_ext_in. intros p Hp.
    apply replaceInvalid_fixed.
    match goal with
    | H : forallb validUtf8 _ = true |- _ =>
      rewrite forallb_forall in H; apply H; exact Hp
    end.
  - destruct fl as [l|]; [|reflexivity]. cbn [option_map elems] in *.
    f_equal. rewrite <- (map_id l) at 2. apply map_ext_in. intros f Hf.
    match goal with
    | H : forallb validFile _ = true |- _ =>
      rewrite forallb_forall in H; specialize (H f Hf); rename H into Hvf
    end.
    unfold validFile in Hvf.
    repeat (apply andb_true_iff in Hvf; destruct Hvf as [Hvf ?]).
    destruct f as [pa u sz sh co]. unfold replaceInvalidFile.
    cbn [Path URL Size SHA256 Compression] in *.
    rewrite !replaceInvalid_fixed by assumption. reflexivity.
Qed.

(** [json.Unmarshal] of what [Marshal] wrote for any manifest. *)
Lemma Unmarshal_Marshal_any (m m0 : Manifest) :
  forallb (fun f => isInt64 (Size f)) (elems (Files m)) = true ->
  Unmarshal (fst (Marshal m)) m0 = (replaceInvalidManifest m, None).
Proof.
  intros Hs. unfold Unmarshal, Marshal. cbn [fst].
  rewrite (parse_render_any (encodeManifest m)
                            (intNumbers_encodeManifest m)
                            (Nat.le_trans _ _ _ (height_encodeManifest m)
                                          maxNestingDepth_3)).
  rewrite replaceValue_encodeManifest.
  assert (Hs' : forallb (fun f => isInt64 (Size f))
                        (elems (Files (replaceInvalidManifest m))) = true).
  { rewrite elems_replaceInvalid, forallb_map_comp. exact Hs. }
  cbv zeta.
  destruct (decode_encodeManifest
              (replaceInvalidManifest m)
              (mkDecoding (ArtifactID m0) (Version m0) (MountPath m0)
                          (Prefetch m0, []) (Files m0, []) false) Hs')
    as [b1 [b2 E]].
  unfold encodeManifest in *. rewrite E.
  destruct (replaceInvalidManifest m); reflexivity.
Qed.

End MoreFacts.

(** * Further properties of the generator and of the manifest file *)

Import GoString Utf8 Unicode Utf8Facts Strings Descr Filepath Errors OS Walk.
Import Manifest Aux StringsFacts NormalizeFacts GenerateFacts Json Utf8Enc.
Import JsonFacts.

(** X1: [Generate] returns a manifest exactly when its inputs pass the
    validation and nothing fails below the directory; the manifest has the
    identifier and the version given, the mount path [/mnt/mlmodel], the
    normalized prefetch list, whatever the directory holds, and the
    records of the retained files in the order of the walk; no error comes
    with it. *)
Theorem Generate_succeeds_iff
        (fs : FileSystem) (os : GOOS) (dir id version urlPrefix : gostring)
        (pf : goslice gostring) :
  ((exists m, Generate fs os dir id version urlPrefix pf = (Some m, None))
   <-> validInputs fs dir id version urlPrefix = true
       /\ walkFails (fs dir) = false)
  /\ (forall (m : Manifest) (err : option error),
         Generate fs os dir id version urlPrefix pf = (Some m, err) ->
         err = None
         /\ ArtifactID m = id /\ Version m = version
         /\ MountPath m = lit "/mnt/mlmodel"
         /\ Prefetch m = normalizePrefetchPaths os pf
         /\ Files m
            = Some (map (fileRecord os (TrimSuffix urlPrefix (lit "/")))
                        (retained [] (base (fs dir)) (root (fs dir))))).
Proof.
  split.
  - split.
    + intros [m HG]. apply Generate_success in HG. tauto.
    + intros [Hv Hw].
      pose proof (Generate_valid fs os dir id version urlPrefix pf Hv) as G.
      rewrite Hw in G. eexists. exact G.
  - intros m err HG. apply Generate_success in HG.
    destruct HG as [_ [_ [-> ->]]]. repeat split; reflexivity.
Qed.

Lemma Generate_succeeds_iff_witness :
  exists m,
    Generate Examples.fsOne Unix (lit "model") (lit "id") (lit "v1")
             (lit "https://example.com/") (Some [lit " a.bin "])
    = (Some m, None)
    /\ MountPath m = lit "/mnt/mlmodel"
    /\ Prefetch m = Some [lit "a.bin"].
Proof.
  destruct (proj2 (proj1 (Generate_succeeds_iff
                            Examples.fsOne Unix (lit "model") (lit "id")
                            (lit "v1") (lit "https://example.com/")
                            (Some [lit " a.bin "])))
                  (conj eq_refl eq_refl)) as [m HG].
  exists m. split; [exact HG|].
  destruct (proj2 (Generate_succeeds_iff
                     Examples.fsOne Unix (lit "model") (lit "id")
                     (lit "v1") (lit "https://example.com/")
                     (Some [lit " a.bin "])) m None HG)
    as [_ [_ [_ [Hm [Hp _]]]]].
  split; [exact Hm|]. rewrite Hp. vm_compute. reflexivity.
Defined.

(** X2: with inputs that pass the validation, [Generate] returns the first
    failure that the walk meets, in its order, wrapped as a failure to
    walk the directory, and the manifest when it meets none.  The failure
    is that of an [Lstat] or of reading a directory, or that of opening or
    reading a file that is neither hidden nor a symbolic link, which is
    wrapped once more with the path recorded for the file. *)
Theorem Generate_first_failure
        (fs : FileSystem) (os : GOOS) (dir id version urlPrefix : gostring)
        (pf : goslice gostring) :
  validInputs fs dir id version urlPrefix = true ->
  Generate fs os dir id version urlPrefix pf
  = match firstError os [] (base (fs dir)) (root (fs dir)) with
    | Some e =>
      (None, Some (Errorf "failed to walk directory: %w" None (Some e)))
    | None => (Some (generated fs os dir id version urlPrefix pf), None)
    end
  /\ (forall e : error,
         firstError os [] (base (fs dir)) (root (fs dir)) = Some e ->
         (exists code,
             e = Sys code
             /\ kindOf (Errorf "failed to walk directory: %w" None (Some e))
                = FilesystemError)
         \/ (exists relPath code,
                e = Errorf "failed to hash file %s: %w" (Some relPath)
                           (Some (Sys code))
                /\ kindOf (Errorf "failed to walk directory: %w" None
                                  (Some e))
                   = HashError)).
Proof.
  intros Hv. split; [apply MoreFacts.Generate_firstError; exact Hv|].
  intros e He.
  destruct (MoreFacts.firstError_shape os _ _ _ _ He)
    as [[code ->] | [relPath [code ->]]].
  - left. exists code. split; reflexivity.
  - right. exists relPath, code. split; reflexivity.
Qed.

Lemma Generate_first_failure_witness :
  Generate Examples.fsDenied Unix (lit "model") (lit "id") (lit "v1")
           (lit "https://example.com") None
  = (None,
     Some (Errorf "failed to walk directory: %w" None
                  (Some (Errorf "failed to hash file %s: %w"
                                (Some (lit "a/b.bin"))
                                (Some (Sys EACCES)))))).
Proof.
  exact (proj1 (Generate_first_failure
                  Examples.fsDenied Unix (lit "model") (lit "id") (lit "v1")
                  (lit "https://example.com") None eq_refl)).
Defined.

(** X3: every record of a generated manifest comes from a retained entry,
    a file that was opened and read to its end: its size is the one
    [Lstat] reported, its digest the SHA-256 of the bytes read, 64
    lowercase hexadecimal digits, its compression [none]; its URL is not
    empty. *)
Theorem Generate_file_records
        (fs : FileSystem) (os : GOOS) (dir id version urlPrefix : gostring)
        (pf : goslice gostring) (m : Manifest) (f : File) :
  Generate fs os dir id version urlPrefix pf = (Some m, None) ->
  In f (elems (Files m)) ->
  exists (p : pathref) (info : FileInfo) (s : stream),
    In (p, info) (retained [] (base (fs dir)) (root (fs dir)))
    /\ target p = OS.File false (Size f) (inr s) /\ final s = None
    /\ OS.Size info = Size f
    /\ Path f = ToSlash os (fst (Rel os p))
    /\ SHA256 f = Hex.EncodeToString (sha256 (concat (chunks s)))
    /\ length (SHA256 f) = 64
    /\ forallb lowerHex (SHA256 f) = true
    /\ Compression f = lit "none"
    /\ URL f <> [].
Proof.
  intros HG Hin.
  destruct (MoreFacts.generated_In _ _ _ _ _ _ _ _ _ _ HG Hin)
    as [Hw [_ [[p info] [He ->]]]].
  destruct (MoreFacts.retained_readable _ _ _ _ _ Hw He)
    as [size [s [Ht [Hs [Hsz _]]]]].
  assert (Hh : hashFile p
               = (Hex.EncodeToString (sha256 (concat (chunks s))), None)).
  { apply MoreFacts.hashFile_readable; [|exact Hs].
    unfold Open. rewrite Ht. reflexivity. }
  exists p, info, s. unfold fileRecord.
  cbn [fst snd Path URL Size SHA256 Compression]. rewrite Hh, Hsz. cbn [fst].
  split; [exact He|]. split; [exact Ht|]. split; [exact Hs|].
  split; [reflexivity|]. split; [reflexivity|]. split; [reflexivity|].
  split; [rewrite ShaFacts.EncodeToString_length, ShaFacts.sha256_length;
          reflexivity|].
  split; [apply ShaFacts.EncodeToString_lowerHex|].
  split; [reflexivity|].
  intros E. apply (f_equal (@length byte)) in E.
  rewrite !length_app in E. cbn [lit list_ascii_of_string length] in E. lia.
Qed.

Lemma Generate_file_records_witness :
  let f := mkFile (lit "test.txt") (lit "https://example.com/test.txt") 4
                  (lit "9f86d081884c7d659a2feaa0c55ad015a3bf4f1b2b0b822cd15d6c15b0f00a08")
                  (lit "none") in
  exists (p : pathref) (info : FileInfo) (s : stream),
    In (p, info)
       (retained [] (base (Examples.fsOne (lit "model")))
                 (root (Examples.fsOne (lit "model"))))
    /\ target p = OS.File false (Size f) (inr s) /\ final s = None
    /\ OS.Size info = Size f
    /\ Path f = ToSlash Unix (fst (Rel Unix p))
    /\ SHA256 f = Hex.EncodeToString (sha256 (concat (chunks s)))
    /\ length (SHA256 f) = 64
    /\ forallb lowerHex (SHA256 f) = true
    /\ Compression f = lit "none"
    /\ URL f <> [].
Proof.
  intros f.
  apply (Generate_file_records
           Examples.fsOne Unix (lit "model") (lit "id") (lit "v1")
           (lit "https://example.com/") None
           (generated Examples.fsOne Unix (lit "model") (lit "id")
                      (lit "v1") (lit "https://example.com/") None) f).
  - vm_compute. reflexivity.
  - left. vm_compute. reflexivity.
Defined.

(** X4: when the names of the tree are valid and the root is no plain file,
    the path of every record is the names that lead from the root to the
    file, joined by slashes: it is not empty, its segments are these
    names, none of which is empty.  When moreover the names in every
    directory are distinct, no two records have the same path. *)
Theorem Generate_paths
        (fs : FileSystem) (os : GOOS) (dir id version urlPrefix : gostring)
        (pf : goslice gostring) (m : Manifest) :
  validTree os (root (fs dir)) = true ->
  plainFile (root (fs dir)) = false ->
  Generate fs os dir id version urlPrefix pf = (Some m, None) ->
  (forall f : File,
      In f (elems (Files m)) ->
      exists (p : pathref) (info : FileInfo),
        In (p, info) (retained [] (base (fs dir)) (root (fs dir)))
        /\ OS.below p <> []
        /\ Forall (fun n => validName os n = true) (OS.below p)
        /\ Path f = joinSlash (OS.below p)
        /\ segments (Path f) = OS.below p)
  /\ (distinctNames (root (fs dir)) = true ->
      NoDup (map Path (elems (Files m)))).
Proof.
  intros Hv Hpl HG. split.
  - intros f Hin.
    destruct (MoreFacts.generated_In _ _ _ _ _ _ _ _ _ _ HG Hin)
      as [_ [_ [[p info] [He ->]]]].
    destruct (MoreFacts.retained_relOf os _ _ p info Hv Hpl He)
      as [Hne [Hall Hrel]].
    exists p, info. unfold fileRecord. cbn [Path fst]. fold (relOf os p).
    rewrite Hrel. repeat split; try assumption.
    apply (MoreFacts.segments_joinSlash os); assumption.
  - intros Hd. apply Generate_success in HG.
    destruct HG as [_ [_ [_ ->]]]. unfold generated. cbn [Files elems].
    rewrite map_map.
    apply (MoreFacts.NoDup_map_by (fun e => OS.below (fst e))).
    + apply (MoreFacts.retained_NoDup os). exact Hd.
    + intros [p info] [p' info'] Hx Hy E.
      unfold fileRecord in E. cbn [Path fst] in E |- *.
      fold (relOf os p) in E. fold (relOf os p') in E.
      destruct (MoreFacts.retained_relOf os _ _ p info Hv Hpl Hx)
        as [Hne [Hall Hrel]].
      destruct (MoreFacts.retained_relOf os _ _ p' info' Hv Hpl Hy)
        as [Hne' [Hall' Hrel']].
      rewrite Hrel, Hrel' in E.
      apply (MoreFacts.joinSlash_inj os); assumption.
Qed.

Lemma Generate_paths_witness :
  NoDup [lit "root.txt"; lit "subdir/nested.txt"].
Proof.
  assert (HG : Generate Examples.fsNested Unix (lit "model") (lit "id")
                        (lit "v1") (lit "https://example.com") None
               = (Some (generated Examples.fsNested Unix (lit "model")
                                  (lit "id") (lit "v1")
                                  (lit "https://example.com") None), None))
    by (vm_compute; reflexivity).
  apply (proj2 (Generate_paths
                  Examples.fsNested Unix (lit "model") (lit "id") (lit "v1")
                  (lit "https://example.com") None _ eq_refl eq_refl HG)
               eq_refl).
Defined.

(** X5: every URL of a generated manifest starts with the URL prefix as the
    caller gave it, and so with [http://] or [https://]; this holds also
    for a prefix that is a bare scheme, whose slash is stripped and put
    back. *)
Theorem Generate_URL_prefix
        (fs : FileSystem) (os : GOOS) (dir id version urlPrefix : gostring)
        (pf : goslice gostring) (m : Manifest) (f : File) :
  Generate fs os dir id version urlPrefix pf = (Some m, None) ->
  In f (elems (Files m)) ->
  HasPrefix (URL f) urlPrefix = true
  /\ HasPrefix (URL f) (lit "http://") || HasPrefix (URL f) (lit "https://")
     = true.
Proof.
  intros HG Hin.
  destruct (MoreFacts.generated_In _ _ _ _ _ _ _ _ _ _ HG Hin)
    as [_ [Hv [e [_ ->]]]].
  unfold fileRecord. cbn [URL].
  pose proof (MoreFacts.HasPrefix_trimmed
                urlPrefix (ToSlash os (fst (Rel os (fst e))))) as Hp.
  split; [exact Hp|].
  unfold validInputs in Hv. apply andb_true_iff in Hv.
  destruct Hv as [_ Hv]. apply orb_true_iff in Hv. apply orb_true_iff.
  destruct Hv as [Hv|Hv]; [left|right];
    apply (MoreFacts.HasPrefix_trans _ urlPrefix); assumption.
Qed.

Lemma Generate_URL_prefix_witness :
  HasPrefix (lit "https://test.txt") (lit "https://") = true
  /\ HasPrefix (lit "https://test.txt") (lit "http://")
     || HasPrefix (lit "https://test.txt") (lit "https://") = true.
Proof.
  apply (Generate_URL_prefix
           Examples.fsOne Unix (lit "model") (lit "id") (lit "v1")
           (lit "https://") None
           (generated Examples.fsOne Unix (lit "model") (lit "id")
                      (lit "v1") (lit "https://") None)
           (mkFile (lit "test.txt") (lit "https://test.txt") 4
                   (lit "9f86d081884c7d659a2feaa0c55ad015a3bf4f1b2b0b822cd15d6c15b0f00a08")
                   (lit "none"))).
  - vm_compute. reflexivity.
  - left. vm_compute. reflexivity.
Defined.

(** X6: for a tree whose names are valid on Windows, so that they hold
    neither slash nor backslash, [Generate] built for Windows and
    [Generate] built for Unix return the same records: the paths are
    joined by slashes on both. *)
Theorem Generate_files_portable
        (fs : FileSystem) (dir id version urlPrefix : gostring)
        (pf : goslice gostring) (m : Manifest) :
  validTree Windows (root (fs dir)) = true ->
  plainFile (root (fs dir)) = false ->
  Generate fs Windows dir id version urlPrefix pf = (Some m, None) ->
  exists m',
    Generate fs Unix dir id version urlPrefix pf = (Some m', None)
    /\ Files m' = Files m
    /\ ArtifactID m' = ArtifactID m /\ Version m' = Version m
    /\ MountPath m' = MountPath m.
Proof.
  intros Hv Hpl HG. apply Generate_success in HG.
  destruct HG as [Hin [Hw [_ ->]]].
  pose proof (Generate_valid fs Unix dir id version urlPrefix pf Hin) as G.
  rewrite Hw in G. eexists. split; [exact G|].
  unfold generated. cbn [Files ArtifactID Version MountPath].
  repeat split. f_equal. apply map_ext_in. intros [p info] He.
  unfold fileRecord. cbn [fst snd].
  fold (relOf Unix p). fold (relOf Windows p).
  destruct (MoreFacts.retained_relOf Windows _ _ p info Hv Hpl He)
    as [_ [_ ->]].
  destruct (MoreFacts.retained_relOf
              Unix _ _ p info (MoreFacts.validTree_Unix _ Hv) Hpl He)
    as [_ [_ ->]].
  reflexivity.
Qed.

Lemma Generate_files_portable_witness :
  exists m',
    Generate Examples.fsNested Unix (lit "model") (lit "id") (lit "v1")
             (lit "https://example.com") None = (Some m', None)
    /\ Files m'
       = Files (generated Examples.fsNested Windows (lit "model")
                          (lit "id") (lit "v1") (lit "https://example.com")
                          None)
    /\ ArtifactID m' = lit "id" /\ Version m' = lit "v1"
    /\ MountPath m' = lit "/mnt/mlmodel".
Proof.
  apply (Generate_files_portable
           Examples.fsNested (lit "model") (lit "id") (lit "v1")
           (lit "https://example.com") None
           (generated Examples.fsNested Windows (lit "model") (lit "id")
                      (lit "v1") (lit "https://example.com") None)).
  - reflexivity.
  - reflexivity.
  - vm_compute. reflexivity.
Defined.

(** X7: every element of the list that [normalizePrefetchPaths] returns is
    not empty, has no white space at either end and no separator but the
    slash, and is normalized to itself; it comes from an element of the
    input, and the elements of the input that are left out are exactly
    those that are white space only. *)
Theorem normalizePrefetchPaths_elements
        (os : GOOS) (paths : goslice gostring) :
  let result := elems (normalizePrefetchPaths os paths) in
  (forall p : gostring,
      In p result ->
      p <> [] /\ TrimSpace p = p /\ ToSlash os p = p
      /\ normalizePrefetchPaths os (Some [p]) = Some [p]
      /\ (os = Windows -> existsb (Ascii.eqb "092"%char) p = false)
      /\ exists q, In q (elems paths) /\ p = ToSlash os (TrimSpace q))
  /\ (forall q : gostring,
         In q (elems paths) ->
         In (ToSlash os (TrimSpace q)) result <-> ~ Spaces q)
  /\ length result <= length (elems paths).
Proof.
  cbv zeta. rewrite normalizePrefetchPaths_eq. cbn [elems].
  split; [|split].
  - intros p Hp. apply MoreFacts.normalized_In in Hp.
    destruct Hp as [q [Hin [Hne ->]]].
    split.
    { intros E. apply Hne.
      apply (f_equal isEmpty) in E. rewrite ToSlash_isEmpty in E.
      destruct (TrimSpace q); [reflexivity | discriminate]. }
    split; [apply TrimSpace_ToSlash|].
    split; [apply ToSlash_idempotent|].
    split.
    { rewrite normalizePrefetchPaths_eq. cbn [elems].
      rewrite (MoreFacts.normalized_fixed os q Hne). reflexivity. }
    split; [intros ->; apply MoreFacts.ToSlash_Windows|].
    exists q. split; [exact Hin | reflexivity].
  - intros q Hin. rewrite <- MoreFacts.TrimSpace_empty_iff. split.
    + intros Hp Ht. apply MoreFacts.normalized_In in Hp.
      destruct Hp as [q' [_ [Hne E]]].
      rewrite Ht in E. apply Hne.
      apply (f_equal isEmpty) in E. rewrite !ToSlash_isEmpty in E.
      destruct (TrimSpace q'); [reflexivity | discriminate].
    + intros Hne. apply MoreFacts.normalized_In. exists q. auto.
  - apply MoreFacts.normalized_length.
Qed.

Lemma normalizePrefetchPaths_elements_witness :
  TrimSpace (lit "a/b") = lit "a/b"
  /\ existsb (Ascii.eqb "092"%char) (lit "a/b") = false.
Proof.
  destruct (proj1 (normalizePrefetchPaths_elements
                     Windows (Some [lit "   "; lit " a\b "]))
                  (lit "a/b") (or_introl eq_refl))
    as [_ [Ht [_ [_ [Hb _]]]]].
  split; [exact Ht | exact (Hb eq_refl)].
Defined.

(** X8: whatever the strings of the manifest, [Marshal] returns no error,
    and the text it writes is valid UTF-8, has no byte below [0x20] but
    the line feeds of its layout, and none of the bytes [<], [>] and [&]:
    the characters U+0000 to U+001F and these three are written as
    escapes. *)
Theorem Marshal_text (m : Manifest) :
  validUtf8 (fst (Marshal m)) = true
  /\ forallb textByte (fst (Marshal m)) = true
  /\ snd (Marshal m) = None.
Proof.
  unfold Marshal. cbn [fst snd].
  split; [apply MoreFacts.render_valid, MoreFacts.intNumbers_encodeManifest|].
  split; [apply MoreFacts.render_text, MoreFacts.intNumbers_encodeManifest|].
  reflexivity.
Qed.

(** The characters from U+007F on are not escaped: the byte [0x7F] is
    written as it is. *)
Remark Marshal_keeps_DEL :
  existsb (Ascii.eqb (ascii_of_N 127))
          (fst (Marshal (mkManifest [ascii_of_N 127] [] [] None None)))
  = true.
Proof. vm_compute. reflexivity. Qed.

(** X9: [Marshal] writes different texts for different valid manifests. *)
Theorem Marshal_injective (m1 m2 : Manifest) :
  validManifest m1 = true -> validManifest m2 = true ->
  m1 <> m2 -> fst (Marshal m1) <> fst (Marshal m2).
Proof.
  intros H1 H2 Hne E. apply Hne.
  pose proof (Unmarshal_Marshal m1 zeroManifest H1) as U1.
  pose proof (Unmarshal_Marshal m2 zeroManifest H2) as U2.
  rewrite E, U2 in U1. inversion U1. reflexivity.
Qed.

Lemma Marshal_injective_witness :
  fst (Marshal Examples.manifestOne) <> fst (Marshal zeroManifest).
Proof.
  apply (Marshal_injective Examples.manifestOne zeroManifest).
  - vm_compute. reflexivity.
  - reflexivity.
  - discriminate.
Defined.

(** X10: [Marshal] followed by [Load] never fails, whatever bytes the
    strings of the manifest hold: for every manifest whose sizes are
    [int64] values, [json.Unmarshal] and [Load] of the bytes that
    [Marshal] returns give the manifest in which every byte that is not
    part of a valid UTF-8 sequence is replaced by the three bytes of
    U+FFFD, nil and empty sequences told apart.  That manifest is valid;
    it is the manifest itself when the manifest is valid; and a second
    round trip changes nothing more. *)
Theorem Marshal_Load_replaces_invalid
        (readFile : gostring -> errno + gostring) (path : gostring)
        (m : Manifest) :
  forallb (fun f => isInt64 (Size f)) (elems (Files m)) = true ->
  readFile path = inr (fst (Marshal m)) ->
  Load readFile path = (Some (replaceInvalidManifest m), None)
  /\ (forall m0 : Manifest,
         Unmarshal (fst (Marshal m)) m0 = (replaceInvalidManifest m, None))
  /\ validManifest (replaceInvalidManifest m) = true
  /\ (validManifest m = true -> replaceInvalidManifest m = m)
  /\ (forall m0 : Manifest,
         Unmarshal (fst (Marshal (replaceInvalidManifest m))) m0
         = (replaceInvalidManifest m, None)).
Proof.
  intros Hs Hread.
  pose proof (MoreFacts.replaceInvalidManifest_valid m Hs) as Hv.
  split.
  { unfold Load.
    rewrite Hread, (MoreFacts.Unmarshal_Marshal_any m zeroManifest Hs).
    reflexivity. }
  split; [intros m0; apply MoreFacts.Unmarshal_Marshal_any; exact Hs|].
  split; [exact Hv|].
  split; [apply MoreFacts.replaceInvalidManifest_fixed|].
  intros m0. apply Unmarshal_Marshal. exact Hv.
Qed.

Lemma Marshal_Load_replaces_invalid_witness :
  validManifest Examples.manifestBadText = false
  /\ Load (Examples.fileWith (fst (Marshal Examples.manifestBadText)))
          (lit "manifest.json")
     = (Some Examples.manifestReplaced, None).
Proof.
  split; [vm_compute; reflexivity|].
  exact (proj1 (Marshal_Load_replaces_invalid
                  (Examples.fileWith (fst (Marshal Examples.manifestBadText)))
                  (lit "manifest.json") Examples.manifestBadText
                  eq_refl eq_refl)).
Defined.

(** X11: a manifest that [Generate] returns for an identifier, a version, a
    URL prefix and prefetch paths that are valid UTF-8, below a directory
    whose names are valid UTF-8, is a valid manifest; written by [Marshal]
    and read by [Load], it comes back as it was. *)
Theorem Generate_Marshal_Load
        (fs : FileSystem) (os : GOOS) (dir id version urlPrefix : gostring)
        (pf : goslice gostring)
        (readFile : gostring -> errno + gostring) (path : gostring)
        (m : Manifest) :
  validUtf8 id = true -> validUtf8 version = true ->
  validUtf8 urlPrefix = true ->
  forallb validUtf8 (elems pf) = true ->
  textTree (root (fs dir)) = true ->
  Generate fs os dir id version urlPrefix pf = (Some m, None) ->
  readFile path = inr (fst (Marshal m)) ->
  validManifest m = true /\ Load readFile path = (Some m, None).
Proof.
  intros Hid Hver Hu Hpf Ht HG Hread.
  apply Generate_success in HG. destruct HG as [_ [Hw [_ ->]]].
  pose proof (MoreFacts.generated_valid fs os dir id version urlPrefix pf
                                        Hid Hver Hu Hpf Ht Hw) as Hv.
  split; [exact Hv|].
  unfold Load. rewrite Hread, (Unmarshal_Marshal _ zeroManifest Hv).
  reflexivity.
Qed.

Lemma Generate_Marshal_Load_witness :
  let m := generated Examples.fsNested Unix (lit "model") (lit "id")
                     (lit "v1") (lit "https://example.com")
                     (Some [lit " root.txt "]) in
  validManifest m = true
  /\ Load (Examples.fileWith (fst (Marshal m))) (lit "manifest.json")
     = (Some m, None).
Proof.
  intros m.
  apply (Generate_Marshal_Load
           Examples.fsNested Unix (lit "model") (lit "id") (lit "v1")
           (lit "https://example.com") (Some [lit " root.txt "])
           (Examples.fileWith (fst (Marshal m))) (lit "manifest.json") m).
  - reflexivity.
  - reflexivity.
  - reflexivity.
  - reflexivity.
  - reflexivity.
  - vm_compute. reflexivity.
  - reflexivity.
Defined.

